(** * GPUTextureCache: a shallow embedding of the cache/invalidation engine

    Source: [src/core/gpu_hw_texture_cache.cpp].

    The development follows the translation unit top-down: integer and
    rectangle helpers, the data model (sources, VRAM writes, pages, the hash
    cache), the write tracker (merge, split, remove), source lookup and
    creation, drawn-rectangle tracking, compaction, and finally the
    replacement-name formatter/parser and the palette matcher.

    Pointers to heap objects ([Source*], [VRAMWrite*]) are keys of finite
    maps; an intrusive list is the list of the pointers linked into it, in
    list order.  Logging, GPU work and file output have no influence on the
    bookkeeping and are left out. *)

From Stdlib Require Import ZArith QArith Bool List Lia Ascii String.
From stdpp Require Import base option list gmap.

Open Scope Z_scope.

(** ** Fixed-width integers *)

Definition u8 (v : Z) : Z := v mod 2 ^ 8.
Definition u16 (v : Z) : Z := v mod 2 ^ 16.
Definition u32 (v : Z) : Z := v mod 2 ^ 32.
Definition u64 (v : Z) : Z := v mod 2 ^ 64.
Definition s32 (v : Z) : Z := (v + 2 ^ 31) mod 2 ^ 32 - 2 ^ 31.

Definition S32_MAX : Z := 2 ^ 31 - 1.
Definition S32_MIN : Z := - 2 ^ 31.

(** ** VRAM geometry *)

(** Modelled from the spec: the geometry constants and page helpers of
    [gpu_types.h], which is not among the sources ("partitions the VRAM
    surface into fixed-size pages").  VRAM is 1024x512 halfwords, cut into
    16x2 pages of 64x256 halfwords. *)
Definition VRAM_WIDTH : Z := 1024.
Definition VRAM_HEIGHT : Z := 512.
Definition VRAM_PAGE_WIDTH : Z := 64.
Definition VRAM_PAGE_HEIGHT : Z := 256.
Definition VRAM_PAGES_WIDE : Z := 16.
Definition NUM_VRAM_PAGES : nat := 32.
Definition VRAM_PAGE_X_MASK : Z := 15.
Definition VRAM_PAGE_Y_MASK : Z := 16.
Definition TEXTURE_PAGE_WIDTH : Z := 256.
Definition TEXTURE_PAGE_HEIGHT : Z := 256.

Definition VRAMPageIndex (px py : Z) : Z := py * VRAM_PAGES_WIDE + px.
Definition VRAMPageStartX (pn : Z) : Z := (pn mod VRAM_PAGES_WIDE) * VRAM_PAGE_WIDTH.
Definition VRAMPageStartY (pn : Z) : Z := (pn / VRAM_PAGES_WIDE) * VRAM_PAGE_HEIGHT.

(** ** Rectangles *)

Module GSVector4i.

(** Modelled from the spec: the integer rectangle type of
    [common/gsvector.h], which is not among the sources.  A rectangle is
    (left, top, right, bottom), right and bottom exclusive; it is empty
    when it has no positive width or height. *)
Record t : Type := cxpr { left : Z; top : Z; right : Z; bottom : Z }.

Definition zero : t := cxpr 0 0 0 0.

Definition width (r : t) : Z := s32 (right r - left r).
Definition height (r : t) : Z := s32 (bottom r - top r).

Definition eq (a b : t) : bool :=
  (left a =? left b) && (top a =? top b) &&
  (right a =? right b) && (bottom a =? bottom b).

Definition rempty (r : t) : bool :=
  negb ((left r <? right r) && (top r <? bottom r)).

(** [rintersect] is [sat_s32]: every corner of [a] is clamped into the box
    of [b].  For two overlapping rectangles that is their intersection; for
    disjoint ones the result is empty. *)
Definition sat_s32 (a b : t) : t :=
  cxpr (Z.min (Z.max (left a) (left b)) (right b))
       (Z.min (Z.max (top a) (top b)) (bottom b))
       (Z.min (Z.max (right a) (left b)) (right b))
       (Z.min (Z.max (bottom a) (top b)) (bottom b)).

Definition rintersect (a b : t) : t := sat_s32 a b.

Definition rintersects (a b : t) : bool := negb (rempty (rintersect a b)).

Definition rcontains (a b : t) : bool := eq (rintersect a b) b.

Definition runion (a b : t) : t :=
  cxpr (Z.min (left a) (left b)) (Z.min (top a) (top b))
       (Z.max (right a) (right b)) (Z.max (bottom a) (bottom b)).

(** The texel (px, py) lies inside the rectangle. *)
Definition covers (r : t) (px py : Z) : Prop :=
  left r <= px < right r /\ top r <= py < bottom r.

End GSVector4i.

Abbreviation Rect := GSVector4i.t.
Abbreviation mkRect := GSVector4i.cxpr.

(** Modelled from the spec: [GPU_HW::INVALID_RECT] of [gpu_hw.h] (not among
    the sources), the neutral element of [runion] that marks "no area
    sampled yet". *)
Definition INVALID_RECT : Rect := mkRect S32_MAX S32_MAX S32_MIN S32_MIN.

Definition VRAMPageRect (pn : Z) : Rect :=
  mkRect (VRAMPageStartX pn) (VRAMPageStartY pn)
         (VRAMPageStartX pn + VRAM_PAGE_WIDTH) (VRAMPageStartY pn + VRAM_PAGE_HEIGHT).

(** ** Texture modes, palette registers and keys *)

(** Modelled from the spec: [GPUTextureMode], [GPUTexturePaletteReg] and the
    per-mode helpers of [gpu_types.h], which is not among the sources
    ("texture mode (4-bit/8-bit/16-bit direct/reserved)", "1, 2, or 4 pages
    depending on bit depth", "256 or 16 entries"). *)
Inductive GPUTextureMode : Type :=
  | Palette4Bit
  | Palette8Bit
  | Direct16Bit
  | Reserved_Direct16Bit.

#[global] Instance GPUTextureMode_eq_dec : EqDecision GPUTextureMode.
Proof. solve_decision. Defined.

Definition mode_to_Z (m : GPUTextureMode) : Z :=
  match m with
  | Palette4Bit => 0
  | Palette8Bit => 1
  | Direct16Bit => 2
  | Reserved_Direct16Bit => 3
  end.

Definition mode_of_Z (v : Z) : GPUTextureMode :=
  match v with
  | 0 => Palette4Bit
  | 1 => Palette8Bit
  | 2 => Direct16Bit
  | _ => Reserved_Direct16Bit
  end.

(** [mode < GPUTextureMode::Direct16Bit] *)
Definition TextureModeHasPalette (m : GPUTextureMode) : bool := mode_to_Z m <? 2.

Definition GetPaletteWidth (m : GPUTextureMode) : Z :=
  match m with
  | Palette4Bit => 16
  | Palette8Bit => 256
  | _ => 0
  end.

Definition TexturePageCountForMode (m : GPUTextureMode) : nat :=
  match m with
  | Palette4Bit => 1
  | Palette8Bit => 2
  | _ => 4
  end.

Definition PalettePageCountForMode (m : GPUTextureMode) : nat :=
  match m with
  | Palette4Bit => 1
  | _ => 4
  end.

(** A palette register is its 15 significant bits: 6 bits of X in units of
    16 halfwords, 9 bits of Y. *)
Definition GPUTexturePaletteReg : Type := Z.
Definition GetXBase (p : GPUTexturePaletteReg) : Z := Z.land p 63 * 16.
Definition GetYBase (p : GPUTexturePaletteReg) : Z := Z.land (Z.shiftr p 6) 511.
Definition PalettePageNumber (p : GPUTexturePaletteReg) : Z :=
  VRAMPageIndex (GetXBase p / VRAM_PAGE_WIDTH) (GetYBase p / VRAM_PAGE_HEIGHT).

Definition GetTextureRect (pn : Z) (m : GPUTextureMode) : Rect :=
  let l := VRAMPageStartX pn in
  let t := VRAMPageStartY pn in
  let r := l + VRAM_PAGE_WIDTH * Z.of_nat (TexturePageCountForMode m) in
  if VRAM_WIDTH <? r
  then mkRect 0 t VRAM_WIDTH (t + VRAM_PAGE_HEIGHT)
  else mkRect l t r (t + VRAM_PAGE_HEIGHT).

Definition GetPaletteRect (p : GPUTexturePaletteReg) (m : GPUTextureMode) (clamp : bool) : Rect :=
  let l := GetXBase p in
  let t := GetYBase p in
  let r := l + GetPaletteWidth m in
  if VRAM_WIDTH <? r
  then (if clamp then mkRect l t VRAM_WIDTH (t + 1) else mkRect 0 t VRAM_WIDTH (t + 1))
  else mkRect l t r (t + 1).

Module SourceKey.
Record t : Type := mk { page : nat; mode : GPUTextureMode; palette : GPUTexturePaletteReg }.
#[global] Instance eq_dec : EqDecision t.
Proof. solve_decision. Defined.
Definition HasPalette (k : t) : bool := TextureModeHasPalette (mode k).
End SourceKey.

Abbreviation SourceKey := SourceKey.t.

(** [PaletteRecordFlags]: a bit set, [None] = 0, [HasSemiTransparentDraws] = 1. *)
Definition PaletteRecordFlags : Type := Z.

Definition HashType : Type := Z.
Definition MAX_CLUT_SIZE : nat := 256.
Definition NUM_PAGE_DRAW_RECTS : nat := 4.

(** Heap pointers ([Source*], [VRAMWrite*]). *)
Definition ptr : Type := positive.

(** ** The data model (lines 53-114) *)

Module PaletteRecord.
Record t : Type := mk {
  rect : Rect;
  key : SourceKey;
  flags : PaletteRecordFlags;
  palette_hash : HashType;
  palette : list Z
}.
Definition set_rect (v : Rect) (r : t) : t :=
  mk v (key r) (flags r) (palette_hash r) (palette r).
Definition set_flags (v : PaletteRecordFlags) (r : t) : t :=
  mk (rect r) (key r) v (palette_hash r) (palette r).
End PaletteRecord.

Module VRAMWrite.
(** [page_refs] lists the pages whose write list holds a node of this
    write; [num_page_refs] is its length. *)
Record t : Type := mk {
  active_rect : Rect;
  write_rect : Rect;
  hash : HashType;
  palette_records : list PaletteRecord.t;
  num_splits : Z;
  page_refs : list nat
}.
Definition set_active_rect (v : Rect) (w : t) : t :=
  mk v (write_rect w) (hash w) (palette_records w) (num_splits w) (page_refs w).
Definition set_write_rect (v : Rect) (w : t) : t :=
  mk (active_rect w) v (hash w) (palette_records w) (num_splits w) (page_refs w).
Definition set_hash (v : HashType) (w : t) : t :=
  mk (active_rect w) (write_rect w) v (palette_records w) (num_splits w) (page_refs w).
Definition set_palette_records (v : list PaletteRecord.t) (w : t) : t :=
  mk (active_rect w) (write_rect w) (hash w) v (num_splits w) (page_refs w).
Definition set_num_splits (v : Z) (w : t) : t :=
  mk (active_rect w) (write_rect w) (hash w) (palette_records w) v (page_refs w).
Definition set_page_refs (v : list nat) (w : t) : t :=
  mk (active_rect w) (write_rect w) (hash w) (palette_records w) (num_splits w) v.
End VRAMWrite.

Module HashCacheKey.
Record t : Type := mk { texture_hash : HashType; palette_hash : HashType; mode : HashType }.
#[global] Instance eq_dec : EqDecision t.
Proof. solve_decision. Defined.
End HashCacheKey.

Abbreviation HashCacheKey := HashCacheKey.t.

Module Source.
(** [from_hash_cache] points at a node of the hash cache; the node is
    identified by its key.  [page_refs] lists the pages whose source list
    holds a node of this source, in the order the nodes were linked. *)
Record t : Type := mk {
  key : SourceKey;
  texture_hash : HashType;
  palette_hash : HashType;
  texture_rect : Rect;
  palette_rect : Rect;
  active_uv_rect : Rect;
  palette_record_flags : PaletteRecordFlags;
  from_hash_cache : HashCacheKey;
  page_refs : list nat
}.
Definition set_active_uv (v : Rect) (f : PaletteRecordFlags) (s : t) : t :=
  mk (key s) (texture_hash s) (palette_hash s) (texture_rect s) (palette_rect s)
     v f (from_hash_cache s) (page_refs s).
End Source.

(** A GPU texture object, as far as the cache looks at it. *)
Record GPUTexture : Type := { GetVRAMUsage : Z }.

Module HashCacheEntry.
Record t : Type := mk {
  texture : GPUTexture;
  ref_count : Z;
  last_used_frame : Z;
  sources : list ptr
}.
Definition set_ref_count (v : Z) (e : t) : t :=
  mk (texture e) v (last_used_frame e) (sources e).
Definition set_last_used_frame (v : Z) (e : t) : t :=
  mk (texture e) (ref_count e) v (sources e).
Definition set_sources (v : list ptr) (e : t) : t :=
  mk (texture e) (ref_count e) (last_used_frame e) v.
End HashCacheEntry.

Module PageEntry.
Record t : Type := mk {
  sources : list ptr;
  writes : list ptr;
  num_draw_rects : nat;
  total_draw_rect : Rect;
  draw_rects : list Rect
}.
Definition set_sources (v : list ptr) (p : t) : t :=
  mk v (writes p) (num_draw_rects p) (total_draw_rect p) (draw_rects p).
Definition set_writes (v : list ptr) (p : t) : t :=
  mk (sources p) v (num_draw_rects p) (total_draw_rect p) (draw_rects p).
Definition set_draw (n : nat) (total : Rect) (rects : list Rect) (p : t) : t :=
  mk (sources p) (writes p) n total rects.
(** A zero-initialised page ([s_pages = {}]). *)
Definition empty : t :=
  mk [] [] 0 GSVector4i.zero (replicate NUM_PAGE_DRAW_RECTS GSVector4i.zero).
End PageEntry.

#[global] Instance PageEntry_inhabited : Inhabited PageEntry.t := populate PageEntry.empty.
#[global] Instance Rect_inhabited : Inhabited Rect := populate GSVector4i.zero.

(** The options of [s_config] the engine reads. *)
Record Configuration : Type := {
  dump_texture_pages : bool;
  max_vram_write_splits : Z;
  max_vram_write_coalesce_width : Z;
  max_vram_write_coalesce_height : Z
}.

(** The module's static variables (lines 503-535) and its two heaps. *)
Record State : Type := mkState {
  s_hash_cache : list (HashCacheKey * HashCacheEntry.t);
  s_hash_cache_memory_usage : Z;
  s_max_hash_cache_memory_usage : Z;
  s_pages : list PageEntry.t;
  s_last_vram_write : option ptr;
  s_track_vram_writes : bool;
  s_config : Configuration;
  source_heap : gmap ptr Source.t;
  write_heap : gmap ptr VRAMWrite.t
}.

(** What the engine reads from outside itself during one call: VRAM, the
    64-bit hash of the xxHash library over a run of halfwords, the frame
    counter, the settings it consults, the texture the GPU device hands out
    ([None] when allocation fails) and the texture the replacement pipeline
    leaves in a freshly built entry. *)
Record Env : Type := {
  g_vram : Z -> Z;
  XXH3_64bits : list Z -> HashType;
  GetFrameNumber : Z;
  dump_textures : bool;
  enable_texture_replacements : bool;
  FetchTexture : option GPUTexture;
  ApplyTextureReplacements : SourceKey -> HashType -> HashType -> GPUTexture -> GPUTexture
}.

(** How a call ends.  Dereferencing a null pointer or a pointer to a
    deleted object is undefined behaviour in the source; the model stops
    there and says which of the two happened. *)
Inductive outcome (A : Type) : Type :=
  | Done (a : A)
  | NullDereference
  | UseAfterFree.
Arguments Done {A} a.
Arguments NullDereference {A}.
Arguments UseAfterFree {A}.

(** ** State updates *)

Definition set_hash_cache (v : list (HashCacheKey * HashCacheEntry.t)) (s : State) : State :=
  mkState v (s_hash_cache_memory_usage s) (s_max_hash_cache_memory_usage s) (s_pages s)
          (s_last_vram_write s) (s_track_vram_writes s) (s_config s) (source_heap s) (write_heap s).
Definition set_hash_cache_memory_usage (v : Z) (s : State) : State :=
  mkState (s_hash_cache s) v (s_max_hash_cache_memory_usage s) (s_pages s)
          (s_last_vram_write s) (s_track_vram_writes s) (s_config s) (source_heap s) (write_heap s).
Definition set_pages (v : list PageEntry.t) (s : State) : State :=
  mkState (s_hash_cache s) (s_hash_cache_memory_usage s) (s_max_hash_cache_memory_usage s) v
          (s_last_vram_write s) (s_track_vram_writes s) (s_config s) (source_heap s) (write_heap s).
Definition set_last_vram_write (v : option ptr) (s : State) : State :=
  mkState (s_hash_cache s) (s_hash_cache_memory_usage s) (s_max_hash_cache_memory_usage s) (s_pages s)
          v (s_track_vram_writes s) (s_config s) (source_heap s) (write_heap s).
Definition set_source_heap (v : gmap ptr Source.t) (s : State) : State :=
  mkState (s_hash_cache s) (s_hash_cache_memory_usage s) (s_max_hash_cache_memory_usage s) (s_pages s)
          (s_last_vram_write s) (s_track_vram_writes s) (s_config s) v (write_heap s).
Definition set_write_heap (v : gmap ptr VRAMWrite.t) (s : State) : State :=
  mkState (s_hash_cache s) (s_hash_cache_memory_usage s) (s_max_hash_cache_memory_usage s) (s_pages s)
          (s_last_vram_write s) (s_track_vram_writes s) (s_config s) (source_heap s) v.

(** [s_pages[pn]] and its in-place update. *)
Definition page_at (s : State) (pn : nat) : PageEntry.t := s_pages s !!! pn.
Definition update_page (pn : nat) (f : PageEntry.t -> PageEntry.t) (s : State) : State :=
  set_pages (alter f pn (s_pages s)) s.

(** The zero-initialised statics, with a given configuration. *)
Definition initial_state (track : bool) (cfg : Configuration) : State :=
  mkState [] 0 (1024 * 1024 * 1024) (replicate NUM_VRAM_PAGES PageEntry.empty)
          None track cfg ∅ ∅.

(** ** Intrusive lists (lines 322-415) *)

Definition ListPrepend (item : ptr) (l : list ptr) : list ptr := item :: l.
Definition ListAppend (item : ptr) (l : list ptr) : list ptr := l ++ [item].

(** Unlinking a node takes the item out of the list it is linked into; an
    item has at most one node per list. *)
Fixpoint ListUnlink (item : ptr) (l : list ptr) : list ptr :=
  match l with
  | [] => []
  | q :: l' => if decide (q = item) then l' else q :: ListUnlink item l'
  end.

Definition ListMoveToFront (item : ptr) (l : list ptr) : list ptr :=
  item :: ListUnlink item l.

Definition ListIterateWithEarlyExit (f : ptr -> bool) (l : list ptr) : bool := forallb f l.

(** ** Page loops (lines 417-485) *)

Definition Zrange (a b : Z) : list Z :=
  map (fun i => a + Z.of_nat i) (seq 0 (Z.to_nat (b + 1 - a))).

(** The pages [LoopRectPages] hands to its callback, in call order. *)
Definition LoopRectPages (rc : Rect) : list nat :=
  let start_x := u32 (GSVector4i.left rc) / VRAM_PAGE_WIDTH in
  let end_x := u32 (GSVector4i.right rc - 1) / VRAM_PAGE_WIDTH in
  let start_y := u32 (GSVector4i.top rc) / VRAM_PAGE_HEIGHT in
  let end_y := u32 (GSVector4i.bottom rc - 1) / VRAM_PAGE_HEIGHT in
  let page_number := VRAMPageIndex start_x start_y in
  flat_map (fun page_y =>
              map (fun page_x =>
                     Z.to_nat (page_number + (page_y - start_y) * VRAM_PAGES_WIDE + (page_x - start_x)))
                  (Zrange start_x end_x))
           (Zrange start_y end_y).

Definition LoopRectPagesWithEarlyExit (rc : Rect) (f : nat -> bool) : bool :=
  forallb f (LoopRectPages rc).

Definition LoopXWrappedPages (page : nat) (num_pages : nat) : list nat :=
  map (fun i => Z.to_nat (Z.lor (Z.land (Z.of_nat page) VRAM_PAGE_Y_MASK)
                                (Z.land (Z.of_nat page + Z.of_nat i) VRAM_PAGE_X_MASK)))
      (seq 0 num_pages).

(** ** Hashing (lines 1858-1956) *)

(** [len] consecutive halfwords of VRAM from linear index [start]. *)
Definition vram_run (env : Env) (start len : Z) : list Z :=
  map (fun i => g_vram env (start + Z.of_nat i)) (seq 0 (Z.to_nat len)).

Definition VRAMPagePointer (pn : Z) : Z := VRAMPageStartY pn * VRAM_WIDTH + VRAMPageStartX pn.
Definition VRAMPalettePointer (p : GPUTexturePaletteReg) : Z := VRAM_WIDTH * GetYBase p + GetXBase p.

(** The streaming hash of the rows equals the one-shot hash of their
    concatenation.  The reserved mode falls into the unreachable default
    and hashes nothing. *)
Definition HashPage (env : Env) (page : nat) (m : GPUTextureMode) : HashType :=
  let page_ptr := VRAMPagePointer (Z.of_nat page) in
  let row_len :=
    match m with
    | Palette4Bit => VRAM_PAGE_WIDTH
    | Palette8Bit => VRAM_PAGE_WIDTH * 2
    | Direct16Bit => VRAM_PAGE_WIDTH * 4
    | Reserved_Direct16Bit => 0
    end in
  XXH3_64bits env
    (flat_map (fun y => vram_run env (page_ptr + y * VRAM_WIDTH) row_len)
              (Zrange 0 (VRAM_PAGE_HEIGHT - 1))).

Definition HashPalette (env : Env) (p : GPUTexturePaletteReg) (m : GPUTextureMode) : HashType :=
  let x_base := GetXBase p in
  let base := VRAMPalettePointer p in
  match m with
  | Palette4Bit => XXH3_64bits env (vram_run env base 16)
  | Palette8Bit =>
      if VRAM_WIDTH <? x_base + 256
      then XXH3_64bits env (vram_run env base (VRAM_WIDTH - x_base))
      else XXH3_64bits env (vram_run env base 256)
  | _ => 0
  end.

(** [HashPartialPalette(const u16* palette, u32 min, u32 max)] over a
    palette given as the halfwords behind the pointer. *)
Definition HashPartialPalette_ptr (env : Env) (palette : Z -> Z) (min max : Z) : HashType :=
  let size := u32 (max - min + 1) in
  XXH3_64bits env (map (fun i => palette (Z.of_nat i)) (seq 0 (Z.to_nat size))).

(** [HashPartialPalette(GPUTexturePaletteReg, GPUTextureMode, u32, u32)] *)
Definition HashPartialPalette (env : Env) (p : GPUTexturePaletteReg) (m : GPUTextureMode)
    (min max : Z) : HashType :=
  HashPartialPalette_ptr env (fun i => g_vram env (VRAMPalettePointer p + i)) min max.

Definition HashRect (env : Env) (rc : Rect) : HashType :=
  let width := u32 (GSVector4i.width rc) in
  let height := u32 (GSVector4i.height rc) in
  let start := GSVector4i.top rc * VRAM_WIDTH + GSVector4i.left rc in
  XXH3_64bits env
    (flat_map (fun y => vram_run env (start + y * VRAM_WIDTH) width) (Zrange 0 (height - 1))).

(** ** Palette records (lines 1572-1610, 1958-2004) *)

Definition IsDumpingVRAMWriteTextures (env : Env) (s : State) : bool :=
  dump_textures env && negb (dump_texture_pages (s_config s)).

Definition pad_palette (entries : list Z) : list Z :=
  entries ++ replicate (MAX_CLUT_SIZE - length entries) 0.

Definition InitializeVRAMWritePaletteRecord (env : Env) (source_key : SourceKey)
    (rect : Rect) (flags : PaletteRecordFlags) : PaletteRecord.t :=
  let base := VRAMPalettePointer (SourceKey.palette source_key) in
  match SourceKey.mode source_key with
  | Palette4Bit =>
      let pal := vram_run env base 16 in
      PaletteRecord.mk rect source_key flags (XXH3_64bits env pal) (pad_palette pal)
  | Palette8Bit =>
      let pal_width := Z.min 256 (VRAM_WIDTH - GetXBase (SourceKey.palette source_key)) in
      let pal := vram_run env base pal_width in
      PaletteRecord.mk rect source_key flags (XXH3_64bits env pal) (pad_palette pal)
  | _ => PaletteRecord.mk rect source_key flags 0 (pad_palette [])
  end.

(** [std::find_if] followed by an in-place update of the element found. *)
Fixpoint update_first {A : Type} (P : A -> bool) (f : A -> A) (l : list A) : option (list A) :=
  match l with
  | [] => None
  | a :: l' =>
      if P a then Some (f a :: l')
      else match update_first P f l' with
           | Some r => Some (a :: r)
           | None => None
           end
  end.

Definition UpdateVRAMWriteSources (env : Env) (entry : VRAMWrite.t) (source_key : SourceKey)
    (global_uv_rect : Rect) (flags : PaletteRecordFlags) : VRAMWrite.t :=
  let write_intersection := GSVector4i.rintersect (VRAMWrite.active_rect entry) global_uv_rect in
  if GSVector4i.rempty write_intersection then entry
  else
    match update_first
            (fun it => bool_decide (PaletteRecord.key it = source_key))
            (fun it => PaletteRecord.set_flags (Z.lor (PaletteRecord.flags it) flags)
                         (PaletteRecord.set_rect
                            (GSVector4i.runion (PaletteRecord.rect it) write_intersection) it))
            (VRAMWrite.palette_records entry) with
    | Some records => VRAMWrite.set_palette_records records entry
    | None =>
        VRAMWrite.set_palette_records
          (VRAMWrite.palette_records entry ++
           [InitializeVRAMWritePaletteRecord env source_key write_intersection flags]) entry
    end.

(** Applies [f] to the write behind [entry]. *)
Definition update_write (entry : ptr) (f : VRAMWrite.t -> VRAMWrite.t) (s : State) : State :=
  set_write_heap (alter f entry (write_heap s)) s.

Definition SyncVRAMWritePaletteRecords (env : Env) (entry : ptr) (s : State) : State :=
  if IsDumpingVRAMWriteTextures env s then
    match write_heap s !! entry with
    | None => s
    | Some w =>
        fold_left
          (fun s pn =>
             fold_left
               (fun s sp =>
                  match source_heap s !! sp with
                  | None => s
                  | Some src =>
                      if negb (GSVector4i.eq (Source.active_uv_rect src) INVALID_RECT)
                      then update_write entry
                             (fun w => UpdateVRAMWriteSources env w (Source.key src)
                                         (Source.active_uv_rect src)
                                         (Source.palette_record_flags src)) s
                      else s
                  end)
               (PageEntry.sources (page_at s pn)) s)
          (LoopRectPages (VRAMWrite.active_rect w)) s
    end
  else s.

(** ** Hash cache nodes *)

Fixpoint hc_find (k : HashCacheKey) (l : list (HashCacheKey * HashCacheEntry.t))
    : option HashCacheEntry.t :=
  match l with
  | [] => None
  | (k', e) :: l' => if decide (k' = k) then Some e else hc_find k l'
  end.

Fixpoint hc_alter (f : HashCacheEntry.t -> HashCacheEntry.t) (k : HashCacheKey)
    (l : list (HashCacheKey * HashCacheEntry.t)) : list (HashCacheKey * HashCacheEntry.t) :=
  match l with
  | [] => []
  | (k', e) :: l' => if decide (k' = k) then (k', f e) :: l' else (k', e) :: hc_alter f k l'
  end.

Fixpoint hc_erase (k : HashCacheKey) (l : list (HashCacheKey * HashCacheEntry.t))
    : list (HashCacheKey * HashCacheEntry.t) :=
  match l with
  | [] => []
  | (k', e) :: l' => if decide (k' = k) then l' else (k', e) :: hc_erase k l'
  end.

(** ** Source invalidation (lines 1346-1417) *)

Definition DestroySource (env : Env) (sp : ptr) (s : State) : State :=
  match source_heap s !! sp with
  | None => s
  | Some src =>
      let s1 :=
        if dump_textures env && negb (GSVector4i.eq (Source.active_uv_rect src) INVALID_RECT)
        then
          if negb (dump_texture_pages (s_config s))
          then
            (* Find VRAM writes that overlap with this source *)
            fold_left
              (fun s pn =>
                 fold_left
                   (fun s vw =>
                      update_write vw
                        (fun w => UpdateVRAMWriteSources env w (Source.key src)
                                    (Source.active_uv_rect src)
                                    (Source.palette_record_flags src)) s)
                   (PageEntry.writes (page_at s pn)) s)
              (LoopRectPages (Source.active_uv_rect src)) s
          else s (* DumpTextureFromPage: file output only *)
        else s in
      let s2 :=
        fold_left
          (fun s pn => update_page pn (fun pg => PageEntry.set_sources
                                                    (ListUnlink sp (PageEntry.sources pg)) pg) s)
          (Source.page_refs src) s1 in
      let s3 :=
        set_hash_cache
          (hc_alter (fun e => HashCacheEntry.set_ref_count (u32 (HashCacheEntry.ref_count e - 1))
                                (HashCacheEntry.set_sources
                                   (ListUnlink sp (HashCacheEntry.sources e)) e))
                    (Source.from_hash_cache src) (s_hash_cache s2)) s2 in
      set_source_heap (delete sp (source_heap s3)) s3
  end.

(** [InvalidatePageSources(u32 pn)] *)
Definition InvalidatePageSources_all (env : Env) (pn : nat) (s : State) : State :=
  fold_left (fun s sp => DestroySource env sp s) (PageEntry.sources (page_at s pn)) s.

(** [InvalidatePageSources(u32 pn, const GSVector4i rc)] *)
Definition InvalidatePageSources (env : Env) (pn : nat) (rc : Rect) (s : State) : State :=
  fold_left
    (fun s sp =>
       match source_heap s !! sp with
       | None => s
       | Some src =>
           if negb (GSVector4i.rintersects (Source.texture_rect src) rc) &&
              (bool_decide (SourceKey.mode (Source.key src) = Direct16Bit) ||
               negb (GSVector4i.rintersects (Source.palette_rect src) rc))
           then s
           else DestroySource env sp s
       end)
    (PageEntry.sources (page_at s pn)) s.

(** ** Splitting, merging and removing writes (lines 1612-1785) *)

(** [ListAppend(&s_pages[pn].writes, it, ...)] for every page of a rectangle. *)
Definition link_write (it : ptr) (pages : list nat) (s : State) : State :=
  fold_left
    (fun s pn => update_page pn (fun pg => PageEntry.set_writes
                                              (ListAppend it (PageEntry.writes pg)) pg) s)
    pages s.

(** [ListUnlink(entry->page_refs[i])] for every page reference. *)
Definition unlink_write (entry : ptr) (pages : list nat) (s : State) : State :=
  fold_left
    (fun s pn => update_page pn (fun pg => PageEntry.set_writes
                                              (ListUnlink entry (PageEntry.writes pg)) pg) s)
    pages s.

(** The four candidate remainders, [rects[0..3]]. *)
Definition split_rects (active written : Rect) : list Rect :=
  let al := GSVector4i.left active in
  let at_ := GSVector4i.top active in
  let ar := GSVector4i.right active in
  let ab := GSVector4i.bottom active in
  let wl := GSVector4i.left written in
  let wt := GSVector4i.top written in
  let wr := GSVector4i.right written in
  let wb := GSVector4i.bottom written in
  let to_left := s32 (wl - al) in
  let to_right := s32 (ar - wr) in
  let to_top := s32 (wt - at_) in
  let to_bottom := s32 (ab - wb) in
  if Z.max to_top to_bottom >? Z.max to_left to_right
  then
    (* split top/bottom, then left/right *)
    [ mkRect al at_ ar wt;
      mkRect al wb ar ab;
      mkRect al (s32 (at_ + to_top)) (s32 (al + to_left)) (s32 (ab - to_bottom));
      mkRect (s32 (ar - to_right)) (s32 (at_ + to_top)) ar (s32 (ab - to_bottom)) ]
  else
    (* split left/right, then top/bottom *)
    [ mkRect al at_ wl ab;
      mkRect wr at_ ar ab;
      mkRect (s32 (al + to_left)) (s32 (at_ + to_top)) (s32 (wr - to_right)) (s32 (at_ - to_top));
      mkRect (s32 (al + to_left)) (s32 (ab - to_bottom)) (s32 (wr - to_right)) ab ].

(** One round of the loop over [rects]: [entry] is the write being split,
    after its split counter was bumped. *)
Definition split_one (entry : VRAMWrite.t) (s : State) (splitr : Rect) : State :=
  if GSVector4i.rempty splitr then s
  else
    let it := fresh (dom (write_heap s)) in
    let w := VRAMWrite.mk splitr (VRAMWrite.write_rect entry) (VRAMWrite.hash entry) []
                          (VRAMWrite.num_splits entry) [] in
    (* the loop that copies the records runs over [it->palette_records] *)
    let w := VRAMWrite.set_palette_records
               (VRAMWrite.palette_records w ++
                List.filter (fun prec => GSVector4i.rintersects (PaletteRecord.rect prec) splitr)
                            (VRAMWrite.palette_records w)) w in
    let pages := LoopRectPages splitr in
    let w := VRAMWrite.set_page_refs pages w in
    link_write it pages (set_write_heap (<[it := w]> (write_heap s)) s).

Definition SplitVRAMWrite (env : Env) (entry : ptr) (written_rect : Rect) (s : State) : State :=
  let s := SyncVRAMWritePaletteRecords env entry s in
  match write_heap s !! entry with
  | None => s
  | Some w =>
      let w := VRAMWrite.set_num_splits (u32 (VRAMWrite.num_splits w + 1)) w in
      let s := set_write_heap (<[entry := w]> (write_heap s)) s in
      let s := fold_left (split_one w) (split_rects (VRAMWrite.active_rect w) written_rect) s in
      let s := unlink_write entry (VRAMWrite.page_refs w) s in
      set_write_heap (delete entry (write_heap s)) s
  end.

(** The callback of the double-check in [TryMergeVRAMWrite] (line 1711). *)
Definition merge_source_check (s : State) (entry : VRAMWrite.t) (sp : ptr) : bool :=
  match source_heap s !! sp with
  | None => true
  | Some src =>
      negb (GSVector4i.eq (Source.active_uv_rect src) INVALID_RECT) ||
      negb (GSVector4i.rintersects (Source.active_uv_rect src) (VRAMWrite.active_rect entry))
  end.

Definition TryMergeVRAMWrite (env : Env) (entry : ptr) (written_rect : Rect) (s : State)
    : outcome (State * bool) :=
  match s_last_vram_write s with
  | None => NullDereference
  | Some last =>
      match write_heap s !! last, write_heap s !! entry with
      | Some lw, Some w =>
          (* It shouldn't have been split. *)
          if negb (VRAMWrite.num_splits lw =? 0) then Done (s, false)
          else
            let coalesce_width := max_vram_write_coalesce_width (s_config s) in
            let coalesce_height := max_vram_write_coalesce_height (s_config s) in
            let lr := VRAMWrite.write_rect lw in
            let merge_vertical :=
              (u32 (GSVector4i.height written_rect) <=? coalesce_height) &&
              (GSVector4i.left lr =? GSVector4i.left written_rect) &&
              (GSVector4i.right lr =? GSVector4i.right written_rect) &&
              (GSVector4i.bottom lr =? GSVector4i.top written_rect) in
            let merge_horizontal :=
              (u32 (GSVector4i.width written_rect) <=? coalesce_width) &&
              (GSVector4i.top lr =? GSVector4i.top written_rect) &&
              (GSVector4i.bottom lr =? GSVector4i.bottom written_rect) &&
              (GSVector4i.right lr =? GSVector4i.left written_rect) in
            if negb merge_vertical && negb merge_horizontal then Done (s, false)
            else if negb (LoopRectPagesWithEarlyExit (VRAMWrite.active_rect w)
                            (fun pn => ListIterateWithEarlyExit (merge_source_check s w)
                                         (PageEntry.sources (page_at s pn))))
            then Done (s, false)
            else
              (* Remove from old pages, expand the write, re-add to pages. *)
              let s := unlink_write entry (VRAMWrite.page_refs w) s in
              let new_rect := GSVector4i.runion (VRAMWrite.write_rect w) written_rect in
              let w := VRAMWrite.set_hash (HashRect env new_rect)
                         (VRAMWrite.set_write_rect new_rect
                            (VRAMWrite.set_active_rect new_rect w)) in
              let pages := LoopRectPages new_rect in
              let w := VRAMWrite.set_page_refs pages w in
              Done (link_write entry pages (set_write_heap (<[entry := w]> (write_heap s)) s), true)
      | _, _ => UseAfterFree
      end
  end.

(** The first write with the hash of [entry] on the pages of its
    [write_rect], in page order and list order (lines 1749-1760). *)
Definition find_other_write (s : State) (w : VRAMWrite.t) : option ptr :=
  List.find
    (fun cur => match write_heap s !! cur with
                | Some cw => VRAMWrite.hash cw =? VRAMWrite.hash w
                | None => false
                end)
    (flat_map (fun pn => PageEntry.writes (page_at s pn)) (LoopRectPages (VRAMWrite.write_rect w))).

(** Folding one record of the removed write into another write's records
    (lines 1763-1771). *)
Definition merge_palette_record (records : list PaletteRecord.t) (prec : PaletteRecord.t)
    : list PaletteRecord.t :=
  match update_first
          (fun it => bool_decide (PaletteRecord.key it = PaletteRecord.key prec))
          (fun it => PaletteRecord.set_rect
                       (GSVector4i.runion (PaletteRecord.rect it) (PaletteRecord.rect prec)) it)
          records with
  | Some r => r
  | None => records ++ [prec]
  end.

Definition RemoveVRAMWrite (env : Env) (entry : ptr) (s : State) : State :=
  let s := SyncVRAMWritePaletteRecords env entry s in
  match write_heap s !! entry with
  | None => s
  | Some w =>
      let s :=
        if (0 <? VRAMWrite.num_splits w) &&
           negb (bool_decide (VRAMWrite.palette_records w = []))
        then
          (* Combine palette records with another write. *)
          match find_other_write s w with
          | Some other_write =>
              let s := update_write other_write
                         (fun ow => VRAMWrite.set_palette_records
                                      (fold_left merge_palette_record
                                                 (VRAMWrite.palette_records w)
                                                 (VRAMWrite.palette_records ow)) ow) s in
              (* No dumping from here! *)
              update_write entry (VRAMWrite.set_palette_records []) s
          | None => s
          end
        else s in
      let s := unlink_write entry (VRAMWrite.page_refs w) s in
      (* DumpTexturesFromVRAMWrite: file output only *)
      let s := set_last_vram_write
                 (if bool_decide (s_last_vram_write s = Some entry)
                  then None else s_last_vram_write s) s in
      set_write_heap (delete entry (write_heap s)) s
  end.

(** ** Entry points of the write tracker (lines 898-996) *)

(** [env] holds VRAM as [GPU_SW_Rasterizer::WriteVRAM] left it. *)
Definition WriteVRAM (env : Env) (bounds : Rect) (s : State) : outcome State :=
  if negb (s_track_vram_writes s) then Done s
  else
    let fresh_write (s : State) : State :=
      let it := fresh (dom (write_heap s)) in
      let pages := LoopRectPages bounds in
      let w := VRAMWrite.mk bounds bounds (HashRect env bounds) [] 0 pages in
      set_last_vram_write (Some it)
        (link_write it pages (set_write_heap (<[it := w]> (write_heap s)) s)) in
    match s_last_vram_write s with
    | None => Done (fresh_write s)
    | Some last =>
        match TryMergeVRAMWrite env last bounds s with
        | Done (s', true) => Done s'
        | Done (s', false) => Done (fresh_write s')
        | NullDereference => NullDereference
        | UseAfterFree => UseAfterFree
        end
    end.

(** The loop that drops the draw rectangles a write intersects
    (lines 933-951).  Every round either advances [i] or shrinks the count,
    so the count on entry bounds the number of rounds. *)
Fixpoint clear_draw_rects_loop (rounds : nat) (rect : Rect) (i num : nat) (rects : list Rect)
    : nat * list Rect :=
  match rounds with
  | O => (num, rects)
  | S rounds' =>
      if (i <? num)%nat then
        if negb (GSVector4i.rintersects (rects !!! i) rect)
        then clear_draw_rects_loop rounds' rect (S i) num rects
        else
          let num := (num - 1)%nat in
          let remaining_rects := (num - i)%nat in
          let rects :=
            if (0 <? num)%nat && (0 <? remaining_rects)%nat
            then (* memmove(&draw_rects[i], &draw_rects[i + 1], remaining_rects) *)
              take i rects ++ take remaining_rects (drop (S i) rects) ++ drop num rects
            else rects in
          clear_draw_rects_loop rounds' rect i num rects
      else (num, rects)
  end.

Definition clear_draw_rects (rect : Rect) (pg : PageEntry.t) : PageEntry.t :=
  if (0 <? PageEntry.num_draw_rects pg)%nat then
    let prev_draw_rects := PageEntry.num_draw_rects pg in
    let '(num, rects) :=
      clear_draw_rects_loop prev_draw_rects rect 0 prev_draw_rects (PageEntry.draw_rects pg) in
    if bool_decide (num = prev_draw_rects) then PageEntry.set_draw num (PageEntry.total_draw_rect pg) rects pg
    else if bool_decide (num = 0%nat) then PageEntry.set_draw num INVALID_RECT rects pg
    else
      PageEntry.set_draw num
        (fold_left GSVector4i.runion (take (num - 1) (drop 1 rects)) (rects !!! 0%nat)) rects pg
  else pg.

Definition AddWrittenRectangle (env : Env) (rect : Rect) (update_vram_writes : bool) (s : State)
    : State :=
  fold_left
    (fun s pn =>
       let s := InvalidatePageSources env pn rect s in
       let s := update_page pn (clear_draw_rects rect) s in
       fold_left
         (fun s it =>
            match write_heap s !! it with
            | None => s
            | Some w =>
                let intersection := GSVector4i.rintersect (VRAMWrite.active_rect w) rect in
                if negb (GSVector4i.rempty intersection) then
                  if update_vram_writes && GSVector4i.rcontains (VRAMWrite.active_rect w) rect
                  then update_write it (VRAMWrite.set_hash (HashRect env (VRAMWrite.write_rect w))) s
                  else if (VRAMWrite.num_splits w <? max_vram_write_splits (s_config s)) &&
                          negb (GSVector4i.eq (VRAMWrite.active_rect w) intersection)
                  then SplitVRAMWrite env it intersection s
                  else RemoveVRAMWrite env it s
                else s
            end)
         (PageEntry.writes (page_at s pn)) s)
    (LoopRectPages rect) s.

(** ** Drawn rectangles (lines 492-499, 795-869) *)

(** [RectDistance] works on floats.  For rectangles inside VRAM
    (coordinates between 0 and 1024) every intermediate value is a multiple
    of 1/4 of magnitude below 2^22, which a float holds exactly; the model
    computes the same values as rationals. *)
Definition RectDistance (lhs rhs : Rect) : Q :=
  let fl (v : Z) : Q := inject_Z v in
  let half : Q := (1 # 2)%Q in
  let clhs_x := (fl (GSVector4i.left lhs) + (fl (GSVector4i.right lhs) - fl (GSVector4i.left lhs)) * half)%Q in
  let clhs_y := (fl (GSVector4i.top lhs) + (fl (GSVector4i.bottom lhs) - fl (GSVector4i.top lhs)) * half)%Q in
  let crhs_x := (fl (GSVector4i.left rhs) + (fl (GSVector4i.right rhs) - fl (GSVector4i.left lhs)) * half)%Q in
  let crhs_y := (fl (GSVector4i.top rhs) + (fl (GSVector4i.bottom rhs) - fl (GSVector4i.top lhs)) * half)%Q in
  (clhs_x * crhs_x + clhs_y * crhs_y)%Q.

Definition Qltb (a b : Q) : bool := negb (Qle_bool b a).

(** The scan over the page's draw rectangles (lines 812-826): [None] when
    one of them already contains [rc], else the candidate slot. *)
Fixpoint scan_draw_rects (rc clip_rect : Rect) (rects : list Rect) (i candidate : nat)
    : option nat :=
  match rects with
  | [] => Some candidate
  | page_draw_rect :: rest =>
      if GSVector4i.rcontains page_draw_rect rc then None
      else if GSVector4i.rintersects clip_rect page_draw_rect
      then scan_draw_rects rc clip_rect rest (S i) i
      else scan_draw_rects rc clip_rect rest (S i) candidate
  end.

(** The fallback when all slots are taken (lines 831-838). *)
Definition closest_draw_rect (rc : Rect) (draw_rects : list Rect) : nat :=
  fst (fold_left
         (fun '(candidate, closest_dist) i =>
            let dist := RectDistance rc (draw_rects !!! i) in
            (if Qltb dist closest_dist then i else candidate,
             if Qltb dist closest_dist then dist else closest_dist))
         (seq 1 (NUM_PAGE_DRAW_RECTS - 1))
         (0%nat, RectDistance rc (draw_rects !!! 0%nat))).

(** The slot [AddDrawnRectangle] settles on for a page with draw
    rectangles: [None] when [rc] is already contained. *)
Definition choose_draw_rect (rc clip_rect : Rect) (pg : PageEntry.t) : option nat :=
  match scan_draw_rects rc clip_rect
          (take (PageEntry.num_draw_rects pg) (PageEntry.draw_rects pg))
          0 (PageEntry.num_draw_rects pg) with
  | None => None
  | Some candidate =>
      if bool_decide (candidate = NUM_PAGE_DRAW_RECTS)
      then Some (closest_draw_rect rc (PageEntry.draw_rects pg))
      else Some candidate
  end.

Definition AddDrawnRectangle (env : Env) (rect clip_rect : Rect) (s : State) : State :=
  fold_left
    (fun s pn =>
       let s :=
         fold_left
           (fun s it =>
              match write_heap s !! it with
              | None => s
              | Some w =>
                  if GSVector4i.rintersects (VRAMWrite.active_rect w) rect
                  then RemoveVRAMWrite env it s else s
              end)
           (PageEntry.writes (page_at s pn)) s in
       let page := page_at s pn in
       let rc := GSVector4i.rintersect rect (VRAMPageRect (Z.of_nat pn)) in
       if (0 <? PageEntry.num_draw_rects page)%nat then
         match choose_draw_rect rc clip_rect page with
         | None => s (* already contained *)
         | Some candidate =>
             let total := GSVector4i.runion (PageEntry.total_draw_rect page) rc in
             if negb (bool_decide (candidate = PageEntry.num_draw_rects page)) then
               let new_draw_rect := GSVector4i.runion (PageEntry.draw_rects page !!! candidate) rc in
               let s := update_page pn
                          (fun pg => PageEntry.set_draw (PageEntry.num_draw_rects pg)
                                       (PageEntry.total_draw_rect pg)
                                       (<[candidate := new_draw_rect]> (PageEntry.draw_rects pg)) pg) s in
               let s := InvalidatePageSources env pn new_draw_rect s in
               update_page pn
                 (fun pg => PageEntry.set_draw (PageEntry.num_draw_rects pg) total
                              (PageEntry.draw_rects pg) pg) s
             else
               let s := update_page pn
                          (fun pg => PageEntry.set_draw (S (PageEntry.num_draw_rects pg))
                                       (PageEntry.total_draw_rect pg)
                                       (<[candidate := rc]> (PageEntry.draw_rects pg)) pg) s in
               let s := InvalidatePageSources env pn rc s in
               update_page pn
                 (fun pg => PageEntry.set_draw (PageEntry.num_draw_rects pg) total
                              (PageEntry.draw_rects pg) pg) s
         end
       else
         let s := update_page pn
                    (fun pg => PageEntry.set_draw 1 rc (<[0%nat := rc]> (PageEntry.draw_rects pg)) pg) s in
         (* remove all sources, let them re-lookup if needed *)
         InvalidatePageSources env pn rc s)
    (LoopRectPages rect) s.

(** ** Hash cache lookup and eviction (lines 2006-2057) *)

(** The pointer returned is the node's key.  [unordered_map::emplace] puts
    the node somewhere in iteration order; the model puts it first. *)
Definition LookupHashCache (env : Env) (key : SourceKey) (tex_hash pal_hash : HashType)
    (s : State) : State * option HashCacheKey :=
  let hkey := HashCacheKey.mk tex_hash pal_hash (mode_to_Z (SourceKey.mode key)) in
  match hc_find hkey (s_hash_cache s) with
  | Some _ => (s, Some hkey)
  | None =>
      match FetchTexture env with
      | None => (s, None)
      | Some tex =>
          (* DecodeTexture writes texels only *)
          let tex := if enable_texture_replacements env
                     then ApplyTextureReplacements env key tex_hash pal_hash tex else tex in
          let entry := HashCacheEntry.mk tex 0 0 [] in
          let s := set_hash_cache_memory_usage
                     (u64 (s_hash_cache_memory_usage s + GetVRAMUsage tex)) s in
          (set_hash_cache ((hkey, entry) :: s_hash_cache s) s, Some hkey)
      end
  end.

Definition RemoveFromHashCache (env : Env) (it : HashCacheKey) (s : State) : State :=
  match hc_find it (s_hash_cache s) with
  | None => s
  | Some e =>
      let s := fold_left (fun s sp => DestroySource env sp s) (HashCacheEntry.sources e) s in
      let s := set_hash_cache_memory_usage
                 (u64 (s_hash_cache_memory_usage s - GetVRAMUsage (HashCacheEntry.texture e))) s in
      set_hash_cache (hc_erase it (s_hash_cache s)) s
  end.

(** [while (!s_hash_cache.empty()) RemoveFromHashCache(s_hash_cache.begin())] *)
Definition ClearHashCache (env : Env) (s : State) : State :=
  fold_left (fun s it => RemoveFromHashCache env it s) (map fst (s_hash_cache s)) s.

(** ** Source lookup and creation (lines 1190-1240, 1419-1484) *)

(** [add_page_ref] / [add_page_ref_back]: link the source into page [pn]
    unless it already is. *)
Definition add_page_ref (front : bool) (sp : ptr) (st : State * list nat) (pn : nat)
    : State * list nat :=
  let '(s, page_refns) := st in
  if bool_decide (pn ∈ page_refns) then (s, page_refns)
  else
    (update_page pn
       (fun pg => PageEntry.set_sources
                    (if front then ListPrepend sp (PageEntry.sources pg)
                     else ListAppend sp (PageEntry.sources pg)) pg) s,
     page_refns ++ [pn]).

Definition CreateSource (env : Env) (key : SourceKey) (s : State) : State * option ptr :=
  let tex_hash := HashPage env (SourceKey.page key) (SourceKey.mode key) in
  let pal_hash := if TextureModeHasPalette (SourceKey.mode key)
                  then HashPalette env (SourceKey.palette key) (SourceKey.mode key) else 0 in
  match LookupHashCache env key tex_hash pal_hash s with
  | (s, None) => (s, None)
  | (s, Some hcentry) =>
      let src := fresh (dom (source_heap s)) in
      let s := set_hash_cache
                 (hc_alter (fun e => HashCacheEntry.set_sources
                                       (ListAppend src (HashCacheEntry.sources e))
                                       (HashCacheEntry.set_ref_count
                                          (u32 (HashCacheEntry.ref_count e + 1)) e))
                           hcentry (s_hash_cache s)) s in
      (* Textures at front, CLUTs at back. *)
      let '(s, refs) :=
        fold_left (add_page_ref true src)
                  (LoopXWrappedPages (SourceKey.page key) (TexturePageCountForMode (SourceKey.mode key)))
                  (s, []) in
      let '(s, refs) :=
        if TextureModeHasPalette (SourceKey.mode key)
        then fold_left (add_page_ref false src)
                       (LoopXWrappedPages (Z.to_nat (PalettePageNumber (SourceKey.palette key)))
                                          (PalettePageCountForMode (SourceKey.mode key)))
                       (s, refs)
        else (s, refs) in
      let obj :=
        Source.mk key tex_hash pal_hash
          (GetTextureRect (Z.of_nat (SourceKey.page key)) (SourceKey.mode key))
          (if TextureModeHasPalette (SourceKey.mode key)
           then GetPaletteRect (SourceKey.palette key) (SourceKey.mode key) true
           else GSVector4i.zero)
          INVALID_RECT 0 hcentry refs in
      (set_source_heap (<[src := obj]> (source_heap s)) s, Some src)
  end.

Definition ReturnSource (env : Env) (source : option ptr) (uv_rect : Rect)
    (flags : PaletteRecordFlags) (s : State) : outcome (State * ptr) :=
  match source with
  | None => NullDereference
  | Some sp =>
      match source_heap s !! sp with
      | None => UseAfterFree
      | Some src =>
          let s := set_hash_cache
                     (hc_alter (HashCacheEntry.set_last_used_frame (GetFrameNumber env))
                               (Source.from_hash_cache src) (s_hash_cache s)) s in
          let s :=
            if dump_textures env
            then set_source_heap
                   (<[sp := Source.set_active_uv
                              (GSVector4i.runion (Source.active_uv_rect src) uv_rect)
                              (Z.lor (Source.palette_record_flags src) flags) src]>
                      (source_heap s)) s
            else s in
          Done (s, sp)
      end
  end.

(** The scan of [LookupSource]: the first source of the list with the key. *)
Definition find_source (s : State) (key : SourceKey) (l : list ptr) : option ptr :=
  List.find (fun n => match source_heap s !! n with
                      | Some src => bool_decide (Source.key src = key)
                      | None => false
                      end) l.

Definition LookupSource (env : Env) (key : SourceKey) (rect : Rect) (flags : PaletteRecordFlags)
    (s : State) : outcome (State * ptr) :=
  let list := PageEntry.sources (page_at s (SourceKey.page key)) in
  match find_source s key list with
  | Some n =>
      let s := update_page (SourceKey.page key)
                 (fun pg => PageEntry.set_sources (ListMoveToFront n (PageEntry.sources pg)) pg) s in
      ReturnSource env (Some n) rect flags s
  | None =>
      let '(s, created) := CreateSource env key s in
      ReturnSource env created rect flags s
  end.

(** ** Compaction (lines 2059-2115) *)

Definition MAX_HASH_CACHE_AGE : Z := 600.
Definition MAX_HASH_CACHE_SIZE : Z := 500.

Definition over_budget (s : State) : bool :=
  (MAX_HASH_CACHE_SIZE <? Z.of_nat (length (s_hash_cache s))) ||
  (s_max_hash_cache_memory_usage s <=? s_hash_cache_memory_usage s).

(** [std::sort] by the second component; insertion keeps equal frames in
    list order. *)
Fixpoint purge_insert (x : HashCacheKey * Z) (l : list (HashCacheKey * Z))
    : list (HashCacheKey * Z) :=
  match l with
  | [] => [x]
  | y :: l' => if snd x <? snd y then x :: y :: l' else y :: purge_insert x l'
  end.

Definition purge_sort (l : list (HashCacheKey * Z)) : list (HashCacheKey * Z) :=
  fold_right purge_insert [] l.

(** One round of the first loop, on the node [it]. *)
Definition compact_step (env : Env) (min_frame_number : Z)
    (st : State * bool * list (HashCacheKey * Z)) (it : HashCacheKey)
    : State * bool * list (HashCacheKey * Z) :=
  let '(s, might_need_cache_purge, purge_list) := st in
  match hc_find it (s_hash_cache s) with
  | None => st
  | Some e =>
      if (HashCacheEntry.ref_count e =? 0) && (HashCacheEntry.last_used_frame e <? min_frame_number)
      then (RemoveFromHashCache env it s, might_need_cache_purge, purge_list)
      else if might_need_cache_purge then
        (* We might free up enough just with "normal" removals above. *)
        if over_budget s
        then (s, true, purge_list ++ [(it, s32 (HashCacheEntry.last_used_frame e))])
        else (s, false, purge_list)
      else st
  end.

(** The purge loop (lines 2102-2113). *)
Fixpoint purge_loop (env : Env) (purge_list : list (HashCacheKey * Z)) (s : State) : State :=
  if over_budget s then
    match purge_list with
    | [] => s (* Cannot find hash cache entries to purge *)
    | (it, _) :: rest => purge_loop env rest (RemoveFromHashCache env it s)
    end
  else s.

(** [s_hash_cache_purge_list] is cleared before it is filled and read only
    after that, so it is a local here. *)
Definition Compact (env : Env) (s : State) : State :=
  let might_need_cache_purge := over_budget s in
  let frame_number := GetFrameNumber env in
  let min_frame_number :=
    if MAX_HASH_CACHE_AGE <? frame_number then frame_number - MAX_HASH_CACHE_AGE else 0 in
  let '(s, might_need_cache_purge, purge_list) :=
    fold_left (compact_step env min_frame_number) (map fst (s_hash_cache s))
              (s, might_need_cache_purge, []) in
  if might_need_cache_purge then purge_loop env (purge_sort purge_list) s else s.

(** ** Full invalidation (lines 1312-1344) *)

Definition Invalidate (env : Env) (s : State) : State :=
  let s :=
    fold_left
      (fun s i =>
         let s := InvalidatePageSources_all env i s in
         let s := update_page i
                    (PageEntry.set_draw 0 GSVector4i.zero
                       (replicate NUM_PAGE_DRAW_RECTS GSVector4i.zero)) s in
         (* while (page.writes.tail) RemoveVRAMWrite(page.writes.tail->ref) *)
         fold_left (fun s it => RemoveVRAMWrite env it s) (rev (PageEntry.writes (page_at s i))) s)
      (seq 0 NUM_VRAM_PAGES) s in
  ClearHashCache env s.

(** ** Replacement names (lines 120-204, 2151-2401) *)

Inductive TextureReplacementType : Type :=
  | VRAMReplacement
  | TextureFromVRAMWrite
  | TextureFromPage.

#[global] Instance TextureReplacementType_eq_dec : EqDecision TextureReplacementType.
Proof. solve_decision. Defined.

Module TextureReplacementName.
Record t : Type := mk {
  src_hash : Z;
  pal_hash : Z;
  src_width : Z;
  src_height : Z;
  type : TextureReplacementType;
  texture_mode : Z;
  offset_x : Z;
  offset_y : Z;
  width : Z;
  height : Z;
  pal_min : Z;
  pal_max : Z
}.
#[global] Instance eq_dec : EqDecision t.
Proof. solve_decision. Defined.
End TextureReplacementName.

Definition s_texture_replacement_mode_names : list string :=
  ["P4"; "P8"; "C16"; "C16"; "STP4"; "STP8"; "STC16"; "STC16"]%string.

(** [static_cast<GPUTextureMode>(texture_mode & 3u)] *)
Definition GetTextureMode (n : TextureReplacementName.t) : GPUTextureMode :=
  mode_of_Z (Z.land (TextureReplacementName.texture_mode n) 3).

Definition IsSemitransparent (n : TextureReplacementName.t) : bool :=
  4 <=? TextureReplacementName.texture_mode n.

(** *** Formatting *)

(** Modelled from the spec: the number formatting of the fmt library behind
    [TinyString::from_format], which is not among the sources ("16 hex
    digits", decimal widths and offsets): [{}] prints an unsigned integer
    in decimal without padding, [{:016X}] in upper-case hexadecimal,
    zero-padded to 16 digits. *)
Definition digit_char (d : Z) : ascii :=
  ascii_of_nat (Z.to_nat (if d <? 10 then 48 + d else 55 + d)).

Fixpoint format_digits (base : Z) (rounds : nat) (v : Z) (acc : string) : string :=
  match rounds with
  | O => acc
  | S rounds' =>
      let acc := String (digit_char (v mod base)) acc in
      if v / base =? 0 then acc else format_digits base rounds' (v / base) acc
  end.

Definition format_dec (v : Z) : string := format_digits 10 20 v ""%string.

Fixpoint pad_zeros (n : nat) (s : string) : string :=
  match n with
  | O => s
  | S n' => String "0"%char (pad_zeros n' s)
  end.

Definition format_016X (v : Z) : string :=
  let digits := format_digits 16 16 v ""%string in
  pad_zeros (16 - String.length digits) digits.

Definition join_dash (parts : list string) : string := String.concat "-"%string parts.

Definition ToString (n : TextureReplacementName.t) : string :=
  let type_str :=
    if bool_decide (TextureReplacementName.type n = TextureFromVRAMWrite)
    then "texupload"%string else "texpage"%string in
  let mode_str :=
    nth (Z.to_nat (TextureReplacementName.texture_mode n)) s_texture_replacement_mode_names ""%string in
  let dims (w h : Z) : string := (format_dec w ++ "x" ++ format_dec h)%string in
  if TextureModeHasPalette (GetTextureMode n) then
    join_dash
      [ type_str; mode_str;
        format_016X (TextureReplacementName.src_hash n);
        format_016X (TextureReplacementName.pal_hash n);
        dims (TextureReplacementName.src_width n) (TextureReplacementName.src_height n);
        format_dec (TextureReplacementName.offset_x n);
        format_dec (TextureReplacementName.offset_y n);
        dims (TextureReplacementName.width n) (TextureReplacementName.height n);
        ("P" ++ format_dec (TextureReplacementName.pal_min n))%string;
        format_dec (TextureReplacementName.pal_max n) ]
  else
    join_dash
      [ type_str; mode_str;
        format_016X (TextureReplacementName.src_hash n);
        dims (TextureReplacementName.src_width n) (TextureReplacementName.src_height n);
        format_dec (TextureReplacementName.offset_x n);
        format_dec (TextureReplacementName.offset_y n);
        dims (TextureReplacementName.width n) (TextureReplacementName.height n) ].

(** *** Parsing *)

(** Modelled from the spec: [std::string_view::find] with a one-character
    needle, [substr], and [StringUtil::FromChars] of [common/string_util.h]
    (a wrapper of [std::from_chars]), none of which is among the sources.
    [find] is [None] for [npos]; [FromChars] reads the longest run of digits
    at the front of the token and fails on an empty run or on a value that
    does not fit the type. *)
Fixpoint sv_find (c : ascii) (pos : nat) (s : string) : option nat :=
  match s with
  | EmptyString => None
  | String a s' =>
      match pos with
      | O => if Ascii.eqb a c then Some 0%nat
             else option_map S (sv_find c 0 s')
      | S pos' => option_map S (sv_find c pos' s')
      end
  end.

Definition sv_substr (pos n : nat) (s : string) : string := substring pos n s.
Definition sv_substr_from (pos : nat) (s : string) : string :=
  substring pos (String.length s - pos) s.

Definition digit_value (base : Z) (a : ascii) : option Z :=
  let c := Z.of_nat (nat_of_ascii a) in
  let d := if (48 <=? c) && (c <=? 57) then Some (c - 48)
           else if (97 <=? c) && (c <=? 122) then Some (c - 87)
           else if (65 <=? c) && (c <=? 90) then Some (c - 55)
           else None in
  match d with
  | Some v => if v <? base then Some v else None
  | None => None
  end.

(** The digits at the front of the token, most significant first. *)
Fixpoint leading_digits (base : Z) (s : string) : list Z :=
  match s with
  | EmptyString => []
  | String a s' =>
      match digit_value base a with
      | Some d => d :: leading_digits base s'
      | None => []
      end
  end.

Definition FromChars (bits : Z) (base : Z) (token : string) : option Z :=
  match leading_digits base token with
  | [] => None
  | ds =>
      let v := fold_left (fun acc d => acc * base + d) ds 0 in
      if v <? 2 ^ bits then Some v else None
  end.

(** The parser keeps [start_pos] and [end_pos] and bails out with [false]
    at the first token it cannot read; [None] is that [false].  [self] is
    the object [Parse] is called on: the 16-bit branch leaves its palette
    fields as they were. *)
Definition parse_mode (token : string) : option Z :=
  match List.find (fun '(i, name) => String.eqb token name)
                  (combine (seq 0 8) s_texture_replacement_mode_names) with
  | Some (i, _) => Some (Z.of_nat i)
  | None => None
  end.

(** A decimal field that ends at the next [sep]: the token, and the
    position after the separator. *)
Definition next_field (sep : ascii) (file_title : string) (start_pos : nat)
    : option (string * nat) :=
  match sv_find sep (start_pos + 1) file_title with
  | None => None
  | Some end_pos => Some (sv_substr start_pos (end_pos - start_pos) file_title, (end_pos + 1)%nat)
  end.

Definition nonzero (v : option Z) : option Z :=
  match v with
  | Some 0 => None
  | other => other
  end.

Definition Parse (self : TextureReplacementName.t) (file_title : string)
    : option TextureReplacementName.t :=
  let start_pos := 0%nat in
  end_pos ← sv_find "-"%char start_pos file_title;
  (* type *)
  let token := sv_substr start_pos end_pos file_title in
  type ← (if String.eqb token "texupload"%string then Some TextureFromVRAMWrite
          else if String.eqb token "texpage"%string then Some TextureFromPage
          else None);
  let start_pos := (end_pos + 1)%nat in
  (* mode *)
  '(token, start_pos) ← next_field "-"%char file_title start_pos;
  texture_mode ← parse_mode token;
  (* src_hash *)
  '(token, start_pos) ← next_field "-"%char file_title start_pos;
  src_hash ← (if bool_decide (String.length token = 16%nat) then FromChars 64 16 token else None);
  end_pos ← sv_find "-"%char (start_pos + 1) file_title;
  if TextureModeHasPalette (mode_of_Z (Z.land texture_mode 3)) then
    (* pal_hash *)
    let token := sv_substr start_pos (end_pos - start_pos) file_title in
    pal_hash ← (if bool_decide (String.length token = 16%nat) then FromChars 64 16 token else None);
    let start_pos := (end_pos + 1)%nat in
    (* src_width, src_height, offset_x, offset_y, width, height *)
    '(token, start_pos) ← next_field "x"%char file_title start_pos;
    src_width ← nonzero (FromChars 16 10 token);
    '(token, start_pos) ← next_field "-"%char file_title start_pos;
    src_height ← nonzero (FromChars 16 10 token);
    '(token, start_pos) ← next_field "-"%char file_title start_pos;
    offset_x ← FromChars 16 10 token;
    '(token, start_pos) ← next_field "-"%char file_title start_pos;
    offset_y ← FromChars 16 10 token;
    '(token, start_pos) ← next_field "x"%char file_title start_pos;
    width ← nonzero (FromChars 16 10 token);
    '(token, start_pos) ← next_field "-"%char file_title start_pos;
    height ← nonzero (FromChars 16 10 token);
    end_pos ← sv_find "-"%char (start_pos + 1) file_title;
    if negb (bool_decide (String.get start_pos file_title = Some "P"%char)) then None
    else
      (* pal_min *)
      let token := sv_substr (start_pos + 1) (end_pos - start_pos - 1) file_title in
      pal_min ← FromChars 8 10 token;
      let start_pos := (end_pos + 1)%nat in
      (* pal_max *)
      let token := sv_substr_from start_pos file_title in
      pal_max ← FromChars 8 10 token;
      if pal_max <? pal_min then None
      else Some (TextureReplacementName.mk src_hash pal_hash src_width src_height type
                   texture_mode offset_x offset_y width height pal_min pal_max)
  else
    (* src_width: the token runs to the dash found after src_hash *)
    let token := sv_substr start_pos (end_pos - start_pos) file_title in
    src_width ← nonzero (FromChars 16 10 token);
    let start_pos := (end_pos + 1)%nat in
    '(token, start_pos) ← next_field "-"%char file_title start_pos;
    src_height ← nonzero (FromChars 16 10 token);
    '(token, start_pos) ← next_field "-"%char file_title start_pos;
    offset_x ← FromChars 16 10 token;
    '(token, start_pos) ← next_field "-"%char file_title start_pos;
    offset_y ← FromChars 16 10 token;
    '(token, start_pos) ← next_field "x"%char file_title start_pos;
    width ← nonzero (FromChars 16 10 token);
    (* height *)
    let token := sv_substr_from start_pos file_title in
    height ← nonzero (FromChars 16 10 token);
    Some (TextureReplacementName.mk src_hash (TextureReplacementName.pal_hash self)
            src_width src_height type texture_mode offset_x offset_y width height
            (TextureReplacementName.pal_min self) (TextureReplacementName.pal_max self)).

(** ** Palette matching (lines 2602-2620) *)

Definition IsMatchingReplacementPalette (env : Env) (full_palette_hash : HashType)
    (m : GPUTextureMode) (p : GPUTexturePaletteReg) (name : TextureReplacementName.t) : bool :=
  if negb (TextureModeHasPalette m) then true
  else
    let full_pal_max := GetPaletteWidth m - 1 in
    if (TextureReplacementName.pal_min name =? 0) &&
       (TextureReplacementName.pal_max name =? full_pal_max)
    then TextureReplacementName.pal_hash name =? full_palette_hash
    else if VRAM_WIDTH <=? GetXBase p + TextureReplacementName.pal_max name
    then false (* the range goes off the edge of VRAM *)
    else
      HashPartialPalette env p m (TextureReplacementName.pal_min name)
                         (TextureReplacementName.pal_max name)
      =? TextureReplacementName.pal_hash name.

(** ** VRAM replacement names (lines 2124-2143, 2735-2747, 3045-3056) *)

Module VRAMReplacementName.
Record t : Type := mk { low : Z; high : Z }.

(** [{:08X}]: upper-case hexadecimal, zero-padded to at least 8 digits
    (the fmt library, as for [format_016X]). *)
Definition format_08X (v : Z) : string :=
  let digits := format_digits 16 16 v ""%string in
  pad_zeros (8 - String.length digits) digits.

Definition ToString (n : t) : string := (format_08X (high n) ++ format_08X (low n))%string.

Definition Parse (file_title : string) : option t :=
  if negb (String.length file_title =? 43)%nat then None
  else
    let high_value := FromChars 64 16 (sv_substr 11 16 file_title) in
    let low_value := FromChars 64 16 (sv_substr_from (11 + 16) file_title) in
    match high_value, low_value with
    | Some high, Some low => Some (mk low high)
    | _, _ => None
    end.
End VRAMReplacementName.

(** The file title [GetVRAMWriteDumpFilename] gives a dump: its format
    string is ["vram-write-{}.png"]. *)
Definition GetVRAMWriteDumpTitle (name : VRAMReplacementName.t) : string :=
  ("vram-write-" ++ VRAMReplacementName.ToString name)%string.

Definition GetTextureReplacementTypeFromFileTitle (path : string)
    : option TextureReplacementType :=
  if String.prefix "vram-write-" path then Some VRAMReplacement
  else if String.prefix "texupload-" path then Some TextureFromVRAMWrite
  else if String.prefix "texpage-" path then Some TextureFromPage
  else None.

(** ** Drawn-area queries (lines 1242-1310) *)

Definition IsPageDrawn (s : State) (page_index : nat) (rect : Rect) : bool :=
  let page := page_at s page_index in
  if (PageEntry.num_draw_rects page =? 0)%nat ||
     negb (GSVector4i.rintersects (PageEntry.total_draw_rect page) rect)
  then false
  else if (PageEntry.num_draw_rects page =? 1)%nat
  then true (* if there's only a single draw rect, it'll match the total *)
  else existsb (fun i => GSVector4i.rintersects (PageEntry.draw_rects page !!! i) rect)
               (seq 0 (PageEntry.num_draw_rects page)).

Definition IsRectDrawn (s : State) (rect : Rect) : bool :=
  negb (LoopRectPagesWithEarlyExit rect (fun pn => negb (IsPageDrawn s pn rect))).

(** The release build: the [_DEBUG] block only logs. *)
Definition AreSourcePagesDrawn (s : State) (key : SourceKey) (rect : Rect) : bool :=
  let page := Z.of_nat (SourceKey.page key) in
  let yoffs := Z.land page VRAM_PAGE_Y_MASK in
  let wrapped (k : Z) : nat := Z.to_nat (Z.land (page + k) VRAM_PAGE_X_MASK + yoffs) in
  match SourceKey.mode key with
  | Palette4Bit => IsPageDrawn s (SourceKey.page key) rect
  | Palette8Bit =>
      (* 2 P4 pages per P8 page. *)
      IsPageDrawn s (SourceKey.page key) rect || IsPageDrawn s (wrapped 1) rect
  | Direct16Bit | Reserved_Direct16Bit =>
      (* 4 P4 pages per C16 page. *)
      IsPageDrawn s (SourceKey.page key) rect || IsPageDrawn s (wrapped 1) rect ||
      IsPageDrawn s (wrapped 2) rect || IsPageDrawn s (wrapped 3) rect
  end.

(** [CopyVRAM] (lines 871-896), after [GPU_SW_Rasterizer::CopyVRAM] has
    moved the pixels: [convert_copies_to_writes] is the option of
    [s_config] it reads. *)
Definition CopyVRAM (env : Env) (convert_copies_to_writes : bool) (dst_bounds : Rect)
    (s : State) : State :=
  let s :=
    if convert_copies_to_writes
    then
      (* first dump out any overlapping writes with the old data *)
      fold_left
        (fun s pn =>
           fold_left
             (fun s it =>
                match write_heap s !! it with
                | None => s
                | Some w =>
                    if GSVector4i.rintersects (VRAMWrite.active_rect w) dst_bounds
                    then SyncVRAMWritePaletteRecords env it s
                    else s
                end)
             (PageEntry.writes (page_at s pn)) s)
        (LoopRectPages dst_bounds) s
    else s in
  AddWrittenRectangle env dst_bounds convert_copies_to_writes s.

(** ** Texture decoding (lines 1034-1164) *)

(** The destination of a decode: the 32-bit texels stored so far, by the
    byte address of each store.  [dest_stride] is in bytes, as in the
    source, and [dest_ptr++] moves four bytes on. *)
Abbreviation TexelBuffer := (gmap Z Z).

(** The decoders read the page through a pointer into [g_vram] (an index
    here), the palette through a pointer to its halfwords ([palette i] is
    [palette[i]]), and convert every colour with
    [VRAMRGBA5551ToRGBA8888] of [gpu_types.h], which is not among the
    sources: the decoders are written for any such conversion. *)
Section Decode.

Variable VRAMRGBA5551ToRGBA8888 : Z -> Z.
Variable env : Env.
Variable palette : Z -> Z.

(** One round of the inner loop of lines 1045-1052. *)
Definition decode4_fast_step (st : Z * Z * TexelBuffer) : Z * Z * TexelBuffer :=
  let '(page_ptr, dest_ptr, mem) := st in
  let pp := g_vram env page_ptr in
  let page_ptr := page_ptr + 1 in
  let mem := <[dest_ptr := VRAMRGBA5551ToRGBA8888 (palette (Z.land pp 15))]> mem in
  let dest_ptr := dest_ptr + 4 in
  let mem := <[dest_ptr := VRAMRGBA5551ToRGBA8888 (palette (Z.land (Z.shiftr pp 4) 15))]> mem in
  let dest_ptr := dest_ptr + 4 in
  let mem := <[dest_ptr := VRAMRGBA5551ToRGBA8888 (palette (Z.land (Z.shiftr pp 8) 15))]> mem in
  let dest_ptr := dest_ptr + 4 in
  let mem := <[dest_ptr := VRAMRGBA5551ToRGBA8888 (palette (Z.shiftr pp 12))]> mem in
  let dest_ptr := dest_ptr + 4 in
  (page_ptr, dest_ptr, mem).

(** One round of the inner loop of lines 1067-1076. *)
Definition decode4_slow_step (st : Z * Z * Z * Z * TexelBuffer) : Z * Z * Z * Z * TexelBuffer :=
  let '(page_ptr, dest_ptr, offs, texel, mem) := st in
  let '(texel, page_ptr) :=
    if offs =? 0 then (g_vram env page_ptr, page_ptr + 1) else (texel, page_ptr) in
  let mem := <[dest_ptr := VRAMRGBA5551ToRGBA8888 (palette (Z.land texel 15))]> mem in
  let dest_ptr := dest_ptr + 4 in
  let texel := u16 (Z.shiftr texel 4) in
  let offs := u32 (offs + 1) mod 4 in
  (page_ptr, dest_ptr, offs, texel, mem).

Definition DecodeTexture4 (page : Z) (width height : Z) (dest : Z) (dest_stride : Z)
    (mem : TexelBuffer) : TexelBuffer :=
  if width mod 4 =? 0
  then
    let vram_width := width / 4 in
    let row (st : Z * Z * TexelBuffer) :=
      let '(page, dest, mem) := st in
      let '(_, _, mem) := Nat.iter (Z.to_nat vram_width) decode4_fast_step (page, dest, mem) in
      (page + VRAM_WIDTH, dest + dest_stride, mem) in
    snd (Nat.iter (Z.to_nat height) row (page, dest, mem))
  else
    let row (st : Z * Z * TexelBuffer) :=
      let '(page, dest, mem) := st in
      let '(_, _, _, _, mem) :=
        Nat.iter (Z.to_nat width) decode4_slow_step (page, dest, 0, 0, mem) in
      (page + VRAM_WIDTH, dest + dest_stride, mem) in
    snd (Nat.iter (Z.to_nat height) row (page, dest, mem)).

(** One round of the inner loop of lines 1094-1099. *)
Definition decode8_fast_step (st : Z * Z * TexelBuffer) : Z * Z * TexelBuffer :=
  let '(page_ptr, dest_ptr, mem) := st in
  let pp := g_vram env page_ptr in
  let page_ptr := page_ptr + 1 in
  let mem := <[dest_ptr := VRAMRGBA5551ToRGBA8888 (palette (Z.land pp 255))]> mem in
  let dest_ptr := dest_ptr + 4 in
  let mem := <[dest_ptr := VRAMRGBA5551ToRGBA8888 (palette (Z.shiftr pp 8))]> mem in
  let dest_ptr := dest_ptr + 4 in
  (page_ptr, dest_ptr, mem).

(** One round of the inner loop of lines 1114-1123. *)
Definition decode8_slow_step (st : Z * Z * Z * Z * TexelBuffer) : Z * Z * Z * Z * TexelBuffer :=
  let '(page_ptr, dest_ptr, offs, texel, mem) := st in
  let '(texel, page_ptr) :=
    if offs =? 0 then (g_vram env page_ptr, page_ptr + 1) else (texel, page_ptr) in
  let mem := <[dest_ptr := VRAMRGBA5551ToRGBA8888 (palette (Z.land texel 255))]> mem in
  let dest_ptr := dest_ptr + 4 in
  let texel := u16 (Z.shiftr texel 8) in
  let offs := Z.lxor offs 1 in
  (page_ptr, dest_ptr, offs, texel, mem).

Definition DecodeTexture8 (page : Z) (width height : Z) (dest : Z) (dest_stride : Z)
    (mem : TexelBuffer) : TexelBuffer :=
  if width mod 2 =? 0
  then
    let vram_width := width / 2 in
    let row (st : Z * Z * TexelBuffer) :=
      let '(page, dest, mem) := st in
      let '(_, _, mem) := Nat.iter (Z.to_nat vram_width) decode8_fast_step (page, dest, mem) in
      (page + VRAM_WIDTH, dest + dest_stride, mem) in
    snd (Nat.iter (Z.to_nat height) row (page, dest, mem))
  else
    let row (st : Z * Z * TexelBuffer) :=
      let '(page, dest, mem) := st in
      let '(_, _, _, _, mem) :=
        Nat.iter (Z.to_nat width) decode8_slow_step (page, dest, 0, 0, mem) in
      (page + VRAM_WIDTH, dest + dest_stride, mem) in
    snd (Nat.iter (Z.to_nat height) row (page, dest, mem)).

(** The loop body of line 1139. *)
Definition decode16_step (st : Z * Z * TexelBuffer) : Z * Z * TexelBuffer :=
  let '(page_ptr, dest_ptr, mem) := st in
  (page_ptr + 1, dest_ptr + 4,
   <[dest_ptr := VRAMRGBA5551ToRGBA8888 (g_vram env page_ptr)]> mem).

Definition DecodeTexture16 (page : Z) (width height : Z) (dest : Z) (dest_stride : Z)
    (mem : TexelBuffer) : TexelBuffer :=
  let row (st : Z * Z * TexelBuffer) :=
    let '(page, dest, mem) := st in
    let '(_, _, mem) := Nat.iter (Z.to_nat width) decode16_step (page, dest, mem) in
    (page + VRAM_WIDTH, dest + dest_stride, mem) in
  snd (Nat.iter (Z.to_nat height) row (page, dest, mem)).

(** [DecodeTexture(GPUTextureMode, const u16*, const u16*, u32*, u32, u32,
    u32)], lines 1146-1164. *)
Definition DecodeTexture (mode : GPUTextureMode) (page_ptr : Z) (dest : Z) (dest_stride : Z)
    (width height : Z) (mem : TexelBuffer) : TexelBuffer :=
  match mode with
  | Palette4Bit => DecodeTexture4 page_ptr width height dest dest_stride mem
  | Palette8Bit => DecodeTexture8 page_ptr width height dest dest_stride mem
  | Direct16Bit | Reserved_Direct16Bit => DecodeTexture16 page_ptr width height dest dest_stride mem
  end.

End Decode.

(** ** Palette bounds (lines 1491-1570) *)

(** Modelled from the spec: the unsigned-byte operations of the vector type
    of [gsvector.h] and [Common::AlignDownPow2] of [align.h] (not among the
    sources), as far as [ReducePaletteBounds] uses them.  A vector is its
    sixteen bytes, lowest address first: [load] reads eight halfwords of
    VRAM, [min_u8] and [max_u8] work byte by byte, [minv_u8] and [maxv_u8]
    reduce the sixteen bytes to their minimum and maximum. *)
Definition GSVector4i_load (env : Env) (ptr : Z) : list Z :=
  flat_map (fun v => [Z.land v 255; Z.land (Z.shiftr v 8) 255]) (vram_run env ptr 8).
Definition min_u8 (a b : list Z) : list Z := zip_with Z.min a b.
Definition max_u8 (a b : list Z) : list Z := zip_with Z.max a b.
Definition minv_u8 (v : list Z) : Z := fold_right Z.min 255 v.
Definition maxv_u8 (v : list Z) : Z := fold_right Z.max 0 v.
Definition AlignDownPow2 (value alignment : Z) : Z := Z.land value (Z.lnot (alignment - 1)).

(** One round of the inner loop of lines 1509-1518. *)
Definition reduce4_step (env : Env) (st : Z * Z * Z) : Z * Z * Z :=
  let '(ptr, pal_min, pal_max) := st in
  let val := g_vram env ptr in
  let ptr := ptr + 1 in
  let p0 := Z.land val 15 in
  let p1 := Z.land (Z.shiftr val 4) 15 in
  let p2 := Z.land (Z.shiftr val 8) 15 in
  let p3 := Z.land (Z.shiftr val 12) 15 in
  (ptr, Z.min pal_min (Z.min p0 (Z.min p1 (Z.min p2 p3))),
        Z.max pal_max (Z.max p0 (Z.max p1 (Z.max p2 p3)))).

(** One round of the vector loop of lines 1536-1543. *)
Definition reduce8_vector_step (env : Env) (st : Z * list Z * list Z) : Z * list Z * list Z :=
  let '(ptr, min, max) := st in
  let v := GSVector4i_load env ptr in
  let ptr := ptr + 8 in
  (ptr, min_u8 min v, max_u8 max v).

(** One round of the remainder loop of lines 1549-1556. *)
Definition reduce8_step (env : Env) (st : Z * Z * Z) : Z * Z * Z :=
  let '(ptr, pal_min, pal_max) := st in
  let val := g_vram env ptr in
  let ptr := ptr + 1 in
  let p0 := Z.land val 255 in
  let p1 := Z.shiftr val 8 in
  (ptr, Z.min pal_min (Z.min p0 p1), Z.max pal_max (Z.max p0 p1)).

(** One row of the 8-bit scan (lines 1527-1556): [x] of the vector loop
    runs over 8, 16, ... below [aligned_width], a multiple of 8, which
    makes [aligned_width / 8 - 1] rounds. *)
Definition reduce8_row (env : Env) (rect_width aligned_width : Z) (st : Z * Z * Z) : Z * Z * Z :=
  let '(row_ptr, pal_min, pal_max) := st in
  let ptr := row_ptr in
  let row_ptr := row_ptr + VRAM_WIDTH in
  let '(ptr, pal_min, pal_max) :=
    if 0 <? aligned_width
    then
      let min := GSVector4i_load env ptr in
      let max := min in
      let ptr := ptr + 8 in
      let '(ptr, min, max) :=
        Nat.iter (Z.to_nat (aligned_width / 8 - 1)) (reduce8_vector_step env) (ptr, min, max) in
      (ptr, Z.min pal_min (minv_u8 min), Z.max pal_max (maxv_u8 max))
    else (ptr, pal_min, pal_max) in
  let '(_, pal_min, pal_max) :=
    Nat.iter (Z.to_nat (rect_width - aligned_width)) (reduce8_step env) (ptr, pal_min, pal_max) in
  (row_ptr, pal_min, pal_max).

Definition reduce4_row (env : Env) (rect_width : Z) (st : Z * Z * Z) : Z * Z * Z :=
  let '(row_ptr, pal_min, pal_max) := st in
  let ptr := row_ptr in
  let row_ptr := row_ptr + VRAM_WIDTH in
  let '(_, pal_min, pal_max) :=
    Nat.iter (Z.to_nat rect_width) (reduce4_step env) (ptr, pal_min, pal_max) in
  (row_ptr, pal_min, pal_max).

Definition ReducePaletteBounds (env : Env) (rect : Rect) (mode : GPUTextureMode)
    (palette : GPUTexturePaletteReg) : Z * Z :=
  let pal_min := u32 (GetPaletteWidth mode - 1) in
  let pal_max := 0 in
  let rect_width := u32 (GSVector4i.width rect) in
  let rect_height := u32 (GSVector4i.height rect) in
  let row_ptr := GSVector4i.top rect * VRAM_WIDTH + GSVector4i.left rect in
  let '(_, pal_min, pal_max) :=
    match mode with
    | Palette4Bit =>
        Nat.iter (Z.to_nat rect_height) (reduce4_row env rect_width) (row_ptr, pal_min, pal_max)
    | _ =>
        let aligned_width := AlignDownPow2 rect_width 8 in
        Nat.iter (Z.to_nat rect_height) (reduce8_row env rect_width aligned_width)
                 (row_ptr, pal_min, pal_max)
    end in
  (* Clamp to VRAM bounds. *)
  let x_base := GetXBase palette in
  if VRAM_WIDTH <=? u32 (x_base + pal_max)
  then (Z.min pal_min (u32 (VRAM_WIDTH - x_base - 1)),
        Z.min pal_max (u32 (VRAM_WIDTH - x_base - 1)))
  else (pal_min, pal_max).

(** ** Sequencing calls *)

Definition obind {A B : Type} (o : outcome A) (f : A -> outcome B) : outcome B :=
  match o with
  | Done a => f a
  | NullDereference => NullDereference
  | UseAfterFree => UseAfterFree
  end.

Definition omap {A B : Type} (f : A -> B) (o : outcome A) : outcome B :=
  obind o (fun a => Done (f a)).

(** A run of source lookups, each with the environment it happens in. *)
Fixpoint run_lookups (ops : list (Env * SourceKey * Rect * PaletteRecordFlags)) (s : State)
    : outcome State :=
  match ops with
  | [] => Done s
  | (env, key, rect, flags) :: rest =>
      obind (LookupSource env key rect flags s) (fun '(s, _) => run_lookups rest s)
  end.

(** ** What the claims speak about *)

(** The squared distance between the centres of two rectangles. *)
Definition centroid_distance_sq (a b : Rect) : Q :=
  let cx (r : Rect) : Q := ((inject_Z (GSVector4i.left r) + inject_Z (GSVector4i.right r)) * (1 # 2))%Q in
  let cy (r : Rect) : Q := ((inject_Z (GSVector4i.top r) + inject_Z (GSVector4i.bottom r)) * (1 # 2))%Q in
  ((cx a - cx b) * (cx a - cx b) + (cy a - cy b) * (cy a - cy b))%Q.

(** The palette entries at indices [min..max] of the palette at [p]. *)
Definition palette_sub_range (env : Env) (p : GPUTexturePaletteReg) (min max : Z) : list Z :=
  vram_run env (VRAMPalettePointer p + min) (max - min + 1).

Definition in_vram (r : Rect) : Prop :=
  0 <= GSVector4i.left r /\ GSVector4i.left r <= GSVector4i.right r /\
  GSVector4i.right r <= VRAM_WIDTH /\
  0 <= GSVector4i.top r /\ GSVector4i.top r <= GSVector4i.bottom r /\
  GSVector4i.bottom r <= VRAM_HEIGHT.

(** [S] is the part of [A] a later write touched: a non-empty sub-rectangle
    of [A] other than [A] itself. *)
Definition partial_overlap (A S : Rect) : Prop :=
  GSVector4i.rintersect A S = S /\ GSVector4i.rempty S = false /\ GSVector4i.eq A S = false.

(** The remainders exactly tile [A] minus [S]. *)
Definition exact_remainder (A S : Rect) (rects : list Rect) : Prop :=
  (forall px py,
      GSVector4i.covers A px py /\ ~ GSVector4i.covers S px py <->
      exists r, r ∈ rects /\ GSVector4i.covers r px py) /\
  (forall i j r1 r2 px py,
      i <> j -> rects !! i = Some r1 -> rects !! j = Some r2 ->
      GSVector4i.covers r1 px py -> ~ GSVector4i.covers r2 px py).

(** The active rectangles of the writes linked into page [pn], in list order. *)
Definition page_write_rects (s : State) (pn : nat) : list (option Rect) :=
  map (fun it => VRAMWrite.active_rect <$> write_heap s !! it) (PageEntry.writes (page_at s pn)).

(** Every page has an entry. *)
Definition pages_allocated (s : State) : Prop := length (s_pages s) = NUM_VRAM_PAGES.

(** The fields fit the types the structure declares for them, and the
    mode indexes the table of mode names. *)
Definition fits_field_types (n : TextureReplacementName.t) : Prop :=
  0 <= TextureReplacementName.src_hash n < 2 ^ 64 /\
  0 <= TextureReplacementName.pal_hash n < 2 ^ 64 /\
  0 <= TextureReplacementName.src_width n < 2 ^ 16 /\
  0 <= TextureReplacementName.src_height n < 2 ^ 16 /\
  0 <= TextureReplacementName.texture_mode n < 8 /\
  0 <= TextureReplacementName.offset_x n < 2 ^ 16 /\
  0 <= TextureReplacementName.offset_y n < 2 ^ 16 /\
  0 <= TextureReplacementName.width n < 2 ^ 16 /\
  0 <= TextureReplacementName.height n < 2 ^ 16 /\
  0 <= TextureReplacementName.pal_min n < 2 ^ 8 /\
  0 <= TextureReplacementName.pal_max n < 2 ^ 8.

Definition nonzero_dimensions (n : TextureReplacementName.t) : Prop :=
  TextureReplacementName.src_width n <> 0 /\ TextureReplacementName.src_height n <> 0 /\
  TextureReplacementName.width n <> 0 /\ TextureReplacementName.height n <> 0.

(** ** Concrete runs *)

Module Scenario.

Definition cfg : Configuration :=
  {| dump_texture_pages := false;
     max_vram_write_splits := 1;
     max_vram_write_coalesce_width := 256;
     max_vram_write_coalesce_height := 16 |}.

(** A stand-in for xxHash in the runs below; no claim depends on it. *)
Definition sum_hash (l : list Z) : Z := fold_left Z.add l 0.

Definition page_texture : GPUTexture := {| GetVRAMUsage := 256 * 256 * 4 |}.
Definition big_texture : GPUTexture := {| GetVRAMUsage := 4096 * 4096 * 4 |}.

(** VRAM filled with [fill], at frame [frame]. *)
Definition env (fill frame : Z) (dump : bool) : Env :=
  {| g_vram := fun _ => fill;
     XXH3_64bits := sum_hash;
     GetFrameNumber := frame;
     dump_textures := dump;
     enable_texture_replacements := false;
     FetchTexture := Some page_texture;
     ApplyTextureReplacements := fun _ _ _ tex => tex |}.

(** The same, with the GPU out of textures. *)
Definition env_out_of_memory : Env :=
  {| g_vram := fun _ => 0;
     XXH3_64bits := sum_hash;
     GetFrameNumber := 1;
     dump_textures := false;
     enable_texture_replacements := false;
     FetchTexture := None;
     ApplyTextureReplacements := fun _ _ _ tex => tex |}.

(** The same, with replacements that scale every page to 4096x4096. *)
Definition env_replacing (fill frame : Z) : Env :=
  {| g_vram := fun _ => fill;
     XXH3_64bits := sum_hash;
     GetFrameNumber := frame;
     dump_textures := false;
     enable_texture_replacements := true;
     FetchTexture := Some page_texture;
     ApplyTextureReplacements := fun _ _ _ _ => big_texture |}.

Definition tracking : State := initial_state true cfg.
Definition not_tracking : State := initial_state false cfg.

Definition key0 : SourceKey := SourceKey.mk 0 Palette4Bit 0.
Definition key1 : SourceKey := SourceKey.mk 1 Palette4Bit 4.

(** *** A 64x64 upload, then a write into its middle *)
Definition upload : Rect := mkRect 0 0 64 64.
Definition middle : Rect := mkRect 16 16 32 32.
Definition after_upload : outcome State := WriteVRAM (env 0 1 false) upload tracking.
Definition after_middle : outcome State :=
  omap (AddWrittenRectangle (env 0 1 false) middle false) after_upload.

(** *** The upload is sampled, then split *)
Definition sampled : outcome State :=
  obind (WriteVRAM (env 0 1 true) upload tracking)
        (fun s => omap fst (LookupSource (env 0 1 true) key0 (mkRect 0 0 16 16) 0 s)).
Definition corner : Rect := mkRect 32 32 48 48.

(** *** A strip is uploaded and sampled, then the next strip arrives *)
Definition strip1 : Rect := mkRect 0 0 64 8.
Definition strip2 : Rect := mkRect 0 8 64 16.
Definition strip_sampled : outcome State :=
  obind (WriteVRAM (env 0 1 true) strip1 tracking)
        (fun s => omap fst (LookupSource (env 0 1 true) key0 (mkRect 0 0 16 8) 0 s)).

(** *** Four separate draws into page 0, then a fifth *)
Definition draws : list Rect :=
  [mkRect 0 0 2 2; mkRect 6 6 10 10; mkRect 40 40 42 42; mkRect 50 100 52 102].
Definition fifth : Rect := mkRect 10 10 12 12.
Definition after_draws : State :=
  fold_left (fun s r => AddDrawnRectangle (env 0 1 false) r r s) draws not_tracking.

(** *** One page stays in use while another is rewritten and sampled
    fifteen times, every texture scaled up by a replacement *)
Definition churn (s : outcome State) (i : nat) : outcome State :=
  let e := env_replacing (Z.of_nat i) (Z.of_nat i) in
  obind s (fun s =>
    omap (fun '(s, _) => AddWrittenRectangle e (mkRect 64 0 128 1) false s)
         (LookupSource e key1 (mkRect 64 0 128 256) 0 s)).
Definition busy : outcome State :=
  fold_left churn (seq 2 15)
            (omap fst (LookupSource (env_replacing 1 1) key0 (mkRect 0 0 64 256) 0 not_tracking)).
Definition key0_entry : HashCacheKey := HashCacheKey.mk 16384 16 0.

(** *** Names of replacement textures *)
Definition blank_name : TextureReplacementName.t :=
  TextureReplacementName.mk 0 0 0 0 VRAMReplacement 0 0 0 0 0 0 0.
Definition name_P4 : TextureReplacementName.t :=
  TextureReplacementName.mk 81985529216486895 18364758544493064720 64 256
    TextureFromVRAMWrite 0 12 34 16 32 0 15.
Definition name_P8 : TextureReplacementName.t :=
  TextureReplacementName.mk 18446744073709551615 1 65535 1 TextureFromPage 5 0 0 256 256 12 47.
Definition name_C16 : TextureReplacementName.t :=
  TextureReplacementName.mk 3735928559 0 64 64 TextureFromPage 2 1 2 64 64 0 0.
Definition name_STC16 : TextureReplacementName.t :=
  TextureReplacementName.mk 3735928559 0 256 128 TextureFromVRAMWrite 6 0 0 256 128 0 0.

(** *** A palette at the right edge of VRAM *)
Definition edge_palette : GPUTexturePaletteReg := 63.
Definition edge_name : TextureReplacementName.t :=
  TextureReplacementName.mk 0
    (sum_hash (palette_sub_range (env 3 1 false) edge_palette 1 100))
    64 64 TextureFromPage 1 0 0 64 64 1 100.

(** *** A palette whose first entries differ from the ones a name covers *)
Definition ramp_env : Env :=
  {| g_vram := fun i => i;
     XXH3_64bits := sum_hash;
     GetFrameNumber := 1;
     dump_textures := false;
     enable_texture_replacements := false;
     FetchTexture := Some page_texture;
     ApplyTextureReplacements := fun _ _ _ tex => tex |}.
Definition ramp_name : TextureReplacementName.t :=
  TextureReplacementName.mk 0
    (sum_hash (palette_sub_range ramp_env 0 12 47))
    64 64 TextureFromPage 1 0 0 64 64 12 47.

End Scenario.

(** ** Notions the proofs use *)

(** The key under which [CreateSource] looks a page up in the hash cache. *)
Definition hash_cache_key_of (env : Env) (key : SourceKey) : HashCacheKey :=
  HashCacheKey.mk (HashPage env (SourceKey.page key) (SourceKey.mode key))
                  (if TextureModeHasPalette (SourceKey.mode key)
                   then HashPalette env (SourceKey.palette key) (SourceKey.mode key) else 0)
                  (mode_to_Z (SourceKey.mode key)).

(** The test [n->ref->key == key] of the lookup loop, for the key [K]. *)
Definition has_key (K : SourceKey) (s : State) (n : ptr) : bool :=
  match source_heap s !! n with
  | Some src => bool_decide (Source.key src = K)
  | None => false
  end.

(** The lookup of [K] finds the object [p]. *)
Definition finds (K : SourceKey) (p : ptr) (s : State) : Prop :=
  pages_allocated s /\
  find_source s K (PageEntry.sources (page_at s (SourceKey.page K))) = Some p.

(** Once a page is among the references and carries the source in front,
    further linking keeps both. *)
Definition linked_in_front (src : ptr) (pk : nat) (st : State * list nat) : Prop :=
  pk ∈ snd st /\ exists l, PageEntry.sources (page_at (fst st) pk) = src :: l.

(** The state [CreateSource] builds, step by step. *)
Definition created_source (env : Env) (key : SourceKey) (sa : State) (hcentry : HashCacheKey)
    : State * ptr :=
  let src := fresh (dom (source_heap sa)) in
  let sb := set_hash_cache
              (hc_alter (fun e => HashCacheEntry.set_sources
                                    (ListAppend src (HashCacheEntry.sources e))
                                    (HashCacheEntry.set_ref_count
                                       (u32 (HashCacheEntry.ref_count e + 1)) e))
                        hcentry (s_hash_cache sa)) sa in
  let st1 := fold_left (add_page_ref true src)
               (LoopXWrappedPages (SourceKey.page key) (TexturePageCountForMode (SourceKey.mode key)))
               (sb, []) in
  let st2 := if TextureModeHasPalette (SourceKey.mode key)
             then fold_left (add_page_ref false src)
                    (LoopXWrappedPages (Z.to_nat (PalettePageNumber (SourceKey.palette key)))
                                       (PalettePageCountForMode (SourceKey.mode key))) st1
             else st1 in
  let obj :=
    Source.mk key
      (HashPage env (SourceKey.page key) (SourceKey.mode key))
      (if TextureModeHasPalette (SourceKey.mode key)
       then HashPalette env (SourceKey.palette key) (SourceKey.mode key) else 0)
      (GetTextureRect (Z.of_nat (SourceKey.page key)) (SourceKey.mode key))
      (if TextureModeHasPalette (SourceKey.mode key)
       then GetPaletteRect (SourceKey.palette key) (SourceKey.mode key) true
       else GSVector4i.zero)
      INVALID_RECT 0 hcentry (snd st2) in
  (set_source_heap (<[src := obj]> (source_heap (fst st2))) (fst st2), src).

(** Page 0 is looked up at frame 1, then page 1. *)
Definition state_of (o : outcome (State * ptr)) : State :=
  match o with
  | Done (s, _) => s
  | _ => Scenario.not_tracking
  end.

Definition first_lookup : State :=
  state_of (LookupSource (Scenario.env 0 1 false) Scenario.key0 (mkRect 0 0 64 256) 0
                         Scenario.not_tracking).

Definition second_lookup : State :=
  state_of (LookupSource (Scenario.env 0 1 false) Scenario.key1 (mkRect 64 0 128 256) 0
                         first_lookup).

(** *** Tokens of a replacement name *)

(** The string has no occurrence of the character. *)
Fixpoint no_char (c : ascii) (s : string) : bool :=
  match s with
  | EmptyString => true
  | String a s' => negb (Ascii.eqb a c) && no_char c s'
  end.

(** The characters of a list of digits, most significant first. *)
Definition digits_str (ds : list Z) : string :=
  fold_right (fun d s => String (digit_char d) s) EmptyString ds.

Definition is_digit (base d : Z) : Prop := 0 <= d < base.

(** The number a list of digits stands for. *)
Definition digits_value (base : Z) (ds : list Z) : Z :=
  fold_left (fun acc d => acc * base + d) ds 0.

(** A token with neither separator in it and at least one character. *)
Definition sep_free (tok : string) : Prop :=
  no_char "-" tok = true /\ no_char "x" tok = true /\ tok <> EmptyString.

(** The first two tokens [ToString] writes. *)
Definition type_token (n : TextureReplacementName.t) : string :=
  if bool_decide (TextureReplacementName.type n = TextureFromVRAMWrite)
  then "texupload"%string else "texpage"%string.

Definition mode_token (n : TextureReplacementName.t) : string :=
  nth (Z.to_nat (TextureReplacementName.texture_mode n)) s_texture_replacement_mode_names ""%string.

(** A decimal token that a [bits]-wide [FromChars] reads as [v], and a
    16-digit hash token. *)
Definition reads (bits : Z) (tok : string) (v : Z) : Prop :=
  sep_free tok /\ FromChars bits 10 tok = Some v.

Definition reads_hash (tok : string) (v : Z) : Prop :=
  sep_free tok /\ String.length tok = 16%nat /\ FromChars 64 16 tok = Some v.

(** The origin [Parse] reads from the first token. *)
Definition type_of_token (T : string) : option TextureReplacementType :=
  if String.eqb T "texupload" then Some TextureFromVRAMWrite
  else if String.eqb T "texpage" then Some TextureFromPage
  else None.

(** *** Draw rectangles of a page *)

(** The bounding box of a non-empty list of rectangles, folded as
    [AddWrittenRectangle] folds it. *)
Definition draw_rects_union (rects : list Rect) : Rect :=
  match rects with
  | [] => INVALID_RECT
  | r :: rs => fold_left GSVector4i.runion rs r
  end.

(** What the engine keeps of a page's draw rectangles: at most four of
    them in a four-slot array, and, while there are some, their bounding
    box in [total_draw_rect]. *)
Definition draw_rects_consistent (pg : PageEntry.t) : Prop :=
  (PageEntry.num_draw_rects pg <= NUM_PAGE_DRAW_RECTS)%nat /\
  length (PageEntry.draw_rects pg) = NUM_PAGE_DRAW_RECTS /\
  ((0 < PageEntry.num_draw_rects pg)%nat ->
   PageEntry.total_draw_rect pg =
   draw_rects_union (take (PageEntry.num_draw_rects pg) (PageEntry.draw_rects pg))).

(** The draw rectangles in use. *)
Definition active_draw_rects (pg : PageEntry.t) : list Rect :=
  take (PageEntry.num_draw_rects pg) (PageEntry.draw_rects pg).

(** The part of a page entry the drawn-area queries read. *)
Definition draw_state (pg : PageEntry.t) : nat * Rect * list Rect :=
  (PageEntry.num_draw_rects pg, PageEntry.total_draw_rect pg, PageEntry.draw_rects pg).

(** A state whose pages all keep their draw rectangles consistent. *)
Definition draw_tracking_consistent (s : State) : Prop :=
  pages_allocated s /\
  forall pn, (pn < NUM_VRAM_PAGES)%nat -> draw_rects_consistent (page_at s pn).

(** [inner] lies inside [outer]. *)
Definition rect_within (inner outer : Rect) : Prop :=
  GSVector4i.left outer <= GSVector4i.left inner /\
  GSVector4i.top outer <= GSVector4i.top inner /\
  GSVector4i.right inner <= GSVector4i.right outer /\
  GSVector4i.bottom inner <= GSVector4i.bottom outer.

(** What [AddDrawnRectangle] does to the draw rectangles of one page
    (lines 809-866), [rc] being the part of the rectangle on that page. *)
Definition add_drawn_page (rc clip_rect : Rect) (page : PageEntry.t) : PageEntry.t :=
  if (0 <? PageEntry.num_draw_rects page)%nat then
    match choose_draw_rect rc clip_rect page with
    | None => page
    | Some candidate =>
        let total := GSVector4i.runion (PageEntry.total_draw_rect page) rc in
        if negb (bool_decide (candidate = PageEntry.num_draw_rects page)) then
          PageEntry.set_draw (PageEntry.num_draw_rects page) total
            (<[candidate := GSVector4i.runion (PageEntry.draw_rects page !!! candidate) rc]>
               (PageEntry.draw_rects page)) page
        else
          PageEntry.set_draw (S (PageEntry.num_draw_rects page)) total
            (<[candidate := rc]> (PageEntry.draw_rects page)) page
    end
  else PageEntry.set_draw 1 rc (<[0%nat := rc]> (PageEntry.draw_rects page)) page.

Definition draw_states (s : State) : list (nat * Rect * list Rect) :=
  map draw_state (s_pages s).

(** One round of the page loop of [AddWrittenRectangle]. *)
Definition AddWrittenRectangle_page (env : Env) (rect : Rect) (update_vram_writes : bool)
    (s : State) (pn : nat) : State :=
  let s := InvalidatePageSources env pn rect s in
  let s := update_page pn (clear_draw_rects rect) s in
  fold_left
    (fun s it =>
       match write_heap s !! it with
       | None => s
       | Some w =>
           let intersection := GSVector4i.rintersect (VRAMWrite.active_rect w) rect in
           if negb (GSVector4i.rempty intersection) then
             if update_vram_writes && GSVector4i.rcontains (VRAMWrite.active_rect w) rect
             then update_write it (VRAMWrite.set_hash (HashRect env (VRAMWrite.write_rect w))) s
             else if (VRAMWrite.num_splits w <? max_vram_write_splits (s_config s)) &&
                     negb (GSVector4i.eq (VRAMWrite.active_rect w) intersection)
             then SplitVRAMWrite env it intersection s
             else RemoveVRAMWrite env it s
           else s
       end)
    (PageEntry.writes (page_at s pn)) s.

(** One round of the page loop of [AddDrawnRectangle]. *)
Definition AddDrawnRectangle_page (env : Env) (rect clip_rect : Rect) (s : State) (pn : nat)
    : State :=
  let s :=
    fold_left
      (fun s it =>
         match write_heap s !! it with
         | None => s
         | Some w =>
             if GSVector4i.rintersects (VRAMWrite.active_rect w) rect
             then RemoveVRAMWrite env it s else s
         end)
      (PageEntry.writes (page_at s pn)) s in
  let page := page_at s pn in
  let rc := GSVector4i.rintersect rect (VRAMPageRect (Z.of_nat pn)) in
  if (0 <? PageEntry.num_draw_rects page)%nat then
    match choose_draw_rect rc clip_rect page with
    | None => s
    | Some candidate =>
        let total := GSVector4i.runion (PageEntry.total_draw_rect page) rc in
        if negb (bool_decide (candidate = PageEntry.num_draw_rects page)) then
          let new_draw_rect := GSVector4i.runion (PageEntry.draw_rects page !!! candidate) rc in
          let s := update_page pn
                     (fun pg => PageEntry.set_draw (PageEntry.num_draw_rects pg)
                                  (PageEntry.total_draw_rect pg)
                                  (<[candidate := new_draw_rect]> (PageEntry.draw_rects pg)) pg) s in
          let s := InvalidatePageSources env pn new_draw_rect s in
          update_page pn
            (fun pg => PageEntry.set_draw (PageEntry.num_draw_rects pg) total
                         (PageEntry.draw_rects pg) pg) s
        else
          let s := update_page pn
                     (fun pg => PageEntry.set_draw (S (PageEntry.num_draw_rects pg))
                                  (PageEntry.total_draw_rect pg)
                                  (<[candidate := rc]> (PageEntry.draw_rects pg)) pg) s in
          let s := InvalidatePageSources env pn rc s in
          update_page pn
            (fun pg => PageEntry.set_draw (PageEntry.num_draw_rects pg) total
                         (PageEntry.draw_rects pg) pg) s
    end
  else
    let s := update_page pn
               (fun pg => PageEntry.set_draw 1 rc (<[0%nat := rc]> (PageEntry.draw_rects pg)) pg) s in
    InvalidatePageSources env pn rc s.

(** The state a call that returned has left. *)
Definition written_state (o : outcome State) : State :=
  match o with
  | Done s => s
  | _ => Scenario.tracking
  end.

(** *** Texels of a page *)

(** The halfword of VRAM that holds texel [(x, y)] of a texture whose first
    halfword is [page], with [per] texels to the halfword. *)
Definition texel_word (env : Env) (page : Z) (per : Z) (x y : Z) : Z :=
  g_vram env (page + y * VRAM_WIDTH + x / per).

(** The colour of texel [(x, y)] before conversion: the palette entry its
    index selects, or the halfword itself in the direct modes. *)
Definition texel_colour (env : Env) (palette : Z -> Z) (mode : GPUTextureMode) (page : Z)
    (x y : Z) : Z :=
  match mode with
  | Palette4Bit =>
      palette (Z.land (Z.shiftr (texel_word env page 4 x y) (4 * (x mod 4))) 15)
  | Palette8Bit =>
      palette (Z.land (Z.shiftr (texel_word env page 2 x y) (8 * (x mod 2))) 255)
  | Direct16Bit | Reserved_Direct16Bit => texel_word env page 1 x y
  end.

(** The byte address of texel [(x, y)] in the destination. *)
Definition texel_address (dest dest_stride : Z) (x y : Z) : Z := dest + y * dest_stride + 4 * x.

(** VRAM holds 16-bit halfwords. *)
Definition vram_halfwords (env : Env) : Prop := forall i, 0 <= g_vram env i < 2 ^ 16.

(** What a row loop leaves: [n] texels from [d0] on, texel [j] with colour
    [colour j]; every other address as it was. *)
Definition row_written (m0 m : TexelBuffer) (d0 : Z) (n : Z) (colour : Z -> Z) : Prop :=
  (forall j, 0 <= j < n -> m !! (d0 + 4 * j) = Some (colour j)) /\
  (forall a, (forall j, 0 <= j < n -> a <> d0 + 4 * j) -> m !! a = m0 !! a).

(** *** Palette indices of a rectangle *)

(** The palette indices one halfword of a paletted texture holds. *)
Definition palette_indices (mode : GPUTextureMode) (v : Z) : list Z :=
  match mode with
  | Palette4Bit =>
      [Z.land v 15; Z.land (Z.shiftr v 4) 15; Z.land (Z.shiftr v 8) 15;
       Z.land (Z.shiftr v 12) 15]
  | _ => [Z.land v 255; Z.shiftr v 8]
  end.

(** The halfwords of VRAM inside a rectangle, row by row. *)
Definition rect_halfwords (env : Env) (rect : Rect) : list Z :=
  flat_map (fun y => vram_run env (y * VRAM_WIDTH + GSVector4i.left rect)
                              (GSVector4i.right rect - GSVector4i.left rect))
           (Zrange (GSVector4i.top rect) (GSVector4i.bottom rect - 1)).

(** The palette indices the texels of a rectangle use. *)
Definition used_indices (env : Env) (rect : Rect) (mode : GPUTextureMode) : list Z :=
  flat_map (palette_indices mode) (rect_halfwords env rect).

(** *** Memory accounting of the hash cache *)

(** The VRAM the textures of the cached entries take together. *)
Definition hash_cache_usage (l : list (HashCacheKey * HashCacheEntry.t)) : Z :=
  fold_right (fun x acc => GetVRAMUsage (HashCacheEntry.texture (snd x)) + acc) 0 l.

(** [s_hash_cache_memory_usage], a 64-bit counter, is the sum over the
    entries. *)
Definition accounting_consistent (s : State) : Prop :=
  s_hash_cache_memory_usage s = u64 (hash_cache_usage (s_hash_cache s)).

(** The keys of the hash cache with the size of their textures, and the
    counter: what the accounting depends on. *)
Definition usage_view (s : State) : list (HashCacheKey * Z) * Z :=
  (map (fun x => (fst x, GetVRAMUsage (HashCacheEntry.texture (snd x)))) (s_hash_cache s),
   s_hash_cache_memory_usage s).

(** *** Reachable states *)

(** What the write tracker never touches: the hash cache, its counter, the
    sources and the size of the page table. *)
Definition tracked (s : State)
    : list (HashCacheKey * HashCacheEntry.t) * Z * gmap ptr Source.t * nat :=
  (s_hash_cache s, s_hash_cache_memory_usage s, source_heap s, length (s_pages s)).

(** The hash cache is a map (no key twice), no entry lists a source twice,
    and every source an entry lists is live and came from that entry. *)
Definition cache_wf (s : State) : Prop :=
  NoDup (map fst (s_hash_cache s)) /\
  forall k e, (k, e) ∈ s_hash_cache s ->
    NoDup (HashCacheEntry.sources e) /\
    forall sp, sp ∈ HashCacheEntry.sources e ->
      exists src, source_heap s !! sp = Some src /\ Source.from_hash_cache src = k.

Definition state_consistent (s : State) : Prop :=
  pages_allocated s /\ cache_wf s /\ accounting_consistent s.

(** The states the entry points of the cache lead to from the
    zero-initialised statics. *)
Inductive reachable : State -> Prop :=
  | reachable_initial track cfg : reachable (initial_state track cfg)
  | reachable_LookupSource env key rect flags s s' p :
      reachable s -> LookupSource env key rect flags s = Done (s', p) -> reachable s'
  | reachable_Compact env s : reachable s -> reachable (Compact env s)
  | reachable_Invalidate env s : reachable s -> reachable (Invalidate env s)
  | reachable_WriteVRAM env bounds s s' :
      reachable s -> WriteVRAM env bounds s = Done s' -> reachable s'
  | reachable_CopyVRAM env convert_copies_to_writes dst_bounds s :
      reachable s -> reachable (CopyVRAM env convert_copies_to_writes dst_bounds s)
  | reachable_AddWrittenRectangle env rect update_vram_writes s :
      reachable s -> reachable (AddWrittenRectangle env rect update_vram_writes s)
  | reachable_AddDrawnRectangle env rect clip_rect s :
      reachable s -> reachable (AddDrawnRectangle env rect clip_rect s).

(** *** The two passes of a compaction *)

(** [min_frame_number] of [Compact] (lines 2070-2071). *)
Definition min_frame_number (env : Env) : Z :=
  if MAX_HASH_CACHE_AGE <? GetFrameNumber env
  then GetFrameNumber env - MAX_HASH_CACHE_AGE else 0.

(** The test of line 2078: not referenced and not used since
    [min_frame_number]. *)
Definition aged_out (env : Env) (e : HashCacheEntry.t) : bool :=
  (HashCacheEntry.ref_count e =? 0) && (HashCacheEntry.last_used_frame e <? min_frame_number env).

(** The state the first loop of [Compact] leaves (lines 2073-2093). *)
Definition age_pass (env : Env) (s : State) : State :=
  fst (fst (fold_left (compact_step env (min_frame_number env)) (map fst (s_hash_cache s))
                      (s, over_budget s, []))).

(** *** What may happen between two lookups *)

(** From one state to a later one by lookups of any keys and by
    compactions that leave the hash cache entry of the source [p] in the
    cache. *)
Inductive undisturbed (p : ptr) : State -> State -> Prop :=
  | undisturbed_refl s : undisturbed p s s
  | undisturbed_LookupSource env key rect flags s s1 q s2 :
      LookupSource env key rect flags s = Done (s1, q) ->
      undisturbed p s1 s2 -> undisturbed p s s2
  | undisturbed_Compact env s s2 :
      (forall src, source_heap s !! p = Some src ->
                   is_Some (hc_find (Source.from_hash_cache src) (s_hash_cache (Compact env s)))) ->
      undisturbed p (Compact env s) s2 -> undisturbed p s s2.

(** *** An entry that nothing references any more *)

(** Page 0 is sampled; page 1 is sampled while VRAM holds other content,
    then written to, which destroys its source and leaves its entry
    without a reference. *)
Definition stale_lookup : State :=
  state_of (LookupSource (Scenario.env 5 1 false) Scenario.key1 (mkRect 64 0 128 256) 0
                         first_lookup).
Definition stale_entry : State :=
  AddWrittenRectangle (Scenario.env 5 1 false) (mkRect 64 0 128 1) false stale_lookup.

(** *** Sixteen pages sampled in a row, every texture scaled up by a
    replacement *)

(** VRAM holds a ramp, so the sixteen pages hash differently; sixteen
    textures of 64 MiB fill the budget of 1 GiB. *)
Definition crowded_env (frame : Z) : Env :=
  {| g_vram := fun i => i mod 65536;
     XXH3_64bits := Scenario.sum_hash;
     GetFrameNumber := frame;
     dump_textures := false;
     enable_texture_replacements := true;
     FetchTexture := Some Scenario.page_texture;
     ApplyTextureReplacements := fun _ _ _ _ => Scenario.big_texture |}.

Definition page_key (pn : nat) : SourceKey := SourceKey.mk pn Palette4Bit 0.

(** Page 0 is sampled at frame 1. *)
Definition crowded_first : outcome (State * ptr) :=
  LookupSource (crowded_env 1) (page_key 0) (mkRect 0 0 64 256) 0 Scenario.not_tracking.

(** Pages 1 to 15 are sampled at frame 2: lookups and nothing else. *)
Definition crowded : outcome State :=
  obind crowded_first
        (fun '(s, _) =>
           run_lookups (map (fun pn => (crowded_env 2, page_key pn, mkRect 0 0 64 256, 0))
                            (seq 1 15)) s).

(** One step of reading a successful [Parse] backwards. *)
Ltac parse_step :=
  match goal with
  | H : mbind _ ?x = Some _ |- _ =>
      destruct x eqn:?; cbn [mbind option_bind] in H; [|discriminate H]
  | H : (let '(_, _) := ?p in _) = Some _ |- _ => destruct p
  | H : (if ?c then _ else _) = Some _ |- _ => destruct c eqn:?; try discriminate H
  end.

(** The drawn rectangles of each of the 32 pages, by evaluation. *)
Ltac draw_pages_by_computation :=
  split; [reflexivity|];
  let pn := fresh "pn" in let Hpn := fresh "Hpn" in
  intros pn Hpn;
  do 32 (destruct pn as [|pn];
         [split; [vm_compute; lia|]; split; [reflexivity|];
          let H := fresh in intros H;
          first [vm_compute; reflexivity | exfalso; vm_compute in H; lia]|]);
  exfalso; unfold NUM_VRAM_PAGES in Hpn; lia.

(** * Properties *)

(** ** Integers and rectangles *)

Lemma s32_small v : S32_MIN <= v <= S32_MAX -> s32 v = v.
Proof.
  unfold s32, S32_MIN, S32_MAX. intros Hv.
  rewrite Z.mod_small by lia. lia.
Qed.

Lemma u32_small v : 0 <= v < 2 ^ 32 -> u32 v = v.
Proof. intros Hv. unfold u32. now rewrite Z.mod_small. Qed.

Lemma GSVector4i_eq_spec a b : GSVector4i.eq a b = true <-> a = b.
Proof.
  destruct a as [l1 t1 r1 b1], b as [l2 t2 r2 b2]. unfold GSVector4i.eq. cbn.
  rewrite !andb_true_iff, !Z.eqb_eq. split.
  - intros [[[-> ->] ->] ->]. reflexivity.
  - intros [= -> -> -> ->]. auto.
Qed.

Lemma GSVector4i_rempty_false r :
  GSVector4i.rempty r = false <->
  GSVector4i.left r < GSVector4i.right r /\ GSVector4i.top r < GSVector4i.bottom r.
Proof.
  unfold GSVector4i.rempty. rewrite negb_false_iff, andb_true_iff, !Z.ltb_lt. tauto.
Qed.

(** Two overlapping rectangles: [rintersect] is the common area. *)
Lemma GSVector4i_covers_rintersect a b px py :
  GSVector4i.rempty a = false -> GSVector4i.rempty b = false ->
  GSVector4i.rintersects a b = true ->
  (GSVector4i.covers (GSVector4i.rintersect a b) px py <->
   GSVector4i.covers a px py /\ GSVector4i.covers b px py).
Proof.
  intros Ha%GSVector4i_rempty_false Hb%GSVector4i_rempty_false Hab.
  unfold GSVector4i.rintersects in Hab. apply negb_true_iff in Hab.
  apply GSVector4i_rempty_false in Hab. revert Hab.
  unfold GSVector4i.covers, GSVector4i.rintersect, GSVector4i.sat_s32. cbn. lia.
Qed.

(** ** Splitting rectangles *)

Section SplitRects.

Variables A S : Rect.
Hypothesis HA : in_vram A.
Hypothesis HS : GSVector4i.rintersect A S = S.
Hypothesis HSne : GSVector4i.rempty S = false.

Let al := GSVector4i.left A.
Let at_ := GSVector4i.top A.
Let ar := GSVector4i.right A.
Let ab := GSVector4i.bottom A.
Let wl := GSVector4i.left S.
Let wt := GSVector4i.top S.
Let wr := GSVector4i.right S.
Let wb := GSVector4i.bottom S.

Lemma sub_rect_bounds :
  0 <= al /\ al <= wl /\ wl < wr /\ wr <= ar /\ ar <= 1024 /\
  0 <= at_ /\ at_ <= wt /\ wt < wb /\ wb <= ab /\ ab <= 512.
Proof.
  subst al at_ ar ab wl wt wr wb.
  destruct HA as (H1 & H2 & H3 & H4 & H5 & H6).
  apply GSVector4i_rempty_false in HSne.
  destruct A as [l t r b], S as [l' t' r' b'].
  unfold GSVector4i.rintersect in HS. cbn in *.
  unfold VRAM_WIDTH, VRAM_HEIGHT in *.
  injection HS as E1 E2 E3 E4. lia.
Qed.

(** Inside VRAM the 32-bit arithmetic of [SplitVRAMWrite] never wraps. *)
Lemma split_rects_unfold :
  split_rects A S =
  if Z.max (wt - at_) (ab - wb) >? Z.max (wl - al) (ar - wr)
  then [ mkRect al at_ ar wt; mkRect al wb ar ab; mkRect al wt wl wb; mkRect wr wt ar wb ]
  else [ mkRect al at_ wl ab; mkRect wr at_ ar ab;
         mkRect wl wt (wr - (ar - wr)) (at_ - (wt - at_));
         mkRect wl wb (wr - (ar - wr)) ab ].
Proof.
  pose proof sub_rect_bounds as B.
  unfold split_rects. fold al at_ ar ab wl wt wr wb.
  rewrite !(s32_small (wl - al)), !(s32_small (ar - wr)),
          !(s32_small (wt - at_)), !(s32_small (ab - wb))
    by (unfold S32_MIN, S32_MAX; lia).
  rewrite !s32_small by (unfold S32_MIN, S32_MAX; lia).
  replace (at_ + (wt - at_)) with wt by lia.
  replace (al + (wl - al)) with wl by lia.
  replace (ab - (ab - wb)) with wb by lia.
  replace (ar - (ar - wr)) with wr by lia.
  reflexivity.
Qed.

(** Remainders never reach into [S] nor outside [A], in either direction. *)
Lemma split_rects_inside r px py :
  r ∈ split_rects A S -> GSVector4i.covers r px py ->
  GSVector4i.covers A px py /\ ~ GSVector4i.covers S px py.
Proof.
  pose proof sub_rect_bounds as B.
  rewrite split_rects_unfold.
  destruct (Z.max (wt - at_) (ab - wb) >? Z.max (wl - al) (ar - wr)); intros Hin;
    repeat (apply elem_of_cons in Hin as [-> | Hin]);
    try (apply elem_of_nil in Hin; contradiction);
    unfold GSVector4i.covers; cbn; fold al at_ ar ab wl wt wr wb; lia.
Qed.

(** Remainders are pairwise disjoint, in either direction. *)
Lemma split_rects_disjoint i j r1 r2 px py :
  i <> j -> split_rects A S !! i = Some r1 -> split_rects A S !! j = Some r2 ->
  GSVector4i.covers r1 px py -> ~ GSVector4i.covers r2 px py.
Proof.
  pose proof sub_rect_bounds as B.
  rewrite split_rects_unfold.
  destruct (Z.max (wt - at_) (ab - wb) >? Z.max (wl - al) (ar - wr));
    intros Hij H1 H2;
    destruct i as [|[|[|[|i]]]]; try discriminate H1;
    destruct j as [|[|[|[|j]]]]; try discriminate H2; try congruence;
    cbn in H1, H2; injection H1 as <-; injection H2 as <-;
    unfold GSVector4i.covers; cbn; lia.
Qed.

(** Splitting top/bottom first leaves no gap. *)
Lemma split_rects_top_bottom_exact :
  Z.max (wt - at_) (ab - wb) > Z.max (wl - al) (ar - wr) ->
  exact_remainder A S (split_rects A S).
Proof.
  intros Hdir. pose proof sub_rect_bounds as B. split.
  - intros px py. split.
    + intros [HcA HcS]. rewrite split_rects_unfold.
      apply Z.gtb_gt in Hdir. rewrite Hdir.
      unfold GSVector4i.covers in *. fold al at_ ar ab wl wt wr wb in HcA, HcS.
      destruct (Z_lt_le_dec py wt) as [Hy1|Hy1].
      { exists (mkRect al at_ ar wt). split; [repeat constructor | cbn; lia]. }
      destruct (Z_lt_le_dec py wb) as [Hy2|Hy2].
      * destruct (Z_lt_le_dec px wl) as [Hx1|Hx1].
        { exists (mkRect al wt wl wb). split; [repeat constructor | cbn; lia]. }
        exists (mkRect wr wt ar wb). split; [repeat constructor | cbn; lia].
      * exists (mkRect al wb ar ab). split; [repeat constructor | cbn; lia].
    + intros (r & Hin & Hc). eapply split_rects_inside; eauto.
  - apply split_rects_disjoint.
Qed.

End SplitRects.

(** ** Splitting a write *)

(** Whatever the write and the rectangle, [SplitVRAMWrite] deletes the
    write it is given and leaves [s_last_vram_write] as it was. *)
Lemma set_write_heap_last v s :
  s_last_vram_write (set_write_heap v s) = s_last_vram_write s.
Proof. reflexivity. Qed.

Lemma update_page_last pn f s :
  s_last_vram_write (update_page pn f s) = s_last_vram_write s.
Proof. reflexivity. Qed.

Lemma fold_left_preserves {A B C : Type} (obs : A -> C) (f : A -> B -> A) (l : list B) (a : A) :
  (forall a b, obs (f a b) = obs a) -> obs (fold_left f l a) = obs a.
Proof.
  intros Hf. revert a. induction l as [|b l IH]; intros a; [reflexivity|].
  cbn. now rewrite IH, Hf.
Qed.

Lemma link_write_last it pages s :
  s_last_vram_write (link_write it pages s) = s_last_vram_write s.
Proof. unfold link_write. now apply (fold_left_preserves s_last_vram_write). Qed.

Lemma unlink_write_last it pages s :
  s_last_vram_write (unlink_write it pages s) = s_last_vram_write s.
Proof. unfold unlink_write. now apply (fold_left_preserves s_last_vram_write). Qed.

Lemma SyncVRAMWritePaletteRecords_last env entry s :
  s_last_vram_write (SyncVRAMWritePaletteRecords env entry s) = s_last_vram_write s.
Proof.
  unfold SyncVRAMWritePaletteRecords.
  destruct (IsDumpingVRAMWriteTextures env s); [|reflexivity].
  destruct (write_heap s !! entry) as [w|]; [|reflexivity].
  apply (fold_left_preserves s_last_vram_write). intros a pn.
  apply (fold_left_preserves s_last_vram_write). intros b sp.
  destruct (source_heap b !! sp) as [src|]; [|reflexivity].
  now destruct (negb _).
Qed.

Lemma split_one_last w s splitr :
  s_last_vram_write (split_one w s splitr) = s_last_vram_write s.
Proof.
  unfold split_one. destruct (GSVector4i.rempty splitr); [reflexivity|].
  now rewrite link_write_last.
Qed.

Lemma SplitVRAMWrite_last env entry written_rect s :
  s_last_vram_write (SplitVRAMWrite env entry written_rect s) = s_last_vram_write s.
Proof.
  unfold SplitVRAMWrite.
  destruct (write_heap (SyncVRAMWritePaletteRecords env entry s) !! entry) as [w|].
  - cbv zeta. rewrite set_write_heap_last, unlink_write_last.
    rewrite (fold_left_preserves s_last_vram_write) by (intros; apply split_one_last).
    rewrite set_write_heap_last. apply SyncVRAMWritePaletteRecords_last.
  - apply SyncVRAMWritePaletteRecords_last.
Qed.

Lemma SplitVRAMWrite_deletes env entry written_rect s :
  write_heap (SplitVRAMWrite env entry written_rect s) !! entry = None.
Proof.
  unfold SplitVRAMWrite.
  destruct (write_heap (SyncVRAMWritePaletteRecords env entry s) !! entry) as [w|] eqn:E.
  - cbv zeta. unfold set_write_heap at 1. cbn [write_heap]. apply lookup_delete_eq.
  - exact E.
Qed.

(** A write made by the split loop starts without palette records, whatever
    the write being split holds. *)
Lemma split_one_no_records entry s splitr :
  GSVector4i.rempty splitr = false ->
  exists w, write_heap (split_one entry s splitr) !! fresh (dom (write_heap s)) = Some w /\
            VRAMWrite.active_rect w = splitr /\
            VRAMWrite.write_rect w = VRAMWrite.write_rect entry /\
            VRAMWrite.hash w = VRAMWrite.hash entry /\
            VRAMWrite.num_splits w = VRAMWrite.num_splits entry /\
            VRAMWrite.palette_records w = [].
Proof.
  intros Hne. unfold split_one. rewrite Hne. cbv zeta.
  eexists. split.
  - unfold link_write. rewrite (fold_left_preserves write_heap) by reflexivity.
    unfold set_write_heap. cbn [write_heap]. apply lookup_insert_eq.
  - cbn. auto.
Qed.

(** C2 (code bug): a 64x64 write at (0,0) is hit in (16,16)-(32,32). The
    margins are equal in both directions, so the split goes left/right
    first; the third and fourth remainder come out empty, the two strips
    above and below the hit are lost, and the remainders do not tile the
    difference.  (Top/bottom first they do: [split_rects_top_bottom_exact].) *)
Theorem SplitVRAMWrite_left_right_first_leaves_gap :
  partial_overlap Scenario.upload Scenario.middle /\
  split_rects Scenario.upload Scenario.middle =
    [mkRect 0 0 16 64; mkRect 32 0 64 64; mkRect 16 16 0 (-16); mkRect 16 32 0 64] /\
  omap (fun s => page_write_rects s 0) Scenario.after_middle =
    Done [Some (mkRect 0 0 16 64); Some (mkRect 32 0 64 64)] /\
  ~ exact_remainder Scenario.upload Scenario.middle
      (split_rects Scenario.upload Scenario.middle).
Proof.
  split; [|split; [|split]].
  - repeat split; reflexivity.
  - reflexivity.
  - vm_compute. reflexivity.
  - intros [Hcover _].
    destruct (proj1 (Hcover 16 0)) as (r & Hin & Hc).
    + unfold GSVector4i.covers. cbn. lia.
    + change (split_rects Scenario.upload Scenario.middle)
        with [mkRect 0 0 16 64; mkRect 32 0 64 64; mkRect 16 16 0 (-16); mkRect 16 32 0 64] in Hin.
      repeat (apply elem_of_cons in Hin as [-> | Hin]);
        try (apply elem_of_nil in Hin; contradiction);
        unfold GSVector4i.covers in Hc; cbn in Hc; lia.
Qed.

(** C6 (code bug): the sampled 64x64 write holds a palette record over
    (0,0)-(16,16) when it is split around (32,32)-(48,48).  Both remainders
    inherit the write rectangle, the hash and the bumped split counter, but
    the remainder (0,0)-(32,64), which contains the record's rectangle,
    carries no record. *)
Theorem SplitVRAMWrite_drops_palette_records :
  omap (fun s =>
          (fun w => map PaletteRecord.rect (VRAMWrite.palette_records w)) <$>
          write_heap (SyncVRAMWritePaletteRecords (Scenario.env 0 1 true) 1%positive s) !! 1%positive)
       Scenario.sampled
    = Done (Some [mkRect 0 0 16 16]) /\
  GSVector4i.rintersects (mkRect 0 0 16 16) (mkRect 0 0 32 64) = true /\
  omap (fun s =>
          let s' := SplitVRAMWrite (Scenario.env 0 1 true) 1%positive Scenario.corner s in
          map (fun it =>
                 (fun w => (VRAMWrite.active_rect w, VRAMWrite.write_rect w, VRAMWrite.hash w,
                            VRAMWrite.num_splits w, VRAMWrite.palette_records w)) <$>
                 write_heap s' !! it)
              (PageEntry.writes (page_at s' 0)))
       Scenario.sampled
    = Done [ Some (mkRect 0 0 32 64, Scenario.upload, 0, 1, []);
             Some (mkRect 48 0 64 64, Scenario.upload, 0, 1, []) ].
Proof.
  split; [|split].
  - vm_compute. reflexivity.
  - reflexivity.
  - vm_compute. reflexivity.
Qed.

(** C10 (code bug): after the 64x64 upload is split, [s_last_vram_write]
    still holds the pointer of the deleted write, and the next [WriteVRAM]
    reads through it. *)
Theorem SplitVRAMWrite_leaves_last_vram_write_dangling :
  omap (fun s => (s_last_vram_write s, write_heap s !! 1%positive)) Scenario.after_middle
    = Done (Some 1%positive, None) /\
  obind Scenario.after_middle (WriteVRAM (Scenario.env 0 1 false) (mkRect 0 64 64 72))
    = UseAfterFree.
Proof. split; vm_compute; reflexivity. Qed.

(** ** Merging writes *)

(** [INVALID_RECT] intersects nothing. *)
Lemma INVALID_RECT_rintersects r : GSVector4i.rintersects INVALID_RECT r = false.
Proof.
  unfold GSVector4i.rintersects, GSVector4i.rempty, GSVector4i.rintersect, INVALID_RECT.
  cbn. rewrite negb_involutive. apply andb_false_iff. left.
  apply Z.ltb_ge. unfold S32_MAX, S32_MIN. lia.
Qed.

(** The double-check of [TryMergeVRAMWrite] lets every source pass. *)
Lemma merge_source_check_always s w sp : merge_source_check s w sp = true.
Proof.
  unfold merge_source_check. destruct (source_heap s !! sp) as [src|]; [|reflexivity].
  destruct (GSVector4i.eq (Source.active_uv_rect src) INVALID_RECT) eqn:E; [|reflexivity].
  apply GSVector4i_eq_spec in E. rewrite E, INVALID_RECT_rintersects. reflexivity.
Qed.

(** X14: what an accepted merge has checked, and what it leaves: the candidate
    was never split, the incoming rectangle continues it downwards or to
    the right within the limit of that direction, and the candidate itself
    now covers the union, with the hash of the union. *)
Lemma TryMergeVRAMWrite_accepted env entry written_rect s s' :
  TryMergeVRAMWrite env entry written_rect s = Done (s', true) ->
  exists last lw w w',
    s_last_vram_write s = Some last /\
    write_heap s !! last = Some lw /\
    write_heap s !! entry = Some w /\
    VRAMWrite.num_splits lw = 0 /\
    ((u32 (GSVector4i.height written_rect) <= max_vram_write_coalesce_height (s_config s) /\
      GSVector4i.left (VRAMWrite.write_rect lw) = GSVector4i.left written_rect /\
      GSVector4i.right (VRAMWrite.write_rect lw) = GSVector4i.right written_rect /\
      GSVector4i.bottom (VRAMWrite.write_rect lw) = GSVector4i.top written_rect) \/
     (u32 (GSVector4i.width written_rect) <= max_vram_write_coalesce_width (s_config s) /\
      GSVector4i.top (VRAMWrite.write_rect lw) = GSVector4i.top written_rect /\
      GSVector4i.bottom (VRAMWrite.write_rect lw) = GSVector4i.bottom written_rect /\
      GSVector4i.right (VRAMWrite.write_rect lw) = GSVector4i.left written_rect)) /\
    write_heap s' = <[entry := w']> (write_heap s) /\
    VRAMWrite.active_rect w' = GSVector4i.runion (VRAMWrite.write_rect w) written_rect /\
    VRAMWrite.write_rect w' = GSVector4i.runion (VRAMWrite.write_rect w) written_rect /\
    VRAMWrite.hash w' = HashRect env (GSVector4i.runion (VRAMWrite.write_rect w) written_rect).
Proof.
  unfold TryMergeVRAMWrite.
  destruct (s_last_vram_write s) as [last|]; [|discriminate].
  destruct (write_heap s !! last) as [lw|] eqn:Hlw; [|discriminate].
  destruct (write_heap s !! entry) as [w|] eqn:Hw; [|discriminate].
  destruct (VRAMWrite.num_splits lw =? 0) eqn:Hsplits; cbn [negb]; [|discriminate].
  cbv zeta.
  match goal with
  | |- (if negb ?v && negb ?h then _ else _) = _ -> _ =>
      destruct v eqn:Hv; destruct h eqn:Hh; cbn [negb andb]; try discriminate
  end.
  all: destruct (negb (LoopRectPagesWithEarlyExit _ _)); [discriminate|].
  all: intros [= <-]; exists last, lw, w; eexists; repeat split;
       try exact Hlw; try reflexivity; try (apply Z.eqb_eq; exact Hsplits);
       try (unfold link_write; rewrite (fold_left_preserves write_heap) by reflexivity;
            cbn [set_write_heap write_heap];
            unfold unlink_write; rewrite (fold_left_preserves write_heap) by reflexivity;
            reflexivity).
  all: try reflexivity.
  all: try (left; rewrite !andb_true_iff, Z.leb_le, !Z.eqb_eq in Hv; tauto).
  all: right; rewrite !andb_true_iff, Z.leb_le, !Z.eqb_eq in Hh; tauto.
Qed.

(** [RemoveVRAMWrite], unlike the split, never leaves [s_last_vram_write]
    pointing at the write it deletes. *)
Lemma RemoveVRAMWrite_resets_last env entry s :
  is_Some (write_heap (SyncVRAMWritePaletteRecords env entry s) !! entry) ->
  s_last_vram_write (RemoveVRAMWrite env entry s) <> Some entry /\
  write_heap (RemoveVRAMWrite env entry s) !! entry = None.
Proof.
  intros [w Hw]. unfold RemoveVRAMWrite. rewrite Hw. cbv zeta.
  split.
  - rewrite set_write_heap_last. cbn [set_last_vram_write s_last_vram_write].
    case_bool_decide as Hlast; [discriminate|exact Hlast].
  - cbn [set_write_heap write_heap]. apply lookup_delete_eq.
Qed.

(** C3 (code bug): a source on the candidate's page has sampled
    (0,0)-(16,8), inside the candidate write (0,0)-(64,8); the next strip
    (0,8)-(64,16) is merged all the same. *)
Theorem TryMergeVRAMWrite_ignores_sampled_sources :
  omap (fun s => map (fun sp => Source.active_uv_rect <$> source_heap s !! sp)
                     (PageEntry.sources (page_at s 0)))
       Scenario.strip_sampled
    = Done [Some (mkRect 0 0 16 8)] /\
  GSVector4i.rintersects (mkRect 0 0 16 8) Scenario.strip1 = true /\
  obind Scenario.strip_sampled
        (fun s => omap (fun '(s', merged) =>
                          (merged, page_write_rects s' 0,
                           VRAMWrite.hash <$> write_heap s' !! 1%positive,
                           HashRect (Scenario.env 0 1 true) (mkRect 0 0 64 16)))
                       (TryMergeVRAMWrite (Scenario.env 0 1 true) 1%positive Scenario.strip2 s))
    = Done (true, [Some (mkRect 0 0 64 16)], Some 0, 0).
Proof.
  split; [|split].
  - vm_compute. reflexivity.
  - reflexivity.
  - vm_compute. reflexivity.
Qed.

(** ** Drawn rectangles *)

(** C5 (code bug): page 0 holds four draw rectangles, none containing the
    incoming (10,10)-(12,12) and none touching the clip rectangle.  The
    rectangle (6,6)-(10,10) in slot 1 has the nearest centre, yet slot 0,
    (0,0)-(2,2), absorbs the incoming rectangle. *)
Theorem AddDrawnRectangle_absorbs_into_far_rectangle :
  let page := page_at Scenario.after_draws 0 in
  PageEntry.num_draw_rects page = NUM_PAGE_DRAW_RECTS /\
  PageEntry.draw_rects page = Scenario.draws /\
  forallb (fun r => negb (GSVector4i.rcontains r Scenario.fifth) &&
                    negb (GSVector4i.rintersects Scenario.fifth r)) Scenario.draws = true /\
  forallb (fun r => Qle_bool (centroid_distance_sq Scenario.fifth (mkRect 6 6 10 10))
                             (centroid_distance_sq Scenario.fifth r)) Scenario.draws = true /\
  (centroid_distance_sq Scenario.fifth (mkRect 6 6 10 10) <
   centroid_distance_sq Scenario.fifth (mkRect 0 0 2 2))%Q /\
  choose_draw_rect Scenario.fifth Scenario.fifth page = Some 0%nat /\
  PageEntry.draw_rects
    (page_at (AddDrawnRectangle (Scenario.env 0 1 false) Scenario.fifth Scenario.fifth
                                Scenario.after_draws) 0)
    = [mkRect 0 0 12 12; mkRect 6 6 10 10; mkRect 40 40 42 42; mkRect 50 100 52 102].
Proof. repeat split; vm_compute; reflexivity. Qed.

(** ** Allocation failure *)

Lemma LookupHashCache_alloc_failure env key tex_hash pal_hash s :
  FetchTexture env = None ->
  hc_find (HashCacheKey.mk tex_hash pal_hash (mode_to_Z (SourceKey.mode key))) (s_hash_cache s) = None ->
  LookupHashCache env key tex_hash pal_hash s = (s, None).
Proof. intros Hf Hm. unfold LookupHashCache. now rewrite Hm, Hf. Qed.

(** C9 (code bug): on a miss with the GPU out of textures, [LookupHashCache]
    returns null and leaves the state alone, and so does [CreateSource];
    but [LookupSource] hands that null to [ReturnSource], which reads
    through it. *)
Theorem LookupSource_alloc_failure_dereferences_null env key rect flags s :
  FetchTexture env = None ->
  find_source s key (PageEntry.sources (page_at s (SourceKey.page key))) = None ->
  hc_find (hash_cache_key_of env key) (s_hash_cache s) = None ->
  LookupHashCache env key (HashCacheKey.texture_hash (hash_cache_key_of env key))
                  (HashCacheKey.palette_hash (hash_cache_key_of env key)) s = (s, None) /\
  CreateSource env key s = (s, None) /\
  LookupSource env key rect flags s = NullDereference.
Proof.
  intros Hfetch Hmiss Hcache.
  assert (Hl : LookupHashCache env key (HashCacheKey.texture_hash (hash_cache_key_of env key))
                 (HashCacheKey.palette_hash (hash_cache_key_of env key)) s = (s, None))
    by (apply LookupHashCache_alloc_failure; assumption).
  assert (Hc : CreateSource env key s = (s, None)).
  { unfold CreateSource. cbn in Hl. now rewrite Hl. }
  repeat split; try assumption.
  unfold LookupSource. rewrite Hmiss, Hc. reflexivity.
Qed.

Lemma LookupSource_alloc_failure_witness :
  LookupSource Scenario.env_out_of_memory Scenario.key0 (mkRect 0 0 16 16) 0
               Scenario.not_tracking = NullDereference.
Proof.
  apply (LookupSource_alloc_failure_dereferences_null
           Scenario.env_out_of_memory Scenario.key0 (mkRect 0 0 16 16) 0 Scenario.not_tracking);
    reflexivity.
Defined.

(** ** Palette matching *)

Lemma HashPartialPalette_from_base env p m min max :
  0 <= min <= max -> max <= 255 ->
  HashPartialPalette env p m min max =
  XXH3_64bits env (vram_run env (VRAMPalettePointer p + 0) (max - min + 1)).
Proof.
  intros H1 H2. unfold HashPartialPalette, HashPartialPalette_ptr, vram_run.
  rewrite u32_small by lia. rewrite Z.add_0_r. reflexivity.
Qed.

(** C7 (counterexample): the palette sits at x = 1008 and the name records
    the sub-range 1..100, which runs past the right edge of VRAM.  The name
    carries the hash of exactly those entries, yet it is rejected. *)
Lemma IsMatchingReplacementPalette_rejects_at_vram_edge :
  TextureModeHasPalette Palette8Bit = true /\
  ~ (TextureReplacementName.pal_min Scenario.edge_name = 0 /\
     TextureReplacementName.pal_max Scenario.edge_name = GetPaletteWidth Palette8Bit - 1) /\
  TextureReplacementName.pal_hash Scenario.edge_name =
    XXH3_64bits (Scenario.env 3 1 false)
      (palette_sub_range (Scenario.env 3 1 false) Scenario.edge_palette
         (TextureReplacementName.pal_min Scenario.edge_name)
         (TextureReplacementName.pal_max Scenario.edge_name)) /\
  IsMatchingReplacementPalette (Scenario.env 3 1 false) 0 Palette8Bit
    Scenario.edge_palette Scenario.edge_name = false.
Proof.
  split; [reflexivity|]. split; [cbn; lia|]. split; [reflexivity|].
  vm_compute. reflexivity.
Qed.

(** C7 (amended): for a paletted mode, a name whose sub-range spans the
    whole palette is accepted exactly when its palette hash is the full
    palette hash.  Otherwise it is rejected when the range runs off the
    edge of VRAM, and else accepted exactly when its palette hash is the
    fresh hash of [pal_max - pal_min + 1] consecutive entries of the
    current palette, none beyond index [pal_max]. *)
Theorem IsMatchingReplacementPalette_cases env full_palette_hash m p name :
  TextureModeHasPalette m = true ->
  0 <= TextureReplacementName.pal_min name <= TextureReplacementName.pal_max name ->
  TextureReplacementName.pal_max name <= 255 ->
  let pal_min := TextureReplacementName.pal_min name in
  let pal_max := TextureReplacementName.pal_max name in
  let accepted := IsMatchingReplacementPalette env full_palette_hash m p name in
  (pal_min = 0 /\ pal_max = GetPaletteWidth m - 1 ->
   (accepted = true <-> TextureReplacementName.pal_hash name = full_palette_hash)) /\
  (~ (pal_min = 0 /\ pal_max = GetPaletteWidth m - 1) ->
   (VRAM_WIDTH <= GetXBase p + pal_max -> accepted = false) /\
   (GetXBase p + pal_max < VRAM_WIDTH ->
    exists first, 0 <= first <= pal_min /\
      (accepted = true <->
       TextureReplacementName.pal_hash name =
       XXH3_64bits env (vram_run env (VRAMPalettePointer p + first) (pal_max - pal_min + 1))))).
Proof.
  intros Hm Hrange Hmax pal_min pal_max accepted.
  subst accepted. unfold IsMatchingReplacementPalette. rewrite Hm. cbn [negb].
  fold pal_min pal_max. split.
  - intros [-> ->]. rewrite !Z.eqb_refl. cbn [andb]. apply Z.eqb_eq.
  - intros Hpart.
    assert (E : (pal_min =? 0) && (pal_max =? GetPaletteWidth m - 1) = false).
    { apply andb_false_iff.
      destruct (Z.eqb_spec pal_min 0) as [E1|E1]; [|now left].
      destruct (Z.eqb_spec pal_max (GetPaletteWidth m - 1)) as [E2|E2]; [|now right].
      exfalso. apply Hpart. now split. }
    rewrite E. split.
    + intros Hedge. apply Z.leb_le in Hedge. now rewrite Hedge.
    + intros Hin. apply Z.leb_gt in Hin. rewrite Hin.
      exists 0. split; [subst pal_min; lia|].
      rewrite <- HashPartialPalette_from_base with (m := m) by assumption.
      rewrite Z.eqb_eq. split; congruence.
Qed.

Lemma IsMatchingReplacementPalette_cases_witness :
  (TextureReplacementName.pal_min Scenario.ramp_name = 0 /\
   TextureReplacementName.pal_max Scenario.ramp_name = GetPaletteWidth Palette8Bit - 1 ->
   (IsMatchingReplacementPalette Scenario.ramp_env 7 Palette8Bit 0 Scenario.ramp_name = true <->
    TextureReplacementName.pal_hash Scenario.ramp_name = 7)) /\
  (~ (TextureReplacementName.pal_min Scenario.ramp_name = 0 /\
      TextureReplacementName.pal_max Scenario.ramp_name = GetPaletteWidth Palette8Bit - 1) ->
   (VRAM_WIDTH <= GetXBase 0 + TextureReplacementName.pal_max Scenario.ramp_name ->
    IsMatchingReplacementPalette Scenario.ramp_env 7 Palette8Bit 0 Scenario.ramp_name = false) /\
   (GetXBase 0 + TextureReplacementName.pal_max Scenario.ramp_name < VRAM_WIDTH ->
    exists first, 0 <= first <= TextureReplacementName.pal_min Scenario.ramp_name /\
      (IsMatchingReplacementPalette Scenario.ramp_env 7 Palette8Bit 0 Scenario.ramp_name = true <->
       TextureReplacementName.pal_hash Scenario.ramp_name =
       XXH3_64bits Scenario.ramp_env
         (vram_run Scenario.ramp_env (VRAMPalettePointer 0 + first)
            (TextureReplacementName.pal_max Scenario.ramp_name -
             TextureReplacementName.pal_min Scenario.ramp_name + 1))))).
Proof.
  apply (IsMatchingReplacementPalette_cases Scenario.ramp_env 7 Palette8Bit 0 Scenario.ramp_name).
  - reflexivity.
  - cbn. lia.
  - cbn. lia.
Defined.

(** The hash [HashPartialPalette] computes starts at the first palette
    entry, not at [min]: a name that carries the hash of entries 12..47 of
    a palette whose entries differ is turned down. *)
Lemma HashPartialPalette_ignores_min :
  HashPartialPalette Scenario.ramp_env 0 Palette8Bit 12 47 =
    XXH3_64bits Scenario.ramp_env (palette_sub_range Scenario.ramp_env 0 0 35) /\
  TextureReplacementName.pal_hash Scenario.ramp_name =
    XXH3_64bits Scenario.ramp_env (palette_sub_range Scenario.ramp_env 0 12 47) /\
  IsMatchingReplacementPalette Scenario.ramp_env 0 Palette8Bit 0 Scenario.ramp_name = false.
Proof. repeat split; vm_compute; reflexivity. Qed.

(** ** Replacement names *)

(** *** Strings *)

Lemma append_nil_l (s : string) : (EmptyString ++ s)%string = s.
Proof. reflexivity. Qed.

Lemma append_cons (x : ascii) (a b : string) : (String x a ++ b)%string = String x (a ++ b).
Proof. reflexivity. Qed.

Lemma string_append_assoc (a b c : string) : ((a ++ b) ++ c = a ++ (b ++ c))%string.
Proof. induction a as [|x a IH]; [reflexivity|]. rewrite !append_cons. now rewrite IH. Qed.

Lemma string_length_append (a b : string) :
  String.length (a ++ b) = (String.length a + String.length b)%nat.
Proof.
  induction a as [|x a IH]; [reflexivity|]. rewrite append_cons. cbn. now rewrite IH.
Qed.

Lemma no_char_append c a b : no_char c (a ++ b) = no_char c a && no_char c b.
Proof.
  induction a as [|x a IH]; [reflexivity|]. rewrite append_cons. cbn.
  rewrite IH. now rewrite andb_assoc.
Qed.

Lemma sv_find_skip c pre k s :
  sv_find c (String.length pre + k) (pre ++ s) =
  option_map (Nat.add (String.length pre)) (sv_find c k s).
Proof.
  induction pre as [|x pre IH].
  - rewrite append_nil_l. cbn. now destruct (sv_find c k s).
  - rewrite append_cons. cbn. rewrite IH. now destruct (sv_find c k s).
Qed.

Lemma sv_find_token c tok rest k :
  no_char c tok = true -> (k <= String.length tok)%nat ->
  sv_find c k (tok ++ String c rest) = Some (String.length tok).
Proof.
  revert k. induction tok as [|x tok IH]; intros k Hfree Hk;
    [rewrite append_nil_l|rewrite append_cons]; cbn in *.
  - assert (k = 0%nat) as -> by lia. now rewrite Ascii.eqb_refl.
  - apply andb_true_iff in Hfree as [Hx Hfree]. apply negb_true_iff in Hx.
    destruct k as [|k].
    + rewrite Hx. now rewrite (IH 0%nat) by (auto; lia).
    + now rewrite (IH k) by (auto; lia).
Qed.

Lemma sv_find_none c s k : no_char c s = true -> sv_find c k s = None.
Proof.
  revert k. induction s as [|x s IH]; intros k Hfree; cbn in *; [reflexivity|].
  apply andb_true_iff in Hfree as [Hx Hfree]. apply negb_true_iff in Hx.
  destruct k; [rewrite Hx|]; now rewrite IH.
Qed.

Lemma substring_skip pre n m s :
  substring (String.length pre + n) m (pre ++ s) = substring n m s.
Proof. induction pre as [|x pre IH]; [reflexivity|]. rewrite append_cons. exact IH. Qed.

Lemma substring_prefix tok rest :
  substring 0 (String.length tok) (tok ++ rest) = tok.
Proof.
  induction tok as [|x tok IH].
  - rewrite append_nil_l. now destruct rest.
  - rewrite append_cons. cbn. now rewrite IH.
Qed.

Lemma substring_all s : substring 0 (String.length s) s = s.
Proof.
  induction s as [|x s IH]; cbn; [reflexivity|now rewrite IH].
Qed.

Lemma get_skip pre a rest :
  String.get (String.length pre) (pre ++ String a rest) = Some a.
Proof. induction pre as [|x pre IH]; [reflexivity|]. rewrite append_cons. exact IH. Qed.

(** *** Digits *)

Lemma digits_str_app ds1 ds2 :
  digits_str (ds1 ++ ds2) = (digits_str ds1 ++ digits_str ds2)%string.
Proof.
  induction ds1 as [|d ds1 IH]; [reflexivity|].
  cbn [digits_str fold_right app]. fold (digits_str (ds1 ++ ds2)). fold (digits_str ds1).
  rewrite append_cons. now rewrite IH.
Qed.

Lemma digits_str_length ds : String.length (digits_str ds) = length ds.
Proof. induction ds as [|d ds IH]; cbn; [reflexivity|]. now f_equal. Qed.

Lemma digits_str_nonempty ds : ds <> [] -> digits_str ds <> EmptyString.
Proof. destruct ds; [contradiction|discriminate]. Qed.

Lemma small_digit_cases d :
  0 <= d < 16 ->
  d = 0 \/ d = 1 \/ d = 2 \/ d = 3 \/ d = 4 \/ d = 5 \/ d = 6 \/ d = 7 \/
  d = 8 \/ d = 9 \/ d = 10 \/ d = 11 \/ d = 12 \/ d = 13 \/ d = 14 \/ d = 15.
Proof. lia. Qed.

Lemma digit_value_digit_char base d :
  base <= 16 -> is_digit base d -> digit_value base (digit_char d) = Some d.
Proof.
  intros Hb [H0 H1].
  assert (Hlt : (d <? base) = true) by now apply Z.ltb_lt.
  pose proof (small_digit_cases d ltac:(lia)) as Hd.
  repeat (destruct Hd as [Hd | Hd]; [subst d|]); try subst d;
    match goal with
    | |- digit_value _ (digit_char ?k) = _ =>
        let c := eval vm_compute in (digit_char k) in
        let n := eval vm_compute in (Z.of_nat (nat_of_ascii c)) in
        change (digit_char k) with c; unfold digit_value;
        change (Z.of_nat (nat_of_ascii c)) with n
    end; cbv -[Z.ltb]; now rewrite Hlt.
Qed.

Lemma digit_char_no_sep c d :
  (c = "-" \/ c = "x")%char -> 0 <= d < 16 -> Ascii.eqb (digit_char d) c = false.
Proof.
  intros Hc Hd.
  pose proof (small_digit_cases d Hd) as Hk.
  repeat (destruct Hk as [Hk | Hk]; [subst d|]); try subst d;
    destruct Hc as [-> | ->]; reflexivity.
Qed.

Lemma digits_str_no_sep c base ds :
  (c = "-" \/ c = "x")%char -> base <= 16 -> Forall (is_digit base) ds ->
  no_char c (digits_str ds) = true.
Proof.
  intros Hc Hb Hds. induction Hds as [|d ds [H0 H1] _ IH]; [reflexivity|].
  cbn [digits_str fold_right no_char]. fold (digits_str ds).
  rewrite IH, digit_char_no_sep by (auto; lia). reflexivity.
Qed.

Lemma leading_digits_digits base ds rest :
  base <= 16 -> Forall (is_digit base) ds ->
  leading_digits base (digits_str ds ++ rest) = ds ++ leading_digits base rest.
Proof.
  intros Hb Hds. induction Hds as [|d ds Hd _ IH]; [reflexivity|].
  cbn [digits_str fold_right]. fold (digits_str ds). rewrite append_cons.
  cbn [leading_digits]. rewrite digit_value_digit_char by assumption.
  now rewrite IH.
Qed.

Lemma FromChars_digits bits base ds :
  base <= 16 -> ds <> [] -> Forall (is_digit base) ds ->
  digits_value base ds < 2 ^ bits ->
  FromChars bits base (digits_str ds) = Some (digits_value base ds).
Proof.
  intros Hb Hne Hds Hv. unfold FromChars.
  replace (digits_str ds) with (digits_str ds ++ EmptyString)%string
    by (generalize (digits_str ds); intros s; induction s as [|x s IH];
        [reflexivity|rewrite append_cons; now rewrite IH]).
  rewrite leading_digits_digits by assumption. cbn [leading_digits].
  rewrite app_nil_r. destruct ds as [|d ds]; [contradiction|].
  fold (digits_value base (d :: ds)).
  apply Z.ltb_lt in Hv. now rewrite Hv.
Qed.

(** What [format_digits] writes in front of its accumulator: digits, at
    least one, and those of [v] when [v] fits the number of rounds. *)
Lemma format_digits_spec base rounds v acc :
  2 <= base -> (1 <= rounds)%nat ->
  exists ds, ds <> [] /\ Forall (is_digit base) ds /\ (length ds <= rounds)%nat /\
             (0 <= v < base ^ Z.of_nat rounds -> digits_value base ds = v) /\
             format_digits base rounds v acc = (digits_str ds ++ acc)%string.
Proof.
  intros Hb. revert v acc. induction rounds as [|rounds IH]; intros v acc Hr; [lia|].
  cbn [format_digits].
  assert (Hmod : 0 <= v mod base < base) by (apply Z.mod_pos_bound; lia).
  assert (Hlast : forall q, q = 0 \/ rounds = 0%nat ->
            exists ds, ds <> [] /\ Forall (is_digit base) ds /\ (length ds <= S rounds)%nat /\
              (q = v / base -> 0 <= v < base ^ Z.of_nat (S rounds) -> digits_value base ds = v) /\
              String (digit_char (v mod base)) acc = (digits_str ds ++ acc)%string).
  { intros q Hq. exists [v mod base]. repeat split.
    - discriminate.
    - constructor; [exact Hmod|constructor].
    - cbn. lia.
    - intros -> Hv. unfold digits_value. cbn.
      assert (v / base = 0) as Hz.
      { destruct Hq as [Hq | ->]; [exact Hq|]. apply Z.div_small. cbn in Hv. lia. }
      rewrite Z.mod_eq by lia. rewrite Hz. lia. }
  destruct (v / base =? 0) eqn:Hq.
  - apply Z.eqb_eq in Hq.
    destruct (Hlast 0 (or_introl eq_refl)) as (ds & Hne & Hds & Hlen & Hval & Hstr).
    exists ds. repeat split; try assumption. intros Hv. apply Hval; [now symmetry|exact Hv].
  - destruct rounds as [|rounds'].
    + destruct (Hlast (v / base) (or_intror eq_refl)) as (ds & Hne & Hds & Hlen & Hval & Hstr).
      exists ds. repeat split; try assumption. intros Hv. now apply Hval.
    + destruct (IH (v / base) (String (digit_char (v mod base)) acc) ltac:(lia))
        as (ds & Hne & Hds & Hlen & Hval & Hstr).
      exists (ds ++ [v mod base]). repeat split.
      * destruct ds; discriminate.
      * apply Forall_app. split; [exact Hds|]. constructor; [exact Hmod|constructor].
      * rewrite length_app. cbn [length]. lia.
      * intros Hv. unfold digits_value in *. rewrite fold_left_app. cbn [fold_left].
        rewrite Hval.
        -- rewrite (Z.div_mod v base) at 3 by lia. lia.
        -- split; [apply Z.div_pos; lia|].
           apply Z.div_lt_upper_bound; [lia|].
           rewrite Nat2Z.inj_succ, Z.pow_succ_r in Hv by lia. lia.
      * rewrite Hstr, digits_str_app, string_append_assoc. reflexivity.
Qed.

Lemma append_nil_r (s : string) : (s ++ EmptyString)%string = s.
Proof. induction s as [|x s IH]; [reflexivity|]. rewrite append_cons. now rewrite IH. Qed.

Lemma format_dec_spec v :
  exists ds, ds <> [] /\ Forall (is_digit 10) ds /\
             (0 <= v < 2 ^ 64 -> digits_value 10 ds = v) /\
             format_dec v = digits_str ds.
Proof.
  unfold format_dec.
  destruct (format_digits_spec 10 20 v EmptyString) as (ds & Hne & Hds & _ & Hval & Hstr);
    [lia|lia|].
  exists ds. repeat split; try assumption.
  - intros Hv. apply Hval. cbn. lia.
  - now rewrite Hstr, append_nil_r.
Qed.

Lemma pad_zeros_digits n s : pad_zeros n s = (digits_str (replicate n 0) ++ s)%string.
Proof.
  induction n as [|n IH]; [reflexivity|].
  cbn [pad_zeros replicate digits_str fold_right]. fold (digits_str (replicate n 0)).
  rewrite append_cons. now rewrite IH.
Qed.

Lemma digits_value_zeros base n ds :
  digits_value base (replicate n 0 ++ ds) = digits_value base ds.
Proof.
  unfold digits_value. rewrite fold_left_app.
  replace (fold_left (fun acc d => acc * base + d) (replicate n 0) 0) with 0; [reflexivity|].
  induction n as [|n IH]; [reflexivity|]. cbn. exact IH.
Qed.

Lemma format_016X_spec v :
  exists ds, length ds = 16%nat /\ Forall (is_digit 16) ds /\
             (0 <= v < 2 ^ 64 -> digits_value 16 ds = v) /\
             format_016X v = digits_str ds.
Proof.
  unfold format_016X.
  destruct (format_digits_spec 16 16 v EmptyString) as (ds & Hne & Hds & Hlen & Hval & Hstr);
    [lia|lia|].
  rewrite append_nil_r in Hstr.
  rewrite Hstr, digits_str_length, pad_zeros_digits, <- digits_str_app.
  exists (replicate (16 - length ds) 0 ++ ds). repeat split.
  - rewrite length_app, length_replicate. lia.
  - apply Forall_app. split; [|exact Hds].
    apply Forall_replicate. unfold is_digit. lia.
  - intros Hv. rewrite digits_value_zeros. apply Hval. cbn. lia.
Qed.

Lemma format_dec_sep_free v : sep_free (format_dec v).
Proof.
  destruct (format_dec_spec v) as (ds & Hne & Hds & _ & ->).
  repeat split.
  - apply (digits_str_no_sep "-" 10); [now left|lia|assumption].
  - apply (digits_str_no_sep "x" 10); [now right|lia|assumption].
  - now apply digits_str_nonempty.
Qed.

Lemma FromChars_format_dec bits v :
  0 <= bits <= 64 -> 0 <= v < 2 ^ bits -> FromChars bits 10 (format_dec v) = Some v.
Proof.
  intros Hb Hv.
  assert (Hv64 : 0 <= v < 2 ^ 64).
  { split; [lia|]. apply Z.lt_le_trans with (2 ^ bits); [lia|].
    apply Z.pow_le_mono_r; lia. }
  destruct (format_dec_spec v) as (ds & Hne & Hds & Hval & ->).
  rewrite FromChars_digits;
    [now rewrite Hval|lia|assumption|assumption|rewrite Hval by assumption; lia].
Qed.

Lemma format_016X_sep_free v :
  sep_free (format_016X v) /\ String.length (format_016X v) = 16%nat.
Proof.
  destruct (format_016X_spec v) as (ds & Hlen & Hds & _ & ->).
  repeat split.
  - apply (digits_str_no_sep "-" 16); [now left|lia|assumption].
  - apply (digits_str_no_sep "x" 16); [now right|lia|assumption].
  - apply digits_str_nonempty. destruct ds; discriminate.
  - now rewrite digits_str_length.
Qed.

Lemma FromChars_format_016X v :
  0 <= v < 2 ^ 64 -> FromChars 64 16 (format_016X v) = Some v.
Proof.
  intros Hv. destruct (format_016X_spec v) as (ds & Hlen & Hds & Hval & ->).
  rewrite FromChars_digits;
    [now rewrite Hval|lia| |assumption|rewrite Hval by assumption; lia].
  destruct ds; discriminate.
Qed.

(** *** The parser's cursor *)

(** [sv_substr_from p s] is what the parser still has in front of it when
    its cursor is at [p]. *)
Lemma sv_substr_from_0 s : sv_substr_from 0 s = s.
Proof. unfold sv_substr_from. rewrite Nat.sub_0_r. apply substring_all. Qed.

Lemma sv_substr_from_S p a s : sv_substr_from (S p) (String a s) = sv_substr_from p s.
Proof. reflexivity. Qed.

Lemma sv_substr_from_skip pre s : sv_substr_from (String.length pre) (pre ++ s) = s.
Proof.
  induction pre as [|a pre IH].
  - rewrite append_nil_l. apply sv_substr_from_0.
  - rewrite append_cons. cbn [String.length]. now rewrite sv_substr_from_S.
Qed.

Lemma sv_substr_from_split p s suf :
  sv_substr_from p s = suf -> suf <> EmptyString ->
  exists pre, s = (pre ++ suf)%string /\ String.length pre = p.
Proof.
  revert p. induction s as [|a s IH]; intros p Hs Hne.
  - destruct p; cbn in Hs; congruence.
  - destruct p as [|p].
    + exists EmptyString. rewrite sv_substr_from_0 in Hs. subst suf. now split.
    + rewrite sv_substr_from_S in Hs. destruct (IH p Hs Hne) as (pre & -> & <-).
      exists (String a pre). split; [now rewrite append_cons|reflexivity].
Qed.

Lemma token_sep_nonempty tok c rest : (tok ++ String c rest)%string <> EmptyString.
Proof. destruct tok; [rewrite append_nil_l|rewrite append_cons]; discriminate. Qed.

Lemma cursor_assoc pre tok c rest :
  (pre ++ tok ++ String c rest)%string = ((pre ++ tok ++ String c EmptyString) ++ rest)%string.
Proof. now rewrite !string_append_assoc, append_cons, append_nil_l. Qed.

Section Cursor.
Variables (c : ascii) (s : string) (p : nat) (tok rest : string).
Hypothesis Hcur : sv_substr_from p s = (tok ++ String c rest)%string.

Lemma sv_substr_from_next : sv_substr_from (p + String.length tok + 1) s = rest.
Proof.
  destruct (sv_substr_from_split p s _ Hcur (token_sep_nonempty tok c rest)) as (pre & -> & <-).
  rewrite cursor_assoc.
  replace (String.length pre + String.length tok + 1)%nat
    with (String.length (pre ++ tok ++ String c EmptyString)).
  - apply sv_substr_from_skip.
  - rewrite !string_length_append. cbn. lia.
Qed.

Lemma sv_substr_at n : n = String.length tok -> sv_substr p n s = tok.
Proof.
  intros ->.
  destruct (sv_substr_from_split p s _ Hcur (token_sep_nonempty tok c rest)) as (pre & -> & <-).
  unfold sv_substr. rewrite <- (Nat.add_0_r (String.length pre)).
  rewrite substring_skip. apply substring_prefix.
Qed.

Hypothesis Hfree : no_char c tok = true.

Lemma sv_find_first : p = 0%nat -> sv_find c 0 s = Some (String.length tok).
Proof.
  intros ->. rewrite sv_substr_from_0 in Hcur. rewrite Hcur.
  apply sv_find_token; [exact Hfree|lia].
Qed.

Hypothesis Hne : tok <> EmptyString.

Lemma sv_find_at : sv_find c (p + 1) s = Some (p + String.length tok)%nat.
Proof.
  destruct (sv_substr_from_split p s _ Hcur (token_sep_nonempty tok c rest)) as (pre & -> & <-).
  rewrite sv_find_skip, (sv_find_token c tok rest 1 Hfree); [reflexivity|].
  destruct tok; [contradiction|cbn; lia].
Qed.

Lemma next_field_at : next_field c s p = Some (tok, (p + String.length tok + 1)%nat).
Proof.
  unfold next_field. rewrite sv_find_at. f_equal. f_equal. apply sv_substr_at. lia.
Qed.

End Cursor.

Lemma sv_substr_from_tail s p a rest :
  sv_substr_from p s = String a rest -> sv_substr_from (p + 1) s = rest.
Proof.
  intros H. change (String a rest) with (EmptyString ++ String a rest)%string in H.
  apply sv_substr_from_next in H. cbn [String.length] in H. now rewrite Nat.add_0_r in H.
Qed.

Lemma get_at s p a rest : sv_substr_from p s = String a rest -> String.get p s = Some a.
Proof.
  intros H. destruct (sv_substr_from_split p s _ H) as (pre & -> & <-); [discriminate|].
  apply get_skip.
Qed.

Lemma sv_find_past c s p :
  no_char c (sv_substr_from p s) = true -> sv_find c (S p) s = None.
Proof.
  revert p. induction s as [|a s IH]; intros p H; [reflexivity|].
  destruct p as [|p].
  - rewrite sv_substr_from_0 in H. now apply sv_find_none.
  - rewrite sv_substr_from_S in H. cbn [sv_find]. now rewrite (IH p H).
Qed.

Lemma next_field_at_none c s p :
  no_char c (sv_substr_from p s) = true -> next_field c s p = None.
Proof. intros H. unfold next_field. now rewrite Nat.add_1_r, (sv_find_past c s p H). Qed.

(** *** Formatted names *)

Lemma token_regroup a x b r :
  (a ++ String x (b ++ r))%string = ((a ++ String x b) ++ r)%string.
Proof. now rewrite string_append_assoc, append_cons. Qed.

Lemma ToString_direct n :
  TextureModeHasPalette (GetTextureMode n) = false ->
  ToString n =
    (type_token n ++ String "-" (mode_token n ++ String "-" (
     format_016X (TextureReplacementName.src_hash n) ++ String "-" (
     format_dec (TextureReplacementName.src_width n) ++ String "x" (
     format_dec (TextureReplacementName.src_height n) ++ String "-" (
     format_dec (TextureReplacementName.offset_x n) ++ String "-" (
     format_dec (TextureReplacementName.offset_y n) ++ String "-" (
     format_dec (TextureReplacementName.width n) ++ String "x" (
     format_dec (TextureReplacementName.height n))))))))))%string.
Proof.
  intros H. unfold ToString. rewrite H. unfold join_dash. cbn [String.concat].
  fold (type_token n). fold (mode_token n).
  now rewrite ?string_append_assoc, ?append_cons, ?append_nil_l.
Qed.

Lemma Parse_direct_tokens self T M H W Hh OX OY Wd Ht :
  no_char "-" T = true ->
  sep_free M -> sep_free H -> sep_free W -> sep_free Hh ->
  sep_free OX -> sep_free OY -> sep_free Wd -> sep_free Ht ->
  (forall m, parse_mode M = Some m -> TextureModeHasPalette (mode_of_Z (Z.land m 3)) = false) ->
  Parse self
    (T ++ String "-" (M ++ String "-" (H ++ String "-" (W ++ String "x" (Hh ++ String "-" (
     OX ++ String "-" (OY ++ String "-" (Wd ++ String "x" Ht))))))))%string = None.
Proof.
  intros HT (HM & _ & HMne) (HH & _ & HHne) (HW & _ & HWne) (HHh & _ & HHhne)
         (HOX & _ & HOXne) (HOY & _ & HOYne) (HWd & _ & HWdne) (HHt & _ & HHtne) Hdirect.
  match goal with |- Parse _ ?t = _ => remember t as s eqn:Hs end.
  assert (Hcur : sv_substr_from 0 s =
    (T ++ String "-" (M ++ String "-" (H ++ String "-" (W ++ String "x" (Hh ++ String "-" (
     OX ++ String "-" (OY ++ String "-" (Wd ++ String "x" Ht))))))))%string)
    by (rewrite Hs; apply sv_substr_from_0).
  clear Hs. unfold Parse.
  rewrite (sv_find_first _ _ _ _ _ Hcur HT eq_refl). cbn [mbind option_bind].
  rewrite (sv_substr_at _ _ _ _ _ Hcur _ eq_refl).
  apply sv_substr_from_next in Hcur. cbn [Nat.add] in Hcur.
  destruct (String.eqb T "texupload"); [|destruct (String.eqb T "texpage")];
    cbn [mbind option_bind]; [| |reflexivity].
  all: rewrite (next_field_at _ _ _ _ _ Hcur HM HMne); cbn [mbind option_bind].
  all: apply sv_substr_from_next in Hcur.
  all: destruct (parse_mode M) as [m|] eqn:Hm; cbn [mbind option_bind]; [|reflexivity].
  all: rewrite (next_field_at _ _ _ _ _ Hcur HH HHne); cbn [mbind option_bind].
  all: apply sv_substr_from_next in Hcur.
  all: destruct (bool_decide (String.length H = 16%nat)); [destruct (FromChars 64 16 H)|];
    cbn [mbind option_bind]; [|reflexivity|reflexivity].
  all: rewrite token_regroup in Hcur.
  all: assert (HWH : no_char "-" (W ++ String "x" Hh) = true)
    by (rewrite no_char_append; cbn [no_char]; rewrite HW, HHh; reflexivity).
  all: assert (HWHne : (W ++ String "x" Hh)%string <> EmptyString)
    by apply token_sep_nonempty.
  all: rewrite (sv_find_at _ _ _ _ _ Hcur HWH HWHne); cbn [mbind option_bind].
  all: rewrite (Hdirect m eq_refl).
  all: rewrite (sv_substr_at _ _ _ _ _ Hcur) by lia.
  all: apply sv_substr_from_next in Hcur.
  all: destruct (nonzero (FromChars 16 10 (W ++ String "x" Hh))); cbn [mbind option_bind];
    [|reflexivity].
  all: rewrite (next_field_at _ _ _ _ _ Hcur HOX HOXne); cbn [mbind option_bind].
  all: apply sv_substr_from_next in Hcur.
  all: destruct (nonzero (FromChars 16 10 OX)); cbn [mbind option_bind]; [|reflexivity].
  all: rewrite (next_field_at _ _ _ _ _ Hcur HOY HOYne); cbn [mbind option_bind].
  all: apply sv_substr_from_next in Hcur.
  all: destruct (FromChars 16 10 OY); cbn [mbind option_bind]; [|reflexivity].
  all: rewrite next_field_at_none; [reflexivity|].
  all: rewrite Hcur, no_char_append; cbn [no_char]; rewrite HWd, HHt; reflexivity.
Qed.

Lemma nonzero_Some v : v <> 0 -> nonzero (Some v) = Some v.
Proof. destruct v; [congruence|reflexivity|reflexivity]. Qed.

Lemma Parse_paletted_tokens self ty m h ph w hh ox oy wd ht pmin pmax
    T M H PH W Hh OX OY Wd Ht Pmin Pmax :
  no_char "-" T = true -> type_of_token T = Some ty ->
  sep_free M -> parse_mode M = Some m ->
  TextureModeHasPalette (mode_of_Z (Z.land m 3)) = true ->
  reads_hash H h -> reads_hash PH ph ->
  reads 16 W w -> w <> 0 -> reads 16 Hh hh -> hh <> 0 ->
  reads 16 OX ox -> reads 16 OY oy ->
  reads 16 Wd wd -> wd <> 0 -> reads 16 Ht ht -> ht <> 0 ->
  reads 8 Pmin pmin -> reads 8 Pmax pmax -> pmin <= pmax ->
  Parse self
    (T ++ String "-" (M ++ String "-" (H ++ String "-" (PH ++ String "-" (
     W ++ String "x" (Hh ++ String "-" (OX ++ String "-" (OY ++ String "-" (
     Wd ++ String "x" (Ht ++ String "-" (String "P" (Pmin ++ String "-" Pmax))))))))))))%string
  = Some (TextureReplacementName.mk h ph w hh ty m ox oy wd ht pmin pmax).
Proof.
  intros HT Hty (HM & _ & HMne) Hm Hpal
         ((HH & _ & HHne) & HHlen & HHv) ((HPH & _ & HPHne) & HPHlen & HPHv)
         ((_ & HW & HWne) & HWv) Hw ((HHh & _ & HHhne) & HHhv) Hhh
         ((HOX & _ & HOXne) & HOXv) ((HOY & _ & HOYne) & HOYv)
         ((_ & HWd & HWdne) & HWdv) Hwd ((HHt & _ & HHtne) & HHtv) Hht
         ((HPmin & _ & HPminne) & HPminv) (_ & HPmaxv) Hle.
  match goal with |- Parse _ ?t = _ => remember t as s eqn:Hs end.
  assert (Hcur : sv_substr_from 0 s =
    (T ++ String "-" (M ++ String "-" (H ++ String "-" (PH ++ String "-" (
     W ++ String "x" (Hh ++ String "-" (OX ++ String "-" (OY ++ String "-" (
     Wd ++ String "x" (Ht ++ String "-" (String "P" (Pmin ++ String "-" Pmax))))))))))))%string)
    by (rewrite Hs; apply sv_substr_from_0).
  clear Hs. unfold Parse.
  (* type *)
  rewrite (sv_find_first _ _ _ _ _ Hcur HT eq_refl). cbn [mbind option_bind].
  rewrite (sv_substr_at _ _ _ _ _ Hcur _ eq_refl).
  apply sv_substr_from_next in Hcur. cbn [Nat.add] in Hcur.
  unfold type_of_token in Hty. rewrite Hty. cbn [mbind option_bind].
  (* mode *)
  rewrite (next_field_at _ _ _ _ _ Hcur HM HMne). cbn [mbind option_bind].
  apply sv_substr_from_next in Hcur.
  rewrite Hm. cbn [mbind option_bind].
  (* src_hash *)
  rewrite (next_field_at _ _ _ _ _ Hcur HH HHne). cbn [mbind option_bind].
  apply sv_substr_from_next in Hcur.
  rewrite (bool_decide_eq_true_2 _ HHlen), HHv. cbn [mbind option_bind].
  (* pal_hash *)
  rewrite (sv_find_at _ _ _ _ _ Hcur HPH HPHne). cbn [mbind option_bind].
  rewrite Hpal.
  rewrite (sv_substr_at _ _ _ _ _ Hcur) by lia.
  apply sv_substr_from_next in Hcur.
  rewrite (bool_decide_eq_true_2 _ HPHlen), HPHv. cbn [mbind option_bind].
  (* src_width, src_height *)
  rewrite (next_field_at _ _ _ _ _ Hcur HW HWne). cbn [mbind option_bind].
  apply sv_substr_from_next in Hcur.
  rewrite HWv, (nonzero_Some w Hw). cbn [mbind option_bind].
  rewrite (next_field_at _ _ _ _ _ Hcur HHh HHhne). cbn [mbind option_bind].
  apply sv_substr_from_next in Hcur.
  rewrite HHhv, (nonzero_Some hh Hhh). cbn [mbind option_bind].
  (* offset_x, offset_y *)
  rewrite (next_field_at _ _ _ _ _ Hcur HOX HOXne). cbn [mbind option_bind].
  apply sv_substr_from_next in Hcur.
  rewrite HOXv. cbn [mbind option_bind].
  rewrite (next_field_at _ _ _ _ _ Hcur HOY HOYne). cbn [mbind option_bind].
  apply sv_substr_from_next in Hcur.
  rewrite HOYv. cbn [mbind option_bind].
  (* width, height *)
  rewrite (next_field_at _ _ _ _ _ Hcur HWd HWdne). cbn [mbind option_bind].
  apply sv_substr_from_next in Hcur.
  rewrite HWdv, (nonzero_Some wd Hwd). cbn [mbind option_bind].
  rewrite (next_field_at _ _ _ _ _ Hcur HHt HHtne). cbn [mbind option_bind].
  apply sv_substr_from_next in Hcur.
  rewrite HHtv, (nonzero_Some ht Hht). cbn [mbind option_bind].
  (* pal_min, pal_max *)
  pose proof (get_at _ _ _ _ Hcur) as HP.
  pose proof (sv_substr_from_tail _ _ _ _ Hcur) as Hmin.
  change (String "P" (Pmin ++ String "-" Pmax))
    with (String "P" Pmin ++ String "-" Pmax)%string in Hcur.
  assert (HPtok : no_char "-" (String "P" Pmin) = true) by (cbn [no_char]; now rewrite HPmin).
  rewrite (sv_find_at _ _ _ _ _ Hcur HPtok) by discriminate. cbn [mbind option_bind].
  rewrite (bool_decide_eq_true_2 _ HP). cbn [negb].
  rewrite (sv_substr_at _ _ _ _ _ Hmin) by (cbn [String.length]; lia).
  rewrite HPminv. cbn [mbind option_bind].
  apply sv_substr_from_next in Hcur. rewrite Hcur, HPmaxv. cbn [mbind option_bind].
  now rewrite (proj2 (Z.ltb_ge pmax pmin)) by lia.
Qed.

Lemma ToString_paletted n :
  TextureModeHasPalette (GetTextureMode n) = true ->
  ToString n =
    (type_token n ++ String "-" (mode_token n ++ String "-" (
     format_016X (TextureReplacementName.src_hash n) ++ String "-" (
     format_016X (TextureReplacementName.pal_hash n) ++ String "-" (
     format_dec (TextureReplacementName.src_width n) ++ String "x" (
     format_dec (TextureReplacementName.src_height n) ++ String "-" (
     format_dec (TextureReplacementName.offset_x n) ++ String "-" (
     format_dec (TextureReplacementName.offset_y n) ++ String "-" (
     format_dec (TextureReplacementName.width n) ++ String "x" (
     format_dec (TextureReplacementName.height n) ++ String "-" (
     String "P" (format_dec (TextureReplacementName.pal_min n) ++ String "-" (
     format_dec (TextureReplacementName.pal_max n))))))))))))))%string.
Proof.
  intros H. unfold ToString. rewrite H. unfold join_dash. cbn [String.concat].
  fold (type_token n). fold (mode_token n).
  now rewrite ?string_append_assoc, ?append_cons, ?append_nil_l.
Qed.

Lemma texture_mode_cases m :
  0 <= m < 8 -> m = 0 \/ m = 1 \/ m = 2 \/ m = 3 \/ m = 4 \/ m = 5 \/ m = 6 \/ m = 7.
Proof. lia. Qed.

Lemma type_token_free n : no_char "-" (type_token n) = true.
Proof. unfold type_token. now destruct (bool_decide _). Qed.

Lemma mode_token_sep_free n :
  0 <= TextureReplacementName.texture_mode n < 8 -> sep_free (mode_token n).
Proof.
  intros Hm. unfold mode_token.
  destruct (texture_mode_cases _ Hm) as [E|[E|[E|[E|[E|[E|[E|E]]]]]]]; rewrite E;
    repeat split; discriminate.
Qed.

Lemma reads_format_dec bits v :
  0 <= bits <= 64 -> 0 <= v < 2 ^ bits -> reads bits (format_dec v) v.
Proof. intros Hb Hv. split; [apply format_dec_sep_free|now apply FromChars_format_dec]. Qed.

Lemma reads_hash_format_016X v : 0 <= v < 2 ^ 64 -> reads_hash (format_016X v) v.
Proof.
  intros Hv. destruct (format_016X_sep_free v) as [Hfree Hlen].
  repeat split; try apply Hfree; [exact Hlen|now apply FromChars_format_016X].
Qed.

(** X1: a 4-bit or 8-bit name of either origin whose fields fit their types,
    with non-zero dimensions and [pal_min <= pal_max], is parsed back from
    its formatted string field by field. *)
Theorem Parse_ToString_paletted self n :
  fits_field_types n -> nonzero_dimensions n ->
  TextureReplacementName.pal_min n <= TextureReplacementName.pal_max n ->
  TextureReplacementName.type n <> VRAMReplacement ->
  TextureModeHasPalette (GetTextureMode n) = true ->
  Parse self (ToString n) = Some n.
Proof.
  intros (Hsh & Hph & Hsw & Hshh & Hm & Hox & Hoy & Hw & Hh & Hpmin & Hpmax)
         (Nsw & Nsh & Nw & Nh) Hle Hty Hpal.
  rewrite (ToString_paletted n Hpal).
  replace (Some n) with
    (Some (TextureReplacementName.mk
             (TextureReplacementName.src_hash n) (TextureReplacementName.pal_hash n)
             (TextureReplacementName.src_width n) (TextureReplacementName.src_height n)
             (TextureReplacementName.type n) (TextureReplacementName.texture_mode n)
             (TextureReplacementName.offset_x n) (TextureReplacementName.offset_y n)
             (TextureReplacementName.width n) (TextureReplacementName.height n)
             (TextureReplacementName.pal_min n) (TextureReplacementName.pal_max n)))
    by now destruct n.
  apply Parse_paletted_tokens; try assumption;
    try (apply reads_format_dec; [lia|assumption]);
    try (now apply reads_hash_format_016X).
  - apply type_token_free.
  - unfold type_token, type_of_token.
    destruct (TextureReplacementName.type n); [contradiction|reflexivity|reflexivity].
  - now apply mode_token_sep_free.
  - unfold mode_token, GetTextureMode in *.
    destruct (texture_mode_cases _ Hm) as [E|[E|[E|[E|[E|[E|[E|E]]]]]]]; rewrite E in *;
      try discriminate Hpal; reflexivity.
Qed.

(** C8 (code bug): the string the formatter makes for a 16-bit name, of
    either origin and whatever its fields, is turned down by the parser:
    the 16-bit branch reads [src_width] from the whole ["WxH"] token and
    every later field one token late, so the last search for ['-'] fails. *)
Theorem Parse_rejects_formatted_16bit_names self n :
  0 <= TextureReplacementName.texture_mode n < 8 ->
  TextureModeHasPalette (GetTextureMode n) = false ->
  Parse self (ToString n) = None.
Proof.
  intros Hm Hpal. rewrite (ToString_direct n Hpal).
  destruct (format_016X_sep_free (TextureReplacementName.src_hash n)) as [Hhash _].
  apply Parse_direct_tokens;
    try apply format_dec_sep_free; try exact Hhash.
  - apply type_token_free.
  - now apply mode_token_sep_free.
  - intros m'. unfold mode_token, GetTextureMode in *.
    destruct (texture_mode_cases _ Hm) as [E|[E|[E|[E|[E|[E|[E|E]]]]]]]; rewrite E in *;
      try discriminate Hpal; intros [= <-]; reflexivity.
Qed.

Lemma Parse_rejects_formatted_16bit_witness :
  Parse Scenario.blank_name (ToString Scenario.name_C16) = None.
Proof.
  apply (Parse_rejects_formatted_16bit_names Scenario.blank_name Scenario.name_C16).
  - cbn. lia.
  - reflexivity.
Defined.

Lemma Parse_ToString_paletted_witness :
  Parse Scenario.blank_name (ToString Scenario.name_P8) = Some Scenario.name_P8.
Proof.
  apply (Parse_ToString_paletted Scenario.blank_name Scenario.name_P8).
  - unfold fits_field_types. cbn. lia.
  - unfold nonzero_dimensions. cbn. lia.
  - cbn. lia.
  - discriminate.
  - reflexivity.
Defined.

(** The strings themselves, for one name of each mode and origin. *)
Example Parse_ToString_examples :
  ToString Scenario.name_C16 = "texpage-C16-00000000DEADBEEF-64x64-1-2-64x64"%string /\
  Parse Scenario.blank_name (ToString Scenario.name_C16) = None /\
  ToString Scenario.name_STC16 = "texupload-STC16-00000000DEADBEEF-256x128-0-0-256x128"%string /\
  Parse Scenario.blank_name (ToString Scenario.name_STC16) = None /\
  ToString Scenario.name_P4 =
    "texupload-P4-0123456789ABCDEF-FEDCBA9876543210-64x256-12-34-16x32-P0-15"%string /\
  Parse Scenario.blank_name (ToString Scenario.name_P4) = Some Scenario.name_P4 /\
  Parse Scenario.blank_name (ToString Scenario.name_P8) = Some Scenario.name_P8.
Proof. repeat split; vm_compute; reflexivity. Qed.

(** ** Compaction *)

Lemma hc_find_elem k e l : hc_find k l = Some e -> (k, e) ∈ l.
Proof.
  induction l as [|[k' e'] l IH]; cbn; [discriminate|].
  destruct (decide (k' = k)) as [->|Hne].
  - intros [= ->]. apply elem_of_cons. now left.
  - intros H. apply elem_of_cons. right. now apply IH.
Qed.

Lemma hc_erase_elem it x l : x ∈ hc_erase it l -> x ∈ l.
Proof.
  induction l as [|[k' e'] l IH]; cbn; [trivial|].
  destruct (decide (k' = it)) as [->|Hne].
  - intros H. apply elem_of_cons. now right.
  - intros H. apply elem_of_cons in H as [->|H]; apply elem_of_cons; [now left|right; auto].
Qed.

(** C1 (counterexample): page 0 stays referenced (count 1, last used at
    frame 1) while page 1 is rewritten and sampled fifteen times; with the
    replacements in force the sixteen textures fill the memory budget.
    [Compact] then purges by age alone and evicts the one referenced
    entry, destroying its source, while the fifteen unreferenced entries
    stay. *)
Lemma Compact_purges_referenced_entry :
  omap (fun s =>
          (over_budget s,
           HashCacheEntry.ref_count <$> hc_find Scenario.key0_entry (s_hash_cache s),
           length (s_hash_cache s)))
       Scenario.busy
    = Done (true, Some 1, 16%nat) /\
  omap (fun s =>
          let s' := Compact (Scenario.env_replacing 17 17) s in
          (hc_find Scenario.key0_entry (s_hash_cache s'),
           map (fun x => HashCacheEntry.ref_count (snd x)) (s_hash_cache s'),
           size (source_heap s')))
       Scenario.busy
    = Done (None, replicate 15 0, 0%nat).
Proof. split; vm_compute; reflexivity. Qed.

(** ** Looking a source up again *)

Lemma page_at_update_page pn f s pk :
  page_at (update_page pn f s) pk =
  if decide (pn = pk /\ (pn < length (s_pages s))%nat) then f (page_at s pn) else page_at s pk.
Proof. unfold page_at, update_page. cbn. apply list_lookup_total_alter. Qed.

Lemma update_page_length pn f s : length (s_pages (update_page pn f s)) = length (s_pages s).
Proof. unfold update_page. cbn. apply length_alter. Qed.

Lemma find_ext {A : Type} (P Q : A -> bool) (l : list A) :
  (forall a, P a = Q a) -> List.find P l = List.find Q l.
Proof.
  intros H. induction l as [|a l IH]; cbn; [reflexivity|]. now rewrite H, IH.
Qed.

Lemma find_ListUnlink (P : ptr -> bool) n l :
  P n = false -> List.find P (ListUnlink n l) = List.find P l.
Proof.
  intros Hn. induction l as [|q l IH]; cbn; [reflexivity|].
  destruct (decide (q = n)) as [->|Hne].
  - now rewrite Hn.
  - cbn. now rewrite IH.
Qed.

Lemma find_app_miss (P : ptr -> bool) n l :
  P n = false -> List.find P (l ++ [n]) = List.find P l.
Proof.
  intros Hn. induction l as [|q l IH]; cbn.
  - now rewrite Hn.
  - now rewrite IH.
Qed.

Lemma find_true (P : ptr -> bool) n l : List.find P l = Some n -> P n = true.
Proof. intros H. now apply List.find_some in H. Qed.

(** For a page number below 32 the wrapped enumeration starts at the page. *)
Lemma LoopXWrappedPages_head page n :
  (page < NUM_VRAM_PAGES)%nat ->
  LoopXWrappedPages page (S n) = page :: tail (LoopXWrappedPages page (S n)).
Proof.
  intros Hp. unfold LoopXWrappedPages. cbn [seq map tail]. f_equal.
  unfold NUM_VRAM_PAGES in Hp.
  do 32 (destruct page as [|page]; [reflexivity|]). lia.
Qed.

Lemma TexturePageCountForMode_pos m : exists n, TexturePageCountForMode m = S n.
Proof. destruct m; cbn; eauto. Qed.

Section LookupAgain.

Variable K : SourceKey.
Hypothesis HK : (SourceKey.page K < NUM_VRAM_PAGES)%nat.

Lemma find_source_has_key s l : find_source s K l = List.find (has_key K s) l.
Proof. reflexivity. Qed.

Lemma ReturnSource_Some env n uv flags s :
  is_Some (source_heap s !! n) ->
  exists s', ReturnSource env (Some n) uv flags s = Done (s', n) /\
             s_pages s' = s_pages s /\
             length (s_hash_cache s') = length (s_hash_cache s) /\
             (forall q, has_key K s' q = has_key K s q).
Proof.
  intros [src Hsrc]. unfold ReturnSource. rewrite Hsrc.
  eexists. split; [reflexivity|].
  assert (Hlen : forall f k l, length (hc_alter f k l) = length l).
  { intros f k l. induction l as [|[k' e'] l IH]; cbn; [reflexivity|].
    destruct (decide (k' = k)); cbn; [reflexivity|now rewrite IH]. }
  destruct (dump_textures env); cbn.
  - repeat split; [apply Hlen|].
    intros q. unfold has_key. cbn.
    destruct (decide (n = q)) as [->|Hne].
    + rewrite lookup_insert_eq, Hsrc. reflexivity.
    + now rewrite lookup_insert_ne.
  - repeat split. apply Hlen.
Qed.

Lemma ReturnSource_Done env created uv flags s s' p :
  ReturnSource env created uv flags s = Done (s', p) -> created = Some p.
Proof.
  unfold ReturnSource. destruct created as [n|]; [|discriminate].
  destruct (source_heap s !! n); [|discriminate]. now intros [= _ ->].
Qed.

(** A hit moves the node to the front and returns it. *)
Lemma LookupSource_hit env key rect flags s n :
  find_source s key (PageEntry.sources (page_at s (SourceKey.page key))) = Some n ->
  exists s', LookupSource env key rect flags s = Done (s', n) /\
    s_pages s' = s_pages (update_page (SourceKey.page key)
                            (fun pg => PageEntry.set_sources
                                         (ListMoveToFront n (PageEntry.sources pg)) pg) s) /\
    length (s_hash_cache s') = length (s_hash_cache s) /\
    (forall q, has_key K s' q = has_key K s q).
Proof.
  intros Hfind. unfold LookupSource. rewrite Hfind.
  assert (Hn : is_Some (source_heap s !! n)).
  { apply List.find_some in Hfind as [_ Hn].
    destruct (source_heap s !! n); [eauto|discriminate]. }
  match goal with
  | |- context [ReturnSource env (Some n) rect flags ?s1] =>
      destruct (ReturnSource_Some env n rect flags s1 Hn) as (s' & Hr & Hp & Hl & Hk)
  end.
  exists s'. repeat split; assumption.
Qed.

(** Linking a source other than the ones [P] accepts into pages changes
    no lookup result. *)
Lemma add_page_ref_find (P : ptr -> bool) front src st pn pk :
  P src = false ->
  List.find P (PageEntry.sources (page_at (fst (add_page_ref front src st pn)) pk)) =
  List.find P (PageEntry.sources (page_at (fst st) pk)).
Proof.
  intros HP. destruct st as [s refs]. unfold add_page_ref.
  destruct (bool_decide (pn ∈ refs)); [reflexivity|]. cbn [fst].
  rewrite page_at_update_page. destruct (decide _) as [[-> _]|_]; [|reflexivity].
  cbn. destruct front; cbn.
  - now rewrite HP.
  - now apply find_app_miss.
Qed.

Lemma add_page_ref_fold_find (P : ptr -> bool) front src pns st pk :
  P src = false ->
  List.find P (PageEntry.sources (page_at (fst (fold_left (add_page_ref front src) pns st)) pk)) =
  List.find P (PageEntry.sources (page_at (fst st) pk)).
Proof.
  intros HP. revert st. induction pns as [|pn pns IH]; intros st; [reflexivity|].
  cbn. rewrite IH. now apply add_page_ref_find.
Qed.

Lemma add_page_ref_heap front src st pn :
  source_heap (fst (add_page_ref front src st pn)) = source_heap (fst st) /\
  s_hash_cache (fst (add_page_ref front src st pn)) = s_hash_cache (fst st) /\
  length (s_pages (fst (add_page_ref front src st pn))) = length (s_pages (fst st)).
Proof.
  destruct st as [s refs]. unfold add_page_ref.
  destruct (bool_decide (pn ∈ refs)); cbn; [auto|].
  repeat split. apply length_alter.
Qed.

Lemma add_page_ref_fold_heap front src pns st :
  source_heap (fst (fold_left (add_page_ref front src) pns st)) = source_heap (fst st) /\
  s_hash_cache (fst (fold_left (add_page_ref front src) pns st)) = s_hash_cache (fst st) /\
  length (s_pages (fst (fold_left (add_page_ref front src) pns st))) = length (s_pages (fst st)).
Proof.
  revert st. induction pns as [|pn pns IH]; intros st; [auto|].
  cbn. destruct (IH (add_page_ref front src st pn)) as (-> & -> & ->).
  apply add_page_ref_heap.
Qed.

Lemma add_page_ref_linked front src st pn pk :
  linked_in_front src pk st -> linked_in_front src pk (add_page_ref front src st pn).
Proof.
  destruct st as [s refs]. intros [Hin [l Hl]]. unfold add_page_ref. cbn in Hin, Hl.
  destruct (bool_decide (pn ∈ refs)) eqn:E; [now split; eauto|].
  apply bool_decide_eq_false in E.
  split; cbn.
  - apply elem_of_app. now left.
  - exists l. rewrite page_at_update_page.
    destruct (decide _) as [[-> _]|_]; [contradiction|assumption].
Qed.

Lemma add_page_ref_fold_linked front src pns st pk :
  linked_in_front src pk st ->
  linked_in_front src pk (fold_left (add_page_ref front src) pns st).
Proof.
  revert st. induction pns as [|pn pns IH]; intros st H; [exact H|].
  cbn. apply IH. now apply add_page_ref_linked.
Qed.

Lemma LookupHashCache_frame env key tex_hash pal_hash s :
  source_heap (fst (LookupHashCache env key tex_hash pal_hash s)) = source_heap s /\
  s_pages (fst (LookupHashCache env key tex_hash pal_hash s)) = s_pages s.
Proof.
  unfold LookupHashCache.
  destruct (hc_find _ (s_hash_cache s)); [auto|].
  destruct (FetchTexture env); auto.
Qed.

Lemma CreateSource_unfold env key s :
  CreateSource env key s =
  match LookupHashCache env key (HashPage env (SourceKey.page key) (SourceKey.mode key))
          (if TextureModeHasPalette (SourceKey.mode key)
           then HashPalette env (SourceKey.palette key) (SourceKey.mode key) else 0) s with
  | (sa, None) => (sa, None)
  | (sa, Some hcentry) =>
      (fst (created_source env key sa hcentry), Some (snd (created_source env key sa hcentry)))
  end.
Proof.
  unfold CreateSource, created_source.
  destruct (LookupHashCache _ _ _ _ s) as [sa [hcentry|]]; [|reflexivity].
  cbv zeta.
  destruct (fold_left (add_page_ref true _) _ _) as [s1 r1].
  destruct (TextureModeHasPalette (SourceKey.mode key)).
  - destruct (fold_left (add_page_ref false _) _ _) as [s2 r2]. reflexivity.
  - reflexivity.
Qed.

Lemma created_source_spec env key sa hcentry :
  let src := snd (created_source env key sa hcentry) in
  let s' := fst (created_source env key sa hcentry) in
  source_heap sa !! src = None /\
  (exists obj, Source.key obj = key /\ source_heap s' = <[src := obj]> (source_heap sa)) /\
  length (s_pages s') = length (s_pages sa) /\
  length (s_hash_cache s') = length (s_hash_cache sa) /\
  (forall (P : ptr -> bool) pk, P src = false ->
     List.find P (PageEntry.sources (page_at s' pk)) =
     List.find P (PageEntry.sources (page_at sa pk))) /\
  ((SourceKey.page key < length (s_pages sa))%nat ->
   (SourceKey.page key < NUM_VRAM_PAGES)%nat ->
   exists l, PageEntry.sources (page_at s' (SourceKey.page key)) = src :: l).
Proof.
  unfold created_source. cbv zeta. cbn [fst snd].
  set (src := fresh (dom (source_heap sa))).
  set (sb := set_hash_cache _ sa).
  set (st1 := fold_left (add_page_ref true src) _ (sb, [])).
  set (st2 := if TextureModeHasPalette (SourceKey.mode key) then _ else st1).
  assert (Hfresh : source_heap sa !! src = None).
  { apply not_elem_of_dom. apply is_fresh. }
  assert (H1 : source_heap (fst st1) = source_heap sa /\
               s_hash_cache (fst st1) = s_hash_cache sb /\
               length (s_pages (fst st1)) = length (s_pages sa)).
  { subst st1. apply (add_page_ref_fold_heap true src _ (sb, [])). }
  assert (H2 : source_heap (fst st2) = source_heap sa /\
               s_hash_cache (fst st2) = s_hash_cache sb /\
               length (s_pages (fst st2)) = length (s_pages sa)).
  { subst st2. destruct (TextureModeHasPalette (SourceKey.mode key)); [|exact H1].
    destruct (add_page_ref_fold_heap false src
                (LoopXWrappedPages (Z.to_nat (PalettePageNumber (SourceKey.palette key)))
                                   (PalettePageCountForMode (SourceKey.mode key))) st1)
      as (-> & -> & ->).
    exact H1. }
  destruct H2 as (Hheap & Hcache & Hlen).
  split; [exact Hfresh|]. split.
  { eexists. split; [|cbn; rewrite Hheap; reflexivity]. reflexivity. }
  split; [exact Hlen|]. split.
  { cbn. rewrite Hcache. subst sb. cbn.
    generalize (s_hash_cache sa). intros l.
    induction l as [|[k' e'] l IH]; cbn; [reflexivity|].
    destruct (decide (k' = hcentry)); cbn; [reflexivity|now rewrite IH]. }
  split.
  - intros P pk HP.
    change (page_at (set_source_heap _ (fst st2)) pk) with (page_at (fst st2) pk).
    transitivity (List.find P (PageEntry.sources (page_at (fst st1) pk))).
    + subst st2. destruct (TextureModeHasPalette (SourceKey.mode key)); [|reflexivity].
      now apply add_page_ref_fold_find.
    + subst st1. now rewrite add_page_ref_fold_find.
  - intros Hlt Hpage.
    change (page_at (set_source_heap _ (fst st2)) (SourceKey.page key))
      with (page_at (fst st2) (SourceKey.page key)).
    assert (L1 : linked_in_front src (SourceKey.page key) st1).
    { subst st1. destruct (TexturePageCountForMode_pos (SourceKey.mode key)) as [n ->].
      rewrite (LoopXWrappedPages_head _ n Hpage). cbn [fold_left].
      apply add_page_ref_fold_linked.
      unfold add_page_ref. rewrite bool_decide_eq_false_2 by apply not_elem_of_nil.
      split; cbn; [apply elem_of_cons; now left|].
      rewrite page_at_update_page. rewrite decide_True by (split; [reflexivity|exact Hlt]).
      cbn. eauto. }
    assert (L2 : linked_in_front src (SourceKey.page key) st2).
    { subst st2. destruct (TextureModeHasPalette (SourceKey.mode key)); [|exact L1].
      now apply add_page_ref_fold_linked. }
    exact (proj2 L2).
Qed.

Lemma page_at_pages s s' pk : s_pages s' = s_pages s -> page_at s' pk = page_at s pk.
Proof. unfold page_at. now intros ->. Qed.

(** What a lookup that creates its source leaves behind. *)
Lemma LookupSource_miss env key rect flags s s1 q :
  find_source s key (PageEntry.sources (page_at s (SourceKey.page key))) = None ->
  LookupSource env key rect flags s = Done (s1, q) ->
  source_heap s !! q = None /\
  length (s_pages s1) = length (s_pages s) /\
  (exists obj, Source.key obj = key /\ source_heap s1 !! q = Some obj) /\
  (forall n, n <> q -> has_key K s1 n = has_key K s n) /\
  (forall (P : ptr -> bool) pk, P q = false ->
     List.find P (PageEntry.sources (page_at s1 pk)) =
     List.find P (PageEntry.sources (page_at s pk))) /\
  ((SourceKey.page key < length (s_pages s))%nat ->
   (SourceKey.page key < NUM_VRAM_PAGES)%nat ->
   exists l, PageEntry.sources (page_at s1 (SourceKey.page key)) = q :: l).
Proof.
  intros Hmiss. unfold LookupSource. rewrite Hmiss, CreateSource_unfold.
  pose proof (LookupHashCache_frame env key
                (HashPage env (SourceKey.page key) (SourceKey.mode key))
                (if TextureModeHasPalette (SourceKey.mode key)
                 then HashPalette env (SourceKey.palette key) (SourceKey.mode key) else 0) s)
    as [Fheap Fpages].
  destruct (LookupHashCache _ _ _ _ s) as [sa [hcentry|]]; [|discriminate].
  cbn [fst] in Fheap, Fpages.
  pose proof (created_source_spec env key sa hcentry) as Hspec. cbv zeta in Hspec.
  destruct (created_source env key sa hcentry) as [sc src]. cbn [fst snd] in Hspec |- *.
  destruct Hspec as (Hfresh & (obj & Hkey & Hheap) & Hlen & _ & Hfind & Hfront).
  assert (Hsome : is_Some (source_heap sc !! src)).
  { rewrite Hheap, lookup_insert_eq. eauto. }
  destruct (ReturnSource_Some env src rect flags sc Hsome) as (s' & Hr & Hp & _ & Hk).
  rewrite Hr. intros [= <- <-].
  split; [now rewrite <- Fheap|].
  split; [now rewrite Hp, Hlen, Fpages|].
  split.
  { pose proof (Hk src) as Hk1. unfold has_key in Hk1.
    rewrite Hheap, lookup_insert_eq in Hk1.
    destruct (source_heap s' !! src) as [obj'|] eqn:E.
    - exists obj'. split; [|reflexivity].
      destruct (decide (Source.key obj = K)) as [Heq|Hne].
      + rewrite (bool_decide_eq_true_2 _ Heq) in Hk1.
        apply bool_decide_eq_true_1 in Hk1. congruence.
      + clear Hk1. unfold ReturnSource in Hr.
        rewrite Hheap, lookup_insert_eq in Hr.
        destruct (dump_textures env); injection Hr as <-; cbn in E.
        * rewrite lookup_insert_eq in E. injection E as <-. exact Hkey.
        * rewrite Hheap, lookup_insert_eq in E. injection E as <-. exact Hkey.
    - exfalso. unfold ReturnSource in Hr. rewrite Hheap, lookup_insert_eq in Hr.
      destruct (dump_textures env); injection Hr as <-; cbn in E.
      * rewrite lookup_insert_eq in E. discriminate.
      * rewrite Hheap, lookup_insert_eq in E. discriminate. }
  split.
  { intros n Hn. rewrite Hk. unfold has_key. rewrite Hheap, lookup_insert_ne by congruence.
    now rewrite Fheap. }
  split.
  { intros P pk HP. rewrite (page_at_pages sc s' pk Hp), (Hfind P pk HP).
    now rewrite (page_at_pages s sa pk Fpages). }
  intros Hlt Hpage. rewrite (page_at_pages sc s' _ Hp).
  apply Hfront; [now rewrite Fpages|exact Hpage].
Qed.

(** After a lookup of [K] that returned [p], the lookup of [K] finds [p]. *)
Lemma LookupSource_establishes env rect flags s s1 p :
  pages_allocated s ->
  LookupSource env K rect flags s = Done (s1, p) ->
  finds K p s1.
Proof.
  intros Hpages Hlook.
  destruct (find_source s K (PageEntry.sources (page_at s (SourceKey.page K)))) as [n|] eqn:Hfind.
  - destruct (LookupSource_hit env K rect flags s n Hfind) as (s' & Hl & Hp & _ & Hk).
    rewrite Hl in Hlook. injection Hlook as <- <-.
    split.
    + unfold pages_allocated. rewrite Hp, update_page_length. exact Hpages.
    + rewrite find_source_has_key, (find_ext _ _ _ Hk).
      rewrite (page_at_pages _ s' _ Hp), page_at_update_page.
      rewrite decide_True by (split; [reflexivity|rewrite Hpages; exact HK]).
      cbn. rewrite find_source_has_key in Hfind. now rewrite (find_true _ _ _ Hfind).
  - destruct (LookupSource_miss env K rect flags s s1 p Hfind Hlook)
      as (_ & Hlen & (obj & Hkey & Hobj) & _ & _ & Hfront).
    split.
    + unfold pages_allocated. now rewrite Hlen.
    + destruct Hfront as [l ->]; [rewrite Hpages; exact HK|exact HK|].
      rewrite find_source_has_key. cbn. unfold has_key at 1.
      rewrite Hobj, Hkey. now rewrite bool_decide_eq_true_2.
Qed.

(** Any further lookup, of whatever key, keeps that. *)
Lemma LookupSource_preserves env key rect flags s s1 q p :
  finds K p s ->
  LookupSource env key rect flags s = Done (s1, q) ->
  finds K p s1.
Proof.
  intros [Hpages Hp] Hlook. rewrite find_source_has_key in Hp.
  destruct (find_source s key (PageEntry.sources (page_at s (SourceKey.page key)))) as [n|] eqn:Hfind.
  - destruct (LookupSource_hit env key rect flags s n Hfind) as (s' & Hl & Hpg & _ & Hk).
    rewrite Hl in Hlook. injection Hlook as <- <-.
    split.
    + unfold pages_allocated. rewrite Hpg, update_page_length. exact Hpages.
    + rewrite find_source_has_key, (find_ext _ _ _ Hk).
      rewrite (page_at_pages _ s' _ Hpg), page_at_update_page.
      destruct (decide _) as [[Heq _]|_]; [|exact Hp].
      cbn. destruct (has_key K s n) eqn:Hn.
      * (* the node found carries K, so it is the node the lookup of K finds *)
        f_equal. rewrite Heq in Hfind.
        assert (Hkey : key = K).
        { apply List.find_some in Hfind as [_ Hf]. unfold has_key in Hn.
          destruct (source_heap s !! n) as [src|]; [|discriminate].
          apply bool_decide_eq_true_1 in Hf, Hn. congruence. }
        rewrite Hkey, find_source_has_key, Hp in Hfind. congruence.
      * rewrite Heq. now rewrite find_ListUnlink.
  - destruct (LookupSource_miss env key rect flags s s1 q Hfind Hlook)
      as (Hfresh & Hlen & (obj & Hkey & Hobj) & Hk & Hfnd & _).
    assert (HneK : key <> K).
    { intros ->. rewrite find_source_has_key, Hp in Hfind. discriminate. }
    assert (Hq : has_key K s q = false) by (unfold has_key; now rewrite Hfresh).
    assert (Hq1 : has_key K s1 q = false).
    { unfold has_key. rewrite Hobj, Hkey. now apply bool_decide_eq_false_2. }
    split.
    + unfold pages_allocated. now rewrite Hlen.
    + rewrite find_source_has_key.
      rewrite (find_ext (has_key K s1) (has_key K s)).
      * now rewrite (Hfnd _ _ Hq).
      * intros n. destruct (decide (n = q)) as [->|Hne]; [congruence|now apply Hk].
Qed.

Lemma LookupSource_finds env rect flags s p :
  finds K p s ->
  exists s', LookupSource env K rect flags s = Done (s', p) /\
             length (s_hash_cache s') = length (s_hash_cache s).
Proof.
  intros [_ Hp].
  destruct (LookupSource_hit env K rect flags s p Hp) as (s' & Hl & _ & Hlen & _).
  eauto.
Qed.

End LookupAgain.

(** *** What the parser accepts *)

Lemma digit_value_range base a d : digit_value base a = Some d -> 0 <= d < base.
Proof.
  unfold digit_value.
  set (c := Z.of_nat (nat_of_ascii a)).
  destruct ((48 <=? c) && (c <=? 57)) eqn:E1.
  - apply andb_true_iff in E1 as [H1 H2]. apply Z.leb_le in H1, H2.
    destruct (c - 48 <? base) eqn:E; [|discriminate]. intros [= <-]. apply Z.ltb_lt in E. lia.
  - destruct ((97 <=? c) && (c <=? 122)) eqn:E2.
    + apply andb_true_iff in E2 as [H1 H2]. apply Z.leb_le in H1, H2.
      destruct (c - 87 <? base) eqn:E; [|discriminate]. intros [= <-]. apply Z.ltb_lt in E. lia.
    + destruct ((65 <=? c) && (c <=? 90)) eqn:E3; [|discriminate].
      apply andb_true_iff in E3 as [H1 H2]. apply Z.leb_le in H1, H2.
      destruct (c - 55 <? base) eqn:E; [|discriminate]. intros [= <-]. apply Z.ltb_lt in E. lia.
Qed.

Lemma leading_digits_range base s : Forall (is_digit base) (leading_digits base s).
Proof.
  induction s as [|a s IH]; cbn [leading_digits]; [constructor|].
  destruct (digit_value base a) as [d|] eqn:E; [|constructor].
  constructor; [exact (digit_value_range base a d E)|exact IH].
Qed.

Lemma digits_fold_nonneg base ds acc :
  0 <= base -> 0 <= acc -> Forall (is_digit base) ds ->
  0 <= fold_left (fun a d => a * base + d) ds acc.
Proof.
  intros Hb. revert acc. induction ds as [|d ds IH]; intros acc Hacc Hds; cbn; [exact Hacc|].
  inversion Hds as [|? ? Hd Hds']; subst. destruct Hd as [Hd0 Hd1].
  apply IH; [|exact Hds']. apply Z.add_nonneg_nonneg; [apply Z.mul_nonneg_nonneg|]; lia.
Qed.

(** [FromChars] only hands out values of the type it was asked for. *)
Lemma FromChars_range bits base tok v :
  0 <= base -> FromChars bits base tok = Some v -> 0 <= v < 2 ^ bits.
Proof.
  intros Hb. unfold FromChars.
  pose proof (leading_digits_range base tok) as Hds.
  destruct (leading_digits base tok) as [|d ds]; [discriminate|].
  match goal with |- (if ?c then _ else _) = _ -> _ => destruct c eqn:E end; [|discriminate].
  intros [= <-]. apply Z.ltb_lt in E. split; [|exact E].
  apply (digits_fold_nonneg base (d :: ds) 0); [exact Hb|lia|exact Hds].
Qed.

Lemma nonzero_inv o v : nonzero o = Some v -> o = Some v /\ v <> 0.
Proof. destruct o as [[| |]|]; cbn; intros [= <-]; split; congruence. Qed.

Lemma parse_mode_range tok m : parse_mode tok = Some m -> 0 <= m < 8.
Proof.
  unfold parse_mode.
  destruct (List.find _ _) as [[i name]|] eqn:E; [|discriminate].
  intros [= <-]. apply find_some in E as [Hin _].
  apply in_combine_l in Hin. apply in_seq in Hin. lia.
Qed.

(** X2: whatever title [Parse] accepts, the name it yields is a texture
    name (never a VRAM replacement) with a mode that indexes the mode
    table, non-zero dimensions, every field within its type, and, for a
    paletted mode, [pal_min <= pal_max]. *)
Theorem Parse_accepts_only_valid_names self file_title n :
  Parse self file_title = Some n ->
  TextureReplacementName.type n <> VRAMReplacement /\
  0 <= TextureReplacementName.texture_mode n < 8 /\
  0 <= TextureReplacementName.src_hash n < 2 ^ 64 /\
  0 < TextureReplacementName.src_width n < 2 ^ 16 /\
  0 < TextureReplacementName.src_height n < 2 ^ 16 /\
  0 <= TextureReplacementName.offset_x n < 2 ^ 16 /\
  0 <= TextureReplacementName.offset_y n < 2 ^ 16 /\
  0 < TextureReplacementName.width n < 2 ^ 16 /\
  0 < TextureReplacementName.height n < 2 ^ 16 /\
  (TextureModeHasPalette (GetTextureMode n) = true ->
   0 <= TextureReplacementName.pal_hash n < 2 ^ 64 /\
   0 <= TextureReplacementName.pal_min n <= TextureReplacementName.pal_max n /\
   TextureReplacementName.pal_max n < 2 ^ 8).
Proof.
  unfold Parse. intros H. repeat parse_step.
  all: injection H as <-.
  all: repeat match goal with
         | H : nonzero _ = Some _ |- _ => apply nonzero_inv in H as [? ?]
         end.
  all: repeat match goal with
         | H : FromChars _ _ _ = Some _ |- _ => apply FromChars_range in H; [|lia]
         | H : parse_mode _ = Some _ |- _ => apply parse_mode_range in H
         | H : (_ <? _) = false |- _ => apply Z.ltb_ge in H
         end.
  all: unfold GetTextureMode; cbn [TextureReplacementName.type TextureReplacementName.texture_mode
         TextureReplacementName.src_hash TextureReplacementName.pal_hash
         TextureReplacementName.src_width TextureReplacementName.src_height
         TextureReplacementName.offset_x TextureReplacementName.offset_y
         TextureReplacementName.width TextureReplacementName.height
         TextureReplacementName.pal_min TextureReplacementName.pal_max].
  all: repeat split; try discriminate; try lia; try congruence.
Qed.

(** *** The type prefix of a title *)

Lemma sv_find_split c t e :
  sv_find c 0 t = Some e -> exists rest, t = (substring 0 e t ++ String c rest)%string.
Proof.
  revert e. induction t as [|a t IH]; intros e; cbn [sv_find]; [discriminate|].
  destruct (Ascii.eqb a c) eqn:E.
  - intros [= <-]. apply Ascii.eqb_eq in E as ->. exists t. reflexivity.
  - destruct (sv_find c 0 t) as [e'|]; [|discriminate]. cbn [option_map]. intros [= <-].
    destruct (IH e' eq_refl) as [rest Hrest]. exists rest.
    cbn [substring]. rewrite append_cons. now rewrite <- Hrest.
Qed.

Lemma prefix_append p rest : String.prefix p (p ++ rest) = true.
Proof.
  induction p as [|a p IH]; [now destruct rest|].
  rewrite append_cons. cbn [String.prefix]. now destruct (Ascii.ascii_dec a a).
Qed.

(** X3: the type [FindTextureReplacements] reads off the title's prefix is
    the type [Parse] stores (the [DebugAssert] of line 2802). *)
Theorem Parse_type_matches_title_prefix self file_title n :
  Parse self file_title = Some n ->
  GetTextureReplacementTypeFromFileTitle file_title = Some (TextureReplacementName.type n).
Proof.
  unfold Parse. intros H.
  destruct (sv_find "-" 0 file_title) as [end_pos|] eqn:Hfind; [|discriminate H].
  cbn [mbind option_bind] in H.
  destruct (sv_find_split _ _ _ Hfind) as [rest Htitle].
  change (sv_substr 0 end_pos file_title) with (substring 0 end_pos file_title) in H.
  destruct (String.eqb (substring 0 end_pos file_title) "texupload") eqn:E1;
    [|destruct (String.eqb (substring 0 end_pos file_title) "texpage") eqn:E2];
    cbn [mbind option_bind] in H; [| |discriminate H].
  - apply String.eqb_eq in E1. rewrite E1 in Htitle.
    repeat parse_step. all: injection H as <-.
    all: unfold GetTextureReplacementTypeFromFileTitle; rewrite Htitle.
    all: change ("texupload" ++ String "-" rest)%string with ("texupload-" ++ rest)%string.
    all: assert (String.prefix "vram-write-" ("texupload-" ++ rest) = false) as -> by reflexivity.
    all: now rewrite prefix_append.
  - apply String.eqb_eq in E2. rewrite E2 in Htitle.
    repeat parse_step. all: injection H as <-.
    all: unfold GetTextureReplacementTypeFromFileTitle; rewrite Htitle.
    all: change ("texpage" ++ String "-" rest)%string with ("texpage-" ++ rest)%string.
    all: assert (String.prefix "vram-write-" ("texpage-" ++ rest) = false) as -> by reflexivity.
    all: assert (String.prefix "texupload-" ("texpage-" ++ rest) = false) as -> by reflexivity.
    all: now rewrite prefix_append.
Qed.

(** *** VRAM replacement names *)

Lemma pad_zeros_length n s : String.length (pad_zeros n s) = (n + String.length s)%nat.
Proof. induction n as [|n IH]; cbn; [reflexivity|now rewrite IH]. Qed.

Lemma format_digits_length_le base rounds v acc k :
  2 <= base -> (1 <= k <= rounds)%nat -> 0 <= v < base ^ Z.of_nat k ->
  (String.length (format_digits base rounds v acc) <= k + String.length acc)%nat.
Proof.
  intros Hb. revert v acc k. induction rounds as [|rounds IH]; intros v acc k Hk Hv; [lia|].
  cbn [format_digits]. destruct (v / base =? 0) eqn:Hq.
  - cbn [String.length]. lia.
  - apply Z.eqb_neq in Hq.
    assert (Hk2 : (2 <= k)%nat).
    { destruct k as [|[|k]]; [lia| |lia]. exfalso. apply Hq. apply Z.div_small.
      change (Z.of_nat 1) with 1 in Hv. lia. }
    destruct k as [|k]; [lia|].
    assert (Hdiv : 0 <= v / base < base ^ Z.of_nat k).
    { split; [apply Z.div_pos; lia|].
      apply Z.div_lt_upper_bound; [lia|].
      rewrite Nat2Z.inj_succ, Z.pow_succ_r in Hv by lia. lia. }
    pose proof (IH (v / base) (String (digit_char (v mod base)) acc) k ltac:(lia) Hdiv) as Hlen.
    cbn [String.length] in Hlen. lia.
Qed.

Lemma digits_fold_lt base ds acc :
  2 <= base -> 0 <= acc -> Forall (is_digit base) ds ->
  fold_left (fun a d => a * base + d) ds acc < (acc + 1) * base ^ Z.of_nat (length ds).
Proof.
  intros Hb. revert acc. induction ds as [|d ds IH]; intros acc Hacc Hds.
  - cbn. lia.
  - inversion Hds as [|? ? Hd Hds']; subst. destruct Hd as [Hd0 Hd1].
    cbn [fold_left length]. rewrite Nat2Z.inj_succ, Z.pow_succ_r by lia.
    eapply Z.lt_le_trans; [apply IH; [nia|exact Hds']|].
    assert (0 < base ^ Z.of_nat (length ds)) by (apply Z.pow_pos_nonneg; lia).
    nia.
Qed.

Lemma hex_digits_full v :
  2 ^ 60 <= v < 2 ^ 64 -> String.length (format_digits 16 16 v ""%string) = 16%nat.
Proof.
  intros Hv.
  destruct (format_digits_spec 16 16 v EmptyString) as (ds & Hne & Hds & Hlen & Hval & Hstr);
    [lia|lia|].
  rewrite Hstr, append_nil_r, digits_str_length.
  pose proof (digits_fold_lt 16 ds 0 ltac:(lia) ltac:(lia) Hds) as Hlt.
  fold (digits_value 16 ds) in Hlt. rewrite Hval in Hlt by (cbn; lia).
  destruct (Nat.eq_dec (length ds) 16%nat) as [E|E]; [exact E|exfalso].
  assert (Hpow : 16 ^ Z.of_nat (length ds) <= 16 ^ 15) by (apply Z.pow_le_mono_r; lia).
  change (16 ^ 15) with (2 ^ 60) in Hpow. lia.
Qed.

Lemma format_08X_full v :
  2 ^ 60 <= v < 2 ^ 64 -> VRAMReplacementName.format_08X v = format_016X v.
Proof.
  intros Hv. unfold VRAMReplacementName.format_08X, format_016X.
  now rewrite (hex_digits_full v Hv).
Qed.

Lemma format_08X_length v :
  (String.length (VRAMReplacementName.format_08X v) <= 16)%nat /\
  (0 <= v < 2 ^ 60 -> (String.length (VRAMReplacementName.format_08X v) <= 15)%nat).
Proof.
  unfold VRAMReplacementName.format_08X. rewrite pad_zeros_length. split.
  - destruct (format_digits_spec 16 16 v EmptyString) as (ds & _ & _ & Hlen & _ & Hstr);
      [lia|lia|].
    rewrite Hstr, append_nil_r, digits_str_length. lia.
  - intros Hv.
    pose proof (format_digits_length_le 16 16 v EmptyString 15 ltac:(lia) ltac:(lia)) as Hlen.
    cbn [String.length] in Hlen. change (16 ^ Z.of_nat 15) with (2 ^ 60) in Hlen.
    specialize (Hlen Hv). lia.
Qed.

(** X4: a dump whose two hash halves both have sixteen significant hex digits
    is read back from its file title. *)
Theorem VRAMReplacementName_Parse_dump_title n :
  2 ^ 60 <= VRAMReplacementName.low n < 2 ^ 64 ->
  2 ^ 60 <= VRAMReplacementName.high n < 2 ^ 64 ->
  VRAMReplacementName.Parse (GetVRAMWriteDumpTitle n) = Some n.
Proof.
  intros Hlow Hhigh. unfold GetVRAMWriteDumpTitle, VRAMReplacementName.ToString.
  rewrite (format_08X_full _ Hlow), (format_08X_full _ Hhigh).
  destruct (format_016X_sep_free (VRAMReplacementName.high n)) as [_ HlenH].
  destruct (format_016X_sep_free (VRAMReplacementName.low n)) as [_ HlenL].
  set (H := format_016X (VRAMReplacementName.high n)) in *.
  set (L := format_016X (VRAMReplacementName.low n)) in *.
  unfold VRAMReplacementName.Parse.
  rewrite !string_length_append, HlenH, HlenL. cbn [String.length Nat.add Nat.eqb negb].
  unfold sv_substr.
  change 11%nat with (String.length "vram-write-" + 0)%nat at 1.
  rewrite substring_skip. rewrite <- HlenH at 1. rewrite substring_prefix.
  rewrite <- string_append_assoc.
  replace 27%nat with (String.length ("vram-write-" ++ H))
    by (rewrite string_length_append, HlenH; reflexivity).
  rewrite sv_substr_from_skip.
  unfold H, L. rewrite !FromChars_format_016X by lia.
  now destruct n.
Qed.

(** X5: a dump with a hash half below 2^60 gets a title shorter than the 43
    characters the parser insists on, and is not read back. *)
Theorem VRAMReplacementName_Parse_short_hash n :
  0 <= VRAMReplacementName.low n < 2 ^ 64 ->
  0 <= VRAMReplacementName.high n < 2 ^ 64 ->
  VRAMReplacementName.low n < 2 ^ 60 \/ VRAMReplacementName.high n < 2 ^ 60 ->
  VRAMReplacementName.Parse (GetVRAMWriteDumpTitle n) = None.
Proof.
  intros Hlow Hhigh Hshort. unfold GetVRAMWriteDumpTitle, VRAMReplacementName.ToString.
  unfold VRAMReplacementName.Parse.
  destruct (format_08X_length (VRAMReplacementName.high n)) as [HH1 HH2].
  destruct (format_08X_length (VRAMReplacementName.low n)) as [HL1 HL2].
  assert (Hlen : (String.length ("vram-write-" ++ VRAMReplacementName.format_08X (VRAMReplacementName.high n) ++
                                 VRAMReplacementName.format_08X (VRAMReplacementName.low n)) <> 43)%nat).
  { rewrite !string_length_append. cbn [String.length].
    destruct Hshort as [Hs|Hs]; [specialize (HL2 ltac:(lia))|specialize (HH2 ltac:(lia))]; lia. }
  apply Nat.eqb_neq in Hlen. now rewrite Hlen.
Qed.

(** ** Instances *)

Lemma Parse_accepts_only_valid_names_witness :
  let n := Scenario.name_P8 in
  TextureReplacementName.type n <> VRAMReplacement /\
  0 <= TextureReplacementName.texture_mode n < 8 /\
  0 <= TextureReplacementName.src_hash n < 2 ^ 64 /\
  0 < TextureReplacementName.src_width n < 2 ^ 16 /\
  0 < TextureReplacementName.src_height n < 2 ^ 16 /\
  0 <= TextureReplacementName.offset_x n < 2 ^ 16 /\
  0 <= TextureReplacementName.offset_y n < 2 ^ 16 /\
  0 < TextureReplacementName.width n < 2 ^ 16 /\
  0 < TextureReplacementName.height n < 2 ^ 16 /\
  (TextureModeHasPalette (GetTextureMode n) = true ->
   0 <= TextureReplacementName.pal_hash n < 2 ^ 64 /\
   0 <= TextureReplacementName.pal_min n <= TextureReplacementName.pal_max n /\
   TextureReplacementName.pal_max n < 2 ^ 8).
Proof.
  apply (Parse_accepts_only_valid_names Scenario.blank_name (ToString Scenario.name_P8)
           Scenario.name_P8).
  vm_compute. reflexivity.
Defined.

Lemma Parse_type_matches_title_prefix_witness :
  GetTextureReplacementTypeFromFileTitle (ToString Scenario.name_P4) =
  Some (TextureReplacementName.type Scenario.name_P4).
Proof.
  apply (Parse_type_matches_title_prefix Scenario.blank_name (ToString Scenario.name_P4)
           Scenario.name_P4).
  vm_compute. reflexivity.
Defined.

Lemma VRAMReplacementName_Parse_dump_title_witness :
  VRAMReplacementName.Parse
    (GetVRAMWriteDumpTitle (VRAMReplacementName.mk 1311768467463790320 18364758544493064720)) =
  Some (VRAMReplacementName.mk 1311768467463790320 18364758544493064720).
Proof.
  apply (VRAMReplacementName_Parse_dump_title
           (VRAMReplacementName.mk 1311768467463790320 18364758544493064720)); cbn; lia.
Defined.

Lemma VRAMReplacementName_Parse_short_hash_witness :
  VRAMReplacementName.Parse
    (GetVRAMWriteDumpTitle (VRAMReplacementName.mk 81985529216486895 18364758544493064720)) = None.
Proof.
  apply (VRAMReplacementName_Parse_short_hash
           (VRAMReplacementName.mk 81985529216486895 18364758544493064720)); cbn; lia.
Defined.

(** ** Page loops *)

Lemma Zrange_In a b x : In x (Zrange a b) <-> a <= x <= b.
Proof.
  unfold Zrange. rewrite in_map_iff. split.
  - intros (i & <- & Hi). apply in_seq in Hi. lia.
  - intros Hx. exists (Z.to_nat (x - a)). split; [lia|]. apply in_seq. lia.
Qed.

Lemma Zrange_NoDup a b : NoDup (Zrange a b).
Proof.
  unfold Zrange. apply NoDup_fmap_2; [|apply NoDup_seq].
  intros i j Hij. lia.
Qed.

Lemma flat_map_bind {A B : Type} (f : A -> list B) (l : list A) : flat_map f l = l ≫= f.
Proof. induction l as [|x l IH]; [reflexivity|]. cbn. now rewrite IH. Qed.

(** The pages of a rectangle inside VRAM, by coordinates. *)
Lemma LoopRectPages_In rc pn :
  in_vram rc -> GSVector4i.rempty rc = false ->
  In pn (LoopRectPages rc) <->
  exists px py,
    pn = Z.to_nat (py * VRAM_PAGES_WIDE + px) /\
    GSVector4i.left rc / VRAM_PAGE_WIDTH <= px <= (GSVector4i.right rc - 1) / VRAM_PAGE_WIDTH /\
    GSVector4i.top rc / VRAM_PAGE_HEIGHT <= py <= (GSVector4i.bottom rc - 1) / VRAM_PAGE_HEIGHT.
Proof.
  intros (Hl & Hlr & Hr & Ht & Htb & Hb) Hne. apply GSVector4i_rempty_false in Hne as [Hw Hh].
  unfold VRAM_WIDTH, VRAM_HEIGHT in *.
  unfold LoopRectPages. cbv zeta.
  rewrite !u32_small by lia.
  rewrite in_flat_map. unfold VRAMPageIndex. split.
  - intros (py & Hpy & Hin). apply in_map_iff in Hin as (px & <- & Hpx).
    apply Zrange_In in Hpy, Hpx. exists px, py. split; [f_equal; lia|]. split; assumption.
  - intros (px & py & -> & Hpx & Hpy). exists py. split; [now apply Zrange_In|].
    apply in_map_iff. exists px. split; [f_equal; lia|now apply Zrange_In].
Qed.

Lemma page_coordinates px py :
  0 <= px < VRAM_PAGES_WIDE -> 0 <= py ->
  VRAMPageStartX (py * VRAM_PAGES_WIDE + px) = px * VRAM_PAGE_WIDTH /\
  VRAMPageStartY (py * VRAM_PAGES_WIDE + px) = py * VRAM_PAGE_HEIGHT.
Proof.
  intros Hpx Hpy. unfold VRAMPageStartX, VRAMPageStartY, VRAM_PAGES_WIDE in *.
  rewrite Z.add_comm, Z.mod_add, Z.div_add by lia.
  rewrite Z.mod_small, Z.div_small by lia. split; reflexivity.
Qed.

Lemma rintersects_spec a b :
  GSVector4i.rempty a = false -> GSVector4i.rempty b = false ->
  GSVector4i.rintersects a b = true <->
  GSVector4i.left a < GSVector4i.right b /\ GSVector4i.left b < GSVector4i.right a /\
  GSVector4i.top a < GSVector4i.bottom b /\ GSVector4i.top b < GSVector4i.bottom a.
Proof.
  intros Ha%GSVector4i_rempty_false Hb%GSVector4i_rempty_false.
  unfold GSVector4i.rintersects. rewrite negb_true_iff, GSVector4i_rempty_false.
  unfold GSVector4i.rintersect, GSVector4i.sat_s32. cbn. lia.
Qed.

Lemma VRAMPageRect_nonempty pn : GSVector4i.rempty (VRAMPageRect pn) = false.
Proof. apply GSVector4i_rempty_false. unfold VRAMPageRect, VRAM_PAGE_WIDTH, VRAM_PAGE_HEIGHT. cbn. lia. Qed.

Lemma LoopRectPages_spec rc :
  in_vram rc -> GSVector4i.rempty rc = false ->
  NoDup (LoopRectPages rc) /\
  forall pn, pn ∈ LoopRectPages rc <->
             (pn < NUM_VRAM_PAGES)%nat /\
             GSVector4i.rintersects rc (VRAMPageRect (Z.of_nat pn)) = true.
Proof.
  intros Hin Hne. pose proof Hin as (Hl & Hlr & Hr & Ht & Htb & Hb).
  pose proof (proj1 (GSVector4i_rempty_false rc) Hne) as [Hw Hh].
  unfold VRAM_WIDTH, VRAM_HEIGHT in *.
  assert (Hsx : 0 <= GSVector4i.left rc / VRAM_PAGE_WIDTH) by (apply Z.div_pos; unfold VRAM_PAGE_WIDTH; lia).
  assert (Hex : (GSVector4i.right rc - 1) / VRAM_PAGE_WIDTH < VRAM_PAGES_WIDE)
    by (apply Z.div_lt_upper_bound; unfold VRAM_PAGE_WIDTH, VRAM_PAGES_WIDE; lia).
  assert (Hsy : 0 <= GSVector4i.top rc / VRAM_PAGE_HEIGHT) by (apply Z.div_pos; unfold VRAM_PAGE_HEIGHT; lia).
  assert (Hey : (GSVector4i.bottom rc - 1) / VRAM_PAGE_HEIGHT < 2)
    by (apply Z.div_lt_upper_bound; unfold VRAM_PAGE_HEIGHT; lia).
  split.
  - unfold LoopRectPages. cbv zeta. rewrite !u32_small by lia.
    rewrite flat_map_bind. apply NoDup_bind; [| |apply Zrange_NoDup].
    + intros y1 y2 pn Hy1%list_elem_of_In%Zrange_In Hy2%list_elem_of_In%Zrange_In
             Hp1%list_elem_of_In%in_map_iff Hp2%list_elem_of_In%in_map_iff.
      destruct Hp1 as (x1 & <- & Hx1%Zrange_In), Hp2 as (x2 & Heq & Hx2%Zrange_In).
      unfold VRAMPageIndex, VRAM_PAGES_WIDE in *. lia.
    + intros y Hy%list_elem_of_In%Zrange_In.
      apply NoDup_fmap_2_strong; [|apply Zrange_NoDup].
      intros x1 x2 Hx1%list_elem_of_In%Zrange_In Hx2%list_elem_of_In%Zrange_In Heq.
      unfold VRAMPageIndex, VRAM_PAGES_WIDE in *. lia.
  - intros pn. rewrite list_elem_of_In, (LoopRectPages_In rc pn Hin Hne). split.
    + intros (px & py & -> & Hpx & Hpy).
      assert (Hpx' : 0 <= px < VRAM_PAGES_WIDE) by lia.
      assert (Hpy' : 0 <= py < 2) by lia.
      split; [unfold NUM_VRAM_PAGES, VRAM_PAGES_WIDE in *; lia|].
      rewrite Z2Nat.id by (unfold VRAM_PAGES_WIDE in *; lia).
      apply rintersects_spec; [exact Hne|apply VRAMPageRect_nonempty|].
      unfold VRAMPageRect. destruct (page_coordinates px py Hpx' ltac:(lia)) as [-> ->].
      cbn [GSVector4i.left GSVector4i.top GSVector4i.right GSVector4i.bottom].
      unfold VRAM_PAGE_WIDTH, VRAM_PAGE_HEIGHT in *.
      pose proof (Z.div_mod (GSVector4i.left rc) 64 ltac:(lia)).
      pose proof (Z.mod_pos_bound (GSVector4i.left rc) 64 ltac:(lia)).
      pose proof (Z.div_mod (GSVector4i.right rc - 1) 64 ltac:(lia)).
      pose proof (Z.mod_pos_bound (GSVector4i.right rc - 1) 64 ltac:(lia)).
      pose proof (Z.div_mod (GSVector4i.top rc) 256 ltac:(lia)).
      pose proof (Z.mod_pos_bound (GSVector4i.top rc) 256 ltac:(lia)).
      pose proof (Z.div_mod (GSVector4i.bottom rc - 1) 256 ltac:(lia)).
      pose proof (Z.mod_pos_bound (GSVector4i.bottom rc - 1) 256 ltac:(lia)).
      lia.
    + intros [Hpn Hint].
      apply rintersects_spec in Hint; [|exact Hne|apply VRAMPageRect_nonempty].
      set (px := Z.of_nat pn mod VRAM_PAGES_WIDE).
      set (py := Z.of_nat pn / VRAM_PAGES_WIDE).
      assert (Hpx' : 0 <= px < VRAM_PAGES_WIDE)
        by (apply Z.mod_pos_bound; unfold VRAM_PAGES_WIDE; lia).
      assert (Hpy' : 0 <= py) by (apply Z.div_pos; unfold VRAM_PAGES_WIDE; lia).
      assert (Hpn' : Z.of_nat pn = py * VRAM_PAGES_WIDE + px).
      { unfold px, py. rewrite Z.mul_comm. apply Z.div_mod. unfold VRAM_PAGES_WIDE. lia. }
      rewrite Hpn' in Hint. unfold VRAMPageRect in Hint.
      destruct (page_coordinates px py Hpx' Hpy') as [Ex Ey]. rewrite Ex, Ey in Hint.
      cbn [GSVector4i.left GSVector4i.top GSVector4i.right GSVector4i.bottom] in Hint.
      exists px, py. split; [lia|].
      unfold VRAM_PAGE_WIDTH, VRAM_PAGE_HEIGHT in *.
      split; split.
      * apply Z.lt_succ_r. apply Z.div_lt_upper_bound; lia.
      * apply Z.div_le_lower_bound; lia.
      * apply Z.lt_succ_r. apply Z.div_lt_upper_bound; lia.
      * apply Z.div_le_lower_bound; lia.
Qed.

(** The pages [AreSourcePagesDrawn] asks about are the pages
    [LoopXWrappedPages] walks for the key's texture. *)
Lemma wrapped_page_numbers :
  forallb (fun p =>
    forallb (fun i =>
      bool_decide
        (Z.to_nat (Z.land (Z.of_nat p + Z.of_nat i) VRAM_PAGE_X_MASK + Z.land (Z.of_nat p) VRAM_PAGE_Y_MASK) =
         Z.to_nat (Z.lor (Z.land (Z.of_nat p) VRAM_PAGE_Y_MASK)
                         (Z.land (Z.of_nat p + Z.of_nat i) VRAM_PAGE_X_MASK))) &&
      bool_decide (Z.to_nat (Z.lor (Z.land (Z.of_nat p) VRAM_PAGE_Y_MASK)
                                   (Z.land (Z.of_nat p + 0) VRAM_PAGE_X_MASK)) = p))
      (seq 0 4))
    (seq 0 NUM_VRAM_PAGES) = true.
Proof. vm_compute. reflexivity. Qed.

Lemma wrapped_page_number p i :
  (p < NUM_VRAM_PAGES)%nat -> (i < 4)%nat ->
  Z.to_nat (Z.land (Z.of_nat p + Z.of_nat i) VRAM_PAGE_X_MASK + Z.land (Z.of_nat p) VRAM_PAGE_Y_MASK) =
  Z.to_nat (Z.lor (Z.land (Z.of_nat p) VRAM_PAGE_Y_MASK)
                  (Z.land (Z.of_nat p + Z.of_nat i) VRAM_PAGE_X_MASK)) /\
  Z.to_nat (Z.lor (Z.land (Z.of_nat p) VRAM_PAGE_Y_MASK)
                  (Z.land (Z.of_nat p + 0) VRAM_PAGE_X_MASK)) = p.
Proof.
  intros Hp Hi. pose proof wrapped_page_numbers as H.
  rewrite forallb_forall in H. specialize (H p ltac:(apply in_seq; lia)).
  rewrite forallb_forall in H. specialize (H i ltac:(apply in_seq; lia)).
  apply andb_true_iff in H as [H1 H2].
  apply bool_decide_eq_true in H1, H2. split; assumption.
Qed.

(** X8: [AreSourcePagesDrawn] asks [IsPageDrawn] about exactly the pages
    [CreateSource] links a source of that key into as texture pages (the
    pages of [LoopXWrappedPages] for the key's page and mode). *)
Theorem AreSourcePagesDrawn_checks_texture_pages s key rect :
  (SourceKey.page key < NUM_VRAM_PAGES)%nat ->
  AreSourcePagesDrawn s key rect =
  existsb (fun pn => IsPageDrawn s pn rect)
          (LoopXWrappedPages (SourceKey.page key) (TexturePageCountForMode (SourceKey.mode key))).
Proof.
  intros Hp. unfold AreSourcePagesDrawn, LoopXWrappedPages. cbv zeta.
  destruct (wrapped_page_number _ 0 Hp ltac:(lia)) as [_ E0].
  destruct (wrapped_page_number _ 1 Hp ltac:(lia)) as [E1 _].
  destruct (wrapped_page_number _ 2 Hp ltac:(lia)) as [E2 _].
  destruct (wrapped_page_number _ 3 Hp ltac:(lia)) as [E3 _].
  change (Z.of_nat 1) with 1 in E1. change (Z.of_nat 2) with 2 in E2.
  change (Z.of_nat 3) with 3 in E3.
  destruct (SourceKey.mode key); cbn [TexturePageCountForMode seq map existsb];
    change (Z.of_nat 0) with 0; change (Z.of_nat 1) with 1;
    change (Z.of_nat 2) with 2; change (Z.of_nat 3) with 3;
    rewrite ?E0, ?E1, ?E2, ?E3, ?orb_false_r, ?orb_assoc; reflexivity.
Qed.

Lemma row_and_column_bits :
  forallb (fun p =>
    forallb (fun q =>
      let v := Z.lor (Z.land p VRAM_PAGE_Y_MASK) q in
      (v =? Z.land p VRAM_PAGE_Y_MASK + q) && (v <? 32) &&
      (Z.land v VRAM_PAGE_Y_MASK =? Z.land p VRAM_PAGE_Y_MASK))
      (map Z.of_nat (seq 0 16)))
    (map Z.of_nat (seq 0 32)) = true.
Proof. vm_compute. reflexivity. Qed.

Lemma land_row_bit x : 0 <= x -> Z.land x VRAM_PAGE_Y_MASK = Z.land (x mod 32) VRAM_PAGE_Y_MASK.
Proof.
  intros Hx. change 32 with (2 ^ 5). rewrite <- Z.land_ones by lia.
  rewrite <- Z.land_assoc. reflexivity.
Qed.

Lemma wrapped_page_value page i :
  let v := Z.lor (Z.land (Z.of_nat page) VRAM_PAGE_Y_MASK)
                 (Z.land (Z.of_nat page + Z.of_nat i) VRAM_PAGE_X_MASK) in
  v = Z.land (Z.of_nat page) VRAM_PAGE_Y_MASK + (Z.of_nat page + Z.of_nat i) mod 16 /\
  0 <= v < 32 /\
  Z.land v VRAM_PAGE_Y_MASK = Z.land (Z.of_nat page) VRAM_PAGE_Y_MASK.
Proof.
  cbv zeta.
  assert (Hq : Z.land (Z.of_nat page + Z.of_nat i) VRAM_PAGE_X_MASK = (Z.of_nat page + Z.of_nat i) mod 16).
  { change VRAM_PAGE_X_MASK with (Z.ones 4). rewrite Z.land_ones by lia. reflexivity. }
  rewrite Hq, (land_row_bit (Z.of_nat page)) by lia.
  pose proof (Z.mod_pos_bound (Z.of_nat page) 32 ltac:(lia)) as Hp.
  pose proof (Z.mod_pos_bound (Z.of_nat page + Z.of_nat i) 16 ltac:(lia)) as Hq'.
  set (p := Z.of_nat page mod 32) in *. set (q := (Z.of_nat page + Z.of_nat i) mod 16) in *.
  pose proof row_and_column_bits as H. rewrite forallb_forall in H.
  specialize (H p). rewrite forallb_forall in H.
  assert (Hin_p : In p (map Z.of_nat (seq 0 32))).
  { apply in_map_iff. exists (Z.to_nat p). split; [lia|apply in_seq; lia]. }
  assert (Hin_q : In q (map Z.of_nat (seq 0 16))).
  { apply in_map_iff. exists (Z.to_nat q). split; [lia|apply in_seq; lia]. }
  specialize (H Hin_p q Hin_q). cbv zeta in H.
  apply andb_true_iff in H as [H H3]. apply andb_true_iff in H as [H1 H2].
  apply Z.eqb_eq in H1, H3. apply Z.ltb_lt in H2.
  rewrite H1 in *. split; [reflexivity|]. split; [|exact H3].
  split; [|exact H2].
  assert (0 <= Z.land p VRAM_PAGE_Y_MASK) by (apply Z.land_nonneg; lia). lia.
Qed.

(** X7: whatever the page and the count, [LoopXWrappedPages] stays on the
    page's row: every page it visits is a valid index with the row bit of
    [page]; with at most sixteen pages asked for, none is visited twice. *)
Theorem LoopXWrappedPages_stays_in_row page num_pages :
  (forall pn, pn ∈ LoopXWrappedPages page num_pages ->
              (pn < NUM_VRAM_PAGES)%nat /\
              Z.land (Z.of_nat pn) VRAM_PAGE_Y_MASK = Z.land (Z.of_nat page) VRAM_PAGE_Y_MASK) /\
  ((num_pages <= 16)%nat -> NoDup (LoopXWrappedPages page num_pages)).
Proof.
  split.
  - intros pn Hin. unfold LoopXWrappedPages in Hin.
    apply list_elem_of_In, in_map_iff in Hin as (i & <- & _).
    destruct (wrapped_page_value page i) as (_ & Hv & Hrow).
    rewrite Z2Nat.id by lia. split; [unfold NUM_VRAM_PAGES; lia|exact Hrow].
  - intros Hnum. unfold LoopXWrappedPages.
    apply NoDup_fmap_2_strong; [|apply NoDup_seq].
    intros i j Hi%list_elem_of_In%in_seq Hj%list_elem_of_In%in_seq Heq.
    destruct (wrapped_page_value page i) as (Ei & Hvi & _).
    destruct (wrapped_page_value page j) as (Ej & Hvj & _).
    apply Z2Nat.inj in Heq; [|lia|lia]. rewrite Ei, Ej in Heq.
    assert (Hmod : (Z.of_nat page + Z.of_nat i) mod 16 = (Z.of_nat page + Z.of_nat j) mod 16) by lia.
    pose proof (Z.div_mod (Z.of_nat page + Z.of_nat i) 16 ltac:(lia)).
    pose proof (Z.div_mod (Z.of_nat page + Z.of_nat j) 16 ltac:(lia)).
    pose proof (Z.mod_pos_bound (Z.of_nat page + Z.of_nat i) 16 ltac:(lia)).
    assert (Hd : (Z.of_nat page + Z.of_nat i) / 16 = (Z.of_nat page + Z.of_nat j) / 16 \/
                 (Z.of_nat page + Z.of_nat i) / 16 < (Z.of_nat page + Z.of_nat j) / 16 \/
                 (Z.of_nat page + Z.of_nat j) / 16 < (Z.of_nat page + Z.of_nat i) / 16) by lia.
    lia.
Qed.

(** ** Draw rectangles *)

Lemma runion_assoc a b c :
  GSVector4i.runion (GSVector4i.runion a b) c = GSVector4i.runion a (GSVector4i.runion b c).
Proof. unfold GSVector4i.runion. cbn. f_equal; lia. Qed.

Lemma runion_comm a b : GSVector4i.runion a b = GSVector4i.runion b a.
Proof. unfold GSVector4i.runion. f_equal; lia. Qed.

Lemma fold_runion_acc rs a b :
  fold_left GSVector4i.runion rs (GSVector4i.runion a b) =
  GSVector4i.runion (fold_left GSVector4i.runion rs a) b.
Proof.
  revert a. induction rs as [|r rs IH]; intros a; [reflexivity|].
  cbn [fold_left]. rewrite <- IH. f_equal.
  rewrite !runion_assoc. f_equal. apply runion_comm.
Qed.

Lemma fold_runion_insert rs a c rc :
  (c < length rs)%nat ->
  fold_left GSVector4i.runion (<[c := GSVector4i.runion (rs !!! c) rc]> rs) a =
  GSVector4i.runion (fold_left GSVector4i.runion rs a) rc.
Proof.
  revert a c. induction rs as [|r rs IH]; intros a c Hc; [cbn in Hc; lia|].
  destruct c as [|c]; cbn [fold_left].
  - cbn. rewrite <- runion_assoc. apply fold_runion_acc.
  - cbn. apply IH. cbn in Hc. lia.
Qed.

Lemma draw_rects_union_insert rects c rc :
  (c < length rects)%nat ->
  draw_rects_union (<[c := GSVector4i.runion (rects !!! c) rc]> rects) =
  GSVector4i.runion (draw_rects_union rects) rc.
Proof.
  destruct rects as [|r rs]; [cbn; lia|]. intros Hc.
  destruct c as [|c]; cbn.
  - apply fold_runion_acc.
  - apply fold_runion_insert. cbn in Hc. lia.
Qed.

Lemma draw_rects_union_snoc rects rc :
  rects <> [] ->
  draw_rects_union (rects ++ [rc]) = GSVector4i.runion (draw_rects_union rects) rc.
Proof.
  destruct rects as [|r rs]; [contradiction|]. intros _.
  cbn. now rewrite fold_left_app.
Qed.

Lemma rect_within_refl r : rect_within r r.
Proof. unfold rect_within. lia. Qed.

Lemma rect_within_runion_l a b : rect_within a (GSVector4i.runion a b).
Proof. unfold rect_within, GSVector4i.runion. cbn. lia. Qed.

Lemma rect_within_runion_r a b : rect_within b (GSVector4i.runion a b).
Proof. unfold rect_within, GSVector4i.runion. cbn. lia. Qed.

Lemma rect_within_trans a b c : rect_within a b -> rect_within b c -> rect_within a c.
Proof. unfold rect_within. lia. Qed.

Lemma clamp_mono al ar bl br rl rr :
  bl <= al -> ar <= br ->
  Z.min (Z.max al rl) rr < Z.min (Z.max ar rl) rr ->
  Z.min (Z.max bl rl) rr < Z.min (Z.max br rl) rr.
Proof. lia. Qed.

Lemma rintersects_mono a b r :
  rect_within a b -> GSVector4i.rintersects a r = true -> GSVector4i.rintersects b r = true.
Proof.
  unfold rect_within, GSVector4i.rintersects. rewrite !negb_true_iff, !GSVector4i_rempty_false.
  unfold GSVector4i.rintersect, GSVector4i.sat_s32. cbn.
  intros (H1 & H2 & H3 & H4) [Hx Hy].
  split;
    [apply (clamp_mono (GSVector4i.left a) (GSVector4i.right a))
    |apply (clamp_mono (GSVector4i.top a) (GSVector4i.bottom a))]; assumption.
Qed.

Lemma clamp_eq al ar cl cr :
  cl < cr ->
  (Z.min (Z.max al cl) cr = cl /\ Z.min (Z.max ar cl) cr = cr) <-> (al <= cl /\ cr <= ar).
Proof. lia. Qed.

Lemma rcontains_spec a rc :
  GSVector4i.rempty rc = false ->
  GSVector4i.rcontains a rc = true <-> rect_within rc a.
Proof.
  intros Hne%GSVector4i_rempty_false. unfold GSVector4i.rcontains.
  rewrite GSVector4i_eq_spec. unfold rect_within, GSVector4i.rintersect, GSVector4i.sat_s32.
  destruct a as [al at_ ar ab], rc as [cl ct cr cb]. cbn in *. destruct Hne as [Hx Hy].
  pose proof (clamp_eq al ar cl cr Hx) as Ex. pose proof (clamp_eq at_ ab ct cb Hy) as Ey.
  split.
  - intros [= H1 H2 H3 H4]. tauto.
  - intros (H1 & H2 & H3 & H4).
    destruct (proj2 Ex (conj H1 H3)) as [-> ->]. destruct (proj2 Ey (conj H2 H4)) as [-> ->].
    reflexivity.
Qed.

Lemma clamp_within il ir ol or_ rl rr :
  il < ir -> ol <= il -> ir <= or_ -> rl <= il -> ir <= rr ->
  Z.min (Z.max ol rl) rr < Z.min (Z.max or_ rl) rr.
Proof. lia. Qed.

(** A non-empty rectangle intersects whatever contains part of it. *)
Lemma rintersects_within inner outer r :
  GSVector4i.rempty inner = false -> rect_within inner outer -> rect_within inner r ->
  GSVector4i.rintersects outer r = true.
Proof.
  intros [Hx Hy]%GSVector4i_rempty_false. unfold rect_within, GSVector4i.rintersects.
  rewrite negb_true_iff, GSVector4i_rempty_false.
  unfold GSVector4i.rintersect, GSVector4i.sat_s32. cbn.
  intros (H1 & H2 & H3 & H4) (R1 & R2 & R3 & R4).
  split;
    [apply (clamp_within (GSVector4i.left inner) (GSVector4i.right inner))
    |apply (clamp_within (GSVector4i.top inner) (GSVector4i.bottom inner))]; assumption.
Qed.

Lemma fold_runion_within rs a r :
  rect_within r a \/ r ∈ rs -> rect_within r (fold_left GSVector4i.runion rs a).
Proof.
  revert a. induction rs as [|x rs IH]; intros a [H|H].
  - exact H.
  - apply elem_of_nil in H. contradiction.
  - cbn. apply IH. left. eapply rect_within_trans; [exact H|apply rect_within_runion_l].
  - cbn. apply IH. apply elem_of_cons in H as [->|H]; [left; apply rect_within_runion_r|now right].
Qed.

Lemma draw_rects_union_within rects r : r ∈ rects -> rect_within r (draw_rects_union rects).
Proof.
  destruct rects as [|x rs]; [intros H; apply elem_of_nil in H; contradiction|].
  intros H. cbn. apply fold_runion_within.
  apply elem_of_cons in H as [->|H]; [left; apply rect_within_refl|now right].
Qed.

(** *** The rectangles a write clears *)

Lemma clear_draw_rects_loop_spec rect rounds i num rects :
  (i <= num <= length rects)%nat -> (num - i <= rounds)%nat ->
  let keep := fun r => negb (GSVector4i.rintersects r rect) in
  let result := clear_draw_rects_loop rounds rect i num rects in
  take (fst result) (snd result) =
    take i rects ++ List.filter keep (take (num - i) (drop i rects)) /\
  length (snd result) = length rects /\ (fst result <= num)%nat.
Proof.
  cbv zeta. revert i num rects.
  induction rounds as [|rounds IH]; intros i num rects Hi Hr.
  - cbn. assert (i = num) as -> by lia. rewrite Nat.sub_diag. cbn. rewrite app_nil_r. auto.
  - cbn [clear_draw_rects_loop]. destruct (i <? num)%nat eqn:Hlt.
    + apply Nat.ltb_lt in Hlt.
      assert (Hlook : rects !! i = Some (rects !!! i)).
      { apply list_lookup_lookup_total_lt. lia. }
      assert (Hsplit : take (num - i) (drop i rects) =
                       rects !!! i :: take (num - S i) (drop (S i) rects)).
      { rewrite (drop_S rects (rects !!! i) i Hlook).
        replace (num - i)%nat with (S (num - S i)) by lia. reflexivity. }
      destruct (negb (GSVector4i.rintersects (rects !!! i) rect)) eqn:Hkeep.
      * destruct (IH (S i) num rects ltac:(lia) ltac:(lia)) as (E & Hlen & Hle).
        rewrite E, Hsplit. cbn [List.filter]. rewrite Hkeep.
        rewrite (take_S_r rects i (rects !!! i) Hlook), <- app_assoc. auto.
      * cbv zeta.
        set (rects1 := if ((0 <? num - 1)%nat && (0 <? num - 1 - i)%nat)
                       then take i rects ++ take (num - 1 - i) (drop (S i) rects) ++ drop (num - 1) rects
                       else rects).
        assert (Hlen1 : length rects1 = length rects).
        { unfold rects1. destruct (_ && _); [|reflexivity].
          rewrite !length_app, !length_take, !length_drop. lia. }
        assert (Htake1 : take i rects1 = take i rects).
        { unfold rects1. destruct (_ && _); [|reflexivity].
          rewrite take_app_le by (rewrite length_take; lia).
          rewrite take_take. f_equal. lia. }
        assert (Hrest1 : take (num - 1 - i) (drop i rects1) =
                         take (num - S i) (drop (S i) rects)).
        { unfold rects1. destruct (_ && _) eqn:Hc.
          - rewrite drop_app_length' by (rewrite length_take; lia).
            rewrite take_app_le by (rewrite length_take, length_drop; lia).
            rewrite take_take. f_equal. lia.
          - apply andb_false_iff in Hc.
            assert (Hz : (num - 1 - i = 0)%nat).
            { destruct Hc as [Hc|Hc]; apply Nat.ltb_ge in Hc; lia. }
            rewrite Hz. replace (num - S i)%nat with 0%nat by lia. reflexivity. }
        destruct (IH i (num - 1)%nat rects1 ltac:(lia) ltac:(lia)) as (E & Hlen & Hle).
        rewrite E, Htake1, Hrest1, Hsplit. cbn [List.filter]. rewrite Hkeep.
        split; [reflexivity|]. split; [lia|lia].
    + apply Nat.ltb_ge in Hlt. assert (i = num) as -> by lia.
      cbn. rewrite Nat.sub_diag. cbn. rewrite app_nil_r. auto.
Qed.

Lemma filter_length_eq {A : Type} (f : A -> bool) (l : list A) :
  length (List.filter f l) = length l -> List.filter f l = l.
Proof.
  induction l as [|a l IH]; [reflexivity|]. cbn. destruct (f a); cbn.
  - intros [= H]. now rewrite IH.
  - intros H. pose proof (filter_length_le f l). lia.
Qed.

Lemma take_head_tail (rects : list Rect) n :
  (0 < n)%nat -> (0 < length rects)%nat ->
  take n rects = rects !!! 0%nat :: take (n - 1) (drop 1 rects).
Proof.
  intros Hn Hlen. destruct rects as [|r rs]; [cbn in Hlen; lia|].
  destruct n as [|n]; [lia|]. cbn. now rewrite Nat.sub_0_r, drop_0.
Qed.

(** On a page, a write removes exactly the draw rectangles it intersects,
    keeps the others in order, and recomputes their bounding box. *)
Lemma clear_draw_rects_spec rect pg :
  draw_rects_consistent pg ->
  draw_rects_consistent (clear_draw_rects rect pg) /\
  active_draw_rects (clear_draw_rects rect pg) =
    List.filter (fun r => negb (GSVector4i.rintersects r rect)) (active_draw_rects pg) /\
  PageEntry.sources (clear_draw_rects rect pg) = PageEntry.sources pg /\
  PageEntry.writes (clear_draw_rects rect pg) = PageEntry.writes pg.
Proof.
  intros (Hnum & Hlen & Htotal). unfold clear_draw_rects, active_draw_rects.
  unfold draw_rects_consistent. unfold NUM_PAGE_DRAW_RECTS in *.
  destruct (0 <? PageEntry.num_draw_rects pg)%nat eqn:Hpos.
  - apply Nat.ltb_lt in Hpos.
    pose proof (clear_draw_rects_loop_spec rect (PageEntry.num_draw_rects pg) 0
                  (PageEntry.num_draw_rects pg) (PageEntry.draw_rects pg)
                  ltac:(lia) ltac:(lia)) as Hspec.
    cbv zeta in Hspec.
    destruct (clear_draw_rects_loop _ rect 0 _ _) as [num' rects'].
    cbn [fst snd] in Hspec. destruct Hspec as (E & Hlen' & Hle).
    rewrite Nat.sub_0_r, drop_0, take_0 in E. cbn [app] in E.
    case_bool_decide as Hsame; [|case_bool_decide as Hzero].
    + subst num'. cbn. split; [|auto].
      split; [exact Hnum|]. split; [lia|]. intros _.
      assert (Hkept : take (PageEntry.num_draw_rects pg) rects' =
                      take (PageEntry.num_draw_rects pg) (PageEntry.draw_rects pg)).
      { rewrite E. apply filter_length_eq. rewrite <- E, !length_take. lia. }
      now rewrite (Htotal Hpos), Hkept.
    + subst num'. cbn. split; [|auto]. split; [lia|]. split; [lia|]. intros H. lia.
    + cbn. split; [|auto]. split; [lia|]. split; [lia|]. intros _.
      rewrite (take_head_tail rects' num') by lia.
      reflexivity.
  - apply Nat.ltb_ge in Hpos. assert (PageEntry.num_draw_rects pg = 0)%nat as E by lia.
    split; [now split|]. rewrite E. cbn. auto.
Qed.

Lemma existsb_fmap {A B : Type} (f : B -> bool) (g : A -> B) (l : list A) :
  existsb f (map g l) = existsb (fun a => f (g a)) l.
Proof. induction l as [|a l IH]; [reflexivity|]. cbn. now rewrite IH. Qed.

Lemma existsb_seq_take (f : Rect -> bool) (rects : list Rect) n :
  (n <= length rects)%nat ->
  existsb (fun i => f (rects !!! i)) (seq 0 n) = existsb f (take n rects).
Proof.
  revert n. induction rects as [|r rs IH]; intros n Hn.
  - cbn in Hn. assert (n = 0)%nat as -> by lia. reflexivity.
  - destruct n as [|n]; [reflexivity|]. cbn [seq existsb take]. cbn in Hn.
    change ((r :: rs) !!! 0%nat) with r. f_equal.
    rewrite <- seq_shift, existsb_fmap. rewrite <- (IH n) by lia.
    reflexivity.
Qed.

Lemma existsb_In_false {A : Type} (f : A -> bool) (l : list A) :
  (forall a, In a l -> f a = false) -> existsb f l = false.
Proof.
  intros H. induction l as [|a l IH]; [reflexivity|]. cbn.
  rewrite (H a) by now left. apply IH. intros b Hb. apply H. now right.
Qed.

Lemma IsPageDrawn_active s pn rect :
  draw_rects_consistent (page_at s pn) ->
  IsPageDrawn s pn rect =
  existsb (fun r => GSVector4i.rintersects r rect) (active_draw_rects (page_at s pn)).
Proof.
  intros (Hnum & Hlen & Htotal). unfold IsPageDrawn, active_draw_rects. cbv zeta.
  set (pg := page_at s pn) in *.
  destruct (PageEntry.num_draw_rects pg =? 0)%nat eqn:Hz.
  - apply Nat.eqb_eq in Hz. rewrite Hz. reflexivity.
  - apply Nat.eqb_neq in Hz. cbn [orb].
    specialize (Htotal ltac:(lia)).
    destruct (GSVector4i.rintersects (PageEntry.total_draw_rect pg) rect) eqn:Ht; cbn [negb].
    + destruct (PageEntry.num_draw_rects pg =? 1)%nat eqn:Hone.
      * apply Nat.eqb_eq in Hone. rewrite Hone in *.
        destruct (PageEntry.draw_rects pg) as [|r rs]; [cbn in Hlen; discriminate|].
        cbn in Htotal. cbn. rewrite take_0 in Htotal. cbn in Htotal.
        rewrite take_0. cbn. rewrite <- Htotal, Ht. reflexivity.
      * apply (existsb_seq_take (fun r => GSVector4i.rintersects r rect)). lia.
    + symmetry. apply existsb_In_false. intros r Hr.
      destruct (GSVector4i.rintersects r rect) eqn:Hrr; [|reflexivity].
      rewrite <- Ht, Htotal. symmetry. apply (rintersects_mono r); [|exact Hrr].
      apply draw_rects_union_within. now apply list_elem_of_In.
Qed.

(** *** What leaves the draw rectangles alone *)

Lemma update_page_draw_states pn f s :
  (forall pg, draw_state (f pg) = draw_state pg) ->
  draw_states (update_page pn f s) = draw_states s.
Proof.
  intros Hf. unfold draw_states, update_page. cbn [s_pages set_pages].
  generalize (s_pages s). intros l. revert pn.
  induction l as [|pg l IH]; intros pn; [reflexivity|].
  destruct pn as [|pn]; cbn; [now rewrite Hf|now rewrite IH].
Qed.

Lemma link_write_draw_states it pages s : draw_states (link_write it pages s) = draw_states s.
Proof.
  unfold link_write. apply (fold_left_preserves draw_states). intros a pn.
  now apply update_page_draw_states.
Qed.

Lemma unlink_write_draw_states it pages s : draw_states (unlink_write it pages s) = draw_states s.
Proof.
  unfold unlink_write. apply (fold_left_preserves draw_states). intros a pn.
  now apply update_page_draw_states.
Qed.

Lemma SyncVRAMWritePaletteRecords_draw_states env entry s :
  draw_states (SyncVRAMWritePaletteRecords env entry s) = draw_states s.
Proof.
  unfold SyncVRAMWritePaletteRecords.
  destruct (IsDumpingVRAMWriteTextures env s); [|reflexivity].
  destruct (write_heap s !! entry) as [w|]; [|reflexivity].
  apply (fold_left_preserves draw_states). intros a pn.
  apply (fold_left_preserves draw_states). intros b sp.
  destruct (source_heap b !! sp) as [src|]; [|reflexivity].
  now destruct (negb _).
Qed.

Lemma split_one_draw_states w s splitr : draw_states (split_one w s splitr) = draw_states s.
Proof.
  unfold split_one. destruct (GSVector4i.rempty splitr); [reflexivity|].
  now rewrite link_write_draw_states.
Qed.

Lemma SplitVRAMWrite_draw_states env entry written_rect s :
  draw_states (SplitVRAMWrite env entry written_rect s) = draw_states s.
Proof.
  unfold SplitVRAMWrite.
  destruct (write_heap (SyncVRAMWritePaletteRecords env entry s) !! entry) as [w|].
  - cbv zeta. change (draw_states (set_write_heap ?v ?x)) with (draw_states x).
    rewrite unlink_write_draw_states.
    rewrite (fold_left_preserves draw_states) by (intros; apply split_one_draw_states).
    change (draw_states (set_write_heap ?v ?x)) with (draw_states x).
    apply SyncVRAMWritePaletteRecords_draw_states.
  - apply SyncVRAMWritePaletteRecords_draw_states.
Qed.

Lemma RemoveVRAMWrite_draw_states env entry s :
  draw_states (RemoveVRAMWrite env entry s) = draw_states s.
Proof.
  unfold RemoveVRAMWrite.
  destruct (write_heap (SyncVRAMWritePaletteRecords env entry s) !! entry) as [w|].
  - cbv zeta. change (draw_states (set_write_heap ?v ?x)) with (draw_states x).
    change (draw_states (set_last_vram_write ?v ?x)) with (draw_states x).
    rewrite unlink_write_draw_states.
    destruct (_ && _); [destruct (find_other_write _ _)|];
      apply SyncVRAMWritePaletteRecords_draw_states.
  - apply SyncVRAMWritePaletteRecords_draw_states.
Qed.

Lemma DestroySource_draw_states env sp s : draw_states (DestroySource env sp s) = draw_states s.
Proof.
  unfold DestroySource. destruct (source_heap s !! sp) as [src|]; [|reflexivity].
  cbv zeta. change (draw_states (set_source_heap ?v ?x)) with (draw_states x).
  change (draw_states (set_hash_cache ?v ?x)) with (draw_states x).
  rewrite (fold_left_preserves draw_states)
    by (intros a pn; now apply update_page_draw_states).
  destruct (_ && _); [|reflexivity]. destruct (negb _); [|reflexivity].
  apply (fold_left_preserves draw_states). intros a pn.
  now apply (fold_left_preserves draw_states).
Qed.

Lemma InvalidatePageSources_draw_states env pn rc s :
  draw_states (InvalidatePageSources env pn rc s) = draw_states s.
Proof.
  unfold InvalidatePageSources. apply (fold_left_preserves draw_states). intros a sp.
  destruct (source_heap a !! sp) as [src|]; [|reflexivity].
  destruct (_ && _); [reflexivity|apply DestroySource_draw_states].
Qed.

Lemma draw_states_page_at s s' k :
  draw_states s' = draw_states s ->
  draw_state (page_at s' k) = draw_state (page_at s k).
Proof.
  unfold draw_states, page_at. generalize (s_pages s) (s_pages s'). intros l l'. revert l k.
  induction l' as [|pg' l' IH]; intros [|pg l] k; try discriminate; [reflexivity|].
  cbn [map]. intros H.
  pose proof (f_equal (hd (draw_state pg)) H) as Hpg. pose proof (f_equal (@tl _) H) as Hl.
  cbn [hd tl] in Hpg, Hl. destruct k as [|k]; [exact Hpg|]. apply (IH l k Hl).
Qed.

Lemma draw_states_length s s' :
  draw_states s' = draw_states s -> length (s_pages s') = length (s_pages s).
Proof. unfold draw_states. intros H. apply (f_equal length) in H. now rewrite !length_map in H. Qed.

(** *** A write clears the drawn area *)

Lemma AddWrittenRectangle_rounds env rect update_vram_writes s :
  AddWrittenRectangle env rect update_vram_writes s =
  fold_left (AddWrittenRectangle_page env rect update_vram_writes) (LoopRectPages rect) s.
Proof. reflexivity. Qed.

Lemma AddDrawnRectangle_rounds env rect clip_rect s :
  AddDrawnRectangle env rect clip_rect s =
  fold_left (AddDrawnRectangle_page env rect clip_rect) (LoopRectPages rect) s.
Proof. reflexivity. Qed.

Lemma draw_state_inv a b :
  draw_state a = draw_state b ->
  PageEntry.num_draw_rects a = PageEntry.num_draw_rects b /\
  PageEntry.total_draw_rect a = PageEntry.total_draw_rect b /\
  PageEntry.draw_rects a = PageEntry.draw_rects b.
Proof. unfold draw_state. intros [= H1 H2 H3]. auto. Qed.

Lemma draw_rects_consistent_draw_state a b :
  draw_state a = draw_state b -> draw_rects_consistent a -> draw_rects_consistent b.
Proof.
  intros (H1 & H2 & H3)%draw_state_inv. unfold draw_rects_consistent.
  now rewrite H1, H2, H3.
Qed.

Lemma active_draw_rects_draw_state a b :
  draw_state a = draw_state b -> active_draw_rects a = active_draw_rects b.
Proof.
  intros (H1 & H2 & H3)%draw_state_inv. unfold active_draw_rects. now rewrite H1, H3.
Qed.

Lemma clear_draw_rects_draw_state rect a b :
  draw_state a = draw_state b ->
  draw_state (clear_draw_rects rect a) = draw_state (clear_draw_rects rect b).
Proof.
  intros (H1 & H2 & H3)%draw_state_inv. unfold clear_draw_rects.
  rewrite H1, H2, H3.
  destruct (0 <? PageEntry.num_draw_rects b)%nat; [|unfold draw_state; now rewrite H1, H2, H3].
  destruct (clear_draw_rects_loop _ _ _ _ _) as [num rects].
  repeat case_bool_decide; reflexivity.
Qed.

Lemma AddWrittenRectangle_page_draw env rect upd s pn :
  (pn < length (s_pages s))%nat ->
  length (s_pages (AddWrittenRectangle_page env rect upd s pn)) = length (s_pages s) /\
  forall k,
    draw_state (page_at (AddWrittenRectangle_page env rect upd s pn) k) =
    if decide (k = pn) then draw_state (clear_draw_rects rect (page_at s pn))
    else draw_state (page_at s k).
Proof.
  intros Hpn. unfold AddWrittenRectangle_page. cbv zeta.
  set (s1 := InvalidatePageSources env pn rect s).
  set (s2 := update_page pn (clear_draw_rects rect) s1).
  match goal with |- context [fold_left ?f ?l s2] => set (s3 := fold_left f l s2) end.
  assert (H1 : draw_states s1 = draw_states s) by apply InvalidatePageSources_draw_states.
  assert (H3 : draw_states s3 = draw_states s2).
  { apply (fold_left_preserves draw_states). intros a it.
    destruct (write_heap a !! it) as [w|]; [|reflexivity]. cbv zeta.
    destruct (negb _); [|reflexivity].
    destruct (_ && _); [reflexivity|].
    destruct (_ && _); [apply SplitVRAMWrite_draw_states|apply RemoveVRAMWrite_draw_states]. }
  pose proof (draw_states_length _ _ H1) as L1.
  pose proof (draw_states_length _ _ H3) as L3.
  assert (L2 : length (s_pages s2) = length (s_pages s1)) by apply update_page_length.
  split; [lia|]. intros k.
  rewrite (draw_states_page_at _ _ k H3). unfold s2. rewrite page_at_update_page.
  destruct (decide (k = pn)) as [->|Hk].
  - rewrite decide_True by (split; [reflexivity|lia]).
    apply clear_draw_rects_draw_state. now apply draw_states_page_at.
  - rewrite decide_False by (intros [? _]; congruence).
    now apply draw_states_page_at.
Qed.

Lemma filter_idempotent {A : Type} (f : A -> bool) (l : list A) :
  List.filter f (List.filter f l) = List.filter f l.
Proof.
  induction l as [|a l IH]; [reflexivity|]. cbn. destruct (f a) eqn:E; [|exact IH].
  cbn. now rewrite E, IH.
Qed.

Lemma AddWrittenRectangle_pages env rect upd pages s :
  draw_tracking_consistent s ->
  (forall pn, pn ∈ pages -> (pn < NUM_VRAM_PAGES)%nat) ->
  let s' := fold_left (AddWrittenRectangle_page env rect upd) pages s in
  draw_tracking_consistent s' /\
  forall k, (k < NUM_VRAM_PAGES)%nat ->
    active_draw_rects (page_at s' k) =
    if bool_decide (k ∈ pages)
    then List.filter (fun r => negb (GSVector4i.rintersects r rect)) (active_draw_rects (page_at s k))
    else active_draw_rects (page_at s k).
Proof.
  cbv zeta. revert s. induction pages as [|pn pages IH]; intros s Hs Hpages.
  - cbn. split; [exact Hs|]. intros k Hk. rewrite bool_decide_eq_false_2; [reflexivity|].
    apply not_elem_of_nil.
  - cbn [fold_left]. destruct Hs as [Halloc Hcons].
    assert (Hpn : (pn < NUM_VRAM_PAGES)%nat) by (apply Hpages; now left).
    destruct (AddWrittenRectangle_page_draw env rect upd s pn) as [Hlen Hdraw];
      [unfold pages_allocated in Halloc; lia|].
    set (s1 := AddWrittenRectangle_page env rect upd s pn) in *.
    destruct (clear_draw_rects_spec rect (page_at s pn) (Hcons pn Hpn)) as (Hc & Hact & _).
    assert (Hs1 : draw_tracking_consistent s1).
    { split; [unfold pages_allocated in *; lia|]. intros k Hk.
      specialize (Hdraw k). destruct (decide (k = pn)) as [->|Hne].
      - eapply draw_rects_consistent_draw_state; [symmetry; exact Hdraw|exact Hc].
      - eapply draw_rects_consistent_draw_state; [symmetry; exact Hdraw|exact (Hcons k Hk)]. }
    destruct (IH s1 Hs1) as [Hfinal Hactive]; [intros p Hp; apply Hpages; now right|].
    split; [exact Hfinal|]. intros k Hk. rewrite (Hactive k Hk).
    specialize (Hdraw k).
    destruct (decide (k = pn)) as [->|Hne]; apply active_draw_rects_draw_state in Hdraw.
    + rewrite Hdraw, Hact. rewrite (bool_decide_eq_true_2 (pn ∈ pn :: pages)) by now left.
      case_bool_decide; [apply filter_idempotent|reflexivity].
    + rewrite Hdraw. case_bool_decide as Hin.
      * rewrite bool_decide_eq_true_2 by now right. reflexivity.
      * rewrite bool_decide_eq_false_2; [reflexivity|].
        intros [?|?]%elem_of_cons; [congruence|contradiction].
Qed.

(** *** A draw marks the drawn area *)

Lemma scan_draw_rects_spec rc clip rects i candidate :
  match scan_draw_rects rc clip rects i candidate with
  | None => exists r, r ∈ rects /\ GSVector4i.rcontains r rc = true
  | Some c => c = candidate \/ (i <= c < i + length rects)%nat
  end.
Proof.
  revert i candidate. induction rects as [|r rects IH]; intros i candidate; cbn [scan_draw_rects].
  - now left.
  - destruct (GSVector4i.rcontains r rc) eqn:Hc.
    + exists r. split; [now left|exact Hc].
    + destruct (GSVector4i.rintersects clip r).
      * specialize (IH (S i) i). destruct (scan_draw_rects rc clip rects (S i) i) as [c|].
        -- right. cbn [length]. lia.
        -- destruct IH as (r' & Hin & Hr'). exists r'. split; [now right|exact Hr'].
      * specialize (IH (S i) candidate).
        destruct (scan_draw_rects rc clip rects (S i) candidate) as [c|].
        -- destruct IH as [->|IH]; [now left|right; cbn [length]; lia].
        -- destruct IH as (r' & Hin & Hr'). exists r'. split; [now right|exact Hr'].
Qed.

Lemma closest_draw_rect_lt rc draw_rects :
  (closest_draw_rect rc draw_rects < NUM_PAGE_DRAW_RECTS)%nat.
Proof.
  unfold closest_draw_rect.
  match goal with |- (fst (fold_left ?f ?l ?a) < _)%nat =>
    assert (H : forall l' a', (fst a' < NUM_PAGE_DRAW_RECTS)%nat ->
                              Forall (fun i => (i < NUM_PAGE_DRAW_RECTS)%nat) l' ->
                              (fst (fold_left f l' a') < NUM_PAGE_DRAW_RECTS)%nat)
  end.
  { induction l' as [|i l' IH]; intros [c d] Hc Hl; [exact Hc|].
    inversion Hl; subst. cbn [fold_left]. apply IH; [|assumption].
    cbn. now destruct (Qltb _ _). }
  apply H; [cbn; unfold NUM_PAGE_DRAW_RECTS; lia|].
  unfold NUM_PAGE_DRAW_RECTS. cbn. repeat constructor.
Qed.

Lemma choose_draw_rect_spec rc clip pg :
  (PageEntry.num_draw_rects pg <= NUM_PAGE_DRAW_RECTS)%nat ->
  match choose_draw_rect rc clip pg with
  | None => exists r, r ∈ active_draw_rects pg /\ GSVector4i.rcontains r rc = true
  | Some c => (c < NUM_PAGE_DRAW_RECTS)%nat /\ (c <= PageEntry.num_draw_rects pg)%nat
  end.
Proof.
  intros Hnum. unfold choose_draw_rect.
  pose proof (scan_draw_rects_spec rc clip
                (take (PageEntry.num_draw_rects pg) (PageEntry.draw_rects pg)) 0
                (PageEntry.num_draw_rects pg)) as Hscan.
  destruct (scan_draw_rects _ _ _ _ _) as [c|]; [|exact Hscan].
  assert (Hc : (c <= PageEntry.num_draw_rects pg)%nat).
  { destruct Hscan as [->|Hscan]; [lia|]. rewrite length_take in Hscan. lia. }
  case_bool_decide as Hfull.
  - pose proof (closest_draw_rect_lt rc (PageEntry.draw_rects pg)). split; lia.
  - split; lia.
Qed.

Lemma add_drawn_page_draw_state rc clip a b :
  draw_state a = draw_state b ->
  draw_state (add_drawn_page rc clip a) = draw_state (add_drawn_page rc clip b).
Proof.
  intros (H1 & H2 & H3)%draw_state_inv. unfold add_drawn_page, choose_draw_rect.
  rewrite H1, H2, H3.
  destruct (0 <? PageEntry.num_draw_rects b)%nat; [|reflexivity].
  destruct (scan_draw_rects _ _ _ _ _) as [c|]; [|unfold draw_state; now rewrite H1, H2, H3].
  case_bool_decide; cbv zeta; case_bool_decide; reflexivity.
Qed.

Lemma add_drawn_page_spec rc clip pg :
  draw_rects_consistent pg -> GSVector4i.rempty rc = false ->
  draw_rects_consistent (add_drawn_page rc clip pg) /\
  (exists r, r ∈ active_draw_rects (add_drawn_page rc clip pg) /\ rect_within rc r) /\
  (forall r, r ∈ active_draw_rects pg ->
             exists r', r' ∈ active_draw_rects (add_drawn_page rc clip pg) /\ rect_within r r').
Proof.
  intros (Hnum & Hlen & Htotal) Hrc. unfold add_drawn_page.
  unfold draw_rects_consistent, active_draw_rects. unfold NUM_PAGE_DRAW_RECTS in *.
  destruct (0 <? PageEntry.num_draw_rects pg)%nat eqn:Hpos.
  - apply Nat.ltb_lt in Hpos. specialize (Htotal Hpos).
    pose proof (choose_draw_rect_spec rc clip pg Hnum) as Hchoose.
    unfold NUM_PAGE_DRAW_RECTS in Hchoose.
    destruct (choose_draw_rect rc clip pg) as [c|].
    + destruct Hchoose as [Hc4 Hcn]. cbv zeta.
      case_bool_decide as Hc; cbn [negb].
      * (* a new slot *)
        subst c. cbn.
        assert (Hact : take (S (PageEntry.num_draw_rects pg))
                         (<[PageEntry.num_draw_rects pg := rc]> (PageEntry.draw_rects pg)) =
                       take (PageEntry.num_draw_rects pg) (PageEntry.draw_rects pg) ++ [rc]).
        { erewrite take_S_r by (apply list_lookup_insert_eq; lia).
          now rewrite take_insert_ge by lia. }
        rewrite Hact. split; [|split].
        -- split; [lia|]. split; [rewrite length_insert; lia|]. intros _.
           rewrite draw_rects_union_snoc, Htotal; [reflexivity|].
           intros E. apply (f_equal length) in E. rewrite length_take in E. cbn in E. lia.
        -- exists rc. split; [apply elem_of_app; right; now left|apply rect_within_refl].
        -- intros r Hr. exists r. split; [apply elem_of_app; now left|apply rect_within_refl].
      * (* an existing slot grows *)
        assert (Hclt : (c < PageEntry.num_draw_rects pg)%nat) by lia. cbn.
        assert (Hlook : take (PageEntry.num_draw_rects pg) (PageEntry.draw_rects pg) !!! c =
                        PageEntry.draw_rects pg !!! c).
        { apply list_lookup_total_correct. rewrite lookup_take_lt by lia.
          apply list_lookup_lookup_total_lt. lia. }
        assert (Hact : take (PageEntry.num_draw_rects pg)
                         (<[c := GSVector4i.runion (PageEntry.draw_rects pg !!! c) rc]>
                            (PageEntry.draw_rects pg)) =
                       <[c := GSVector4i.runion
                                (take (PageEntry.num_draw_rects pg) (PageEntry.draw_rects pg) !!! c) rc]>
                         (take (PageEntry.num_draw_rects pg) (PageEntry.draw_rects pg))).
        { rewrite Hlook. now rewrite take_insert_lt by lia. }
        rewrite Hact. split; [|split].
        -- split; [lia|]. split; [rewrite length_insert; lia|]. intros _.
           rewrite draw_rects_union_insert by (rewrite length_take; lia).
           now rewrite Htotal.
        -- eexists. split; [|apply rect_within_runion_r].
           apply list_elem_of_lookup. exists c. apply list_lookup_insert_eq.
           rewrite length_take. lia.
        -- intros r Hr. apply list_elem_of_lookup in Hr as [j Hj].
           destruct (decide (j = c)) as [->|Hjc].
           ++ eexists. split.
              ** apply list_elem_of_lookup. exists c. apply list_lookup_insert_eq.
                 rewrite length_take. lia.
              ** rewrite (list_lookup_total_correct _ _ _ Hj). apply rect_within_runion_l.
           ++ exists r. split; [|apply rect_within_refl].
              apply list_elem_of_lookup. exists j. now rewrite list_lookup_insert_ne by congruence.
    + (* already contained *)
      destruct Hchoose as (r & Hin & Hr). split; [|split].
      * split; [lia|]. split; [lia|]. intros _. exact Htotal.
      * exists r. split; [exact Hin|]. now apply rcontains_spec.
      * intros r' Hr'. exists r'. split; [exact Hr'|apply rect_within_refl].
  - (* the first draw rectangle of the page *)
    apply Nat.ltb_ge in Hpos. cbn.
    assert (Hact : take 1 (<[0%nat := rc]> (PageEntry.draw_rects pg)) = [rc]).
    { destruct (PageEntry.draw_rects pg) as [|r rs]; [cbn in Hlen; lia|]. cbn. now rewrite take_0. }
    rewrite Hact. split; [|split].
    + split; [lia|]. split; [rewrite length_insert; lia|]. reflexivity.
    + exists rc. split; [now left|apply rect_within_refl].
    + intros r Hr. replace (PageEntry.num_draw_rects pg) with 0%nat in Hr by lia.
      rewrite take_0 in Hr. apply elem_of_nil in Hr. contradiction.
Qed.

Lemma AddDrawnRectangle_page_draw env rect clip s pn :
  (pn < length (s_pages s))%nat ->
  length (s_pages (AddDrawnRectangle_page env rect clip s pn)) = length (s_pages s) /\
  forall k,
    draw_state (page_at (AddDrawnRectangle_page env rect clip s pn) k) =
    if decide (k = pn)
    then draw_state (add_drawn_page (GSVector4i.rintersect rect (VRAMPageRect (Z.of_nat pn)))
                                    clip (page_at s pn))
    else draw_state (page_at s k).
Proof.
  intros Hpn. unfold AddDrawnRectangle_page. cbv zeta.
  match goal with |- context [fold_left ?f ?l s] => set (s1 := fold_left f l s) end.
  set (rc := GSVector4i.rintersect rect (VRAMPageRect (Z.of_nat pn))).
  assert (H1 : draw_states s1 = draw_states s).
  { apply (fold_left_preserves draw_states). intros a it.
    destruct (write_heap a !! it) as [w|]; [|reflexivity].
    destruct (GSVector4i.rintersects _ _); [apply RemoveVRAMWrite_draw_states|reflexivity]. }
  pose proof (draw_states_length _ _ H1) as L1.
  pose proof (draw_states_page_at _ _ pn H1) as Hpage.
  rewrite <- (add_drawn_page_draw_state rc clip _ _ Hpage).
  assert (Hother : forall k, draw_state (page_at s1 k) = draw_state (page_at s k))
    by (intros k; now apply draw_states_page_at).
  set (page := page_at s1 pn) in *.
  unfold add_drawn_page. fold page.
  destruct (0 <? PageEntry.num_draw_rects page)%nat.
  - destruct (choose_draw_rect rc clip page) as [c|].
    + cbv zeta. destruct (negb (bool_decide (c = PageEntry.num_draw_rects page))).
      * match goal with
        | |- context [InvalidatePageSources env pn ?r (update_page pn ?f s1)] =>
            set (s2 := update_page pn f s1); set (s3 := InvalidatePageSources env pn r s2)
        end.
        assert (H3 : draw_states s3 = draw_states s2) by apply InvalidatePageSources_draw_states.
        pose proof (draw_states_length _ _ H3) as L3.
        assert (L2 : length (s_pages s2) = length (s_pages s1)) by apply update_page_length.
        split; [rewrite update_page_length; lia|]. intros k.
        rewrite page_at_update_page. destruct (decide (k = pn)) as [->|Hk].
        -- rewrite decide_True by (split; [reflexivity|lia]).
           pose proof (draw_states_page_at _ _ pn H3) as E. unfold s2 in E.
           rewrite page_at_update_page, decide_True in E by (split; [reflexivity|lia]).
           apply draw_state_inv in E as (E1 & E2 & E3). fold page in E1, E3.
           cbn in E1, E3. unfold draw_state. cbn. now rewrite E1, E3.
        -- rewrite decide_False by (intros [? _]; congruence).
           rewrite (draw_states_page_at _ _ k H3). unfold s2.
           rewrite page_at_update_page, decide_False by (intros [? _]; congruence).
           apply Hother.
      * match goal with
        | |- context [InvalidatePageSources env pn ?r (update_page pn ?f s1)] =>
            set (s2 := update_page pn f s1); set (s3 := InvalidatePageSources env pn r s2)
        end.
        assert (H3 : draw_states s3 = draw_states s2) by apply InvalidatePageSources_draw_states.
        pose proof (draw_states_length _ _ H3) as L3.
        assert (L2 : length (s_pages s2) = length (s_pages s1)) by apply update_page_length.
        split; [rewrite update_page_length; lia|]. intros k.
        rewrite page_at_update_page. destruct (decide (k = pn)) as [->|Hk].
        -- rewrite decide_True by (split; [reflexivity|lia]).
           pose proof (draw_states_page_at _ _ pn H3) as E. unfold s2 in E.
           rewrite page_at_update_page, decide_True in E by (split; [reflexivity|lia]).
           apply draw_state_inv in E as (E1 & E2 & E3). fold page in E1, E3.
           cbn in E1, E3. unfold draw_state. cbn. now rewrite E1, E3.
        -- rewrite decide_False by (intros [? _]; congruence).
           rewrite (draw_states_page_at _ _ k H3). unfold s2.
           rewrite page_at_update_page, decide_False by (intros [? _]; congruence).
           apply Hother.
    + split; [exact L1|]. intros k. destruct (decide (k = pn)) as [->|Hk]; [reflexivity|apply Hother].
  - match goal with
    | |- context [InvalidatePageSources env pn ?r (update_page pn ?f s1)] =>
        set (s2 := update_page pn f s1); set (s3 := InvalidatePageSources env pn r s2)
    end.
    assert (H3 : draw_states s3 = draw_states s2) by apply InvalidatePageSources_draw_states.
    pose proof (draw_states_length _ _ H3) as L3.
    assert (L2 : length (s_pages s2) = length (s_pages s1)) by apply update_page_length.
    split; [lia|]. intros k. rewrite (draw_states_page_at _ _ k H3). unfold s2.
    rewrite page_at_update_page. destruct (decide (k = pn)) as [->|Hk].
    + rewrite decide_True by (split; [reflexivity|lia]). reflexivity.
    + rewrite decide_False by (intros [? _]; congruence). apply Hother.
Qed.

Lemma AddDrawnRectangle_pages env rect clip pages s :
  draw_tracking_consistent s ->
  (forall pn, pn ∈ pages ->
     (pn < NUM_VRAM_PAGES)%nat /\
     GSVector4i.rempty (GSVector4i.rintersect rect (VRAMPageRect (Z.of_nat pn))) = false) ->
  let s' := fold_left (AddDrawnRectangle_page env rect clip) pages s in
  draw_tracking_consistent s' /\
  (forall k r, (k < NUM_VRAM_PAGES)%nat -> r ∈ active_draw_rects (page_at s k) ->
     exists r', r' ∈ active_draw_rects (page_at s' k) /\ rect_within r r') /\
  (forall pn, pn ∈ pages ->
     exists r, r ∈ active_draw_rects (page_at s' pn) /\
               rect_within (GSVector4i.rintersect rect (VRAMPageRect (Z.of_nat pn))) r).
Proof.
  cbv zeta. revert s. induction pages as [|pn pages IH]; intros s Hs Hpages.
  - cbn. split; [exact Hs|]. split.
    + intros k r _ Hr. exists r. split; [exact Hr|apply rect_within_refl].
    + intros pn Hpn. apply elem_of_nil in Hpn. contradiction.
  - cbn [fold_left]. destruct Hs as [Halloc Hcons].
    destruct (Hpages pn ltac:(now left)) as [Hpn Hrc].
    destruct (AddDrawnRectangle_page_draw env rect clip s pn) as [Hlen Hdraw];
      [unfold pages_allocated in Halloc; lia|].
    set (s1 := AddDrawnRectangle_page env rect clip s pn) in *.
    set (rc := GSVector4i.rintersect rect (VRAMPageRect (Z.of_nat pn))) in *.
    destruct (add_drawn_page_spec rc clip (page_at s pn) (Hcons pn Hpn) Hrc)
      as (Hc & Hcover & Hmono).
    assert (Hs1 : draw_tracking_consistent s1).
    { split; [unfold pages_allocated in *; lia|]. intros k Hk.
      specialize (Hdraw k). destruct (decide (k = pn)) as [->|Hne].
      - eapply draw_rects_consistent_draw_state; [symmetry; exact Hdraw|exact Hc].
      - eapply draw_rects_consistent_draw_state; [symmetry; exact Hdraw|exact (Hcons k Hk)]. }
    assert (Hmono1 : forall k r, (k < NUM_VRAM_PAGES)%nat -> r ∈ active_draw_rects (page_at s k) ->
              exists r', r' ∈ active_draw_rects (page_at s1 k) /\ rect_within r r').
    { intros k r Hk Hr. specialize (Hdraw k).
      destruct (decide (k = pn)) as [->|Hne]; apply active_draw_rects_draw_state in Hdraw;
        rewrite Hdraw; [now apply Hmono|].
      exists r. split; [exact Hr|apply rect_within_refl]. }
    assert (Hcover1 : exists r, r ∈ active_draw_rects (page_at s1 pn) /\ rect_within rc r).
    { specialize (Hdraw pn). rewrite decide_True in Hdraw by reflexivity.
      apply active_draw_rects_draw_state in Hdraw. now rewrite Hdraw. }
    destruct (IH s1 Hs1) as (Hfinal & Hmono' & Hcover');
      [intros p Hp; apply Hpages; now right|].
    split; [exact Hfinal|]. split.
    + intros k r Hk Hr. destruct (Hmono1 k r Hk Hr) as (r1 & Hr1 & Hw1).
      destruct (Hmono' k r1 Hk Hr1) as (r2 & Hr2 & Hw2).
      exists r2. split; [exact Hr2|eapply rect_within_trans; eassumption].
    + intros p [->|Hp]%elem_of_cons; [|now apply Hcover'].
      destruct Hcover1 as (r1 & Hr1 & Hw1).
      destruct (Hmono' pn r1 Hpn Hr1) as (r2 & Hr2 & Hw2).
      exists r2. split; [exact Hr2|eapply rect_within_trans; eassumption].
Qed.

Lemma LoopRectPages_page rc pn :
  in_vram rc -> GSVector4i.rempty rc = false -> pn ∈ LoopRectPages rc ->
  (pn < NUM_VRAM_PAGES)%nat /\
  GSVector4i.rempty (GSVector4i.rintersect rc (VRAMPageRect (Z.of_nat pn))) = false.
Proof.
  intros Hin Hne Hpn.
  destruct (LoopRectPages_spec rc Hin Hne) as [_ H].
  apply H in Hpn as [Hlt Hint]. split; [exact Hlt|].
  unfold GSVector4i.rintersects in Hint. now apply negb_true_iff in Hint.
Qed.

Lemma LoopRectPages_nonempty rc :
  in_vram rc -> GSVector4i.rempty rc = false -> exists pn, pn ∈ LoopRectPages rc.
Proof.
  intros Hin Hne. pose proof Hin as (Hl & Hlr & Hr & Ht & Htb & Hb).
  pose proof (proj1 (GSVector4i_rempty_false rc) Hne) as [Hw Hh].
  eexists. apply list_elem_of_In. apply (LoopRectPages_In rc _ Hin Hne).
  exists (GSVector4i.left rc / VRAM_PAGE_WIDTH), (GSVector4i.top rc / VRAM_PAGE_HEIGHT).
  split; [reflexivity|]. unfold VRAM_PAGE_WIDTH, VRAM_PAGE_HEIGHT.
  split; (split; [lia|apply Z.div_le_mono; lia]).
Qed.

Lemma clamp_inside al ar bl br :
  Z.min (Z.max al bl) br < Z.min (Z.max ar bl) br ->
  al <= Z.min (Z.max al bl) br /\ Z.min (Z.max ar bl) br <= ar.
Proof. lia. Qed.

Lemma rintersect_within a b :
  GSVector4i.rempty (GSVector4i.rintersect a b) = false ->
  rect_within (GSVector4i.rintersect a b) a.
Proof.
  intros [Hx Hy]%GSVector4i_rempty_false. unfold rect_within.
  unfold GSVector4i.rintersect, GSVector4i.sat_s32 in *. cbn in *.
  pose proof (clamp_inside _ _ _ _ Hx). pose proof (clamp_inside _ _ _ _ Hy). tauto.
Qed.

Lemma IsRectDrawn_false s rect :
  (forall pn, pn ∈ LoopRectPages rect -> IsPageDrawn s pn rect = false) ->
  IsRectDrawn s rect = false.
Proof.
  intros H. unfold IsRectDrawn, LoopRectPagesWithEarlyExit. apply negb_false_iff.
  apply forallb_forall. intros pn Hpn%list_elem_of_In. now rewrite (H pn Hpn).
Qed.

Lemma IsRectDrawn_true s rect pn :
  pn ∈ LoopRectPages rect -> IsPageDrawn s pn rect = true -> IsRectDrawn s rect = true.
Proof.
  intros Hpn Hdrawn. unfold IsRectDrawn, LoopRectPagesWithEarlyExit. apply negb_true_iff.
  destruct (forallb _ _) eqn:E; [|reflexivity].
  rewrite forallb_forall in E. specialize (E pn ltac:(now apply list_elem_of_In)).
  now rewrite Hdrawn in E.
Qed.

Lemma existsb_filter_false {A : Type} (f : A -> bool) (l : list A) :
  existsb f (List.filter (fun a => negb (f a)) l) = false.
Proof.
  apply existsb_In_false. intros a Ha. apply filter_In in Ha as [_ Ha].
  now apply negb_true_iff in Ha.
Qed.

Lemma initial_state_draw_consistent track cfg :
  draw_tracking_consistent (initial_state track cfg).
Proof.
  split; [reflexivity|].
  intros pn Hpn. unfold page_at. cbn [initial_state s_pages].
  rewrite (list_lookup_total_correct _ pn PageEntry.empty)
    by (now apply lookup_replicate_2).
  split; [cbn; lia|]. split; [reflexivity|]. cbn. lia.
Qed.

Lemma draw_tracking_consistent_draw_states s s' :
  draw_states s' = draw_states s -> draw_tracking_consistent s -> draw_tracking_consistent s'.
Proof.
  intros H [Halloc Hcons]. split.
  - unfold pages_allocated in *. now rewrite (draw_states_length _ _ H).
  - intros pn Hpn. eapply draw_rects_consistent_draw_state; [|exact (Hcons pn Hpn)].
    symmetry. now apply draw_states_page_at.
Qed.

Lemma not_drawn_after_write rect s s' :
  in_vram rect -> GSVector4i.rempty rect = false ->
  draw_tracking_consistent s' ->
  (forall k, (k < NUM_VRAM_PAGES)%nat ->
     active_draw_rects (page_at s' k) =
     if bool_decide (k ∈ LoopRectPages rect)
     then List.filter (fun r => negb (GSVector4i.rintersects r rect)) (active_draw_rects (page_at s k))
     else active_draw_rects (page_at s k)) ->
  IsRectDrawn s' rect = false.
Proof.
  intros Hin Hne [_ Hcons] Hactive. apply IsRectDrawn_false. intros pn Hpn.
  destruct (LoopRectPages_page rect pn Hin Hne Hpn) as [Hlt _].
  rewrite (IsPageDrawn_active s' pn rect (Hcons pn Hlt)), (Hactive pn Hlt).
  rewrite bool_decide_eq_true_2 by exact Hpn.
  apply (existsb_filter_false (fun r => GSVector4i.rintersects r rect)).
Qed.

(** X9: a page counts as drawn over a rectangle exactly when one of its
    draw rectangles intersects the rectangle; the early-outs on the count
    and on the bounding box never change the answer. *)
Theorem IsPageDrawn_iff_draw_rect_intersects s pn rect :
  draw_rects_consistent (page_at s pn) ->
  IsPageDrawn s pn rect = true <->
  exists r, r ∈ active_draw_rects (page_at s pn) /\ GSVector4i.rintersects r rect = true.
Proof.
  intros Hcons. rewrite (IsPageDrawn_active s pn rect Hcons), existsb_exists.
  split; intros (r & Hr & Hint); exists r; (split; [now apply list_elem_of_In|exact Hint]).
Qed.

Lemma IsPageDrawn_iff_witness :
  IsPageDrawn Scenario.after_draws 0 Scenario.fifth = true <->
  exists r, r ∈ active_draw_rects (page_at Scenario.after_draws 0) /\
            GSVector4i.rintersects r Scenario.fifth = true.
Proof.
  apply (IsPageDrawn_iff_draw_rect_intersects Scenario.after_draws 0 Scenario.fifth).
  split; [vm_compute; lia|]. split; [reflexivity|]. intros _. vm_compute. reflexivity.
Defined.

(** X10: a write into a rectangle of VRAM drops, on every page the rectangle
    touches, exactly the draw rectangles that intersect it, keeps the
    others in order, leaves the other pages' draw rectangles alone, and
    keeps the bookkeeping consistent; afterwards the rectangle does not
    count as drawn. *)
Theorem AddWrittenRectangle_drops_intersecting_draw_rects env rect update_vram_writes s :
  draw_tracking_consistent s -> in_vram rect -> GSVector4i.rempty rect = false ->
  let s' := AddWrittenRectangle env rect update_vram_writes s in
  draw_tracking_consistent s' /\
  (forall pn, (pn < NUM_VRAM_PAGES)%nat ->
     active_draw_rects (page_at s' pn) =
     if bool_decide (pn ∈ LoopRectPages rect)
     then List.filter (fun r => negb (GSVector4i.rintersects r rect))
                      (active_draw_rects (page_at s pn))
     else active_draw_rects (page_at s pn)) /\
  IsRectDrawn s' rect = false.
Proof.
  intros Hs Hin Hne. cbv zeta. rewrite AddWrittenRectangle_rounds.
  destruct (AddWrittenRectangle_pages env rect update_vram_writes (LoopRectPages rect) s Hs)
    as [Hcons Hactive].
  { intros pn Hpn. now apply (LoopRectPages_page rect pn Hin Hne). }
  split; [exact Hcons|]. split; [exact Hactive|].
  now apply (not_drawn_after_write rect s).
Qed.

Lemma AddWrittenRectangle_drops_witness :
  let s' := AddWrittenRectangle (Scenario.env 0 1 false) (mkRect 8 8 41 41) false
                                Scenario.after_draws in
  draw_tracking_consistent s' /\
  (forall pn, (pn < NUM_VRAM_PAGES)%nat ->
     active_draw_rects (page_at s' pn) =
     if bool_decide (pn ∈ LoopRectPages (mkRect 8 8 41 41))
     then List.filter (fun r => negb (GSVector4i.rintersects r (mkRect 8 8 41 41)))
                      (active_draw_rects (page_at Scenario.after_draws pn))
     else active_draw_rects (page_at Scenario.after_draws pn)) /\
  IsRectDrawn s' (mkRect 8 8 41 41) = false.
Proof.
  apply (AddWrittenRectangle_drops_intersecting_draw_rects
           (Scenario.env 0 1 false) (mkRect 8 8 41 41) false Scenario.after_draws).
  - draw_pages_by_computation.
  - unfold in_vram, VRAM_WIDTH, VRAM_HEIGHT. cbn. lia.
  - reflexivity.
Defined.

(** X11: after [CopyVRAM] into a rectangle of VRAM the rectangle does not
    count as drawn, whether or not copies are converted to writes, and the
    draw-rectangle bookkeeping stays consistent. *)
Theorem CopyVRAM_clears_drawn_area env convert_copies_to_writes dst_bounds s :
  draw_tracking_consistent s -> in_vram dst_bounds -> GSVector4i.rempty dst_bounds = false ->
  draw_tracking_consistent (CopyVRAM env convert_copies_to_writes dst_bounds s) /\
  IsRectDrawn (CopyVRAM env convert_copies_to_writes dst_bounds s) dst_bounds = false.
Proof.
  intros Hs Hin Hne. unfold CopyVRAM. cbv zeta.
  match goal with
  | |- context [AddWrittenRectangle env dst_bounds convert_copies_to_writes ?x] => set (s0 := x)
  end.
  assert (Hs0 : draw_tracking_consistent s0).
  { apply (draw_tracking_consistent_draw_states s); [|exact Hs]. unfold s0.
    destruct convert_copies_to_writes; [|reflexivity].
    apply (fold_left_preserves draw_states). intros a pn.
    apply (fold_left_preserves draw_states). intros b it.
    destruct (write_heap b !! it) as [w|]; [|reflexivity].
    destruct (GSVector4i.rintersects _ _); [apply SyncVRAMWritePaletteRecords_draw_states|reflexivity]. }
  rewrite AddWrittenRectangle_rounds.
  destruct (AddWrittenRectangle_pages env dst_bounds convert_copies_to_writes
              (LoopRectPages dst_bounds) s0 Hs0) as [Hcons Hactive].
  { intros pn Hpn. now apply (LoopRectPages_page dst_bounds pn Hin Hne). }
  split; [exact Hcons|]. now apply (not_drawn_after_write dst_bounds s0).
Qed.

Lemma CopyVRAM_clears_drawn_area_witness :
  draw_tracking_consistent
    (CopyVRAM (Scenario.env 0 1 false) true (mkRect 8 8 41 41) Scenario.after_draws) /\
  IsRectDrawn (CopyVRAM (Scenario.env 0 1 false) true (mkRect 8 8 41 41) Scenario.after_draws)
              (mkRect 8 8 41 41) = false.
Proof.
  apply (CopyVRAM_clears_drawn_area (Scenario.env 0 1 false) true (mkRect 8 8 41 41)
           Scenario.after_draws).
  - draw_pages_by_computation.
  - unfold in_vram, VRAM_WIDTH, VRAM_HEIGHT. cbn. lia.
  - reflexivity.
Defined.

(** X12: after [AddDrawnRectangle] of a rectangle of VRAM, every page the
    rectangle touches has a draw rectangle that contains the part of the
    rectangle on that page, nothing that was covered by a draw rectangle
    before has lost its cover, the rectangle counts as drawn, and the
    bookkeeping stays consistent. *)
Theorem AddDrawnRectangle_marks_drawn_area env rect clip_rect s :
  draw_tracking_consistent s -> in_vram rect -> GSVector4i.rempty rect = false ->
  let s' := AddDrawnRectangle env rect clip_rect s in
  draw_tracking_consistent s' /\
  (forall pn, pn ∈ LoopRectPages rect ->
     exists r, r ∈ active_draw_rects (page_at s' pn) /\
               rect_within (GSVector4i.rintersect rect (VRAMPageRect (Z.of_nat pn))) r) /\
  (forall pn r, (pn < NUM_VRAM_PAGES)%nat -> r ∈ active_draw_rects (page_at s pn) ->
     exists r', r' ∈ active_draw_rects (page_at s' pn) /\ rect_within r r') /\
  IsRectDrawn s' rect = true.
Proof.
  intros Hs Hin Hne. cbv zeta. rewrite AddDrawnRectangle_rounds.
  destruct (AddDrawnRectangle_pages env rect clip_rect (LoopRectPages rect) s Hs)
    as (Hcons & Hmono & Hcover).
  { intros pn Hpn. now apply (LoopRectPages_page rect pn Hin Hne). }
  split; [exact Hcons|]. split; [exact Hcover|]. split; [exact Hmono|].
  destruct (LoopRectPages_nonempty rect Hin Hne) as [pn Hpn].
  destruct (LoopRectPages_page rect pn Hin Hne Hpn) as [Hlt Hrc].
  destruct (Hcover pn Hpn) as (r & Hr & Hw).
  apply (IsRectDrawn_true _ rect pn Hpn).
  rewrite (IsPageDrawn_active _ pn rect (proj2 Hcons pn Hlt)).
  apply existsb_exists. exists r. split; [now apply list_elem_of_In|].
  apply (rintersects_within _ r rect Hrc Hw). now apply rintersect_within.
Qed.

Lemma AddDrawnRectangle_marks_witness :
  let s' := AddDrawnRectangle (Scenario.env 0 1 false) Scenario.fifth Scenario.fifth
                              Scenario.after_draws in
  draw_tracking_consistent s' /\
  (forall pn, pn ∈ LoopRectPages Scenario.fifth ->
     exists r, r ∈ active_draw_rects (page_at s' pn) /\
               rect_within (GSVector4i.rintersect Scenario.fifth (VRAMPageRect (Z.of_nat pn))) r) /\
  (forall pn r, (pn < NUM_VRAM_PAGES)%nat ->
     r ∈ active_draw_rects (page_at Scenario.after_draws pn) ->
     exists r', r' ∈ active_draw_rects (page_at s' pn) /\ rect_within r r') /\
  IsRectDrawn s' Scenario.fifth = true.
Proof.
  apply (AddDrawnRectangle_marks_drawn_area (Scenario.env 0 1 false) Scenario.fifth
           Scenario.fifth Scenario.after_draws).
  - draw_pages_by_computation.
  - unfold in_vram, Scenario.fifth, VRAM_WIDTH, VRAM_HEIGHT. cbn. lia.
  - reflexivity.
Defined.

(** ** Tracked uploads *)

Lemma link_write_heap it pages s : write_heap (link_write it pages s) = write_heap s.
Proof. unfold link_write. now apply (fold_left_preserves write_heap). Qed.

Lemma unlink_write_heap it pages s : write_heap (unlink_write it pages s) = write_heap s.
Proof. unfold unlink_write. now apply (fold_left_preserves write_heap). Qed.

Lemma link_write_length it pages s :
  length (s_pages (link_write it pages s)) = length (s_pages s).
Proof.
  unfold link_write. apply (fold_left_preserves (fun s => length (s_pages s))).
  intros. apply update_page_length.
Qed.

(** [link_write] appends the write to the list of every page it is given
    that the page table has. *)
Lemma link_write_linked it pages s pn :
  (pn < length (s_pages s))%nat ->
  it ∈ PageEntry.writes (page_at s pn) \/ pn ∈ pages ->
  it ∈ PageEntry.writes (page_at (link_write it pages s) pn).
Proof.
  unfold link_write. revert s. induction pages as [|pk pages IH]; intros s Hlen H.
  - destruct H as [H|H]; [exact H|now apply elem_of_nil in H].
  - cbn [fold_left]. apply IH; [now rewrite update_page_length|].
    rewrite page_at_update_page. destruct (decide (pk = pn /\ (pk < length (s_pages s))%nat))
      as [[-> _]|Hn].
    + left. cbn [PageEntry.writes PageEntry.set_writes]. unfold ListAppend.
      apply elem_of_app. right. now apply list_elem_of_singleton.
    + destruct H as [H|H]; [now left|]. apply elem_of_cons in H as [->|H]; [|now right].
      exfalso. apply Hn. now split.
Qed.

Lemma fresh_write_tracked env bounds s :
  let it := fresh (dom (write_heap s)) in
  let pages := LoopRectPages bounds in
  let w := VRAMWrite.mk bounds bounds (HashRect env bounds) [] 0 pages in
  let s' := set_last_vram_write (Some it)
              (link_write it pages (set_write_heap (<[it := w]> (write_heap s)) s)) in
  s_last_vram_write s' = Some it /\ write_heap s' !! it = Some w /\
  forall pn, pn ∈ pages -> (pn < length (s_pages s'))%nat ->
             it ∈ PageEntry.writes (page_at s' pn).
Proof.
  cbv zeta. split; [reflexivity|]. split.
  - cbn [set_last_vram_write write_heap]. rewrite link_write_heap.
    cbn [set_write_heap write_heap]. apply lookup_insert_eq.
  - intros pn Hpn Hlen.
    change (page_at (set_last_vram_write ?v ?x) pn) with (page_at x pn).
    cbn [s_pages set_last_vram_write] in Hlen. rewrite link_write_length in Hlen.
    apply link_write_linked; [exact Hlen|now right].
Qed.

(** X13: with tracking on, a [WriteVRAM] that returns leaves
    [s_last_vram_write] pointing at a live write that was never split,
    whose active and write rectangles coincide and contain the uploaded
    bounds, whose hash is the hash of that rectangle, whose page
    references are the pages of that rectangle, and which is in the write
    list of each of those pages the page table has; this holds for a write
    merged into the last one and for a new one. *)
Theorem WriteVRAM_last_write_covers_upload env bounds s s' :
  s_track_vram_writes s = true -> WriteVRAM env bounds s = Done s' ->
  exists it w,
    s_last_vram_write s' = Some it /\ write_heap s' !! it = Some w /\
    VRAMWrite.active_rect w = VRAMWrite.write_rect w /\
    rect_within bounds (VRAMWrite.write_rect w) /\
    VRAMWrite.hash w = HashRect env (VRAMWrite.write_rect w) /\
    VRAMWrite.num_splits w = 0 /\
    VRAMWrite.page_refs w = LoopRectPages (VRAMWrite.write_rect w) /\
    forall pn, pn ∈ LoopRectPages (VRAMWrite.write_rect w) ->
               (pn < length (s_pages s'))%nat ->
               it ∈ PageEntry.writes (page_at s' pn).
Proof.
  intros Htrack. unfold WriteVRAM. rewrite Htrack. cbn [negb]. cbv zeta.
  destruct (s_last_vram_write s) as [last|] eqn:Hlast.
  - destruct (TryMergeVRAMWrite env last bounds s) as [[s1 merged]| |] eqn:Hmerge;
      [|discriminate|discriminate].
    destruct merged.
    + intros [= <-]. revert Hmerge. unfold TryMergeVRAMWrite. rewrite Hlast.
      destruct (write_heap s !! last) as [lw|] eqn:Hlw; [|discriminate].
      destruct (VRAMWrite.num_splits lw =? 0) eqn:Hsplits; cbn [negb]; [|discriminate].
      cbv zeta. destruct (_ && _); [discriminate|].
      destruct (negb (LoopRectPagesWithEarlyExit _ _)); [discriminate|].
      intros [= <-]. exists last. eexists. split; [|split].
      * rewrite link_write_last. cbn [set_write_heap s_last_vram_write].
        rewrite unlink_write_last. exact Hlast.
      * rewrite link_write_heap. cbn [set_write_heap write_heap]. apply lookup_insert_eq.
      * cbn [VRAMWrite.active_rect VRAMWrite.write_rect VRAMWrite.hash VRAMWrite.num_splits
             VRAMWrite.page_refs VRAMWrite.set_hash VRAMWrite.set_write_rect
             VRAMWrite.set_active_rect VRAMWrite.set_page_refs].
        apply Z.eqb_eq in Hsplits.
        split; [reflexivity|]. split; [apply rect_within_runion_r|].
        split; [reflexivity|]. split; [exact Hsplits|]. split; [reflexivity|].
        intros pn Hpn Hlen. rewrite link_write_length in Hlen.
        apply link_write_linked; [exact Hlen|now right].
    + intros [= <-].
      destruct (fresh_write_tracked env bounds s1) as (H1 & H2 & H3). cbv zeta in H1, H2, H3.
      eexists _, _. split; [exact H1|]. split; [exact H2|].
      cbn [VRAMWrite.active_rect VRAMWrite.write_rect VRAMWrite.hash VRAMWrite.num_splits
           VRAMWrite.page_refs].
      split; [reflexivity|]. split; [apply rect_within_refl|]. auto.
  - intros [= <-].
    destruct (fresh_write_tracked env bounds s) as (H1 & H2 & H3). cbv zeta in H1, H2, H3.
    eexists _, _. split; [exact H1|]. split; [exact H2|].
    cbn [VRAMWrite.active_rect VRAMWrite.write_rect VRAMWrite.hash VRAMWrite.num_splits
         VRAMWrite.page_refs].
    split; [reflexivity|]. split; [apply rect_within_refl|]. auto.
Qed.

Lemma WriteVRAM_last_write_witness :
  (exists it w,
     s_last_vram_write (written_state Scenario.after_upload) = Some it /\
     write_heap (written_state Scenario.after_upload) !! it = Some w /\
     VRAMWrite.active_rect w = VRAMWrite.write_rect w /\
     rect_within Scenario.upload (VRAMWrite.write_rect w) /\
     VRAMWrite.hash w = HashRect (Scenario.env 0 1 false) (VRAMWrite.write_rect w) /\
     VRAMWrite.num_splits w = 0 /\
     VRAMWrite.page_refs w = LoopRectPages (VRAMWrite.write_rect w) /\
     forall pn, pn ∈ LoopRectPages (VRAMWrite.write_rect w) ->
                (pn < length (s_pages (written_state Scenario.after_upload)))%nat ->
                it ∈ PageEntry.writes (page_at (written_state Scenario.after_upload) pn)) /\
  (exists it w,
     s_last_vram_write (written_state
        (WriteVRAM (Scenario.env 0 1 false) Scenario.strip2
           (written_state (WriteVRAM (Scenario.env 0 1 false) Scenario.strip1
                                     Scenario.tracking)))) = Some it /\
     write_heap (written_state
        (WriteVRAM (Scenario.env 0 1 false) Scenario.strip2
           (written_state (WriteVRAM (Scenario.env 0 1 false) Scenario.strip1
                                     Scenario.tracking)))) !! it = Some w /\
     VRAMWrite.active_rect w = VRAMWrite.write_rect w /\
     rect_within Scenario.strip2 (VRAMWrite.write_rect w) /\
     VRAMWrite.hash w = HashRect (Scenario.env 0 1 false) (VRAMWrite.write_rect w) /\
     VRAMWrite.num_splits w = 0 /\
     VRAMWrite.page_refs w = LoopRectPages (VRAMWrite.write_rect w) /\
     forall pn, pn ∈ LoopRectPages (VRAMWrite.write_rect w) ->
                (pn < length (s_pages (written_state
                   (WriteVRAM (Scenario.env 0 1 false) Scenario.strip2
                      (written_state (WriteVRAM (Scenario.env 0 1 false) Scenario.strip1
                                                Scenario.tracking))))))%nat ->
                it ∈ PageEntry.writes (page_at (written_state
                   (WriteVRAM (Scenario.env 0 1 false) Scenario.strip2
                      (written_state (WriteVRAM (Scenario.env 0 1 false) Scenario.strip1
                                                Scenario.tracking)))) pn)).
Proof.
  split.
  - apply (WriteVRAM_last_write_covers_upload (Scenario.env 0 1 false) Scenario.upload
             Scenario.tracking).
    + reflexivity.
    + vm_compute. reflexivity.
  - apply (WriteVRAM_last_write_covers_upload (Scenario.env 0 1 false) Scenario.strip2
             (written_state (WriteVRAM (Scenario.env 0 1 false) Scenario.strip1
                                       Scenario.tracking))).
    + reflexivity.
    + vm_compute. reflexivity.
Defined.

(** X6: for a non-empty rectangle inside VRAM, [LoopRectPages] hands its
    callback at least one page, no page twice, and exactly the valid page
    numbers whose page rectangle the rectangle intersects. *)
Theorem LoopRectPages_visits_intersecting_pages rc :
  in_vram rc -> GSVector4i.rempty rc = false ->
  LoopRectPages rc <> [] /\ NoDup (LoopRectPages rc) /\
  forall pn, pn ∈ LoopRectPages rc <->
             (pn < NUM_VRAM_PAGES)%nat /\
             GSVector4i.rintersects rc (VRAMPageRect (Z.of_nat pn)) = true.
Proof.
  intros Hin Hne. destruct (LoopRectPages_spec rc Hin Hne) as [Hnodup Helem].
  split; [|split; assumption].
  destruct (LoopRectPages_nonempty rc Hin Hne) as [pn Hpn].
  intros E. rewrite E in Hpn. apply elem_of_nil in Hpn. contradiction.
Qed.

Lemma LoopRectPages_visits_witness :
  LoopRectPages Scenario.upload <> [] /\ NoDup (LoopRectPages Scenario.upload) /\
  forall pn, pn ∈ LoopRectPages Scenario.upload <->
             (pn < NUM_VRAM_PAGES)%nat /\
             GSVector4i.rintersects Scenario.upload (VRAMPageRect (Z.of_nat pn)) = true.
Proof.
  apply (LoopRectPages_visits_intersecting_pages Scenario.upload).
  - unfold in_vram, Scenario.upload, VRAM_WIDTH, VRAM_HEIGHT. cbn. lia.
  - reflexivity.
Defined.

Lemma AreSourcePagesDrawn_checks_witness :
  AreSourcePagesDrawn Scenario.after_draws Scenario.key0 Scenario.fifth =
  existsb (fun pn => IsPageDrawn Scenario.after_draws pn Scenario.fifth)
          (LoopXWrappedPages (SourceKey.page Scenario.key0)
                             (TexturePageCountForMode (SourceKey.mode Scenario.key0))).
Proof.
  apply (AreSourcePagesDrawn_checks_texture_pages Scenario.after_draws Scenario.key0 Scenario.fifth).
  unfold NUM_VRAM_PAGES. cbn. lia.
Defined.

(** ** Remainders of a split *)

(** X15: when a write with active rectangle [A] inside VRAM is split around a
    non-empty part [S] of it, the four rectangles [SplitVRAMWrite] computes
    never reach outside [A] nor into [S], and no two of them share a
    texel, whichever direction is split first. *)
Theorem split_rects_remainders_sound A S :
  in_vram A -> GSVector4i.rintersect A S = S -> GSVector4i.rempty S = false ->
  length (split_rects A S) = 4%nat /\
  (forall r px py, r ∈ split_rects A S -> GSVector4i.covers r px py ->
                   GSVector4i.covers A px py /\ ~ GSVector4i.covers S px py) /\
  (forall i j r1 r2 px py,
      i <> j -> split_rects A S !! i = Some r1 -> split_rects A S !! j = Some r2 ->
      GSVector4i.covers r1 px py -> ~ GSVector4i.covers r2 px py).
Proof.
  intros HA HS HSne. split; [|split].
  - unfold split_rects. cbv zeta. now destruct (_ >? _).
  - intros r px py. now apply split_rects_inside.
  - intros i j r1 r2 px py. now apply split_rects_disjoint.
Qed.

Lemma split_rects_remainders_sound_witness :
  length (split_rects Scenario.upload Scenario.middle) = 4%nat /\
  (forall r px py, r ∈ split_rects Scenario.upload Scenario.middle -> GSVector4i.covers r px py ->
                   GSVector4i.covers Scenario.upload px py /\
                   ~ GSVector4i.covers Scenario.middle px py) /\
  (forall i j r1 r2 px py,
      i <> j -> split_rects Scenario.upload Scenario.middle !! i = Some r1 ->
      split_rects Scenario.upload Scenario.middle !! j = Some r2 ->
      GSVector4i.covers r1 px py -> ~ GSVector4i.covers r2 px py).
Proof.
  apply (split_rects_remainders_sound Scenario.upload Scenario.middle).
  - unfold in_vram, Scenario.upload, VRAM_WIDTH, VRAM_HEIGHT. cbn. lia.
  - reflexivity.
  - reflexivity.
Defined.

(** X16: when the larger margin around [S] is above or below it, the split
    goes top/bottom first and its remainders tile [A] minus [S] exactly. *)
Theorem split_rects_top_bottom_first_tiles A S :
  in_vram A -> GSVector4i.rintersect A S = S -> GSVector4i.rempty S = false ->
  Z.max (GSVector4i.top S - GSVector4i.top A) (GSVector4i.bottom A - GSVector4i.bottom S) >
  Z.max (GSVector4i.left S - GSVector4i.left A) (GSVector4i.right A - GSVector4i.right S) ->
  exact_remainder A S (split_rects A S).
Proof. intros HA HS HSne Hdir. now apply split_rects_top_bottom_exact. Qed.

Lemma split_rects_top_bottom_first_witness :
  exact_remainder Scenario.upload (mkRect 24 8 40 16)
                  (split_rects Scenario.upload (mkRect 24 8 40 16)).
Proof.
  apply (split_rects_top_bottom_first_tiles Scenario.upload (mkRect 24 8 40 16)).
  - unfold in_vram, Scenario.upload, VRAM_WIDTH, VRAM_HEIGHT. cbn. lia.
  - reflexivity.
  - reflexivity.
  - cbn. lia.
Defined.

Lemma TryMergeVRAMWrite_accepted_witness :
  let env := Scenario.env 0 1 false in
  let s := written_state (WriteVRAM env Scenario.strip1 Scenario.tracking) in
  let s' := match TryMergeVRAMWrite env 1%positive Scenario.strip2 s with
            | Done (s', _) => s'
            | _ => s
            end in
  exists last lw w w',
    s_last_vram_write s = Some last /\
    write_heap s !! last = Some lw /\
    write_heap s !! 1%positive = Some w /\
    VRAMWrite.num_splits lw = 0 /\
    ((u32 (GSVector4i.height Scenario.strip2) <= max_vram_write_coalesce_height (s_config s) /\
      GSVector4i.left (VRAMWrite.write_rect lw) = GSVector4i.left Scenario.strip2 /\
      GSVector4i.right (VRAMWrite.write_rect lw) = GSVector4i.right Scenario.strip2 /\
      GSVector4i.bottom (VRAMWrite.write_rect lw) = GSVector4i.top Scenario.strip2) \/
     (u32 (GSVector4i.width Scenario.strip2) <= max_vram_write_coalesce_width (s_config s) /\
      GSVector4i.top (VRAMWrite.write_rect lw) = GSVector4i.top Scenario.strip2 /\
      GSVector4i.bottom (VRAMWrite.write_rect lw) = GSVector4i.bottom Scenario.strip2 /\
      GSVector4i.right (VRAMWrite.write_rect lw) = GSVector4i.left Scenario.strip2)) /\
    write_heap s' = <[1%positive := w']> (write_heap s) /\
    VRAMWrite.active_rect w' = GSVector4i.runion (VRAMWrite.write_rect w) Scenario.strip2 /\
    VRAMWrite.write_rect w' = GSVector4i.runion (VRAMWrite.write_rect w) Scenario.strip2 /\
    VRAMWrite.hash w' = HashRect env (GSVector4i.runion (VRAMWrite.write_rect w) Scenario.strip2).
Proof.
  cbv zeta.
  apply (TryMergeVRAMWrite_accepted (Scenario.env 0 1 false) 1%positive Scenario.strip2).
  vm_compute. reflexivity.
Defined.

(** ** Texture decoding *)

Lemma row_written_refl m0 d0 colour : row_written m0 m0 d0 0 colour.
Proof. split; [intros j Hj; lia | reflexivity]. Qed.

Lemma row_written_snoc m0 m d0 n colour v :
  0 <= n -> row_written m0 m d0 n colour -> v = colour n ->
  row_written m0 (<[d0 + 4 * n := v]> m) d0 (n + 1) colour.
Proof.
  intros Hn [Hin Hout] ->. split.
  - intros j Hj. destruct (decide (j = n)) as [->|Hne].
    + apply lookup_insert_eq.
    + rewrite lookup_insert_ne by lia. apply Hin. lia.
  - intros a Ha. rewrite lookup_insert_ne by (intros E; apply (Ha n); [lia | now rewrite E]).
    apply Hout. intros j Hj. apply Ha. lia.
Qed.

Lemma Nat_iter_ext {A : Type} (f g : A -> A) n x :
  (forall a, f a = g a) -> Nat.iter n f x = Nat.iter n g x.
Proof.
  intros H. induction n as [|n IH]; [reflexivity|].
  now rewrite !Nat.iter_succ, IH, H.
Qed.

(** The outer loop of every decoder: [h] rows, each written by [rowf]. *)
Lemma rows_written (rowf : Z -> Z -> TexelBuffer -> TexelBuffer) (colour : Z -> Z -> Z)
    (n stride : Z) (h : nat) page dest mem :
  0 <= n -> 4 * n <= stride ->
  (forall p d m, row_written m (rowf p d m) d n (colour p)) ->
  let st := Nat.iter h (fun st : Z * Z * TexelBuffer =>
                          (st.1.1 + VRAM_WIDTH, st.1.2 + stride, rowf st.1.1 st.1.2 st.2))
                     (page, dest, mem) in
  st.1.1 = page + Z.of_nat h * VRAM_WIDTH /\
  st.1.2 = dest + Z.of_nat h * stride /\
  (forall x y, 0 <= x < n -> 0 <= y < Z.of_nat h ->
     st.2 !! (dest + y * stride + 4 * x) = Some (colour (page + y * VRAM_WIDTH) x)) /\
  (forall a, (forall x y, 0 <= x < n -> 0 <= y < Z.of_nat h -> a <> dest + y * stride + 4 * x) ->
     st.2 !! a = mem !! a).
Proof.
  intros Hn Hstride Hrow. induction h as [|h IH].
  - cbn. repeat split; try lia; intros; lia.
  - cbv zeta in *. rewrite Nat.iter_succ.
    set (st := Nat.iter h _ (page, dest, mem)) in *.
    destruct IH as (Hp & Hd & Hin & Hout). cbn [fst snd].
    destruct (Hrow st.1.1 st.1.2 st.2) as [Rin Rout].
    repeat split.
    + rewrite Hp. lia.
    + rewrite Hd. lia.
    + intros x y Hx Hy. destruct (decide (y = Z.of_nat h)) as [->|Hne].
      * rewrite <- Hd, <- Hp. apply Rin. lia.
      * rewrite Rout; [apply Hin; lia|].
        intros j Hj. rewrite Hd. nia.
    + intros a Ha. rewrite Rout.
      * apply Hout. intros x y Hx Hy. apply Ha; lia.
      * intros j Hj. rewrite Hd. apply Ha; lia.
Qed.

(** *** Nibbles and bytes of a halfword *)

Lemma shiftr_top_nibble v : 0 <= v < 2 ^ 16 -> Z.shiftr v 12 = Z.land (Z.shiftr v 12) 15.
Proof.
  intros Hv. change 15 with (Z.ones 4). rewrite Z.land_ones by lia.
  rewrite Z.shiftr_div_pow2 by lia. symmetry. apply Z.mod_small.
  split; [apply Z.div_pos; lia | apply Z.div_lt_upper_bound; lia].
Qed.

Lemma shiftr_top_byte v : 0 <= v < 2 ^ 16 -> Z.shiftr v 8 = Z.land (Z.shiftr v 8) 255.
Proof.
  intros Hv. change 255 with (Z.ones 8). rewrite Z.land_ones by lia.
  rewrite Z.shiftr_div_pow2 by lia. symmetry. apply Z.mod_small.
  split; [apply Z.div_pos; lia | apply Z.div_lt_upper_bound; lia].
Qed.

Lemma u16_shiftr v k : 0 <= v < 2 ^ 16 -> 0 <= k -> u16 (Z.shiftr v k) = Z.shiftr v k.
Proof.
  intros Hv Hk. unfold u16. apply Z.mod_small.
  rewrite Z.shiftr_div_pow2 by lia. split; [apply Z.div_pos; lia|].
  apply Z.div_lt_upper_bound; [lia|].
  assert (1 <= 2 ^ k) by (apply (Z.pow_le_mono_r 2 0 k); lia). nia.
Qed.

Lemma shiftr_shiftr_add v a b : 0 <= a -> 0 <= b -> Z.shiftr (Z.shiftr v a) b = Z.shiftr v (a + b).
Proof. intros. now rewrite Z.shiftr_shiftr by lia. Qed.

(** *** Rows *)

Section DecodeRows.

Variable conv : Z -> Z.
Variable env : Env.
Variable palette : Z -> Z.
Hypothesis Hvram : vram_halfwords env.

Lemma decode4_fast_row (k : nat) p0 d0 (m0 : TexelBuffer) :
  let st := Nat.iter k (decode4_fast_step conv env palette) (p0, d0, m0) in
  st.1.1 = p0 + Z.of_nat k /\ st.1.2 = d0 + 16 * Z.of_nat k /\
  row_written m0 st.2 d0 (4 * Z.of_nat k)
              (fun j => conv (texel_colour env palette Palette4Bit p0 j 0)).
Proof.
  cbv zeta. induction k as [|k IH].
  - cbn [Nat.iter nat_rect fst snd]. repeat split; try lia; intros; lia.
  - rewrite Nat.iter_succ.
    destruct (Nat.iter k _ _) as [[p d] m]. cbn [fst snd] in IH.
    destruct IH as (-> & -> & IH). unfold decode4_fast_step. cbn [fst snd].
    split; [lia | split; [lia |]].
    pose proof (Hvram (p0 + Z.of_nat k)) as Hv.
    assert (forall i, 0 <= i < 4 ->
              (4 * Z.of_nat k + i) / 4 = Z.of_nat k /\ (4 * Z.of_nat k + i) mod 4 = i) as Hdm.
    { intros i Hi. split; [symmetry; apply (Z.div_unique _ 4 _ i); lia
                          | symmetry; apply (Z.mod_unique _ 4 (Z.of_nat k) i); lia]. }
    replace (4 * Z.of_nat (S k)) with (4 * Z.of_nat k + 3 + 1) by lia.
    replace (d0 + 16 * Z.of_nat k + 4 + 4 + 4) with (d0 + 4 * (4 * Z.of_nat k + 3)) by lia.
    apply row_written_snoc; [lia| |].
    2:{ unfold texel_colour, texel_word. destruct (Hdm 3 ltac:(lia)) as [-> ->].
        replace (p0 + 0 * VRAM_WIDTH + Z.of_nat k) with (p0 + Z.of_nat k) by lia.
        change (4 * 3) with 12. now rewrite <- shiftr_top_nibble. }
    replace (4 * Z.of_nat k + 3) with (4 * Z.of_nat k + 2 + 1) by lia.
    replace (d0 + 16 * Z.of_nat k + 4 + 4) with (d0 + 4 * (4 * Z.of_nat k + 2)) by lia.
    apply row_written_snoc; [lia| |].
    2:{ unfold texel_colour, texel_word. destruct (Hdm 2 ltac:(lia)) as [-> ->].
        replace (p0 + 0 * VRAM_WIDTH + Z.of_nat k) with (p0 + Z.of_nat k) by lia.
        reflexivity. }
    replace (4 * Z.of_nat k + 2) with (4 * Z.of_nat k + 1 + 1) by lia.
    replace (d0 + 16 * Z.of_nat k + 4) with (d0 + 4 * (4 * Z.of_nat k + 1)) by lia.
    apply row_written_snoc; [lia| |].
    2:{ unfold texel_colour, texel_word. destruct (Hdm 1 ltac:(lia)) as [-> ->].
        replace (p0 + 0 * VRAM_WIDTH + Z.of_nat k) with (p0 + Z.of_nat k) by lia.
        reflexivity. }
    replace (4 * Z.of_nat k + 1) with (4 * Z.of_nat k + 0 + 1) by lia.
    replace (d0 + 16 * Z.of_nat k) with (d0 + 4 * (4 * Z.of_nat k + 0)) by lia.
    apply row_written_snoc; [lia| |].
    2:{ unfold texel_colour, texel_word. destruct (Hdm 0 ltac:(lia)) as [-> ->].
        replace (p0 + 0 * VRAM_WIDTH + Z.of_nat k) with (p0 + Z.of_nat k) by lia.
        change (4 * 0) with 0. now rewrite Z.shiftr_0_r. }
    now replace (4 * Z.of_nat k + 0) with (4 * Z.of_nat k) by lia.
Qed.

Lemma decode8_fast_row (k : nat) p0 d0 (m0 : TexelBuffer) :
  let st := Nat.iter k (decode8_fast_step conv env palette) (p0, d0, m0) in
  st.1.1 = p0 + Z.of_nat k /\ st.1.2 = d0 + 8 * Z.of_nat k /\
  row_written m0 st.2 d0 (2 * Z.of_nat k)
              (fun j => conv (texel_colour env palette Palette8Bit p0 j 0)).
Proof.
  cbv zeta. induction k as [|k IH].
  - cbn [Nat.iter nat_rect fst snd]. repeat split; try lia; intros; lia.
  - rewrite Nat.iter_succ.
    destruct (Nat.iter k _ _) as [[p d] m]. cbn [fst snd] in IH.
    destruct IH as (-> & -> & IH). unfold decode8_fast_step. cbn [fst snd].
    split; [lia | split; [lia |]].
    pose proof (Hvram (p0 + Z.of_nat k)) as Hv.
    assert (forall i, 0 <= i < 2 ->
              (2 * Z.of_nat k + i) / 2 = Z.of_nat k /\ (2 * Z.of_nat k + i) mod 2 = i) as Hdm.
    { intros i Hi. split; [symmetry; apply (Z.div_unique _ 2 _ i); lia
                          | symmetry; apply (Z.mod_unique _ 2 (Z.of_nat k) i); lia]. }
    replace (2 * Z.of_nat (S k)) with (2 * Z.of_nat k + 1 + 1) by lia.
    replace (d0 + 8 * Z.of_nat k + 4) with (d0 + 4 * (2 * Z.of_nat k + 1)) by lia.
    apply row_written_snoc; [lia| |].
    2:{ unfold texel_colour, texel_word. destruct (Hdm 1 ltac:(lia)) as [-> ->].
        replace (p0 + 0 * VRAM_WIDTH + Z.of_nat k) with (p0 + Z.of_nat k) by lia.
        change (8 * 1) with 8. now rewrite <- shiftr_top_byte. }
    replace (2 * Z.of_nat k + 1) with (2 * Z.of_nat k + 0 + 1) by lia.
    replace (d0 + 8 * Z.of_nat k) with (d0 + 4 * (2 * Z.of_nat k + 0)) by lia.
    apply row_written_snoc; [lia| |].
    2:{ unfold texel_colour, texel_word. destruct (Hdm 0 ltac:(lia)) as [-> ->].
        replace (p0 + 0 * VRAM_WIDTH + Z.of_nat k) with (p0 + Z.of_nat k) by lia.
        change (8 * 0) with 0. now rewrite Z.shiftr_0_r. }
    now replace (2 * Z.of_nat k + 0) with (2 * Z.of_nat k) by lia.
Qed.

Lemma decode16_row (k : nat) p0 d0 (m0 : TexelBuffer) :
  let st := Nat.iter k (decode16_step conv env) (p0, d0, m0) in
  st.1.1 = p0 + Z.of_nat k /\ st.1.2 = d0 + 4 * Z.of_nat k /\
  row_written m0 st.2 d0 (Z.of_nat k)
              (fun j => conv (texel_colour env palette Direct16Bit p0 j 0)).
Proof.
  cbv zeta. induction k as [|k IH].
  - cbn [Nat.iter nat_rect fst snd]. repeat split; try lia; intros; lia.
  - rewrite Nat.iter_succ.
    destruct (Nat.iter k _ _) as [[p d] m]. cbn [fst snd] in IH.
    destruct IH as (-> & -> & IH). unfold decode16_step. cbn [fst snd].
    split; [lia | split; [lia |]].
    replace (Z.of_nat (S k)) with (Z.of_nat k + 1) by lia.
    apply row_written_snoc; [lia | assumption |].
    unfold texel_colour, texel_word. rewrite Z.div_1_r. do 2 f_equal. lia.
Qed.

Lemma decode4_slow_row (k : nat) p0 d0 (m0 : TexelBuffer) :
  let st := Nat.iter k (decode4_slow_step conv env palette) (p0, d0, 0, 0, m0) in
  st.1.1.1.1 = p0 + (Z.of_nat k + 3) / 4 /\ st.1.1.1.2 = d0 + 4 * Z.of_nat k /\
  st.1.1.2 = Z.of_nat k mod 4 /\
  (Z.of_nat k mod 4 <> 0 ->
   st.1.2 = Z.shiftr (g_vram env (p0 + Z.of_nat k / 4)) (4 * (Z.of_nat k mod 4))) /\
  row_written m0 st.2 d0 (Z.of_nat k)
              (fun j => conv (texel_colour env palette Palette4Bit p0 j 0)).
Proof.
  cbv zeta. induction k as [|k IH].
  - cbn [Nat.iter nat_rect fst snd]. change (Z.of_nat 0) with 0.
    change ((0 + 3) / 4) with 0. change (0 mod 4) with 0.
    repeat split; try lia; try (intros; lia).
  - rewrite Nat.iter_succ.
    destruct (Nat.iter k _ _) as [[[[p d] offs] texel] m]. cbn [fst snd] in IH.
    destruct IH as (-> & -> & -> & Htex & IH). unfold decode4_slow_step.
    replace (Z.of_nat (S k)) with (Z.of_nat k + 1) by lia.
    set (K := Z.of_nat k) in *. assert (0 <= K) as HK by lia. clearbody K.
    pose proof (Hvram (p0 + K / 4)) as Hv.
    assert (0 <= K mod 4 < 4) as Hm by (apply Z.mod_pos_bound; lia).
    assert (u32 (K mod 4 + 1) mod 4 = (K + 1) mod 4) as Hoffs.
    { unfold u32. rewrite (Z.mod_small (K mod 4 + 1)) by lia.
      now rewrite Z.add_mod_idemp_l by lia. }
    destruct (Z.eqb_spec (K mod 4) 0) as [E|E]; cbn [fst snd].
    + assert ((K + 3) / 4 = K / 4 /\ (K + 1 + 3) / 4 = K / 4 + 1 /\ (K + 1) / 4 = K / 4
              /\ (K + 1) mod 4 = 1) as (E1 & E2 & E3 & E4).
      { pose proof (Z.div_mod K 4 ltac:(lia)) as HD. rewrite E in HD.
        repeat split.
        - symmetry; apply (Z.div_unique _ 4 _ 3); lia.
        - symmetry; apply (Z.div_unique _ 4 _ 0); lia.
        - symmetry; apply (Z.div_unique _ 4 _ 1); lia.
        - symmetry; apply (Z.mod_unique _ 4 (K / 4) 1); lia. }
      split; [|split; [|split; [|split]]].
      * rewrite E1, E2. lia.
      * lia.
      * exact Hoffs.
      * intros _. rewrite E1, E3, E4. now rewrite u16_shiftr by lia.
      * apply row_written_snoc; [lia | assumption |].
        unfold texel_colour, texel_word. rewrite E, E1.
        replace (p0 + 0 * VRAM_WIDTH + K / 4) with (p0 + K / 4) by lia.
        change (4 * 0) with 0. now rewrite Z.shiftr_0_r.
    + specialize (Htex E). subst texel.
      assert ((K + 1 + 3) / 4 = (K + 3) / 4) as E2 by (Z.div_mod_to_equations; lia).
      split; [|split; [|split; [|split]]].
      * now rewrite E2.
      * lia.
      * exact Hoffs.
      * intros Hne.
        assert ((K + 1) / 4 = K / 4 /\ (K + 1) mod 4 = K mod 4 + 1) as [E3 E4]
          by (Z.div_mod_to_equations; lia).
        rewrite E3, E4, shiftr_shiftr_add by lia.
        rewrite u16_shiftr by lia. f_equal. lia.
      * apply row_written_snoc; [lia | assumption |].
        unfold texel_colour, texel_word.
        now replace (p0 + 0 * VRAM_WIDTH + K / 4) with (p0 + K / 4) by lia.
Qed.

Lemma decode8_slow_row (k : nat) p0 d0 (m0 : TexelBuffer) :
  let st := Nat.iter k (decode8_slow_step conv env palette) (p0, d0, 0, 0, m0) in
  st.1.1.1.1 = p0 + (Z.of_nat k + 1) / 2 /\ st.1.1.1.2 = d0 + 4 * Z.of_nat k /\
  st.1.1.2 = Z.of_nat k mod 2 /\
  (Z.of_nat k mod 2 <> 0 ->
   st.1.2 = Z.shiftr (g_vram env (p0 + Z.of_nat k / 2)) (8 * (Z.of_nat k mod 2))) /\
  row_written m0 st.2 d0 (Z.of_nat k)
              (fun j => conv (texel_colour env palette Palette8Bit p0 j 0)).
Proof.
  cbv zeta. induction k as [|k IH].
  - cbn [Nat.iter nat_rect fst snd]. change (Z.of_nat 0) with 0.
    change ((0 + 1) / 2) with 0. change (0 mod 2) with 0.
    repeat split; try lia; try (intros; lia).
  - rewrite Nat.iter_succ.
    destruct (Nat.iter k _ _) as [[[[p d] offs] texel] m]. cbn [fst snd] in IH.
    destruct IH as (-> & -> & -> & Htex & IH). unfold decode8_slow_step.
    replace (Z.of_nat (S k)) with (Z.of_nat k + 1) by lia.
    set (K := Z.of_nat k) in *. assert (0 <= K) as HK by lia. clearbody K.
    pose proof (Hvram (p0 + K / 2)) as Hv.
    assert (0 <= K mod 2 < 2) as Hm by (apply Z.mod_pos_bound; lia).
    pose proof (Z.div_mod K 2 ltac:(lia)) as HD.
    destruct (Z.eqb_spec (K mod 2) 0) as [E|E]; cbn [fst snd].
    + assert ((K + 1) / 2 = K / 2 /\ (K + 1 + 1) / 2 = K / 2 + 1 /\ (K + 1) mod 2 = 1)
        as (E1 & E2 & E4).
      { rewrite E in HD. repeat split.
        - symmetry; apply (Z.div_unique _ 2 _ 1); lia.
        - symmetry; apply (Z.div_unique _ 2 _ 0); lia.
        - symmetry; apply (Z.mod_unique _ 2 (K / 2) 1); lia. }
      split; [|split; [|split; [|split]]].
      * rewrite E1, E2. lia.
      * lia.
      * rewrite E, E4. reflexivity.
      * intros _. rewrite E1, E4. now rewrite u16_shiftr by lia.
      * apply row_written_snoc; [lia | assumption |].
        unfold texel_colour, texel_word. rewrite E.
        replace (p0 + 0 * VRAM_WIDTH + K / 2) with (p0 + K / 2) by lia.
        rewrite E1. change (8 * 0) with 0. now rewrite Z.shiftr_0_r.
    + assert (K mod 2 = 1) as E1 by lia.
      assert ((K + 1) mod 2 = 0 /\ (K + 1 + 1) / 2 = (K + 1) / 2) as [E4 E2].
      { rewrite E1 in HD. split.
        - symmetry; apply (Z.mod_unique _ 2 (K / 2 + 1) 0); lia.
        - assert ((K + 1) / 2 = K / 2 + 1) as -> by
            (symmetry; apply (Z.div_unique _ 2 _ 0); lia).
          symmetry; apply (Z.div_unique _ 2 _ 1); lia. }
      specialize (Htex E). subst texel.
      split; [|split; [|split; [|split]]].
      * now rewrite E2.
      * lia.
      * rewrite E1, E4. reflexivity.
      * intros Hne. now contradict Hne.
      * apply row_written_snoc; [lia | assumption |].
        unfold texel_colour, texel_word. rewrite E1.
        now replace (p0 + 0 * VRAM_WIDTH + K / 2) with (p0 + K / 2) by lia.
Qed.

End DecodeRows.

(** *** Whole textures *)

(** What a decode of [width] by [height] texels leaves in the buffer. *)
Lemma texels_written_of_rows (rowf : Z -> Z -> TexelBuffer -> TexelBuffer)
    (env : Env) (palette : Z -> Z) (conv : Z -> Z) (mode : GPUTextureMode)
    (row : Z * Z * TexelBuffer -> Z * Z * TexelBuffer) width height page dest dest_stride mem :
  0 <= width -> 4 * width <= dest_stride ->
  (forall st, row st = (st.1.1 + VRAM_WIDTH, st.1.2 + dest_stride, rowf st.1.1 st.1.2 st.2)) ->
  (forall p d m, row_written m (rowf p d m) d width
                             (fun j => conv (texel_colour env palette mode p j 0))) ->
  let mem' := snd (Nat.iter (Z.to_nat height) row (page, dest, mem)) in
  (forall x y, 0 <= x < width -> 0 <= y < height ->
     mem' !! texel_address dest dest_stride x y =
     Some (conv (texel_colour env palette mode page x y))) /\
  (forall a, (forall x y, 0 <= x < width -> 0 <= y < height ->
                          a <> texel_address dest dest_stride x y) ->
     mem' !! a = mem !! a).
Proof.
  intros Hw Hstride Hrow Hspec mem'. subst mem'.
  rewrite (Nat_iter_ext _ _ _ _ Hrow).
  pose proof (rows_written rowf (fun p j => conv (texel_colour env palette mode p j 0))
                width dest_stride (Z.to_nat height) page dest mem Hw Hstride Hspec)
    as (_ & _ & Hin & Hout).
  split.
  - intros x y Hx Hy. unfold texel_address. rewrite Hin by lia. do 2 f_equal.
    unfold texel_colour, texel_word.
    destruct mode; [do 4 f_equal | do 4 f_equal | f_equal | f_equal]; lia.
  - intros a Ha. apply Hout. intros x y Hx Hy. apply Ha; lia.
Qed.

Section DecodeTextures.

Variable conv : Z -> Z.
Variable env : Env.
Variable palette : Z -> Z.
Hypothesis Hvram : vram_halfwords env.

Variables (page dest dest_stride width height : Z) (mem : TexelBuffer).
Hypothesis Hwidth : 0 <= width.
Hypothesis Hstride : 4 * width <= dest_stride.

Lemma DecodeTexture4_texels :
  let mem' := DecodeTexture4 conv env palette page width height dest dest_stride mem in
  (forall x y, 0 <= x < width -> 0 <= y < height ->
     mem' !! texel_address dest dest_stride x y =
     Some (conv (texel_colour env palette Palette4Bit page x y))) /\
  (forall a, (forall x y, 0 <= x < width -> 0 <= y < height ->
                          a <> texel_address dest dest_stride x y) ->
     mem' !! a = mem !! a).
Proof.
  unfold DecodeTexture4. destruct (Z.eqb_spec (width mod 4) 0) as [E|E].
  - apply (texels_written_of_rows
             (fun p d m => (Nat.iter (Z.to_nat (width / 4))
                                     (decode4_fast_step conv env palette) (p, d, m)).2));
      [assumption | assumption | |].
    + intros [[p d] m]. cbn [fst snd].
      now destruct (Nat.iter _ _ _) as [[? ?] ?].
    + intros p d m.
      pose proof (decode4_fast_row conv env palette Hvram (Z.to_nat (width / 4)) p d m)
        as (_ & _ & H).
      replace (4 * Z.of_nat (Z.to_nat (width / 4))) with width in H
        by (Z.div_mod_to_equations; lia).
      exact H.
  - apply (texels_written_of_rows
             (fun p d m => (Nat.iter (Z.to_nat width)
                                     (decode4_slow_step conv env palette) (p, d, 0, 0, m)).2));
      [assumption | assumption | |].
    + intros [[p d] m]. cbn [fst snd].
      now destruct (Nat.iter _ _ _) as [[[[? ?] ?] ?] ?].
    + intros p d m.
      pose proof (decode4_slow_row conv env palette Hvram (Z.to_nat width) p d m)
        as (_ & _ & _ & _ & H).
      now rewrite Z2Nat.id in H by lia.
Qed.

Lemma DecodeTexture8_texels :
  let mem' := DecodeTexture8 conv env palette page width height dest dest_stride mem in
  (forall x y, 0 <= x < width -> 0 <= y < height ->
     mem' !! texel_address dest dest_stride x y =
     Some (conv (texel_colour env palette Palette8Bit page x y))) /\
  (forall a, (forall x y, 0 <= x < width -> 0 <= y < height ->
                          a <> texel_address dest dest_stride x y) ->
     mem' !! a = mem !! a).
Proof.
  unfold DecodeTexture8. destruct (Z.eqb_spec (width mod 2) 0) as [E|E].
  - apply (texels_written_of_rows
             (fun p d m => (Nat.iter (Z.to_nat (width / 2))
                                     (decode8_fast_step conv env palette) (p, d, m)).2));
      [assumption | assumption | |].
    + intros [[p d] m]. cbn [fst snd].
      now destruct (Nat.iter _ _ _) as [[? ?] ?].
    + intros p d m.
      pose proof (decode8_fast_row conv env palette Hvram (Z.to_nat (width / 2)) p d m)
        as (_ & _ & H).
      replace (2 * Z.of_nat (Z.to_nat (width / 2))) with width in H
        by (Z.div_mod_to_equations; lia).
      exact H.
  - apply (texels_written_of_rows
             (fun p d m => (Nat.iter (Z.to_nat width)
                                     (decode8_slow_step conv env palette) (p, d, 0, 0, m)).2));
      [assumption | assumption | |].
    + intros [[p d] m]. cbn [fst snd].
      now destruct (Nat.iter _ _ _) as [[[[? ?] ?] ?] ?].
    + intros p d m.
      pose proof (decode8_slow_row conv env palette Hvram (Z.to_nat width) p d m)
        as (_ & _ & _ & _ & H).
      now rewrite Z2Nat.id in H by lia.
Qed.

Lemma DecodeTexture16_texels :
  let mem' := DecodeTexture16 conv env page width height dest dest_stride mem in
  (forall x y, 0 <= x < width -> 0 <= y < height ->
     mem' !! texel_address dest dest_stride x y =
     Some (conv (texel_colour env palette Direct16Bit page x y))) /\
  (forall a, (forall x y, 0 <= x < width -> 0 <= y < height ->
                          a <> texel_address dest dest_stride x y) ->
     mem' !! a = mem !! a).
Proof.
  unfold DecodeTexture16.
  apply (texels_written_of_rows
           (fun p d m => (Nat.iter (Z.to_nat width) (decode16_step conv env) (p, d, m)).2));
    [assumption | assumption | |].
  - intros [[p d] m]. cbn [fst snd].
    now destruct (Nat.iter _ _ _) as [[? ?] ?].
  - intros p d m.
    pose proof (decode16_row conv env palette (Z.to_nat width) p d m) as (_ & _ & H).
    now rewrite Z2Nat.id in H by lia.
Qed.

End DecodeTextures.

(** X17: a decode of [width] by [height] texels into a buffer whose rows do
    not overlap stores, for every texel, the converted colour of the texel
    at the same position of the source (looked up in the palette through
    its 4-bit or 8-bit index, or taken as it is in the direct modes), and
    leaves every other address of the buffer alone; the unrolled loops for
    widths that fill whole halfwords and the texel-by-texel loops agree. *)
Theorem DecodeTexture_writes_texels conv env palette mode page dest dest_stride width height
    (mem : TexelBuffer) :
  vram_halfwords env -> 0 <= width -> 4 * width <= dest_stride ->
  let mem' := DecodeTexture conv env palette mode page dest dest_stride width height mem in
  (forall x y, 0 <= x < width -> 0 <= y < height ->
     mem' !! texel_address dest dest_stride x y =
     Some (conv (texel_colour env palette mode page x y))) /\
  (forall a, (forall x y, 0 <= x < width -> 0 <= y < height ->
                          a <> texel_address dest dest_stride x y) ->
     mem' !! a = mem !! a).
Proof.
  intros Hvram Hw Hs. destruct mode; unfold DecodeTexture.
  - now apply DecodeTexture4_texels.
  - now apply DecodeTexture8_texels.
  - now apply (DecodeTexture16_texels conv env palette).
  - now apply (DecodeTexture16_texels conv env palette).
Qed.

Lemma DecodeTexture_writes_texels_witness :
  let env := (Scenario.env 4660 1 false) in
  let mem' := DecodeTexture (fun c => c + 1) env (fun i => 2 * i) Palette4Bit 5 0 64 7 3 ∅ in
  (forall x y, 0 <= x < 7 -> 0 <= y < 3 ->
     mem' !! texel_address 0 64 x y =
     Some (texel_colour env (fun i => 2 * i) Palette4Bit 5 x y + 1)) /\
  (forall a, (forall x y, 0 <= x < 7 -> 0 <= y < 3 -> a <> texel_address 0 64 x y) ->
     mem' !! a = (∅ : TexelBuffer) !! a).
Proof.
  apply (DecodeTexture_writes_texels (fun c => c + 1) (Scenario.env 4660 1 false) (fun i => 2 * i)
           Palette4Bit 5 0 64 7 3 ∅).
  - intros i. cbn. lia.
  - lia.
  - lia.
Defined.

(** ** Palette bounds *)

Lemma map_seq_from {A : Type} (f : nat -> A) s n :
  map f (seq s n) = map (fun i => f (s + i)%nat) (seq 0 n).
Proof.
  revert f s. induction n as [|n IH]; intros f s; cbn [seq map]; [reflexivity|].
  f_equal; [f_equal; lia|]. rewrite (IH f (S s)), (IH (fun i => f (s + i)%nat) 1%nat).
  apply map_ext. intros i. f_equal. lia.
Qed.

Lemma vram_run_app env start a b :
  0 <= a -> 0 <= b ->
  vram_run env start (a + b) = vram_run env start a ++ vram_run env (start + a) b.
Proof.
  intros Ha Hb. unfold vram_run.
  rewrite Z2Nat.inj_add, seq_app, map_app by lia. f_equal.
  rewrite map_seq_from. apply map_ext. intros i. f_equal. lia.
Qed.

Lemma vram_run_one env start : vram_run env start 1 = [g_vram env start].
Proof.
  unfold vram_run. change (seq 0 (Z.to_nat 1)) with [0%nat]. cbn [map].
  change (Z.of_nat 0) with 0. now rewrite Z.add_0_r.
Qed.

Lemma vram_run_length env start n : length (vram_run env start n) = Z.to_nat n.
Proof. unfold vram_run. now rewrite length_map, length_seq. Qed.

Lemma vram_run_halfwords env start n :
  vram_halfwords env -> Forall (fun v => 0 <= v < 2 ^ 16) (vram_run env start n).
Proof.
  intros H. unfold vram_run. apply List.Forall_forall. intros v Hv.
  apply in_map_iff in Hv as (i & <- & _). apply H.
Qed.

(** *** Minimum and maximum of a list *)

Lemma fold_min_foldr l a :
  a <= 255 -> fold_left Z.min l a = Z.min a (fold_right Z.min 255 l).
Proof.
  revert a. induction l as [|x l IH]; intros a Ha; cbn [fold_left fold_right]; [lia|].
  rewrite IH by lia. lia.
Qed.

Lemma fold_max_foldr l a :
  0 <= a -> fold_left Z.max l a = Z.max a (fold_right Z.max 0 l).
Proof.
  revert a. induction l as [|x l IH]; intros a Ha; cbn [fold_left fold_right]; [lia|].
  rewrite IH by lia. lia.
Qed.

Lemma foldr_min_le l : fold_right Z.min 255 l <= 255.
Proof. induction l; cbn [fold_right]; lia. Qed.

Lemma foldr_max_ge l : 0 <= fold_right Z.max 0 l.
Proof. induction l; cbn [fold_right]; lia. Qed.

Lemma foldr_min_app l1 l2 :
  fold_right Z.min 255 (l1 ++ l2) = Z.min (fold_right Z.min 255 l1) (fold_right Z.min 255 l2).
Proof.
  induction l1 as [|x l1 IH]; cbn [fold_right app].
  - pose proof (foldr_min_le l2). lia.
  - rewrite IH. lia.
Qed.

Lemma foldr_max_app l1 l2 :
  fold_right Z.max 0 (l1 ++ l2) = Z.max (fold_right Z.max 0 l1) (fold_right Z.max 0 l2).
Proof.
  induction l1 as [|x l1 IH]; cbn [fold_right app].
  - pose proof (foldr_max_ge l2). lia.
  - rewrite IH. lia.
Qed.

Lemma minv_u8_min_u8 a b :
  length a = length b -> minv_u8 (min_u8 a b) = Z.min (minv_u8 a) (minv_u8 b).
Proof.
  unfold minv_u8, min_u8. revert b.
  induction a as [|x a IH]; intros [|y b] Hl; try discriminate; cbn [zip_with fold_right].
  - reflexivity.
  - rewrite IH by (cbn in Hl; lia). lia.
Qed.

Lemma maxv_u8_max_u8 a b :
  length a = length b -> maxv_u8 (max_u8 a b) = Z.max (maxv_u8 a) (maxv_u8 b).
Proof.
  unfold maxv_u8, max_u8. revert b.
  induction a as [|x a IH]; intros [|y b] Hl; try discriminate; cbn [zip_with fold_right].
  - reflexivity.
  - rewrite IH by (cbn in Hl; lia). lia.
Qed.

Lemma fold_min_spec l a :
  fold_left Z.min l a <= a /\
  (forall x, In x l -> fold_left Z.min l a <= x) /\
  (fold_left Z.min l a = a \/ In (fold_left Z.min l a) l).
Proof.
  revert a. induction l as [|x l IH]; intros a; cbn [fold_left In].
  - split; [lia|]. split; [intros x []|now left].
  - destruct (IH (Z.min a x)) as (H1 & H2 & H3). split; [lia|]. split.
    + intros y [<-|Hy]; [lia | now apply H2].
    + destruct H3 as [H3|H3]; [|now right; right].
      destruct (Z.min_spec a x) as [[_ E]|[_ E]]; rewrite E in *; [now left | right; left; lia].
Qed.

Lemma fold_max_spec l a :
  a <= fold_left Z.max l a /\
  (forall x, In x l -> x <= fold_left Z.max l a) /\
  (fold_left Z.max l a = a \/ In (fold_left Z.max l a) l).
Proof.
  revert a. induction l as [|x l IH]; intros a; cbn [fold_left In].
  - split; [lia|]. split; [intros x []|now left].
  - destruct (IH (Z.max a x)) as (H1 & H2 & H3). split; [lia|]. split.
    + intros y [<-|Hy]; [lia | now apply H2].
    + destruct H3 as [H3|H3]; [|now right; right].
      destruct (Z.max_spec a x) as [[_ E]|[_ E]]; rewrite E in *; [right; left; lia | now left].
Qed.

(** *** Indices of halfwords *)

Lemma land_ones_range v n : 0 <= n -> 0 <= Z.land v (Z.ones n) < 2 ^ n.
Proof. intros Hn. rewrite Z.land_ones by lia. apply Z.mod_pos_bound. lia. Qed.

Lemma palette_indices_range mode v i :
  TextureModeHasPalette mode = true -> 0 <= v < 2 ^ 16 ->
  In i (palette_indices mode v) -> 0 <= i < GetPaletteWidth mode.
Proof.
  intros Hm Hv Hi. destruct mode; try discriminate; cbn [palette_indices GetPaletteWidth In] in *.
  - change 15 with (Z.ones 4) in Hi. pose proof (fun w => land_ones_range w 4 ltac:(lia)) as R.
    change (2 ^ 4) with 16 in R.
    destruct Hi as [<-|[<-|[<-|[<-|[]]]]]; apply R.
  - destruct Hi as [<-|[<-|[]]].
    + change 255 with (Z.ones 8). apply (land_ones_range v 8). lia.
    + rewrite shiftr_top_byte by lia. change 255 with (Z.ones 8).
      apply (land_ones_range _ 8). lia.
Qed.

Lemma palette_indices_nonempty mode v : palette_indices mode v <> [].
Proof. now destruct mode. Qed.

Lemma GSVector4i_load_indices env ptr :
  vram_halfwords env ->
  GSVector4i_load env ptr = flat_map (palette_indices Palette8Bit) (vram_run env ptr 8).
Proof.
  intros H. unfold GSVector4i_load.
  pose proof (vram_run_halfwords env ptr 8 H) as HF.
  induction HF as [|v l Hv _ IH]; [reflexivity|].
  cbn [flat_map]. rewrite IH. cbn [palette_indices app].
  now rewrite <- shiftr_top_byte.
Qed.

Lemma indices8_length l : length (flat_map (palette_indices Palette8Bit) l) = (2 * length l)%nat.
Proof. induction l as [|v l IH]; [reflexivity|]. cbn [flat_map length app palette_indices]. lia. Qed.

Lemma AlignDownPow2_8 n : AlignDownPow2 n 8 = 8 * (n / 8).
Proof.
  unfold AlignDownPow2. change (8 - 1) with (Z.ones 3).
  rewrite <- Z.ldiff_land, Z.ldiff_ones_r by lia.
  rewrite Z.shiftl_mul_pow2, Z.shiftr_div_pow2 by lia. change (2 ^ 3) with 8. lia.
Qed.

(** *** Rows of the scan *)

Lemma reduce4_iter env (k : nat) p a b :
  Nat.iter k (reduce4_step env) (p, a, b) =
  (p + Z.of_nat k,
   fold_left Z.min (flat_map (palette_indices Palette4Bit) (vram_run env p (Z.of_nat k))) a,
   fold_left Z.max (flat_map (palette_indices Palette4Bit) (vram_run env p (Z.of_nat k))) b).
Proof.
  induction k as [|k IH]; [cbn; now rewrite Z.add_0_r|].
  rewrite Nat.iter_succ, IH. unfold reduce4_step.
  replace (Z.of_nat (S k)) with (Z.of_nat k + 1) by lia.
  rewrite vram_run_app, vram_run_one, flat_map_app, !fold_left_app by lia.
  cbn [flat_map palette_indices app fold_left]. f_equal; [f_equal; lia | lia].
Qed.

Lemma reduce8_iter env (k : nat) p a b :
  Nat.iter k (reduce8_step env) (p, a, b) =
  (p + Z.of_nat k,
   fold_left Z.min (flat_map (palette_indices Palette8Bit) (vram_run env p (Z.of_nat k))) a,
   fold_left Z.max (flat_map (palette_indices Palette8Bit) (vram_run env p (Z.of_nat k))) b).
Proof.
  induction k as [|k IH]; [cbn; now rewrite Z.add_0_r|].
  rewrite Nat.iter_succ, IH. unfold reduce8_step.
  replace (Z.of_nat (S k)) with (Z.of_nat k + 1) by lia.
  rewrite vram_run_app, vram_run_one, flat_map_app, !fold_left_app by lia.
  cbn [flat_map palette_indices app fold_left]. f_equal; [f_equal; lia | lia].
Qed.

Lemma GSVector4i_load_length env ptr : length (GSVector4i_load env ptr) = 16%nat.
Proof.
  unfold GSVector4i_load, vram_run. change (Z.to_nat 8) with 8%nat. reflexivity.
Qed.

Lemma zip_with_length_same {A : Type} (f : A -> A -> A) (a b : list A) n :
  length a = n -> length b = n -> length (zip_with f a b) = n.
Proof.
  revert b n. induction a as [|x a IH]; intros [|y b] n Ha Hb; cbn in *; try lia.
  destruct n; [lia|]. f_equal. apply IH; lia.
Qed.

Lemma reduce8_vector_iter env (j : nat) p :
  vram_halfwords env ->
  let st := Nat.iter j (reduce8_vector_step env)
                     (p + 8, GSVector4i_load env p, GSVector4i_load env p) in
  let bytes := flat_map (palette_indices Palette8Bit) (vram_run env p (8 * (Z.of_nat j + 1))) in
  st.1.1 = p + 8 * (Z.of_nat j + 1) /\
  length st.1.2 = 16%nat /\ length st.2 = 16%nat /\
  minv_u8 st.1.2 = fold_right Z.min 255 bytes /\
  maxv_u8 st.2 = fold_right Z.max 0 bytes.
Proof.
  intros Hvram. cbv zeta. induction j as [|j IH].
  - cbn [Nat.iter nat_rect fst snd]. change (8 * (Z.of_nat 0 + 1)) with 8.
    rewrite <- GSVector4i_load_indices by assumption.
    repeat split; first [apply GSVector4i_load_length | reflexivity | lia].
  - rewrite Nat.iter_succ. destruct (Nat.iter j _ _) as [[q mn] mx]. cbn [fst snd] in IH.
    destruct IH as (-> & Hlmn & Hlmx & Hmn & Hmx). unfold reduce8_vector_step. cbn [fst snd].
    replace (8 * (Z.of_nat (S j) + 1)) with (8 * (Z.of_nat j + 1) + 8) by lia.
    rewrite vram_run_app, flat_map_app, foldr_min_app, foldr_max_app by lia.
    rewrite <- GSVector4i_load_indices by assumption.
    pose proof (GSVector4i_load_length env (p + 8 * (Z.of_nat j + 1))) as Hl.
    split; [lia|]. split; [now apply zip_with_length_same|].
    split; [now apply zip_with_length_same|].
    rewrite minv_u8_min_u8, maxv_u8_max_u8 by congruence.
    now rewrite Hmn, Hmx.
Qed.

Lemma vram_run_split env start a n :
  0 <= a <= n ->
  vram_run env start n = vram_run env start a ++ vram_run env (start + a) (n - a).
Proof.
  intros Ha. rewrite <- vram_run_app by lia. f_equal. lia.
Qed.

Lemma reduce4_row_spec env n p a b :
  0 <= n ->
  reduce4_row env n (p, a, b) =
  (p + VRAM_WIDTH,
   fold_left Z.min (flat_map (palette_indices Palette4Bit) (vram_run env p n)) a,
   fold_left Z.max (flat_map (palette_indices Palette4Bit) (vram_run env p n)) b).
Proof.
  intros Hn. unfold reduce4_row. rewrite reduce4_iter. now rewrite Z2Nat.id by lia.
Qed.

Lemma reduce8_row_spec env n p a b :
  vram_halfwords env -> 0 <= n -> a <= 255 -> 0 <= b ->
  reduce8_row env n (AlignDownPow2 n 8) (p, a, b) =
  (p + VRAM_WIDTH,
   fold_left Z.min (flat_map (palette_indices Palette8Bit) (vram_run env p n)) a,
   fold_left Z.max (flat_map (palette_indices Palette8Bit) (vram_run env p n)) b).
Proof.
  intros Hvram Hn Ha Hb. rewrite AlignDownPow2_8. unfold reduce8_row.
  assert (0 <= n / 8 /\ 0 <= n - 8 * (n / 8)) as [Hq Hr] by (Z.div_mod_to_equations; lia).
  rewrite (vram_run_split env p (8 * (n / 8)) n), flat_map_app, !fold_left_app by lia.
  set (q := n / 8) in *. set (r := n - 8 * q) in *.
  destruct (Z.ltb_spec 0 (8 * q)) as [Hpos|Hzero].
  - replace (8 * q / 8) with q by (Z.div_mod_to_equations; lia).
    pose proof (reduce8_vector_iter env (Z.to_nat (q - 1)) p Hvram) as H. cbv zeta in H.
    destruct (Nat.iter (Z.to_nat (q - 1)) _ _) as [[ptr mn] mx]. cbn [fst snd] in H.
    destruct H as (-> & _ & _ & -> & ->).
    replace (8 * (Z.of_nat (Z.to_nat (q - 1)) + 1)) with (8 * q) by lia.
    rewrite reduce8_iter. rewrite Z2Nat.id by lia.
    rewrite <- fold_min_foldr, <- fold_max_foldr by lia. reflexivity.
  - assert (q = 0) as -> by lia. change (8 * 0) with 0.
    rewrite reduce8_iter, Z2Nat.id by lia.
    replace (p + 0) with p by lia. reflexivity.
Qed.

(** The halfwords of [h] rows of [n] halfwords from [p] on. *)
Lemma reduce_rows (idx : Z -> list Z) (rowf : Z * Z * Z -> Z * Z * Z) env n (h : nat) p a b :
  a <= 255 -> 0 <= b ->
  (forall p a b, a <= 255 -> 0 <= b ->
     rowf (p, a, b) = (p + VRAM_WIDTH,
                       fold_left Z.min (flat_map idx (vram_run env p n)) a,
                       fold_left Z.max (flat_map idx (vram_run env p n)) b)) ->
  let halfwords := flat_map (fun i => vram_run env (p + Z.of_nat i * VRAM_WIDTH) n) (seq 0 h) in
  Nat.iter h rowf (p, a, b) =
  (p + Z.of_nat h * VRAM_WIDTH,
   fold_left Z.min (flat_map idx halfwords) a,
   fold_left Z.max (flat_map idx halfwords) b).
Proof.
  intros Ha Hb Hrow. cbv zeta. induction h as [|h IH].
  - cbn. now rewrite Z.add_0_r.
  - rewrite Nat.iter_succ, IH, Hrow.
    + rewrite seq_S, !flat_map_app, !fold_left_app. cbn [flat_map]. rewrite !app_nil_r.
      cbn [Nat.add]. do 2 f_equal. lia.
    + pose proof (fold_min_spec (flat_map idx
        (flat_map (fun i => vram_run env (p + Z.of_nat i * VRAM_WIDTH) n) (seq 0 h))) a). lia.
    + pose proof (fold_max_spec (flat_map idx
        (flat_map (fun i => vram_run env (p + Z.of_nat i * VRAM_WIDTH) n) (seq 0 h))) b). lia.
Qed.

Lemma flat_map_map {A B C : Type} (f : B -> list C) (g : A -> B) l :
  flat_map f (map g l) = flat_map (fun x => f (g x)) l.
Proof. induction l as [|x l IH]; [reflexivity|]. cbn. now rewrite IH. Qed.

Lemma rect_halfwords_rows env rect :
  rect_halfwords env rect =
  flat_map (fun i => vram_run env (GSVector4i.top rect * VRAM_WIDTH + GSVector4i.left rect
                                   + Z.of_nat i * VRAM_WIDTH)
                              (GSVector4i.right rect - GSVector4i.left rect))
           (seq 0 (Z.to_nat (GSVector4i.bottom rect - GSVector4i.top rect))).
Proof.
  unfold rect_halfwords, Zrange. rewrite flat_map_map.
  replace (GSVector4i.bottom rect - 1 + 1 - GSVector4i.top rect)
    with (GSVector4i.bottom rect - GSVector4i.top rect) by lia.
  apply flat_map_ext. intros i. f_equal. lia.
Qed.

(** The scan before the clamp. *)
Lemma ReducePaletteBounds_scan env rect mode palette :
  vram_halfwords env -> TextureModeHasPalette mode = true ->
  in_vram rect ->
  let lo := fold_left Z.min (used_indices env rect mode) (GetPaletteWidth mode - 1) in
  let hi := fold_left Z.max (used_indices env rect mode) 0 in
  ReducePaletteBounds env rect mode palette =
  if VRAM_WIDTH <=? GetXBase palette + hi
  then (Z.min lo (VRAM_WIDTH - GetXBase palette - 1), Z.min hi (VRAM_WIDTH - GetXBase palette - 1))
  else (lo, hi).
Proof.
  intros Hvram Hmode Hin. cbv zeta.
  assert (0 <= GetXBase palette <= 1008) as Hx.
  { unfold GetXBase. change 63 with (Z.ones 6).
    pose proof (land_ones_range palette 6 ltac:(lia)) as H. change (2 ^ 6) with 64 in H. lia. }
  assert (forall i, In i (used_indices env rect mode) -> 0 <= i < GetPaletteWidth mode) as Hidx.
  { intros i Hi. unfold used_indices in Hi. apply in_flat_map in Hi as (v & Hv & Hi).
    apply (palette_indices_range mode v); [assumption| |assumption].
    unfold rect_halfwords in Hv. apply in_flat_map in Hv as (y & _ & Hv).
    unfold vram_run in Hv. apply in_map_iff in Hv as (j & <- & _). apply Hvram. }
  assert (0 <= fold_left Z.max (used_indices env rect mode) 0 < 256) as Hhi.
  { destruct (fold_max_spec (used_indices env rect mode) 0) as (H1 & _ & [->|H3]); [lia|].
    apply Hidx in H3. destruct mode; try discriminate; cbn in H3; lia. }
  destruct Hin as (Hl & Hlr & Hr & Ht & Htb & Hb).
  unfold VRAM_WIDTH, VRAM_HEIGHT in Hr, Hb.
  assert (u32 (GSVector4i.width rect) = GSVector4i.right rect - GSVector4i.left rect) as Hw.
  { unfold GSVector4i.width. rewrite s32_small by (unfold S32_MIN, S32_MAX; lia).
    apply u32_small; lia. }
  assert (u32 (GSVector4i.height rect) = GSVector4i.bottom rect - GSVector4i.top rect) as Hh.
  { unfold GSVector4i.height. rewrite s32_small by (unfold S32_MIN, S32_MAX; lia).
    apply u32_small; lia. }
  unfold ReducePaletteBounds. rewrite Hw, Hh.
  unfold used_indices in *. rewrite rect_halfwords_rows in *.
  set (row_ptr := GSVector4i.top rect * VRAM_WIDTH + GSVector4i.left rect) in *.
  set (n := GSVector4i.right rect - GSVector4i.left rect) in *.
  set (h := Z.to_nat (GSVector4i.bottom rect - GSVector4i.top rect)) in *.
  destruct mode; try discriminate; cbn [GetPaletteWidth].
  - change (u32 (16 - 1)) with (16 - 1).
    rewrite (reduce_rows (palette_indices Palette4Bit) (reduce4_row env n) env n h row_ptr)
      by first [lia | intros p a b _ _; apply reduce4_row_spec; subst n; lia].
    cbv beta iota zeta. set (hi := fold_left Z.max _ 0) in *.
    assert (VRAM_WIDTH = 1024) as HW by reflexivity.
    rewrite !u32_small by lia. reflexivity.
  - change (u32 (256 - 1)) with (256 - 1).
    rewrite (reduce_rows (palette_indices Palette8Bit) (reduce8_row env n (AlignDownPow2 n 8))
                         env n h row_ptr)
      by first [lia | intros p a b Ha Hb'; apply reduce8_row_spec;
                      [assumption | subst n; lia | lia | lia]].
    cbv beta iota zeta. set (hi := fold_left Z.max _ 0) in *.
    assert (VRAM_WIDTH = 1024) as HW by reflexivity.
    rewrite !u32_small by lia. reflexivity.
Qed.

(** *** The bounds *)

Lemma used_indices_nonempty env rect mode :
  GSVector4i.rempty rect = false -> exists i, In i (used_indices env rect mode).
Proof.
  intros Hne. apply GSVector4i_rempty_false in Hne as [Hw Hh].
  destruct (palette_indices mode (g_vram env (GSVector4i.top rect * VRAM_WIDTH
                                              + GSVector4i.left rect))) as [|i l] eqn:E;
    [now apply palette_indices_nonempty in E|].
  exists i. unfold used_indices. apply in_flat_map.
  exists (g_vram env (GSVector4i.top rect * VRAM_WIDTH + GSVector4i.left rect)).
  split; [|rewrite E; now left].
  unfold rect_halfwords. apply in_flat_map. exists (GSVector4i.top rect). split.
  - apply Zrange_In. lia.
  - unfold vram_run. apply in_map_iff. exists 0%nat. split.
    + f_equal. lia.
    + apply in_seq. lia.
Qed.

Lemma used_indices_range env rect mode i :
  vram_halfwords env -> TextureModeHasPalette mode = true ->
  In i (used_indices env rect mode) -> 0 <= i < GetPaletteWidth mode.
Proof.
  intros Hvram Hmode Hi. unfold used_indices in Hi. apply in_flat_map in Hi as (v & Hv & Hi).
  apply (palette_indices_range mode v); [assumption| |assumption].
  unfold rect_halfwords in Hv. apply in_flat_map in Hv as (y & _ & Hv).
  unfold vram_run in Hv. apply in_map_iff in Hv as (j & <- & _). apply Hvram.
Qed.

(** The lowest and the highest index of a non-empty rectangle. *)
Lemma used_indices_extremes env rect mode :
  vram_halfwords env -> TextureModeHasPalette mode = true ->
  GSVector4i.rempty rect = false ->
  let used := used_indices env rect mode in
  let lo := fold_left Z.min used (GetPaletteWidth mode - 1) in
  let hi := fold_left Z.max used 0 in
  In lo used /\ In hi used /\ forall i, In i used -> lo <= i <= hi.
Proof.
  intros Hvram Hmode Hne. cbv zeta.
  destruct (used_indices_nonempty env rect mode Hne) as (i0 & Hi0).
  pose proof (used_indices_range env rect mode i0 Hvram Hmode Hi0) as Hr0.
  destruct (fold_min_spec (used_indices env rect mode) (GetPaletteWidth mode - 1))
    as (L1 & L2 & L3).
  destruct (fold_max_spec (used_indices env rect mode) 0) as (M1 & M2 & M3).
  pose proof (L2 i0 Hi0) as L0. pose proof (M2 i0 Hi0) as M0.
  repeat split.
  - destruct L3 as [L3|L3]; [|assumption].
    replace (fold_left Z.min (used_indices env rect mode) (GetPaletteWidth mode - 1))
      with i0 by lia. assumption.
  - destruct M3 as [M3|M3]; [|assumption].
    replace (fold_left Z.max (used_indices env rect mode) 0) with i0 by lia. assumption.
  - now apply L2.
  - now apply M2.
Qed.

(** X18: for a non-empty rectangle of a paletted texture none of whose
    indices reaches past the right edge of VRAM from the palette's start,
    [ReducePaletteBounds] returns the tightest range: both bounds are
    indices the rectangle uses and every index it uses lies between them;
    the vector scan of the 8-bit mode finds the same bounds as a scan
    halfword by halfword. *)
Theorem ReducePaletteBounds_tightest env rect mode palette :
  vram_halfwords env -> TextureModeHasPalette mode = true ->
  in_vram rect -> GSVector4i.rempty rect = false ->
  (forall i, In i (used_indices env rect mode) -> GetXBase palette + i < VRAM_WIDTH) ->
  let '(pal_min, pal_max) := ReducePaletteBounds env rect mode palette in
  In pal_min (used_indices env rect mode) /\
  In pal_max (used_indices env rect mode) /\
  forall i, In i (used_indices env rect mode) -> pal_min <= i <= pal_max.
Proof.
  intros Hvram Hmode Hin Hne Hedge.
  rewrite (ReducePaletteBounds_scan env rect mode palette Hvram Hmode Hin).
  destruct (used_indices_extremes env rect mode Hvram Hmode Hne) as (Hlo & Hhi & Hall).
  destruct (Z.leb_spec VRAM_WIDTH
              (GetXBase palette + fold_left Z.max (used_indices env rect mode) 0)) as [Hc|Hc].
  - apply Hedge in Hhi. lia.
  - auto.
Qed.

(** X19: whatever the palette register, the bounds [ReducePaletteBounds]
    returns for a non-empty rectangle of a paletted texture are ordered,
    lie within the palette of the mode and, counted from the palette's
    start, within the row of VRAM; no index the rectangle uses is below the
    lower bound, and only indices past the edge of VRAM are above the upper
    one. *)
Theorem ReducePaletteBounds_within_palette env rect mode palette :
  vram_halfwords env -> TextureModeHasPalette mode = true ->
  in_vram rect -> GSVector4i.rempty rect = false ->
  let '(pal_min, pal_max) := ReducePaletteBounds env rect mode palette in
  0 <= pal_min <= pal_max /\ pal_max < GetPaletteWidth mode /\
  GetXBase palette + pal_max < VRAM_WIDTH /\
  (forall i, In i (used_indices env rect mode) -> pal_min <= i) /\
  (forall i, In i (used_indices env rect mode) ->
             GetXBase palette + i < VRAM_WIDTH -> i <= pal_max).
Proof.
  intros Hvram Hmode Hin Hne.
  rewrite (ReducePaletteBounds_scan env rect mode palette Hvram Hmode Hin).
  destruct (used_indices_extremes env rect mode Hvram Hmode Hne) as (Hlo & Hhi & Hall).
  pose proof (used_indices_range env rect mode _ Hvram Hmode Hlo) as Rlo.
  pose proof (used_indices_range env rect mode _ Hvram Hmode Hhi) as Rhi.
  pose proof (Hall _ Hlo) as Hle.
  assert (0 <= GetXBase palette <= 1008) as Hx.
  { unfold GetXBase. change 63 with (Z.ones 6).
    pose proof (land_ones_range palette 6 ltac:(lia)) as H. change (2 ^ 6) with 64 in H. lia. }
  assert (VRAM_WIDTH = 1024) as HW by reflexivity.
  set (lo := fold_left Z.min _ _) in *. set (hi := fold_left Z.max _ _) in *.
  destruct (Z.leb_spec VRAM_WIDTH (GetXBase palette + hi)) as [Hc|Hc].
  - repeat split; try lia; intros i Hi; apply Hall in Hi; lia.
  - repeat split; try lia; intros i Hi; apply Hall in Hi; lia.
Qed.

Lemma ReducePaletteBounds_tightest_witness :
  let '(pal_min, pal_max) :=
    ReducePaletteBounds (Scenario.env 4660 1 false) (mkRect 3 2 5 4) Palette4Bit 0 in
  In pal_min (used_indices (Scenario.env 4660 1 false) (mkRect 3 2 5 4) Palette4Bit) /\
  In pal_max (used_indices (Scenario.env 4660 1 false) (mkRect 3 2 5 4) Palette4Bit) /\
  forall i, In i (used_indices (Scenario.env 4660 1 false) (mkRect 3 2 5 4) Palette4Bit) ->
            pal_min <= i <= pal_max.
Proof.
  apply (ReducePaletteBounds_tightest (Scenario.env 4660 1 false) (mkRect 3 2 5 4) Palette4Bit 0).
  - intros i. cbn. lia.
  - reflexivity.
  - unfold in_vram, VRAM_WIDTH, VRAM_HEIGHT. cbn. lia.
  - reflexivity.
  - intros i Hi. vm_compute in Hi. change (GetXBase 0) with 0. unfold VRAM_WIDTH. lia.
Defined.

Lemma ReducePaletteBounds_within_palette_witness :
  let '(pal_min, pal_max) :=
    ReducePaletteBounds (Scenario.env 65535 1 false) (mkRect 0 0 19 2) Palette8Bit 63 in
  0 <= pal_min <= pal_max /\ pal_max < GetPaletteWidth Palette8Bit /\
  GetXBase 63 + pal_max < VRAM_WIDTH /\
  (forall i, In i (used_indices (Scenario.env 65535 1 false) (mkRect 0 0 19 2) Palette8Bit) ->
             pal_min <= i) /\
  (forall i, In i (used_indices (Scenario.env 65535 1 false) (mkRect 0 0 19 2) Palette8Bit) ->
             GetXBase 63 + i < VRAM_WIDTH -> i <= pal_max).
Proof.
  apply (ReducePaletteBounds_within_palette (Scenario.env 65535 1 false) (mkRect 0 0 19 2)
           Palette8Bit 63).
  - intros i. cbn. lia.
  - reflexivity.
  - unfold in_vram, VRAM_WIDTH, VRAM_HEIGHT. cbn. lia.
  - reflexivity.
Defined.

(** ** Reachable states *)

(** *** What the write tracker leaves alone *)

Lemma tracked_update_page pn f s : tracked (update_page pn f s) = tracked s.
Proof. unfold tracked. now rewrite update_page_length. Qed.

Lemma tracked_update_write it f s : tracked (update_write it f s) = tracked s.
Proof. reflexivity. Qed.

Lemma link_write_tracked it pages s : tracked (link_write it pages s) = tracked s.
Proof.
  unfold link_write. apply (fold_left_preserves tracked). intros. apply tracked_update_page.
Qed.

Lemma unlink_write_tracked it pages s : tracked (unlink_write it pages s) = tracked s.
Proof.
  unfold unlink_write. apply (fold_left_preserves tracked). intros. apply tracked_update_page.
Qed.

Lemma SyncVRAMWritePaletteRecords_tracked env entry s :
  tracked (SyncVRAMWritePaletteRecords env entry s) = tracked s.
Proof.
  unfold SyncVRAMWritePaletteRecords.
  destruct (IsDumpingVRAMWriteTextures env s); [|reflexivity].
  destruct (write_heap s !! entry) as [w|]; [|reflexivity].
  apply (fold_left_preserves tracked). intros a pn.
  apply (fold_left_preserves tracked). intros b sp.
  destruct (source_heap b !! sp) as [src|]; [|reflexivity].
  now destruct (negb _).
Qed.

Lemma split_one_tracked w s splitr : tracked (split_one w s splitr) = tracked s.
Proof.
  unfold split_one. destruct (GSVector4i.rempty splitr); [reflexivity|].
  now rewrite link_write_tracked.
Qed.

Lemma SplitVRAMWrite_tracked env entry written_rect s :
  tracked (SplitVRAMWrite env entry written_rect s) = tracked s.
Proof.
  unfold SplitVRAMWrite.
  destruct (write_heap (SyncVRAMWritePaletteRecords env entry s) !! entry) as [w|].
  - cbv zeta. change (tracked (set_write_heap ?v ?x)) with (tracked x).
    rewrite unlink_write_tracked.
    rewrite (fold_left_preserves tracked) by (intros; apply split_one_tracked).
    change (tracked (set_write_heap ?v ?x)) with (tracked x).
    apply SyncVRAMWritePaletteRecords_tracked.
  - apply SyncVRAMWritePaletteRecords_tracked.
Qed.

Lemma RemoveVRAMWrite_tracked env entry s : tracked (RemoveVRAMWrite env entry s) = tracked s.
Proof.
  unfold RemoveVRAMWrite.
  destruct (write_heap (SyncVRAMWritePaletteRecords env entry s) !! entry) as [w|].
  - cbv zeta. change (tracked (set_write_heap ?v ?x)) with (tracked x).
    change (tracked (set_last_vram_write ?v ?x)) with (tracked x).
    rewrite unlink_write_tracked.
    destruct (_ && _); [destruct (find_other_write _ _)|];
      apply SyncVRAMWritePaletteRecords_tracked.
  - apply SyncVRAMWritePaletteRecords_tracked.
Qed.

Lemma TryMergeVRAMWrite_tracked env entry written_rect s s' b :
  TryMergeVRAMWrite env entry written_rect s = Done (s', b) -> tracked s' = tracked s.
Proof.
  unfold TryMergeVRAMWrite. intros H.
  destruct (s_last_vram_write s) as [last|]; [|discriminate].
  destruct (write_heap s !! last) as [lw|]; [|discriminate].
  destruct (write_heap s !! entry) as [w|]; [|discriminate].
  repeat match type of H with
         | (if ?c then _ else _) = _ => destruct c
         end; injection H as <- <-; try reflexivity.
  rewrite link_write_tracked. change (tracked (set_write_heap ?v ?x)) with (tracked x).
  apply unlink_write_tracked.
Qed.

(** ** Memory accounting of the hash cache *)

Lemma hc_alter_view f k l :
  (forall e, HashCacheEntry.texture (f e) = HashCacheEntry.texture e) ->
  map (fun x => (fst x, GetVRAMUsage (HashCacheEntry.texture (snd x)))) (hc_alter f k l) =
  map (fun x => (fst x, GetVRAMUsage (HashCacheEntry.texture (snd x)))) l.
Proof.
  intros Hf. induction l as [|[k' e] l IH]; [reflexivity|].
  cbn [hc_alter]. destruct (decide (k' = k)); cbn [map fst snd]; [now rewrite Hf|now rewrite IH].
Qed.

Lemma hash_cache_usage_view l :
  hash_cache_usage l =
  fold_right (fun x acc => snd x + acc) 0
             (map (fun x => (fst x, GetVRAMUsage (HashCacheEntry.texture (snd x)))) l).
Proof. induction l as [|x l IH]; [reflexivity|]. cbn. now rewrite <- IH. Qed.

Lemma accounting_consistent_view s s' :
  usage_view s' = usage_view s -> accounting_consistent s -> accounting_consistent s'.
Proof.
  unfold usage_view, accounting_consistent. intros [= Hl Hu] H.
  now rewrite Hu, H, !hash_cache_usage_view, Hl.
Qed.

Lemma hc_find_view k l l' :
  map (fun x => (fst x, GetVRAMUsage (HashCacheEntry.texture (snd x)))) l' =
  map (fun x => (fst x, GetVRAMUsage (HashCacheEntry.texture (snd x)))) l ->
  (fun e => GetVRAMUsage (HashCacheEntry.texture e)) <$> hc_find k l' =
  (fun e => GetVRAMUsage (HashCacheEntry.texture e)) <$> hc_find k l.
Proof.
  revert l'. induction l as [|[k1 e1] l IH]; intros [|[k2 e2] l'] H; try discriminate;
    [reflexivity|].
  cbn [map fst snd] in H. injection H as -> HU Hl. cbn [hc_find].
  destruct (decide (k1 = k)); [cbn; now rewrite HU|now apply IH].
Qed.

Lemma hash_cache_usage_erase k l :
  hash_cache_usage (hc_erase k l) =
  hash_cache_usage l -
  default 0 ((fun e => GetVRAMUsage (HashCacheEntry.texture e)) <$> hc_find k l).
Proof.
  induction l as [|[k1 e1] l IH]; [reflexivity|].
  cbn [hc_erase hc_find].
  change (hash_cache_usage ((k1, e1) :: l))
    with (GetVRAMUsage (HashCacheEntry.texture e1) + hash_cache_usage l).
  destruct (decide (k1 = k)).
  - change (default 0 _) with (GetVRAMUsage (HashCacheEntry.texture e1)). lia.
  - change (hash_cache_usage ((k1, e1) :: hc_erase k l))
      with (GetVRAMUsage (HashCacheEntry.texture e1) + hash_cache_usage (hc_erase k l)).
    rewrite IH. lia.
Qed.

Lemma u64_add_l a b : u64 (u64 a + b) = u64 (a + b).
Proof. unfold u64. now rewrite Z.add_mod_idemp_l by lia. Qed.

Lemma u64_sub_l a b : u64 (u64 a - b) = u64 (a - b).
Proof. unfold u64. now rewrite Zminus_mod_idemp_l. Qed.

(** *** Lists of the hash cache *)

Lemma hc_alter_keys f k l : map fst (hc_alter f k l) = map fst l.
Proof.
  induction l as [|[k' e] l IH]; [reflexivity|].
  cbn [hc_alter]. destruct (decide (k' = k)); cbn [map fst]; [reflexivity|now rewrite IH].
Qed.

Lemma hc_alter_elem f k0 l k e' :
  NoDup (map fst l) -> (k, e') ∈ hc_alter f k0 l ->
  exists e, (k, e) ∈ l /\ e' = if decide (k = k0) then f e else e.
Proof.
  induction l as [|[k1 e1] l IH]; intros Hnd Hin; [now apply elem_of_nil in Hin|].
  cbn [map fst] in Hnd. apply NoDup_cons in Hnd as [Hk1 Hnd].
  cbn [hc_alter] in Hin. destruct (decide (k1 = k0)) as [->|Hne].
  - apply elem_of_cons in Hin as [[= -> ->]|Hin].
    + exists e1. split; [apply elem_of_cons; now left|]. now rewrite decide_True.
    + exists e'. split; [apply elem_of_cons; now right|].
      rewrite decide_False; [reflexivity|]. intros ->. apply Hk1.
      apply list_elem_of_fmap. now exists (k0, e').
  - apply elem_of_cons in Hin as [[= -> ->]|Hin].
    + exists e1. split; [apply elem_of_cons; now left|]. now rewrite decide_False.
    + destruct (IH Hnd Hin) as (e & He & ->). exists e. split; [apply elem_of_cons; now right|].
      reflexivity.
Qed.

Lemma hc_erase_keys_NoDup it l : NoDup (map fst l) -> NoDup (map fst (hc_erase it l)).
Proof.
  induction l as [|[k1 e1] l IH]; intros Hnd; [exact Hnd|].
  cbn [map fst] in Hnd. apply NoDup_cons in Hnd as [Hk1 Hnd].
  cbn [hc_erase]. destruct (decide (k1 = it)); [exact Hnd|].
  cbn [map fst]. apply NoDup_cons. split; [|now apply IH].
  intros Hin. apply Hk1. apply list_elem_of_fmap in Hin as ([k2 e2] & -> & Hin).
  apply list_elem_of_fmap. exists (k2, e2). split; [reflexivity|].
  now apply (hc_erase_elem it).
Qed.

Lemma hc_find_None_keys k l : hc_find k l = None -> k ∉ map fst l.
Proof.
  induction l as [|[k1 e1] l IH]; cbn [hc_find map fst]; intros H.
  - apply not_elem_of_nil.
  - destruct (decide (k1 = k)); [discriminate|].
    apply not_elem_of_cons. split; [congruence|now apply IH].
Qed.

Lemma hc_find_Some_keys k e l : hc_find k l = Some e -> k ∈ map fst l.
Proof.
  intros H. apply hc_find_elem in H. apply list_elem_of_fmap. now exists (k, e).
Qed.

Lemma hc_elem_find k e l : NoDup (map fst l) -> (k, e) ∈ l -> hc_find k l = Some e.
Proof.
  induction l as [|[k1 e1] l IH]; intros Hnd Hin; [now apply elem_of_nil in Hin|].
  cbn [map fst] in Hnd. apply NoDup_cons in Hnd as [Hk1 Hnd].
  cbn [hc_find]. apply elem_of_cons in Hin as [[= -> ->]|Hin].
  - now rewrite decide_True.
  - rewrite decide_False; [now apply IH|]. intros ->. apply Hk1.
    apply list_elem_of_fmap. now exists (k, e).
Qed.

Lemma ListUnlink_elem x sp l : x ∈ ListUnlink sp l -> x ∈ l.
Proof.
  induction l as [|q l IH]; cbn [ListUnlink]; [trivial|].
  destruct (decide (q = sp)).
  - intros H. apply elem_of_cons. now right.
  - intros H. apply elem_of_cons in H as [->|H]; apply elem_of_cons; [now left|right; auto].
Qed.

Lemma ListUnlink_NoDup sp l : NoDup l -> NoDup (ListUnlink sp l) /\ sp ∉ ListUnlink sp l.
Proof.
  induction l as [|q l IH]; intros Hnd; cbn [ListUnlink].
  - split; [constructor|apply not_elem_of_nil].
  - apply NoDup_cons in Hnd as [Hq Hnd]. destruct (decide (q = sp)) as [->|Hne].
    + now split.
    + destruct (IH Hnd) as [H1 H2]. split.
      * apply NoDup_cons. split; [|exact H1]. intros H. apply Hq. now apply ListUnlink_elem in H.
      * apply not_elem_of_cons. split; [congruence|exact H2].
Qed.

(** *** Consistency is kept *)

Lemma state_consistent_tracked s s' :
  tracked s' = tracked s -> state_consistent s -> state_consistent s'.
Proof.
  unfold tracked. intros [= Hc Hu Hh Hl] (Hp & Hwf & Ha).
  unfold state_consistent, pages_allocated, cache_wf, accounting_consistent in *.
  now rewrite Hc, Hu, Hh, Hl.
Qed.

Lemma cache_wf_alter_sources (g : HashCacheEntry.t -> HashCacheEntry.t) k0 s heap' :
  cache_wf s ->
  (forall e, HashCacheEntry.sources (g e) = HashCacheEntry.sources e) ->
  (forall sp src, source_heap s !! sp = Some src ->
     exists src', heap' !! sp = Some src' /\
                  Source.from_hash_cache src' = Source.from_hash_cache src) ->
  cache_wf (set_source_heap heap' (set_hash_cache (hc_alter g k0 (s_hash_cache s)) s)).
Proof.
  intros [Hnd Hall] Hg Hheap. split; cbn [s_hash_cache set_source_heap set_hash_cache source_heap].
  - now rewrite hc_alter_keys.
  - intros k e' Hin. apply hc_alter_elem in Hin as (e & He & ->); [|exact Hnd].
    destruct (Hall k e He) as [Hs Hlive].
    assert (HashCacheEntry.sources (if decide (k = k0) then g e else e) =
            HashCacheEntry.sources e) as -> by (destruct (decide _); [apply Hg|reflexivity]).
    split; [exact Hs|]. intros sp Hsp. destruct (Hlive sp Hsp) as (src & Hsrc & Hfrom).
    destruct (Hheap sp src Hsrc) as (src' & Hsrc' & Hfrom'). exists src'. split; congruence.
Qed.

Lemma DestroySource_tracked_view env sp s :
  length (s_pages (DestroySource env sp s)) = length (s_pages s) /\
  usage_view (DestroySource env sp s) = usage_view s.
Proof.
  unfold DestroySource. destruct (source_heap s !! sp) as [src|]; [|now split].
  cbv zeta.
  set (s1 := if dump_textures env && _ then _ else s).
  assert (tracked s1 = tracked s) as H1.
  { subst s1. destruct (_ && _); [|reflexivity]. destruct (negb _); [|reflexivity].
    apply (fold_left_preserves tracked). intros a pn.
    now apply (fold_left_preserves tracked). }
  set (s2 := fold_left _ (Source.page_refs src) s1).
  assert (tracked s2 = tracked s1) as H2
    by (apply (fold_left_preserves tracked); intros; apply tracked_update_page).
  rewrite H1 in H2. unfold tracked in H2. injection H2 as Hc Hu Hh Hl.
  split; [exact Hl|].
  unfold usage_view. cbn [s_hash_cache s_hash_cache_memory_usage set_hash_cache set_source_heap].
  rewrite hc_alter_view by reflexivity. now rewrite Hc, Hu.
Qed.

Lemma DestroySource_cache env sp s :
  match source_heap s !! sp with
  | None => DestroySource env sp s = s
  | Some src =>
      s_hash_cache (DestroySource env sp s) =
      hc_alter (fun e => HashCacheEntry.set_ref_count (u32 (HashCacheEntry.ref_count e - 1))
                           (HashCacheEntry.set_sources
                              (ListUnlink sp (HashCacheEntry.sources e)) e))
               (Source.from_hash_cache src) (s_hash_cache s) /\
      source_heap (DestroySource env sp s) = delete sp (source_heap s)
  end.
Proof.
  unfold DestroySource. destruct (source_heap s !! sp) as [src|]; [|reflexivity].
  cbv zeta.
  set (s1 := if dump_textures env && _ then _ else s).
  assert (tracked s1 = tracked s) as H1.
  { subst s1. destruct (_ && _); [|reflexivity]. destruct (negb _); [|reflexivity].
    apply (fold_left_preserves tracked). intros a pn.
    now apply (fold_left_preserves tracked). }
  set (s2 := fold_left _ (Source.page_refs src) s1).
  assert (tracked s2 = tracked s1) as H2
    by (apply (fold_left_preserves tracked); intros; apply tracked_update_page).
  rewrite H1 in H2. unfold tracked in H2. injection H2 as Hc Hu Hh Hl.
  cbn [s_hash_cache source_heap set_hash_cache set_source_heap].
  now rewrite Hc, Hh.
Qed.

Lemma DestroySource_consistent env sp s :
  state_consistent s -> state_consistent (DestroySource env sp s).
Proof.
  intros (Hp & Hwf & Ha).
  destruct (DestroySource_tracked_view env sp s) as [Hl Hv].
  split; [unfold pages_allocated; now rewrite Hl|].
  split; [|now apply (accounting_consistent_view s)].
  pose proof (DestroySource_cache env sp s) as Hd.
  destruct (source_heap s !! sp) as [src|] eqn:Hsrc; [|now rewrite Hd].
  destruct Hd as [Hc Hh]. destruct Hwf as [Hnd Hall].
  split; rewrite Hc; [now rewrite hc_alter_keys|].
  intros k e' Hin. apply hc_alter_elem in Hin as (e & He & ->); [|exact Hnd].
  destruct (Hall k e He) as [Hs Hlive]. rewrite Hh.
  destruct (decide (k = Source.from_hash_cache src)) as [->|Hne].
  - cbn [HashCacheEntry.sources HashCacheEntry.set_ref_count HashCacheEntry.set_sources].
    destruct (ListUnlink_NoDup sp _ Hs) as [Hs' Hsp]. split; [exact Hs'|].
    intros q Hq. destruct (Hlive q (ListUnlink_elem _ _ _ Hq)) as (src' & Hq' & Hfrom).
    exists src'. split; [|exact Hfrom]. rewrite lookup_delete_ne; [exact Hq'|].
    intros ->. contradiction.
  - split; [exact Hs|]. intros q Hq. destruct (Hlive q Hq) as (src' & Hq' & Hfrom).
    exists src'. split; [|exact Hfrom]. rewrite lookup_delete_ne; [exact Hq'|].
    intros ->. rewrite Hsrc in Hq'. injection Hq' as <-. congruence.
Qed.

(** *** The counter follows the entries *)

Lemma RemoveFromHashCache_accounting env it s :
  accounting_consistent s -> accounting_consistent (RemoveFromHashCache env it s).
Proof.
  intros H. unfold RemoveFromHashCache.
  destruct (hc_find it (s_hash_cache s)) as [e|] eqn:E; [|assumption].
  cbv zeta. set (s1 := fold_left _ (HashCacheEntry.sources e) s).
  assert (usage_view s1 = usage_view s) as Hv
    by (apply (fold_left_preserves usage_view); intros; apply DestroySource_tracked_view).
  pose proof (accounting_consistent_view s s1 Hv H) as H1.
  unfold accounting_consistent in *. cbn [s_hash_cache s_hash_cache_memory_usage
    set_hash_cache set_hash_cache_memory_usage].
  rewrite hash_cache_usage_erase, H1, u64_sub_l.
  unfold usage_view in Hv. injection Hv as Hl _.
  rewrite (hc_find_view it _ _ Hl), E. reflexivity.
Qed.

Lemma LookupHashCache_accounting env key tex_hash pal_hash s :
  accounting_consistent s ->
  accounting_consistent (fst (LookupHashCache env key tex_hash pal_hash s)).
Proof.
  intros H. unfold LookupHashCache.
  destruct (hc_find _ _); [assumption|]. destruct (FetchTexture env) as [tex|]; [|assumption].
  unfold accounting_consistent in *.
  cbn [fst s_hash_cache s_hash_cache_memory_usage set_hash_cache set_hash_cache_memory_usage].
  rewrite H, u64_add_l. f_equal. unfold hash_cache_usage.
  cbn [fold_right snd HashCacheEntry.texture]. lia.
Qed.

Lemma ReturnSource_accounting env source uv_rect flags s s' p :
  ReturnSource env source uv_rect flags s = Done (s', p) ->
  accounting_consistent s -> accounting_consistent s'.
Proof.
  unfold ReturnSource. intros H Hs. destruct source as [sp|]; [|discriminate].
  destruct (source_heap s !! sp) as [src|]; [|discriminate].
  injection H as <- _. apply (accounting_consistent_view s); [|assumption].
  cbv zeta. destruct (dump_textures env);
    unfold usage_view; cbn [s_hash_cache s_hash_cache_memory_usage set_hash_cache set_source_heap];
    now rewrite hc_alter_view by reflexivity.
Qed.

Lemma InvalidatePageSources_consistent env pn rc s :
  state_consistent s -> state_consistent (InvalidatePageSources env pn rc s).
Proof.
  unfold InvalidatePageSources. generalize (PageEntry.sources (page_at s pn)). intros l.
  revert s. induction l as [|sp l IH]; intros s H; [exact H|].
  cbn [fold_left]. apply IH. destruct (source_heap s !! sp) as [src|]; [|exact H].
  destruct (_ && _); [exact H|now apply DestroySource_consistent].
Qed.

Lemma InvalidatePageSources_all_consistent env pn s :
  state_consistent s -> state_consistent (InvalidatePageSources_all env pn s).
Proof.
  unfold InvalidatePageSources_all. generalize (PageEntry.sources (page_at s pn)). intros l.
  revert s. induction l as [|sp l IH]; intros s H; [exact H|].
  cbn [fold_left]. apply IH. now apply DestroySource_consistent.
Qed.

Lemma fold_left_consistent {B : Type} (f : State -> B -> State) (l : list B) s :
  (forall a b, state_consistent a -> state_consistent (f a b)) ->
  state_consistent s -> state_consistent (fold_left f l s).
Proof.
  intros Hf. revert s. induction l as [|b l IH]; intros s H; [exact H|].
  cbn [fold_left]. apply IH. now apply Hf.
Qed.

Lemma AddWrittenRectangle_consistent env rect update_vram_writes s :
  state_consistent s -> state_consistent (AddWrittenRectangle env rect update_vram_writes s).
Proof.
  rewrite AddWrittenRectangle_rounds. apply fold_left_consistent. intros a pn Ha.
  unfold AddWrittenRectangle_page. cbv zeta. apply fold_left_consistent.
  - intros b it Hb. destruct (write_heap b !! it) as [w|]; [|exact Hb].
    cbv zeta. destruct (negb _); [|exact Hb].
    destruct (_ && _); [exact (state_consistent_tracked b _ (tracked_update_write _ _ _) Hb)|].
    destruct (_ && _).
    + exact (state_consistent_tracked b _ (SplitVRAMWrite_tracked _ _ _ _) Hb).
    + exact (state_consistent_tracked b _ (RemoveVRAMWrite_tracked _ _ _) Hb).
  - apply (state_consistent_tracked (InvalidatePageSources env pn rect a));
      [apply tracked_update_page|]. now apply InvalidatePageSources_consistent.
Qed.

Lemma AddDrawnRectangle_consistent env rect clip_rect s :
  state_consistent s -> state_consistent (AddDrawnRectangle env rect clip_rect s).
Proof.
  rewrite AddDrawnRectangle_rounds. apply fold_left_consistent. intros a pn Ha.
  unfold AddDrawnRectangle_page. cbv zeta.
  set (a' := fold_left _ (PageEntry.writes (page_at a pn)) a).
  assert (state_consistent a') as Ha'.
  { subst a'. apply fold_left_consistent; [|exact Ha]. intros b it Hb.
    destruct (write_heap b !! it) as [w|]; [|exact Hb].
    destruct (GSVector4i.rintersects _ _); [|exact Hb].
    exact (state_consistent_tracked b _ (RemoveVRAMWrite_tracked _ _ _) Hb). }
  clearbody a'.
  assert (forall pn' f rc x, state_consistent x ->
            state_consistent (InvalidatePageSources env pn' rc (update_page pn f x))) as Hstep.
  { intros pn' f rc x Hx. apply InvalidatePageSources_consistent.
    exact (state_consistent_tracked x _ (tracked_update_page _ _ _) Hx). }
  destruct (0 <? _)%nat.
  - destruct (choose_draw_rect _ _ _) as [candidate|]; [|exact Ha'].
    destruct (negb _);
      (eapply state_consistent_tracked; [apply tracked_update_page|]); now apply Hstep.
  - now apply Hstep.
Qed.

Lemma CopyVRAM_consistent env convert_copies_to_writes dst_bounds s :
  state_consistent s -> state_consistent (CopyVRAM env convert_copies_to_writes dst_bounds s).
Proof.
  intros H. unfold CopyVRAM. apply AddWrittenRectangle_consistent.
  destruct convert_copies_to_writes; [|exact H].
  apply fold_left_consistent; [|exact H]. intros a pn Ha.
  apply fold_left_consistent; [|exact Ha]. intros b it Hb.
  destruct (write_heap b !! it) as [w|]; [|exact Hb].
  destruct (GSVector4i.rintersects _ _); [|exact Hb].
  exact (state_consistent_tracked b _ (SyncVRAMWritePaletteRecords_tracked _ _ _) Hb).
Qed.

Lemma WriteVRAM_consistent env bounds s s' :
  WriteVRAM env bounds s = Done s' -> state_consistent s -> state_consistent s'.
Proof.
  unfold WriteVRAM. intros H Hs. destruct (negb _); [now injection H as <-|].
  assert (forall x, state_consistent x ->
            state_consistent
              (set_last_vram_write (Some (fresh (dom (write_heap x))))
                 (link_write (fresh (dom (write_heap x))) (LoopRectPages bounds)
                    (set_write_heap
                       (<[fresh (dom (write_heap x)) :=
                            VRAMWrite.mk bounds bounds (HashRect env bounds) [] 0
                                         (LoopRectPages bounds)]> (write_heap x)) x))))
    as Hfresh.
  { intros x Hx. apply (state_consistent_tracked x); [|exact Hx].
    change (tracked (set_last_vram_write ?v ?y)) with (tracked y).
    now rewrite link_write_tracked. }
  destruct (s_last_vram_write s) as [last|]; [|injection H as <-; now apply Hfresh].
  destruct (TryMergeVRAMWrite env last bounds s) as [[s1 [|]]| |] eqn:E; try discriminate;
    injection H as <-; apply TryMergeVRAMWrite_tracked in E.
  - exact (state_consistent_tracked s _ E Hs).
  - apply Hfresh. exact (state_consistent_tracked s _ E Hs).
Qed.

Lemma RemoveFromHashCache_consistent env it s :
  state_consistent s -> state_consistent (RemoveFromHashCache env it s).
Proof.
  intros H. pose proof (RemoveFromHashCache_accounting env it s (proj2 (proj2 H))) as Hacc.
  split; [|split; [|exact Hacc]]; clear Hacc.
  - unfold RemoveFromHashCache. destruct (hc_find it (s_hash_cache s)) as [e|]; [|apply H].
    cbv zeta. unfold pages_allocated.
    cbn [s_pages set_hash_cache set_hash_cache_memory_usage].
    apply (fold_left_consistent (fun s sp => DestroySource env sp s)
             (HashCacheEntry.sources e) s (fun a b => DestroySource_consistent env b a) H).
  - unfold RemoveFromHashCache. destruct (hc_find it (s_hash_cache s)) as [e|]; [|apply H].
    cbv zeta.
    pose proof (fold_left_consistent (fun s sp => DestroySource env sp s)
                  (HashCacheEntry.sources e) s (fun a b => DestroySource_consistent env b a) H)
      as (_ & [Hnd Hall] & _).
    split; cbn [s_hash_cache source_heap set_hash_cache set_hash_cache_memory_usage].
    + now apply hc_erase_keys_NoDup.
    + intros k e' Hin. apply Hall. now apply (hc_erase_elem it).
Qed.

Lemma LookupHashCache_consistent env key tex_hash pal_hash s :
  state_consistent s -> state_consistent (fst (LookupHashCache env key tex_hash pal_hash s)).
Proof.
  intros H. pose proof (LookupHashCache_accounting env key tex_hash pal_hash s (proj2 (proj2 H)))
    as Hacc.
  split; [|split; [|exact Hacc]]; clear Hacc; unfold LookupHashCache.
  - destruct (hc_find _ _); [apply H|]. destruct (FetchTexture env); apply H.
  - destruct (hc_find _ _) eqn:Hf; [apply H|]. destruct (FetchTexture env) as [tex|]; [|apply H].
    destruct H as (_ & [Hnd Hall] & _).
    split; cbn [fst s_hash_cache source_heap set_hash_cache set_hash_cache_memory_usage map].
    + apply NoDup_cons. split; [now apply hc_find_None_keys|exact Hnd].
    + intros k e Hin. apply elem_of_cons in Hin as [[= -> ->]|Hin]; [|now apply Hall].
      split; [constructor|]. intros sp Hsp. now apply elem_of_nil in Hsp.
Qed.

Lemma add_page_ref_fold_tracked front src l st :
  tracked (fst (fold_left (add_page_ref front src) l st)) = tracked (fst st).
Proof.
  revert st. induction l as [|pn l IH]; intros st; [reflexivity|].
  cbn [fold_left]. rewrite IH. destruct st as [x refs]. unfold add_page_ref.
  destruct (bool_decide _); [reflexivity|apply tracked_update_page].
Qed.

Lemma created_source_tracked env key sa hcentry :
  let src := fresh (dom (source_heap sa)) in
  let s' := fst (created_source env key sa hcentry) in
  snd (created_source env key sa hcentry) = src /\
  s_hash_cache s' =
    hc_alter (fun e => HashCacheEntry.set_sources (ListAppend src (HashCacheEntry.sources e))
                         (HashCacheEntry.set_ref_count (u32 (HashCacheEntry.ref_count e + 1)) e))
             hcentry (s_hash_cache sa) /\
  s_hash_cache_memory_usage s' = s_hash_cache_memory_usage sa /\
  length (s_pages s') = length (s_pages sa) /\
  exists obj, Source.from_hash_cache obj = hcentry /\
              source_heap s' = <[src := obj]> (source_heap sa).
Proof.
  unfold created_source. cbv zeta. cbn [fst snd].
  set (src := fresh (dom (source_heap sa))).
  set (sb := set_hash_cache _ sa).
  set (st1 := fold_left (add_page_ref true src) _ (sb, [])).
  set (st2 := if TextureModeHasPalette (SourceKey.mode key) then _ else st1).
  assert (tracked (fst st1) = tracked sb) as H1
    by (subst st1; apply (add_page_ref_fold_tracked true src _ (sb, []))).
  assert (tracked (fst st2) = tracked sb) as H2.
  { subst st2. destruct (TextureModeHasPalette (SourceKey.mode key)); [|exact H1].
    now rewrite add_page_ref_fold_tracked. }
  unfold tracked in H2. injection H2 as Hc Hu Hh Hl.
  cbn [s_hash_cache s_hash_cache_memory_usage s_pages source_heap set_source_heap].
  split; [reflexivity|]. split; [exact Hc|]. split; [exact Hu|]. split; [exact Hl|].
  eexists. split; [|rewrite Hh; reflexivity]. reflexivity.
Qed.

Lemma CreateSource_consistent env key s :
  state_consistent s -> state_consistent (fst (CreateSource env key s)).
Proof.
  intros H. rewrite CreateSource_unfold.
  pose proof (LookupHashCache_consistent env key
                (HashPage env (SourceKey.page key) (SourceKey.mode key))
                (if TextureModeHasPalette (SourceKey.mode key)
                 then HashPalette env (SourceKey.palette key) (SourceKey.mode key) else 0)
                s H) as H1.
  destruct (LookupHashCache _ _ _ _ s) as [sa [hcentry|]]; [|exact H1].
  cbn [fst] in H1 |- *.
  pose proof (created_source_tracked env key sa hcentry) as Hc. cbv zeta in Hc.
  destruct Hc as (_ & Hc & Hu & Hl & obj & Hfrom & Hh).
  destruct H1 as (Hp & [Hnd Hall] & Ha).
  set (src := fresh (dom (source_heap sa))) in *.
  assert (source_heap sa !! src = None) as Hfresh by (apply not_elem_of_dom, is_fresh).
  split; [unfold pages_allocated; now rewrite Hl|]. split.
  - split; rewrite Hc; [now rewrite hc_alter_keys|].
    intros k e' Hin. apply hc_alter_elem in Hin as (e & He & ->); [|exact Hnd].
    destruct (Hall k e He) as [Hs Hlive]. rewrite Hh.
    assert (forall q, q ∈ HashCacheEntry.sources e ->
              exists src', <[src := obj]> (source_heap sa) !! q = Some src' /\
                           Source.from_hash_cache src' = k) as Hold.
    { intros q Hq. destruct (Hlive q Hq) as (src' & Hq' & Hf). exists src'.
      split; [|exact Hf]. rewrite lookup_insert_ne; [exact Hq'|]. intros <-. congruence. }
    destruct (decide (k = hcentry)) as [->|Hne]; [|now split].
    cbn [HashCacheEntry.sources HashCacheEntry.set_ref_count HashCacheEntry.set_sources].
    unfold ListAppend. split.
    + apply NoDup_app. split; [exact Hs|]. split; [|apply NoDup_singleton].
      intros q Hq Hq'. apply list_elem_of_singleton in Hq' as ->.
      destruct (Hlive src Hq) as (src' & Hsrc' & _). congruence.
    + intros q Hq. apply elem_of_app in Hq as [Hq|Hq]; [now apply Hold|].
      apply list_elem_of_singleton in Hq as ->. exists obj.
      split; [apply lookup_insert_eq|exact Hfrom].
  - apply (accounting_consistent_view sa); [|exact Ha].
    unfold usage_view. rewrite Hc, Hu. now rewrite hc_alter_view by reflexivity.
Qed.

Lemma ReturnSource_consistent env source uv_rect flags s s' p :
  ReturnSource env source uv_rect flags s = Done (s', p) ->
  state_consistent s -> state_consistent s'.
Proof.
  intros Hr H. pose proof (ReturnSource_accounting env source uv_rect flags s s' p Hr
                             (proj2 (proj2 H))) as Hacc.
  unfold ReturnSource in Hr. destruct source as [sp|]; [|discriminate].
  destruct (source_heap s !! sp) as [src|] eqn:Hsrc; [|discriminate].
  injection Hr as <- _. cbv zeta. destruct H as (Hp & Hwf & _).
  split; [|split; [|exact Hacc]].
  - unfold pages_allocated. now destruct (dump_textures env).
  - destruct (dump_textures env).
    + apply cache_wf_alter_sources; [exact Hwf|reflexivity|].
      intros q src' Hq. destruct (decide (sp = q)) as [<-|Hne].
      * rewrite lookup_insert_eq. eexists. split; [reflexivity|]. cbn. congruence.
      * rewrite lookup_insert_ne by exact Hne. eauto.
    + pose proof (cache_wf_alter_sources
                    (HashCacheEntry.set_last_used_frame (GetFrameNumber env))
                    (Source.from_hash_cache src) s (source_heap s) Hwf
                    (fun e => eq_refl)) as Hw.
      apply Hw. intros q src' Hq. eauto.
Qed.

Lemma LookupSource_consistent env key rect flags s s' p :
  LookupSource env key rect flags s = Done (s', p) ->
  state_consistent s -> state_consistent s'.
Proof.
  unfold LookupSource. intros H Hs.
  destruct (find_source s key _) as [n|].
  - apply ReturnSource_consistent in H; [exact H|].
    exact (state_consistent_tracked s _ (tracked_update_page _ _ _) Hs).
  - pose proof (CreateSource_consistent env key s Hs) as Hc.
    destruct (CreateSource env key s) as [s1 created]. cbn [fst] in Hc.
    now apply ReturnSource_consistent in H.
Qed.

Lemma purge_loop_consistent env purge_list s :
  state_consistent s -> state_consistent (purge_loop env purge_list s).
Proof.
  revert s. induction purge_list as [|[it f] rest IH]; intros s H; cbn [purge_loop].
  - now destruct (over_budget s).
  - destruct (over_budget s); [|assumption].
    apply IH. now apply RemoveFromHashCache_consistent.
Qed.

Lemma compact_step_consistent env m st it :
  state_consistent (fst (fst st)) -> state_consistent (fst (fst (compact_step env m st it))).
Proof.
  destruct st as [[s1 b] pl]. cbn [fst]. intros H1. unfold compact_step.
  destruct (hc_find it (s_hash_cache s1)) as [e|]; [|assumption].
  destruct (_ && _); [now apply RemoveFromHashCache_consistent|].
  destruct b; [|assumption]. now destruct (over_budget s1).
Qed.

Lemma compact_loop_consistent env m l st :
  state_consistent (fst (fst st)) ->
  state_consistent (fst (fst (fold_left (compact_step env m) l st))).
Proof.
  revert st. induction l as [|it l IH]; intros st H; [assumption|].
  cbn [fold_left]. apply IH. now apply compact_step_consistent.
Qed.

Lemma Compact_consistent env s : state_consistent s -> state_consistent (Compact env s).
Proof.
  intros H. unfold Compact. cbv zeta.
  pose proof (compact_loop_consistent env (min_frame_number env) (map fst (s_hash_cache s))
                (s, over_budget s, []) H) as Hfold.
  unfold min_frame_number in Hfold.
  destruct (fold_left _ _ _) as [[s1 b] pl]. cbn [fst] in Hfold.
  destruct b; [now apply purge_loop_consistent|assumption].
Qed.

Lemma ClearHashCache_consistent env s :
  state_consistent s -> state_consistent (ClearHashCache env s).
Proof.
  unfold ClearHashCache. apply fold_left_consistent. intros a it.
  apply RemoveFromHashCache_consistent.
Qed.

Lemma Invalidate_consistent env s : state_consistent s -> state_consistent (Invalidate env s).
Proof.
  intros H. unfold Invalidate. cbv zeta. apply ClearHashCache_consistent.
  apply fold_left_consistent; [|exact H]. intros a i Ha. cbv zeta.
  apply fold_left_consistent.
  - intros b it Hb. exact (state_consistent_tracked b _ (RemoveVRAMWrite_tracked _ _ _) Hb).
  - eapply state_consistent_tracked; [apply tracked_update_page|].
    now apply InvalidatePageSources_all_consistent.
Qed.

Lemma initial_state_consistent track cfg : state_consistent (initial_state track cfg).
Proof.
  split; [reflexivity|]. split; [|reflexivity].
  split; [constructor|]. intros k e Hin. now apply elem_of_nil in Hin.
Qed.

(** Every reachable state has its page table, a well-formed hash cache and
    a counter in step with the entries. *)
Lemma reachable_consistent s : reachable s -> state_consistent s.
Proof.
  induction 1 as [| env key rect flags s s' p _ IH Hl | | | env bounds s s' _ IH Hw | | |].
  - apply initial_state_consistent.
  - exact (LookupSource_consistent env key rect flags s s' p Hl IH).
  - now apply Compact_consistent.
  - now apply Invalidate_consistent.
  - exact (WriteVRAM_consistent env bounds s s' Hw IH).
  - now apply CopyVRAM_consistent.
  - now apply AddWrittenRectangle_consistent.
  - now apply AddDrawnRectangle_consistent.
Qed.

(** ** Compaction of reachable states *)

Lemma hc_erase_alter f it l : hc_erase it (hc_alter f it l) = hc_erase it l.
Proof.
  induction l as [|[k e] l IH]; [reflexivity|].
  cbn [hc_alter hc_erase]. destruct (decide (k = it)) as [->|Hne]; cbn [hc_erase].
  - now rewrite decide_True.
  - rewrite decide_False by exact Hne. now rewrite IH.
Qed.

(** Destroying sources that came from the entry [it] changes that entry
    only. *)
Lemma DestroySource_fold_erase env it l s :
  (forall sp src, sp ∈ l -> source_heap s !! sp = Some src -> Source.from_hash_cache src = it) ->
  let s' := fold_left (fun s sp => DestroySource env sp s) l s in
  hc_erase it (s_hash_cache s') = hc_erase it (s_hash_cache s) /\
  forall q src, source_heap s' !! q = Some src -> source_heap s !! q = Some src.
Proof.
  cbv zeta. revert s. induction l as [|sp l IH]; intros s H; [now split|].
  cbn [fold_left]. pose proof (DestroySource_cache env sp s) as Hd.
  destruct (source_heap s !! sp) as [src|] eqn:Hsrc.
  - destruct Hd as [Hc Hh].
    assert (forall q src', source_heap (DestroySource env sp s) !! q = Some src' ->
                           source_heap s !! q = Some src') as Hsub.
    { intros q src' Hq. rewrite Hh in Hq. apply lookup_delete_Some in Hq. tauto. }
    destruct (IH (DestroySource env sp s)) as [E Hsub'].
    + intros q src' Hq Hq'. apply (H q src'); [apply elem_of_cons; now right|now apply Hsub].
    + split; [|intros q src' Hq; now apply Hsub, Hsub'].
      rewrite E, Hc. rewrite (H sp src ltac:(apply elem_of_cons; now left) Hsrc). apply hc_erase_alter.
  - rewrite Hd. apply IH. intros q src' Hq. apply H. apply elem_of_cons. now right.
Qed.

Lemma RemoveFromHashCache_cache env it s :
  state_consistent s ->
  s_hash_cache (RemoveFromHashCache env it s) = hc_erase it (s_hash_cache s).
Proof.
  intros (_ & [Hnd Hall] & _). unfold RemoveFromHashCache.
  destruct (hc_find it (s_hash_cache s)) as [e|] eqn:Hf.
  - cbv zeta. cbn [s_hash_cache set_hash_cache set_hash_cache_memory_usage].
    apply DestroySource_fold_erase. intros sp src Hsp Hsrc.
    destruct (Hall it e (hc_find_elem _ _ _ Hf)) as [_ Hlive].
    destruct (Hlive sp Hsp) as (src' & Hsrc' & Hfrom). congruence.
  - clear Hnd Hall. induction (s_hash_cache s) as [|[k e] l IH]; [reflexivity|].
    cbn [hc_find hc_erase] in *. destruct (decide (k = it)); [discriminate|].
    now rewrite <- IH.
Qed.

Lemma hc_find_app_r k done todo :
  k ∉ map fst done -> hc_find k (done ++ todo) = hc_find k todo.
Proof.
  induction done as [|[k1 e1] done IH]; intros Hk; [reflexivity|].
  cbn [map fst] in Hk. apply not_elem_of_cons in Hk as [Hne Hk].
  cbn [app hc_find]. rewrite decide_False by congruence. now apply IH.
Qed.

Lemma hc_erase_app_r k done todo :
  k ∉ map fst done -> hc_erase k (done ++ todo) = done ++ hc_erase k todo.
Proof.
  induction done as [|[k1 e1] done IH]; intros Hk; [reflexivity|].
  cbn [map fst] in Hk. apply not_elem_of_cons in Hk as [Hne Hk].
  cbn [app hc_erase]. rewrite decide_False by congruence. now rewrite IH.
Qed.

(** The first loop of [Compact], entry by entry. *)
Lemma age_loop_filter env todo : forall done s b pl,
  state_consistent s -> s_hash_cache s = done ++ todo ->
  s_hash_cache (fst (fst (fold_left (compact_step env (min_frame_number env)) (map fst todo)
                                    (s, b, pl)))) =
  done ++ List.filter (fun x => negb (aged_out env (snd x))) todo.
Proof.
  induction todo as [|[k e] todo IH]; intros done s b pl Hs Hc; [exact Hc|].
  cbn [map fst fold_left List.filter snd].
  assert (k ∉ map fst done) as Hk.
  { destruct Hs as (_ & [Hnd _] & _). rewrite Hc, map_app in Hnd.
    apply NoDup_app in Hnd as (_ & Hdis & _). intros Hin. apply (Hdis k Hin).
    cbn [map fst]. apply elem_of_cons. now left. }
  assert (hc_find k (s_hash_cache s) = Some e) as Hf.
  { rewrite Hc, hc_find_app_r by exact Hk. cbn [hc_find]. now rewrite decide_True. }
  unfold compact_step at 2. rewrite Hf. fold (aged_out env e).
  destruct (aged_out env e); cbn [negb].
  - apply IH; [now apply RemoveFromHashCache_consistent|].
    rewrite RemoveFromHashCache_cache by exact Hs.
    rewrite Hc, hc_erase_app_r by exact Hk. cbn [hc_erase]. now rewrite decide_True.
  - assert (forall st, fst (fst st) = s ->
              s_hash_cache (fst (fst (fold_left (compact_step env (min_frame_number env))
                                                (map fst todo) st))) =
              done ++ (k, e) :: List.filter (fun x => negb (aged_out env (snd x))) todo) as Hst.
    { intros [[s1 b1] pl1] E. cbn [fst] in E. subst s1.
      rewrite (IH (done ++ [(k, e)]) s b1 pl1 Hs); [now rewrite <- app_assoc|].
      now rewrite Hc, <- app_assoc. }
    destruct b; [destruct (over_budget s)|]; now apply Hst.
Qed.

Lemma compact_loop_no_purge env m l s pl :
  snd (fst (fold_left (compact_step env m) l (s, false, pl))) = false.
Proof.
  revert s pl. induction l as [|it l IH]; intros s pl; [reflexivity|].
  cbn [fold_left]. unfold compact_step at 2.
  destruct (hc_find it (s_hash_cache s)) as [e|]; [|apply IH].
  destruct (_ && _); apply IH.
Qed.

Lemma hc_find_filter (keep : HashCacheKey * HashCacheEntry.t -> bool) k e l :
  hc_find k l = Some e -> keep (k, e) = true -> hc_find k (List.filter keep l) = Some e.
Proof.
  induction l as [|[k1 e1] l IH]; [discriminate|].
  cbn [hc_find List.filter]. destruct (decide (k1 = k)) as [->|Hne].
  - intros [= ->] ->. cbn [hc_find]. now rewrite decide_True.
  - intros Hf Hk. destruct (keep (k1, e1)); [|now apply IH].
    cbn [hc_find]. rewrite decide_False by exact Hne. now apply IH.
Qed.

(** C1 (amended): in every reachable state the first loop of [Compact]
    evicts exactly the entries that are not referenced and were last used
    before the age window, and leaves every other entry as it was, in
    place; while the cache is within its limits as [Compact] starts, that
    loop is all [Compact] does, so every entry with a non-zero reference
    count is still there afterwards, unchanged. *)
Theorem Compact_evicts_unreferenced_by_age env s :
  reachable s ->
  s_hash_cache (age_pass env s) =
    List.filter (fun x => negb (aged_out env (snd x))) (s_hash_cache s) /\
  (over_budget s = false ->
   Compact env s = age_pass env s /\
   forall k e, hc_find k (s_hash_cache s) = Some e ->
               HashCacheEntry.ref_count e <> 0 ->
               hc_find k (s_hash_cache (Compact env s)) = Some e).
Proof.
  intros Hr. apply reachable_consistent in Hr.
  assert (s_hash_cache (age_pass env s) =
          List.filter (fun x => negb (aged_out env (snd x))) (s_hash_cache s)) as Hage
    by (unfold age_pass; now apply (age_loop_filter env (s_hash_cache s) [] s)).
  split; [exact Hage|]. intros Hb.
  assert (Compact env s = age_pass env s) as Hc.
  { unfold Compact, age_pass. cbv zeta. fold (min_frame_number env). rewrite Hb.
    pose proof (compact_loop_no_purge env (min_frame_number env) (map fst (s_hash_cache s)) s [])
      as Hm.
    destruct (fold_left _ _ _) as [[s1 b] pl]. cbn [fst snd] in Hm |- *. now rewrite Hm. }
  split; [exact Hc|]. intros k e Hf Hrc. rewrite Hc, Hage.
  apply hc_find_filter; [exact Hf|]. cbn [snd]. unfold aged_out.
  now rewrite (proj2 (Z.eqb_neq _ _) Hrc).
Qed.

(** ** Looking a source up again after compactions *)

Lemma find_unlink_other (P : ptr -> bool) sp p l :
  List.find P l = Some p -> sp <> p -> List.find P (ListUnlink sp l) = Some p.
Proof.
  intros Hf Hne. induction l as [|q l IH]; [discriminate|].
  cbn [List.find ListUnlink] in *. destruct (decide (q = sp)) as [->|Hq].
  - destruct (P sp); [congruence|exact Hf].
  - cbn [List.find]. destruct (P q); [exact Hf|now apply IH].
Qed.

Lemma find_without (P P' : ptr -> bool) sp p l :
  List.find P l = Some p -> sp <> p ->
  (forall n, n <> sp -> P' n = P n) -> P' sp = false ->
  List.find P' l = Some p.
Proof.
  intros Hf Hne Hsame Hsp. induction l as [|q l IH]; [discriminate|].
  cbn [List.find] in *. destruct (decide (q = sp)) as [->|Hq].
  - rewrite Hsp. destruct (P sp); [congruence|now apply IH].
  - rewrite (Hsame q Hq). destruct (P q); [exact Hf|now apply IH].
Qed.

Lemma unlink_pages_find (P : ptr -> bool) sp p refs s pk :
  List.find P (PageEntry.sources (page_at s pk)) = Some p -> sp <> p ->
  List.find P (PageEntry.sources
                 (page_at (fold_left
                             (fun s pn => update_page pn
                                (fun pg => PageEntry.set_sources
                                             (ListUnlink sp (PageEntry.sources pg)) pg) s)
                             refs s) pk)) = Some p.
Proof.
  intros Hf Hne. revert s Hf. induction refs as [|pn refs IH]; intros s Hf; [exact Hf|].
  cbn [fold_left]. apply IH. rewrite page_at_update_page.
  destruct (decide _) as [[-> _]|_]; [|exact Hf].
  cbn [PageEntry.sources PageEntry.set_sources]. now apply find_unlink_other.
Qed.

Section KeepsSource.

Variable K : SourceKey.
Variable p : ptr.

(** Destroying another source leaves the lookup of [K] where it was. *)
Lemma DestroySource_finds env sp s :
  sp <> p -> finds K p s ->
  finds K p (DestroySource env sp s) /\
  source_heap (DestroySource env sp s) !! p = source_heap s !! p.
Proof.
  intros Hne [Hpages Hf].
  pose proof (DestroySource_tracked_view env sp s) as [Hl _].
  pose proof (DestroySource_cache env sp s) as Hd.
  destruct (source_heap s !! sp) as [src|] eqn:Hsrc; [|rewrite Hd; now repeat split].
  destruct Hd as [_ Hh]. split; [|rewrite Hh; now apply lookup_delete_ne].
  split; [unfold pages_allocated; now rewrite Hl|].
  rewrite find_source_has_key in *.
  apply (find_without (has_key K s) _ sp); [|exact Hne| |].
  - unfold DestroySource. rewrite Hsrc. cbv zeta.
    change (page_at (set_source_heap ?h (set_hash_cache ?c ?x)) ?k) with (page_at x k).
    apply unlink_pages_find; [|exact Hne].
    match goal with
    | |- context [page_at ?x _] =>
        assert (s_pages x = s_pages s) as Hp
    end.
    { destruct (_ && _); [|reflexivity]. destruct (negb _); [|reflexivity].
      apply (fold_left_preserves s_pages). intros a pn.
      now apply (fold_left_preserves s_pages). }
    now rewrite (page_at_pages _ _ _ Hp).
  - intros n Hn. unfold has_key. rewrite Hh. now rewrite lookup_delete_ne by congruence.
  - unfold has_key. rewrite Hh. now rewrite lookup_delete_eq.
Qed.

Lemma DestroySource_fold_finds env l s :
  p ∉ l -> finds K p s ->
  finds K p (fold_left (fun s sp => DestroySource env sp s) l s) /\
  source_heap (fold_left (fun s sp => DestroySource env sp s) l s) !! p = source_heap s !! p.
Proof.
  revert s. induction l as [|sp l IH]; intros s Hp Hf; [now split|].
  apply not_elem_of_cons in Hp as [Hne Hp]. cbn [fold_left].
  destruct (DestroySource_finds env sp s (not_eq_sym Hne) Hf) as [Hf1 Hh1].
  destruct (IH (DestroySource env sp s) Hp Hf1) as [Hf2 Hh2].
  split; [exact Hf2|congruence].
Qed.

(** Evicting an entry other than the one the source came from leaves the
    source alone. *)
Lemma RemoveFromHashCache_finds env it s src :
  state_consistent s -> finds K p s ->
  source_heap s !! p = Some src -> Source.from_hash_cache src <> it ->
  finds K p (RemoveFromHashCache env it s) /\
  source_heap (RemoveFromHashCache env it s) !! p = Some src.
Proof.
  intros (_ & [_ Hall] & _) Hf Hsrc Hne. unfold RemoveFromHashCache.
  destruct (hc_find it (s_hash_cache s)) as [e|] eqn:He; [|now split].
  cbv zeta.
  assert (p ∉ HashCacheEntry.sources e) as Hp.
  { intros Hin. destruct (Hall it e (hc_find_elem _ _ _ He)) as [_ Hlive].
    destruct (Hlive p Hin) as (src' & Hsrc' & Hfrom). congruence. }
  destruct (DestroySource_fold_finds env _ s Hp Hf) as [[Hpages Hf1] Hh1].
  split; [|cbn [source_heap set_hash_cache set_hash_cache_memory_usage]; congruence].
  split; [exact Hpages|exact Hf1].
Qed.

Lemma hc_erase_keys it k l :
  NoDup (map fst l) -> k ∈ map fst (hc_erase it l) ->
  k ∈ map fst l /\ (it ∈ map fst l -> k <> it).
Proof.
  induction l as [|[k1 e1] l IH]; intros Hnd Hin; [now apply elem_of_nil in Hin|].
  cbn [map fst] in Hnd. apply NoDup_cons in Hnd as [Hk1 Hnd].
  cbn [hc_erase] in Hin. cbn [map fst]. destruct (decide (k1 = it)) as [->|Hne].
  - split; [apply elem_of_cons; now right|]. intros _ ->. contradiction.
  - cbn [map fst] in Hin. apply elem_of_cons in Hin as [->|Hin].
    + split; [apply elem_of_cons; now left|]. intros _. exact Hne.
    + destruct (IH Hnd Hin) as [H1 H2]. split; [apply elem_of_cons; now right|].
      intros Hit. apply H2. apply elem_of_cons in Hit as [->|Hit]; [congruence|exact Hit].
Qed.

(** A run of evictions that leaves the entry of the source in the cache
    leaves the source alone. *)
Lemma removals_finds env its : forall s src,
  state_consistent s -> finds K p s -> source_heap s !! p = Some src ->
  Source.from_hash_cache src ∈
    map fst (s_hash_cache (fold_left (fun s it => RemoveFromHashCache env it s) its s)) ->
  finds K p (fold_left (fun s it => RemoveFromHashCache env it s) its s).
Proof.
  induction its as [|it its IH]; intros s src Hs Hf Hsrc Hin; [exact Hf|].
  cbn [fold_left] in *.
  assert (Source.from_hash_cache src ∈ map fst (s_hash_cache (RemoveFromHashCache env it s)))
    as Hin1.
  { clear IH Hf Hsrc. revert Hin.
    generalize (RemoveFromHashCache env it s)
               (RemoveFromHashCache_consistent env it s Hs).
    induction its as [|it' its IH]; intros a Ha Hin; [exact Hin|].
    cbn [fold_left] in Hin.
    apply (IH _ (RemoveFromHashCache_consistent env it' a Ha)) in Hin.
    rewrite RemoveFromHashCache_cache in Hin by exact Ha.
    apply hc_erase_keys in Hin; [tauto|apply Ha]. }
  destruct (hc_find it (s_hash_cache s)) as [e|] eqn:He.
  - assert (Source.from_hash_cache src <> it) as Hne.
    { rewrite RemoveFromHashCache_cache in Hin1 by exact Hs.
      apply hc_erase_keys in Hin1 as [_ H]; [|apply Hs]. apply H.
      now apply hc_find_Some_keys in He. }
    destruct (RemoveFromHashCache_finds env it s src Hs Hf Hsrc Hne) as [Hf1 Hsrc1].
    exact (IH _ src (RemoveFromHashCache_consistent env it s Hs) Hf1 Hsrc1 Hin).
  - assert (RemoveFromHashCache env it s = s) as E
      by (unfold RemoveFromHashCache; now rewrite He).
    rewrite E in *. exact (IH s src Hs Hf Hsrc Hin).
Qed.

End KeepsSource.

(** [Compact] is a run of evictions. *)
Lemma purge_loop_removals env purge_list s :
  exists its, purge_loop env purge_list s =
              fold_left (fun s it => RemoveFromHashCache env it s) its s.
Proof.
  revert s. induction purge_list as [|[it f] rest IH]; intros s; cbn [purge_loop].
  - exists []. now destruct (over_budget s).
  - destruct (over_budget s); [|now exists []].
    destruct (IH (RemoveFromHashCache env it s)) as [its E]. exists (it :: its). exact E.
Qed.

Lemma compact_step_state env m st it :
  fst (fst (compact_step env m st it)) = fst (fst st) \/
  fst (fst (compact_step env m st it)) = RemoveFromHashCache env it (fst (fst st)).
Proof.
  destruct st as [[s b] pl]. unfold compact_step. cbn [fst].
  destruct (hc_find it (s_hash_cache s)) as [e|]; [|now left].
  destruct (_ && _); [now right|].
  destruct b; [destruct (over_budget s)|]; now left.
Qed.

Lemma compact_loop_removals env m l st :
  exists its, fst (fst (fold_left (compact_step env m) l st)) =
              fold_left (fun s it => RemoveFromHashCache env it s) its (fst (fst st)).
Proof.
  revert st. induction l as [|it l IH]; intros st; [now exists []|].
  cbn [fold_left]. destruct (IH (compact_step env m st it)) as [its E].
  destruct (compact_step_state env m st it) as [H|H]; rewrite H in E.
  - now exists its.
  - now exists (it :: its).
Qed.

Lemma Compact_removals env s :
  exists its, Compact env s = fold_left (fun s it => RemoveFromHashCache env it s) its s.
Proof.
  unfold Compact. cbv zeta.
  destruct (compact_loop_removals env
              (if MAX_HASH_CACHE_AGE <? GetFrameNumber env
               then GetFrameNumber env - MAX_HASH_CACHE_AGE else 0)
              (map fst (s_hash_cache s)) (s, over_budget s, [])) as [its E].
  destruct (fold_left _ _ _) as [[s1 b] pl]. cbn [fst] in E.
  destruct b; [|now exists its].
  destruct (purge_loop_removals env (purge_sort pl) s1) as [its' E'].
  exists (its ++ its'). now rewrite fold_left_app, <- E.
Qed.

Lemma finds_live K p s :
  finds K p s -> exists src, source_heap s !! p = Some src /\ Source.key src = K.
Proof.
  intros [_ Hf]. rewrite find_source_has_key in Hf. apply find_true in Hf.
  unfold has_key in Hf. destruct (source_heap s !! p) as [src|]; [|discriminate].
  exists src. split; [reflexivity|]. now apply bool_decide_eq_true_1 in Hf.
Qed.

Lemma undisturbed_finds K p s s2 :
  undisturbed p s s2 -> state_consistent s -> finds K p s ->
  state_consistent s2 /\ finds K p s2.
Proof.
  induction 1 as [s | env key rect flags s s1 q s2 Hl _ IH | env s s2 Hkept _ IH];
    intros Hs Hf.
  - now split.
  - apply IH.
    + exact (LookupSource_consistent env key rect flags s s1 q Hl Hs).
    + exact (LookupSource_preserves K env key rect flags s s1 q p Hf Hl).
  - apply IH; [now apply Compact_consistent|].
    destruct (finds_live K p s Hf) as (src & Hsrc & _).
    specialize (Hkept src Hsrc). destruct Hkept as [e He].
    destruct (Compact_removals env s) as [its E]. rewrite E in *.
    apply (removals_finds K p env its s src Hs Hf Hsrc).
    now apply hc_find_Some_keys in He.
Qed.

(** C4 (amended): once [LookupSource] has returned the source [p] for the
    key [K] in a reachable state, then after any run of further lookups
    and of compactions that leave the hash cache entry of [p] in the cache
    (and nothing else), a lookup of [K] returns the very pointer [p], which
    is a live source with the key [K], and the hash cache keeps its number
    of entries. *)
Theorem LookupSource_again_returns_same_source
    env1 env2 K rect1 flags1 rect2 flags2 s s1 s2 p :
  reachable s ->
  (SourceKey.page K < NUM_VRAM_PAGES)%nat ->
  LookupSource env1 K rect1 flags1 s = Done (s1, p) ->
  undisturbed p s1 s2 ->
  exists s3, LookupSource env2 K rect2 flags2 s2 = Done (s3, p) /\
             length (s_hash_cache s3) = length (s_hash_cache s2) /\
             exists src, source_heap s3 !! p = Some src /\ Source.key src = K.
Proof.
  intros Hr HK Hfirst Hrun. apply reachable_consistent in Hr.
  pose proof (LookupSource_establishes K HK env1 rect1 flags1 s s1 p (proj1 Hr) Hfirst) as Hf.
  pose proof (LookupSource_consistent env1 K rect1 flags1 s s1 p Hfirst Hr) as Hs1.
  destruct (undisturbed_finds K p s1 s2 Hrun Hs1 Hf) as [Hs2 Hf2].
  destruct (LookupSource_hit K env2 K rect2 flags2 s2 p (proj2 Hf2)) as (s3 & Hl & _ & Hlen & Hk).
  exists s3. split; [exact Hl|]. split; [exact Hlen|].
  destruct (finds_live K p s2 Hf2) as (src & Hsrc & Hkey).
  specialize (Hk p). unfold has_key in Hk. rewrite Hsrc, Hkey in Hk.
  rewrite bool_decide_eq_true_2 in Hk by reflexivity.
  destruct (source_heap s3 !! p) as [src3|]; [|discriminate].
  exists src3. split; [reflexivity|]. now apply bool_decide_eq_true_1 in Hk.
Qed.

(** ** Instances on reachable states *)

Lemma Compact_evicts_unreferenced_by_age_witness :
  over_budget stale_entry = false /\
  length (s_hash_cache stale_entry) = 2%nat /\
  s_hash_cache (age_pass (Scenario.env 5 700 false) stale_entry) =
    List.filter (fun x => negb (aged_out (Scenario.env 5 700 false) (snd x)))
                (s_hash_cache stale_entry) /\
  Compact (Scenario.env 5 700 false) stale_entry = age_pass (Scenario.env 5 700 false) stale_entry /\
  length (s_hash_cache (Compact (Scenario.env 5 700 false) stale_entry)) = 1%nat /\
  forall k e, hc_find k (s_hash_cache stale_entry) = Some e ->
              HashCacheEntry.ref_count e <> 0 ->
              hc_find k (s_hash_cache (Compact (Scenario.env 5 700 false) stale_entry)) = Some e.
Proof.
  split; [vm_compute; reflexivity|]. split; [vm_compute; reflexivity|].
  destruct (Compact_evicts_unreferenced_by_age (Scenario.env 5 700 false) stale_entry)
    as [Hage Hwithin].
  - apply reachable_AddWrittenRectangle.
    apply (reachable_LookupSource (Scenario.env 5 1 false) Scenario.key1 (mkRect 64 0 128 256) 0
             first_lookup stale_lookup 2%positive); [|vm_compute; reflexivity].
    apply (reachable_LookupSource (Scenario.env 0 1 false) Scenario.key0 (mkRect 0 0 64 256) 0
             Scenario.not_tracking first_lookup 1%positive); [|vm_compute; reflexivity].
    apply reachable_initial.
  - destruct Hwithin as [Hsame Hkept]; [vm_compute; reflexivity|].
    split; [exact Hage|]. split; [exact Hsame|].
    split; [vm_compute; reflexivity|exact Hkept].
Defined.

(** C4 (counterexample): page 0 is sampled at frame 1 and the lookup
    returns the source 1; pages 1 to 15 are sampled at frame 2, with no
    write, copy, draw or clear in between.  The sixteen textures fill the
    budget, [Compact] evicts the oldest entry, the one of page 0, and
    destroys its source; the next lookup of page 0 creates the source 17
    and a sixteenth entry. *)
Lemma LookupSource_after_Compact_creates_new_source :
  omap snd crowded_first = Done 1%positive /\
  omap (fun s =>
          let s' := Compact (crowded_env 2) s in
          (length (s_hash_cache s), source_heap s' !! 1%positive, length (s_hash_cache s'),
           omap (fun '(s3, q) => (q, length (s_hash_cache s3)))
                (LookupSource (crowded_env 2) (page_key 0) (mkRect 0 0 64 256) 0 s')))
       crowded
    = Done (16%nat, None, 15%nat, Done (17%positive, 16%nat)).
Proof. split; vm_compute; reflexivity. Qed.

Lemma LookupSource_again_witness :
  exists s3,
    LookupSource (Scenario.env 0 700 false) Scenario.key0 (mkRect 0 0 16 16) 0
                 (Compact (Scenario.env 0 700 false) second_lookup)
      = Done (s3, 1%positive) /\
    length (s_hash_cache s3) =
      length (s_hash_cache (Compact (Scenario.env 0 700 false) second_lookup)) /\
    exists src, source_heap s3 !! 1%positive = Some src /\ Source.key src = Scenario.key0.
Proof.
  apply (LookupSource_again_returns_same_source
           (Scenario.env 0 1 false) (Scenario.env 0 700 false) Scenario.key0
           (mkRect 0 0 64 256) 0 (mkRect 0 0 16 16) 0
           Scenario.not_tracking first_lookup
           (Compact (Scenario.env 0 700 false) second_lookup) 1%positive).
  - apply reachable_initial.
  - vm_compute. lia.
  - vm_compute. reflexivity.
  - apply (undisturbed_LookupSource 1%positive (Scenario.env 0 1 false) Scenario.key1
             (mkRect 64 0 128 256) 0 first_lookup second_lookup 2%positive).
    + vm_compute. reflexivity.
    + apply (undisturbed_Compact 1%positive (Scenario.env 0 700 false) second_lookup).
      * intros src Hsrc. vm_compute in Hsrc. injection Hsrc as <-. vm_compute. eauto.
      * apply undisturbed_refl.
Defined.

(** ** A full invalidation *)

Lemma RemoveFromHashCache_draw_states env it s :
  draw_states (RemoveFromHashCache env it s) = draw_states s.
Proof.
  unfold RemoveFromHashCache. destruct (hc_find it (s_hash_cache s)) as [e|]; [|reflexivity].
  cbv zeta. change (draw_states (set_hash_cache ?v ?x)) with (draw_states x).
  change (draw_states (set_hash_cache_memory_usage ?v ?x)) with (draw_states x).
  apply (fold_left_preserves draw_states). intros. apply DestroySource_draw_states.
Qed.

Lemma ClearHashCache_draw_states env s : draw_states (ClearHashCache env s) = draw_states s.
Proof.
  unfold ClearHashCache. apply (fold_left_preserves draw_states). intros.
  apply RemoveFromHashCache_draw_states.
Qed.

Lemma RemoveFromHashCache_head env it s l :
  map fst (s_hash_cache s) = it :: l ->
  map fst (s_hash_cache (RemoveFromHashCache env it s)) = l.
Proof.
  intros Hk. unfold RemoveFromHashCache.
  destruct (s_hash_cache s) as [|[k e] c] eqn:Ec; [discriminate|].
  cbn [map fst] in Hk. injection Hk as -> Hl.
  cbn [hc_find]. destruct (decide (it = it)) as [_|]; [|congruence].
  cbv zeta. set (s1 := fold_left _ (HashCacheEntry.sources e) s).
  assert (usage_view s1 = usage_view s) as Hv
    by (apply (fold_left_preserves usage_view); intros; apply DestroySource_tracked_view).
  cbn [s_hash_cache set_hash_cache set_hash_cache_memory_usage].
  unfold usage_view in Hv. injection Hv as Hv _. rewrite Ec in Hv.
  destruct (s_hash_cache s1) as [|[k1 e1] c1]; [discriminate|].
  cbn [map fst snd] in Hv. injection Hv as -> _ Hc.
  cbn [hc_erase]. destruct (decide (it = it)) as [_|]; [|congruence].
  apply (f_equal (map fst)) in Hc. rewrite !map_map in Hc. cbn [fst] in Hc.
  change (map fst c1 = map fst c) in Hc. now rewrite Hc.
Qed.

Lemma ClearHashCache_empty env s : s_hash_cache (ClearHashCache env s) = [].
Proof.
  unfold ClearHashCache.
  assert (forall l s, map fst (s_hash_cache s) = l ->
            s_hash_cache (fold_left (fun s it => RemoveFromHashCache env it s) l s) = []) as H.
  { induction l as [|it l IH]; intros a Ha.
    - cbn. now destruct (s_hash_cache a).
    - cbn [fold_left]. apply IH. now apply RemoveFromHashCache_head. }
  now apply H.
Qed.

Lemma InvalidatePageSources_all_draw_states env pn s :
  draw_states (InvalidatePageSources_all env pn s) = draw_states s.
Proof.
  unfold InvalidatePageSources_all. apply (fold_left_preserves draw_states). intros.
  apply DestroySource_draw_states.
Qed.

(** The page loop of [Invalidate] leaves the pages it visits without draw
    rectangles. *)
Lemma Invalidate_pages_draws env l s pn :
  let s' :=
    fold_left
      (fun s i =>
         let s := InvalidatePageSources_all env i s in
         let s := update_page i
                    (PageEntry.set_draw 0 GSVector4i.zero
                       (replicate NUM_PAGE_DRAW_RECTS GSVector4i.zero)) s in
         fold_left (fun s it => RemoveVRAMWrite env it s) (rev (PageEntry.writes (page_at s i))) s)
      l s in
  PageEntry.num_draw_rects (page_at s pn) = 0%nat \/ In pn l ->
  PageEntry.num_draw_rects (page_at s' pn) = 0%nat.
Proof.
  cbv zeta. revert s. induction l as [|i l IH]; intros s H.
  - cbn. destruct H as [H|[]]. exact H.
  - cbn [fold_left]. apply IH.
    destruct (decide (pn = i)) as [->|Hne]; [left|destruct H as [H|[H|H]]; [left|congruence|now right]].
    + set (s1 := InvalidatePageSources_all env i s).
      set (s2 := update_page i _ s1).
      assert (draw_state (page_at (fold_left (fun s it => RemoveVRAMWrite env it s)
                                             (rev (PageEntry.writes (page_at s2 i))) s2) i) =
              draw_state (page_at s2 i)) as E.
      { apply draw_states_page_at. apply (fold_left_preserves draw_states).
        intros. apply RemoveVRAMWrite_draw_states. }
      apply draw_state_inv in E as (E & _ & _). rewrite E. unfold s2. rewrite page_at_update_page.
      destruct (decide _) as [_|Hn]; [reflexivity|].
      unfold page_at. rewrite list_lookup_total_alt.
      rewrite lookup_ge_None_2 by (apply not_and_l in Hn as [Hn|Hn]; [congruence|lia]).
      reflexivity.
    + set (s1 := InvalidatePageSources_all env i s).
      set (s2 := update_page i _ s1).
      assert (draw_state (page_at (fold_left (fun s it => RemoveVRAMWrite env it s)
                                             (rev (PageEntry.writes (page_at s2 i))) s2) pn) =
              draw_state (page_at s2 pn)) as E.
      { apply draw_states_page_at. apply (fold_left_preserves draw_states).
        intros. apply RemoveVRAMWrite_draw_states. }
      apply draw_state_inv in E as (E & _ & _). rewrite E. unfold s2. rewrite page_at_update_page.
      destruct (decide _) as [[Hn _]|_]; [congruence|].
      assert (draw_state (page_at s1 pn) = draw_state (page_at s pn)) as E1
        by (apply draw_states_page_at, InvalidatePageSources_all_draw_states).
      apply draw_state_inv in E1 as (E1 & _ & _). now rewrite E1.
Qed.

Lemma Invalidate_draws env s pn :
  (pn < NUM_VRAM_PAGES)%nat ->
  PageEntry.num_draw_rects (page_at (Invalidate env s) pn) = 0%nat.
Proof.
  intros Hpn. unfold Invalidate. cbv zeta.
  match goal with
  | |- context [ClearHashCache env ?x] => set (s1 := x)
  end.
  assert (draw_state (page_at (ClearHashCache env s1) pn) = draw_state (page_at s1 pn)) as E
    by (apply draw_states_page_at, ClearHashCache_draw_states).
  apply draw_state_inv in E as (E & _ & _). rewrite E. subst s1.
  apply (Invalidate_pages_draws env (seq 0 NUM_VRAM_PAGES) s pn).
  right. apply in_seq. lia.
Qed.

(** X21: a full invalidation of a reachable state empties the hash cache,
    brings the memory counter back to zero, and leaves no page with a drawn
    area. *)
Theorem Invalidate_clears_cache_and_draws env s :
  reachable s ->
  s_hash_cache (Invalidate env s) = [] /\
  s_hash_cache_memory_usage (Invalidate env s) = 0 /\
  forall pn rect, (pn < NUM_VRAM_PAGES)%nat -> IsPageDrawn (Invalidate env s) pn rect = false.
Proof.
  intros H. apply reachable_consistent in H.
  assert (s_hash_cache (Invalidate env s) = []) as Hc
    by (unfold Invalidate; cbv zeta; apply ClearHashCache_empty).
  split; [exact Hc|]. split.
  - pose proof (Invalidate_consistent env s H) as (_ & _ & Ha).
    unfold accounting_consistent in Ha. rewrite Ha, Hc. reflexivity.
  - intros pn rect Hpn. unfold IsPageDrawn. cbv zeta.
    rewrite (Invalidate_draws env s pn Hpn). reflexivity.
Qed.

(** ** Invariants of reachable states *)

(** X20: in every reachable state the counter [s_hash_cache_memory_usage]
    is the sum of the VRAM usage of the cached textures, as a 64-bit
    value. *)
Theorem reachable_accounting_consistent s : reachable s -> accounting_consistent s.
Proof. intros H. apply reachable_consistent in H. apply H. Qed.

(** X22: in every reachable state the hash cache holds no key twice, no
    entry lists a source twice, and every source an entry lists is live
    and names that entry as the one it came from. *)
Theorem reachable_cache_wf s : reachable s -> cache_wf s.
Proof. intros H. apply reachable_consistent in H. apply H. Qed.

Lemma reachable_accounting_consistent_witness : accounting_consistent stale_entry.
Proof.
  apply (reachable_accounting_consistent stale_entry).
  apply reachable_AddWrittenRectangle.
  apply (reachable_LookupSource (Scenario.env 5 1 false) Scenario.key1 (mkRect 64 0 128 256) 0
           first_lookup stale_lookup 2%positive); [|vm_compute; reflexivity].
  apply (reachable_LookupSource (Scenario.env 0 1 false) Scenario.key0 (mkRect 0 0 64 256) 0
           Scenario.not_tracking first_lookup 1%positive); [|vm_compute; reflexivity].
  apply reachable_initial.
Defined.

Lemma reachable_cache_wf_witness : cache_wf second_lookup.
Proof.
  apply (reachable_cache_wf second_lookup).
  apply (reachable_LookupSource (Scenario.env 0 1 false) Scenario.key1 (mkRect 64 0 128 256) 0
           first_lookup second_lookup 2%positive); [|vm_compute; reflexivity].
  apply (reachable_LookupSource (Scenario.env 0 1 false) Scenario.key0 (mkRect 0 0 64 256) 0
           Scenario.not_tracking first_lookup 1%positive); [|vm_compute; reflexivity].
  apply reachable_initial.
Defined.

Lemma Invalidate_clears_cache_and_draws_witness :
  s_hash_cache (Invalidate (Scenario.env 5 2 false)
                  (AddDrawnRectangle (Scenario.env 5 1 false) Scenario.fifth Scenario.fifth
                                     stale_entry)) = [] /\
  s_hash_cache_memory_usage
    (Invalidate (Scenario.env 5 2 false)
       (AddDrawnRectangle (Scenario.env 5 1 false) Scenario.fifth Scenario.fifth
                          stale_entry)) = 0 /\
  forall pn rect, (pn < NUM_VRAM_PAGES)%nat ->
    IsPageDrawn (Invalidate (Scenario.env 5 2 false)
                   (AddDrawnRectangle (Scenario.env 5 1 false) Scenario.fifth Scenario.fifth
                                      stale_entry)) pn rect = false.
Proof.
  apply (Invalidate_clears_cache_and_draws (Scenario.env 5 2 false)
           (AddDrawnRectangle (Scenario.env 5 1 false) Scenario.fifth Scenario.fifth
                              stale_entry)).
  apply reachable_AddDrawnRectangle. apply reachable_AddWrittenRectangle.
  apply (reachable_LookupSource (Scenario.env 5 1 false) Scenario.key1 (mkRect 64 0 128 256) 0
           first_lookup stale_lookup 2%positive); [|vm_compute; reflexivity].
  apply (reachable_LookupSource (Scenario.env 0 1 false) Scenario.key0 (mkRect 0 0 64 256) 0
           Scenario.not_tracking first_lookup 1%positive); [|vm_compute; reflexivity].
  apply reachable_initial.
Defined.
